(** * RL-Scheduling: the Spark scheduling environment (env.py, spark_env/stage.py, utils.py)

    A shallow embedding of the objects of the simulated cluster: tasks,
    stages, jobs and executors live in a store and refer to each other by
    index, because the Python objects are shared and mutated in place
    (an executor points to its task, stage and job; the job's frontier set
    points back to stages).  Python exceptions are values of [error];
    a function that raises returns [Raise e] and the store it was mutating
    is dropped, which is what aborting the episode means. *)

From Stdlib Require Import ZArith QArith Qminmax List Bool Lia Sorted.
From stdpp Require Import base option list.

Local Close Scope Q_scope.
Local Open Scope nat_scope.

(** ** Exceptions and the error monad *)

Inductive error : Set :=
| AssertionError   (* a failed [assert] *)
| AttributeError   (* attribute lookup on an object that lacks it *)
| KeyError         (* dict subscript with an absent key *)
| TypeError        (* operator applied to unsupported operand types *)
| ValueError       (* numpy's randint on an empty range *)
| IndexError       (* list subscript out of range *)
| SystemExit       (* utils.OrderedSet prints a message and calls exit(1) *)
| StopIteration    (* next() on an exhausted iterator *)
| DanglingRef.     (* store index without an object: never in a well-formed store *)

Inductive result (A : Type) : Type :=
| Ok (a : A)
| Raise (e : error).
Arguments Ok {A} a.
Arguments Raise {A} e.

Definition bind {A B : Type} (r : result A) (k : A -> result B) : result B :=
  match r with
  | Ok a => k a
  | Raise e => Raise e
  end.

Declare Scope py_scope.
Delimit Scope py_scope with py.
Notation "'let*' x ':=' r 'in' k" := (bind r (fun x => k))
  (at level 10, x pattern, r at level 100, k at level 200) : py_scope.
Local Open Scope py_scope.

Definition assert (b : bool) : result unit :=
  if b then Ok tt else Raise AssertionError.

Definition from_ref {A : Type} (o : option A) : result A :=
  match o with Some a => Ok a | None => Raise DanglingRef end.

Definition subscript {A : Type} (o : option A) : result A :=
  match o with Some a => Ok a | None => Raise KeyError end.

Definition is_ok {A : Type} (r : result A) : bool :=
  match r with Ok _ => true | Raise _ => false end.

(** ** Hashable Python values used as set members and dict keys

    Objects of the classes Stage, Job and Executor define neither [__eq__]
    nor [__hash__]: they are equal only to themselves.  An int is never
    equal to such an object. *)

Inductive pyobj : Set :=
| PNone
| PInt (z : Z)
| PStage (s : nat)
| PJob (j : nat)
| PExecutor (e : nat).

#[global] Instance pyobj_eq_dec : EqDecision pyobj.
Proof. solve_decision. Defined.

(** ** utils.OrderedSet: the keys of an OrderedDict, in insertion order *)

Module OrderedSet.
Section Ops.
Context {A : Type} `{EqDecision A}.

Definition contains (item : A) (s : list A) : bool := bool_decide (item ∈ s).

(* self.set[item] = None: an existing key keeps its position *)
Definition add (item : A) (s : list A) : list A :=
  if contains item s then s else s ++ [item].

Fixpoint del (item : A) (s : list A) : list A :=
  match s with
  | [] => []
  | x :: s' => if decide (x = item) then s' else x :: del item s'
  end.

Definition remove (item : A) (s : list A) : result (list A) :=
  if Nat.eqb (length s) 0 then Raise SystemExit
  else if negb (contains item s) then Raise SystemExit
  else Ok (del item s).

Definition pop (s : list A) : result (A * list A) :=
  match s with
  | [] => Raise SystemExit
  | x :: s' => Ok (x, s')
  end.
End Ops.
End OrderedSet.

(** ** Python dicts (and OrderedDict): association lists in insertion order *)

Module Dict.
Section Ops.
Context {K V : Type} `{EqDecision K}.

Fixpoint get (k : K) (d : list (K * V)) : option V :=
  match d with
  | [] => None
  | (k', v) :: d' => if decide (k' = k) then Some v else get k d'
  end.

Definition mem (k : K) (d : list (K * V)) : bool :=
  match get k d with Some _ => true | None => false end.

(* d[k] = v: an existing key keeps its position, a new one goes last *)
Fixpoint set (k : K) (v : V) (d : list (K * V)) : list (K * V) :=
  match d with
  | [] => [(k, v)]
  | (k', v') :: d' => if decide (k' = k) then (k, v) :: d' else (k', v') :: set k v d'
  end.

Fixpoint del (k : K) (d : list (K * V)) : list (K * V) :=
  match d with
  | [] => []
  | (k', v') :: d' => if decide (k' = k) then d' else (k', v') :: del k d'
  end.

Definition keys (d : list (K * V)) : list K := map fst d.
End Ops.
End Dict.

(** ** numpy's RandomState

    A generator is the sequence of raw words its seed determines, with a
    cursor.  [randint low high] consumes one word and maps it into
    [low, high); numpy raises ValueError when the range is empty. *)

Record RandomState : Type := {
  rs_words : nat -> Z;
  rs_pos : nat
}.

Definition randint (low high : Z) (g : RandomState) : result (Z * RandomState) :=
  if (low <? high)%Z
  then Ok ((low + rs_words g (rs_pos g) mod (high - low))%Z,
           {| rs_words := rs_words g; rs_pos := S (rs_pos g) |})
  else Raise ValueError.

(** ** Configuration (module params, not part of the sources: taken as a value) *)

Record Args : Type := {
  executor_data_point : list Z;
  exec_cap : Z;
  warmup_delay : Q
}.

(** ** The objects

    [np.nan] marks an unset time: [None].  References are store indices. *)

Record TaskDuration : Type := {
  first_wave : list (Z * list Q);
  rest_wave : list (Z * list Q);
  fresh_durations : list (Z * list Q)
}.

Record Task : Type := {
  t_idx : nat;
  t_duration : Q;
  t_start_time : option Q;
  t_finish_time : option Q;
  t_executor : option nat;
  t_stage : option nat
}.

Record Stage : Type := {
  s_idx : nat;
  s_tasks : list nat;
  s_task_duration : TaskDuration;
  s_num_tasks : nat;
  s_num_finished_tasks : nat;
  s_next_task_idx : nat;
  s_no_more_task : bool;
  s_all_tasks_done : bool;
  s_executors : list nat;
  s_parent_stages : list nat;
  s_child_stages : list nat;
  s_job : option nat
}.

Record Job : Type := {
  j_stages : list nat;
  j_adj_mat : list (list Z);
  j_num_stages : nat;
  j_num_finished_stages : nat;
  j_executors : list nat;
  j_frontier_stages : list pyobj;
  j_executor2interval : list (Z * (Z * Z))
}.

Record Executor : Type := {
  e_idx : nat;
  e_task : option nat;
  e_stage : option nat;
  e_job : option nat
}.

(** The store.  [w_time] is the [cur_time] of the one TimeHorizon object
    every task and stage was built with; [w_np_random] is the isolated
    generator handed to every Stage constructor; [w_global_random] is the
    state behind numpy's module-level [np.random] functions. *)

Record World : Type := {
  w_tasks : list Task;
  w_stages : list Stage;
  w_jobs : list Job;
  w_executors : list Executor;
  w_time : Q;
  w_np_random : RandomState;
  w_global_random : RandomState
}.

Definition get_task (w : World) (t : nat) : result Task := from_ref (w_tasks w !! t).
Definition get_stage (w : World) (s : nat) : result Stage := from_ref (w_stages w !! s).
Definition get_job (w : World) (j : nat) : result Job := from_ref (w_jobs w !! j).
Definition get_executor (w : World) (e : nat) : result Executor := from_ref (w_executors w !! e).

Definition put_task (t : nat) (x : Task) (w : World) : World :=
  {| w_tasks := <[t := x]> (w_tasks w); w_stages := w_stages w; w_jobs := w_jobs w;
     w_executors := w_executors w; w_time := w_time w;
     w_np_random := w_np_random w; w_global_random := w_global_random w |}.

Definition put_stage (s : nat) (x : Stage) (w : World) : World :=
  {| w_tasks := w_tasks w; w_stages := <[s := x]> (w_stages w); w_jobs := w_jobs w;
     w_executors := w_executors w; w_time := w_time w;
     w_np_random := w_np_random w; w_global_random := w_global_random w |}.

Definition put_job (j : nat) (x : Job) (w : World) : World :=
  {| w_tasks := w_tasks w; w_stages := w_stages w; w_jobs := <[j := x]> (w_jobs w);
     w_executors := w_executors w; w_time := w_time w;
     w_np_random := w_np_random w; w_global_random := w_global_random w |}.

Definition put_executor (e : nat) (x : Executor) (w : World) : World :=
  {| w_tasks := w_tasks w; w_stages := w_stages w; w_jobs := w_jobs w;
     w_executors := <[e := x]> (w_executors w); w_time := w_time w;
     w_np_random := w_np_random w; w_global_random := w_global_random w |}.

Definition put_np_random (g : RandomState) (w : World) : World :=
  {| w_tasks := w_tasks w; w_stages := w_stages w; w_jobs := w_jobs w;
     w_executors := w_executors w; w_time := w_time w;
     w_np_random := g; w_global_random := w_global_random w |}.

Definition put_global_random (g : RandomState) (w : World) : World :=
  {| w_tasks := w_tasks w; w_stages := w_stages w; w_jobs := w_jobs w;
     w_executors := w_executors w; w_time := w_time w;
     w_np_random := w_np_random w; w_global_random := g |}.

(* field setters of the records that the operations below assign *)
Definition stage_with_executors (x : Stage) (es : list nat) : Stage :=
  {| s_idx := s_idx x; s_tasks := s_tasks x; s_task_duration := s_task_duration x;
     s_num_tasks := s_num_tasks x; s_num_finished_tasks := s_num_finished_tasks x;
     s_next_task_idx := s_next_task_idx x; s_no_more_task := s_no_more_task x;
     s_all_tasks_done := s_all_tasks_done x; s_executors := es;
     s_parent_stages := s_parent_stages x; s_child_stages := s_child_stages x;
     s_job := s_job x |}.

Definition stage_with_progress (x : Stage) (next : nat) (no_more : bool) : Stage :=
  {| s_idx := s_idx x; s_tasks := s_tasks x; s_task_duration := s_task_duration x;
     s_num_tasks := s_num_tasks x; s_num_finished_tasks := s_num_finished_tasks x;
     s_next_task_idx := next; s_no_more_task := no_more;
     s_all_tasks_done := s_all_tasks_done x; s_executors := s_executors x;
     s_parent_stages := s_parent_stages x; s_child_stages := s_child_stages x;
     s_job := s_job x |}.

Definition stage_with_idx (x : Stage) (i : nat) : Stage :=
  {| s_idx := i; s_tasks := s_tasks x; s_task_duration := s_task_duration x;
     s_num_tasks := s_num_tasks x; s_num_finished_tasks := s_num_finished_tasks x;
     s_next_task_idx := s_next_task_idx x; s_no_more_task := s_no_more_task x;
     s_all_tasks_done := s_all_tasks_done x; s_executors := s_executors x;
     s_parent_stages := s_parent_stages x; s_child_stages := s_child_stages x;
     s_job := s_job x |}.

Definition stage_with_parents (x : Stage) (ps : list nat) : Stage :=
  {| s_idx := s_idx x; s_tasks := s_tasks x; s_task_duration := s_task_duration x;
     s_num_tasks := s_num_tasks x; s_num_finished_tasks := s_num_finished_tasks x;
     s_next_task_idx := s_next_task_idx x; s_no_more_task := s_no_more_task x;
     s_all_tasks_done := s_all_tasks_done x; s_executors := s_executors x;
     s_parent_stages := ps; s_child_stages := s_child_stages x;
     s_job := s_job x |}.

Definition stage_with_children (x : Stage) (cs : list nat) : Stage :=
  {| s_idx := s_idx x; s_tasks := s_tasks x; s_task_duration := s_task_duration x;
     s_num_tasks := s_num_tasks x; s_num_finished_tasks := s_num_finished_tasks x;
     s_next_task_idx := s_next_task_idx x; s_no_more_task := s_no_more_task x;
     s_all_tasks_done := s_all_tasks_done x; s_executors := s_executors x;
     s_parent_stages := s_parent_stages x; s_child_stages := cs;
     s_job := s_job x |}.

Definition stage_with_job (x : Stage) (j : option nat) : Stage :=
  {| s_idx := s_idx x; s_tasks := s_tasks x; s_task_duration := s_task_duration x;
     s_num_tasks := s_num_tasks x; s_num_finished_tasks := s_num_finished_tasks x;
     s_next_task_idx := s_next_task_idx x; s_no_more_task := s_no_more_task x;
     s_all_tasks_done := s_all_tasks_done x; s_executors := s_executors x;
     s_parent_stages := s_parent_stages x; s_child_stages := s_child_stages x;
     s_job := j |}.

Definition job_with_executors (x : Job) (es : list nat) : Job :=
  {| j_stages := j_stages x; j_adj_mat := j_adj_mat x; j_num_stages := j_num_stages x;
     j_num_finished_stages := j_num_finished_stages x; j_executors := es;
     j_frontier_stages := j_frontier_stages x;
     j_executor2interval := j_executor2interval x |}.

Definition job_with_frontier (x : Job) (fs : list pyobj) : Job :=
  {| j_stages := j_stages x; j_adj_mat := j_adj_mat x; j_num_stages := j_num_stages x;
     j_num_finished_stages := j_num_finished_stages x; j_executors := j_executors x;
     j_frontier_stages := fs;
     j_executor2interval := j_executor2interval x |}.

(** ** class Executor (env.py 401-427) *)

Module Executor.

(* if (self.stage is not None) and (self in self.stage.executors):
       self.stage.executors.remove(self)
   self.stage, self.task = [None] * 2 *)
Definition detach_stage (e : nat) (w : World) : result World :=
  let* x := get_executor w e in
  let* w1 :=
    match e_stage x with
    | Some s =>
        let* st := get_stage w s in
        if OrderedSet.contains e (s_executors st)
        then let* es := OrderedSet.remove e (s_executors st) in
             Ok (put_stage s (stage_with_executors st es) w)
        else Ok w
    | None => Ok w
    end in
  Ok (put_executor e
        {| e_idx := e_idx x; e_task := None; e_stage := None; e_job := e_job x |} w1).

(* if (self.job is not None) and (self in self.job.executors):
       self.job.executors.remove(self)
   self.job = None
   self.detach_stage() *)
Definition detach_job (e : nat) (w : World) : result World :=
  let* x := get_executor w e in
  let* w1 :=
    match e_job x with
    | Some j =>
        let* jb := get_job w j in
        if OrderedSet.contains e (j_executors jb)
        then let* es := OrderedSet.remove e (j_executors jb) in
             Ok (put_job j (job_with_executors jb es) w)
        else Ok w
    | None => Ok w
    end in
  detach_stage e
    (put_executor e
       {| e_idx := e_idx x; e_task := e_task x; e_stage := e_stage x; e_job := None |} w1).

Definition reset (e : nat) (w : World) : result World :=
  let* x := get_executor w e in
  Ok (put_executor e
        {| e_idx := e_idx x; e_task := None; e_stage := None; e_job := None |} w).

End Executor.

(** ** Comparing a TimeHorizon object with a float

    [Task.get_duration] evaluates [self.time_horizon < self.start_time].
    Class TimeHorizon (env.py 666-681) defines no [__lt__], and float's
    reflected [__gt__] answers NotImplemented for an operand that is not
    a number, so Python raises TypeError. *)

Inductive operand : Type :=
| OFloat (q : Q)
| OTimeHorizon (cur_time : Q).

Definition Qlt_bool (x y : Q) : bool := negb (Qle_bool y x).

Definition py_lt (a b : operand) : result bool :=
  match a, b with
  | OFloat x, OFloat y => Ok (Qlt_bool x y)
  | _, _ => Raise TypeError
  end.

(** ** class Task (env.py 13-59) *)

Module Task.

(* Task.__init__: the stage is assigned when the stage is initialised *)
Definition init (idx : nat) (duration : Q) : Task :=
  {| t_idx := idx; t_duration := duration; t_start_time := None;
     t_finish_time := None; t_executor := None; t_stage := None |}.

Definition is_unset (x : Task) : bool :=
  match t_start_time x, t_finish_time x, t_executor x with
  | None, None, None => true
  | _, _, _ => false
  end.

Definition schedule (t : nat) (start_time duration : Q) (executor : nat)
    (w : World) : result World :=
  let* x := get_task w t in
  let* _ := assert (is_unset x) in
  let x' := {| t_idx := t_idx x; t_duration := duration;
               t_start_time := Some start_time;
               t_finish_time := Some (start_time + duration)%Q;
               t_executor := Some executor; t_stage := t_stage x |} in
  let w1 := put_task t x' w in
  (* bind *)
  let* ex := get_executor w1 executor in
  let w2 := put_executor executor
              {| e_idx := e_idx ex; e_task := Some t; e_stage := t_stage x;
                 e_job := e_job ex |} w1 in
  (* self.executor.job = self.stage.job *)
  let* s := match t_stage x with Some s => Ok s | None => Raise AttributeError end in
  let* st := get_stage w2 s in
  Ok (put_executor executor
        {| e_idx := e_idx ex; e_task := Some t; e_stage := t_stage x;
           e_job := s_job st |} w2).

(* if np.isnan(self.start_time) or (self.time_horizon < self.start_time):
       return self.duration
   return max(0, self.finish_time - self.time_horizon.cur_time) *)
Definition get_duration (t : nat) (w : World) : result Q :=
  let* x := get_task w t in
  match t_start_time x with
  | None => Ok (t_duration x)
  | Some st =>
      let* before := py_lt (OTimeHorizon (w_time w)) (OFloat st) in
      if before then Ok (t_duration x)
      else match t_finish_time x with
           | Some ft => Ok (Qmax 0 (ft - w_time w))%Q
           | None => Ok 0%Q      (* max(0, nan) is 0 *)
           end
  end.

Definition reset (t : nat) (w : World) : result World :=
  let* x := get_task w t in
  Ok (put_task t
        {| t_idx := t_idx x; t_duration := t_duration x; t_start_time := None;
           t_finish_time := None; t_executor := None; t_stage := t_stage x |} w).

End Task.

(** ** get_executor_interval_map (env.py 616-663) *)

(* range(lo, hi) *)
Definition range (lo hi : Z) : list Z :=
  map (fun i => (lo + Z.of_nat i)%Z) (seq 0 (Z.to_nat (hi - lo))).

Definition set_all (es : list Z) (v : Z * Z) (m : list (Z * (Z * Z))) : list (Z * (Z * Z)) :=
  fold_left (fun m e => Dict.set e v m) es m.

(* for i in range(len(points) - 1): the body sees points[i] and points[i + 1] *)
Fixpoint interval_center (points : list Z) (m : list (Z * (Z * Z))) : list (Z * (Z * Z)) :=
  match points with
  | lo :: ((hi :: _) as rest) =>
      let m1 := set_all (range (lo + 1) hi) (lo, hi) m in
      interval_center rest (Dict.set hi (hi, hi) m1)
  | _ => m
  end.

Definition get_executor_interval_map (args : Args) : result (list (Z * (Z * Z))) :=
  let points := executor_data_point args in
  match points with
  | [] => Raise IndexError
  | first :: _ =>
      (* the left most *)
      let m1 := set_all (range 0 (first + 1)) (first, first) [] in
      (* the center *)
      let m2 := interval_center points m1 in
      (* the residual *)
      let largest := List.last points first in
      if (largest <? exec_cap args)%Z
      then Ok (set_all (range (largest + 1) (exec_cap args + 1)) (largest, largest) m2)
      else Ok m2
  end.

(** ** class Stage *)

(* bucket[np.random.randint(len(bucket))] *)
Definition bucket_draw (bucket : list Q) (g : RandomState) : result (Q * RandomState) :=
  let* (i, g') := randint 0 (Z.of_nat (length bucket)) g in
  match bucket !! Z.to_nat i with
  | Some d => Ok (d, g')
  | None => Raise IndexError
  end.

(* The if / elif / else of Stage.schedule that computes [duration]
   (env.py 187-218, spark_env/stage.py 161-190).  [fresh] is
     executor.task is None or executor.task.stage.job != task.stage.job
   and [same_stage] is
     executor.task is not None and executor.task.stage == task.stage;
   the rest_wave table is read only when [same_stage] holds. *)
Definition sample_duration (args : Args) (td : TaskDuration) (executor_key : Z)
    (fresh same_stage : bool) (g : RandomState) : result (Q * RandomState) :=
  if fresh then
    let* warmup_duration := subscript (Dict.get executor_key (fresh_durations td)) in
    if 0 <? length warmup_duration then bucket_draw warmup_duration g
    else
      let* fw := subscript (Dict.get executor_key (first_wave td)) in
      let* (d, g') := bucket_draw fw g in
      Ok ((d + warmup_delay args)%Q, g')
  else
    let* use_rest :=
      if same_stage
      then let* rw := subscript (Dict.get executor_key (rest_wave td)) in
           Ok (0 <? length rw)
      else Ok false in
    if use_rest then
      let* rw := subscript (Dict.get executor_key (rest_wave td)) in
      bucket_draw rw g
    else
      let* fw := subscript (Dict.get executor_key (first_wave td)) in
      if 0 <? length fw then bucket_draw fw g
      else
        let* warmup_duration := subscript (Dict.get executor_key (fresh_durations td)) in
        bucket_draw warmup_duration g.

(* if rand_data_point <= num_executors - left_executor: left else right *)
Definition pick_side (left_executor right_executor num_executors rand_data_point : Z) : Z :=
  if (rand_data_point <=? num_executors - left_executor)%Z
  then left_executor else right_executor.

(* largest_key = 0; for e in first_wave: if e > largest_key: largest_key = e *)
Definition largest_key_loop (keys : list Z) : Z :=
  fold_left (fun largest_key e => if (largest_key <? e)%Z then e else largest_key) keys 0%Z.

(* max(first_wave): ValueError on an empty dict *)
Definition py_max (keys : list Z) : result Z :=
  match keys with
  | [] => Raise ValueError
  | k :: ks => Ok (fold_left Z.max ks k)
  end.

Definition stage_job (st : Stage) : result nat :=
  match s_job st with Some j => Ok j | None => Raise AttributeError end.

Definition task_stage (x : Task) : result nat :=
  match t_stage x with Some s => Ok s | None => Raise AttributeError end.

Module StageCommon.

Definition is_runnable (s : nat) (w : World) : result bool :=
  let* st := get_stage w s in
  if s_no_more_task st || s_all_tasks_done st then Ok false
  else
    (fix parents (ps : list nat) : result bool :=
       match ps with
       | [] => Ok true
       | p :: ps' =>
           let* pst := get_stage w p in
           if negb (s_all_tasks_done pst) then Ok false else parents ps'
       end) (s_parent_stages st).

(* the first half of sample_executor_key: the interval and the draw from
   self.np_random *)
Definition resolve_interval (s : nat) (num_executors : Z) (w : World)
    : result (Z * World) :=
  let* st := get_stage w s in
  let* j := stage_job st in
  let* jb := get_job w j in
  let* (left_executor, right_executor) :=
    subscript (Dict.get num_executors (j_executor2interval jb)) in
  if (left_executor =? right_executor)%Z then Ok (left_executor, w)
  else
    let* (rand_data_point, g') :=
      randint 1 (right_executor - left_executor + 1) (w_np_random w) in
    Ok (pick_side left_executor right_executor num_executors rand_data_point,
        put_np_random g' w).

(* executor.task is None or executor.task.stage.job != task.stage.job *)
Definition is_fresh (ex : Executor) (x : Task) (w : World) : result bool :=
  match e_task ex with
  | None => Ok true
  | Some et =>
      let* etask := get_task w et in
      let* es := task_stage etask in
      let* est := get_stage w es in
      let* ts := task_stage x in
      let* tst := get_stage w ts in
      Ok (negb (bool_decide (s_job est = s_job tst)))
  end.

(* executor.task is not None and executor.task.stage == task.stage *)
Definition on_same_stage (ex : Executor) (x : Task) (w : World) : result bool :=
  match e_task ex with
  | None => Ok false
  | Some et =>
      let* etask := get_task w et in
      Ok (bool_decide (t_stage etask = t_stage x))
  end.

End StageCommon.

(** Stage.schedule.  env.py and spark_env/stage.py hold the same method up
    to two places, which are the two function arguments here: how
    sample_executor_key replaces a key that first_wave lacks, and the
    statement that takes an exhausted stage out of the frontier. *)

Definition schedule_with
    (sample_executor_key : nat -> Z -> World -> result (Z * World))
    (leave_frontier : nat -> World -> result World)
    (args : Args) (s executor : nat) (w : World) : result (nat * World) :=
  let* st := get_stage w s in
  let* _ := assert (s_next_task_idx st <? s_num_tasks st) in
  let* t := match s_tasks st !! s_next_task_idx st with
            | Some t => Ok t
            | None => Raise IndexError
            end in
  let* j := stage_job st in
  let* jb := get_job w j in
  let num_executors := Z.of_nat (length (j_executors jb)) in
  let* _ := assert (0 <? num_executors)%Z in
  (* calculate the actual duration *)
  let* (executor_key, w1) := sample_executor_key s num_executors w in
  let* ex := get_executor w1 executor in
  let* x := get_task w1 t in
  let* fresh := StageCommon.is_fresh ex x w1 in
  let* same_stage := if fresh then Ok false else StageCommon.on_same_stage ex x w1 in
  let* (duration, g') :=
    sample_duration args (s_task_duration st) executor_key fresh same_stage
      (w_global_random w1) in
  let w2 := put_global_random g' w1 in
  (* detach the old stage from this executor *)
  let* w3 := Executor.detach_stage executor w2 in
  (* schedule the next-need-to-run task *)
  let* w4 := Task.schedule t (w_time w3) duration executor w3 in
  let* st4 := get_stage w4 s in
  let w5 := put_stage s
              (stage_with_executors st4 (OrderedSet.add executor (s_executors st4))) w4 in
  let* ex5 := get_executor w5 executor in
  let w6 := put_executor executor
              {| e_idx := e_idx ex5; e_task := e_task ex5; e_stage := Some s;
                 e_job := e_job ex5 |} w5 in
  (* update stage info *)
  let* st6 := get_stage w6 s in
  let next := S (s_next_task_idx st6) in
  let no_more := s_num_tasks st6 <=? next in
  let w7 := put_stage s (stage_with_progress st6 next no_more) w6 in
  let* w8 := if no_more then leave_frontier s w7 else Ok w7 in
  Ok (t, w8).

(** env.py 62-235 *)
Module Stage.

Definition is_runnable := StageCommon.is_runnable.

Definition sample_executor_key (s : nat) (num_executors : Z) (w : World)
    : result (Z * World) :=
  let* (executor_key, w1) := StageCommon.resolve_interval s num_executors w in
  let* st := get_stage w1 s in
  let fw := first_wave (s_task_duration st) in
  if negb (Dict.mem executor_key fw)
  then Ok (largest_key_loop (Dict.keys fw), w1)
  else Ok (executor_key, w1).

(* if self in self.job.frontier_stages:
       self.job.frontier_staes.remove(self)
   class Job has no attribute frontier_staes *)
Definition leave_frontier (s : nat) (w : World) : result World :=
  let* st := get_stage w s in
  let* j := stage_job st in
  let* jb := get_job w j in
  if OrderedSet.contains (PStage s) (j_frontier_stages jb)
  then Raise AttributeError
  else Ok w.

Definition schedule := schedule_with sample_executor_key leave_frontier.

End Stage.

(** spark_env/stage.py 9-203 *)
Module SparkEnvStage.

Definition is_runnable := StageCommon.is_runnable.

Definition sample_executor_key (s : nat) (num_executors : Z) (w : World)
    : result (Z * World) :=
  let* (executor_key, w1) := StageCommon.resolve_interval s num_executors w in
  let* st := get_stage w1 s in
  let fw := first_wave (s_task_duration st) in
  if negb (Dict.mem executor_key fw)
  then let* k := py_max (Dict.keys fw) in Ok (k, w1)
  else Ok (executor_key, w1).

(* if self in self.job.frontier_stages:
       self.job.frontier_stages.remove(self) *)
Definition leave_frontier (s : nat) (w : World) : result World :=
  let* st := get_stage w s in
  let* j := stage_job st in
  let* jb := get_job w j in
  if OrderedSet.contains (PStage s) (j_frontier_stages jb)
  then let* fs := OrderedSet.remove (PStage s) (j_frontier_stages jb) in
       Ok (put_job j (job_with_frontier jb fs) w)
  else Ok w.

Definition schedule := schedule_with sample_executor_key leave_frontier.

End SparkEnvStage.

(** ** class Job (env.py 251-308) *)

(** Modelled from the spec: utils.is_dag is called by Job.__init__ but is not
    in utils.py.  The adjacency matrix "must encode a DAG, acyclic, verified
    at construction": no stage reaches itself along edges. *)
Definition mat_get (m : list (list Z)) (i j : nat) : Z :=
  match m !! i with
  | Some row => default 0%Z (row !! j)
  | None => 0%Z
  end.

Definition reach_step (n : nat) (adj : list (list Z)) (r : list (list bool)) : list (list bool) :=
  map (fun i =>
         map (fun j =>
                default false (r !! i ≫= (.!! j))
                || existsb (fun k => default false (r !! i ≫= (.!! k))
                                     && negb (mat_get adj k j =? 0)%Z) (seq 0 n))
             (seq 0 n))
      (seq 0 n).

Definition is_dag (n : nat) (adj : list (list Z)) : bool :=
  let r0 := map (fun i => map (fun j => negb (mat_get adj i j =? 0)%Z) (seq 0 n)) (seq 0 n) in
  let r := Nat.iter n (reach_step n adj) r0 in
  forallb (fun i => negb (default false (r !! i ≫= (.!! i)))) (seq 0 n).

Module Job.

Definition shape0 (m : list (list Z)) : nat := length m.
Definition shape1 (m : list (list Z)) : nat :=
  match m with [] => 0 | row :: _ => length row end.

Fixpoint runnable_stages (stages : list nat) (w : World) (acc : list pyobj)
    : result (list pyobj) :=
  match stages with
  | [] => Ok acc
  | s :: rest =>
      let* r := Stage.is_runnable s w in
      runnable_stages rest w (if r then OrderedSet.add (PStage s) acc else acc)
  end.

Fixpoint assign_job (stages : list nat) (j : nat) (w : World) : result World :=
  match stages with
  | [] => Ok w
  | s :: rest =>
      let* st := get_stage w s in
      assign_job rest j (put_stage s (stage_with_job st (Some j)) w)
  end.

(* Job.__init__: the new job is stored at the next free index *)
Definition init (args : Args) (stages : list nat) (adj_mat : list (list Z))
    (w : World) : result (nat * World) :=
  let* _ := assert ((length stages =? shape0 adj_mat)
                    && (shape0 adj_mat =? shape1 adj_mat)) in
  let* _ := assert (is_dag (length stages) adj_mat) in
  let* frontier := runnable_stages stages w [] in
  let j := length (w_jobs w) in
  let* executor2interval := get_executor_interval_map args in
  let jb := {| j_stages := stages; j_adj_mat := adj_mat;
               j_num_stages := length stages; j_num_finished_stages := 0;
               j_executors := []; j_frontier_stages := frontier;
               j_executor2interval := executor2interval |} in
  let w1 := {| w_tasks := w_tasks w; w_stages := w_stages w;
               w_jobs := w_jobs w ++ [jb]; w_executors := w_executors w;
               w_time := w_time w; w_np_random := w_np_random w;
               w_global_random := w_global_random w |} in
  let* w2 := assign_job stages j w1 in
  Ok (j, w2).

(* is_changed = False
   for child in stage.child_stages:
       if child.is_runnable() and child.idx not in self.frontier_stages:
           self.frontier_stages.add(child)
           is_changed = True
   return is_changed
   The membership test looks the int child.idx up in a set of Stage objects. *)
Fixpoint frontier_loop (j : nat) (children : list nat) (is_changed : bool) (w : World)
    : result (bool * World) :=
  match children with
  | [] => Ok (is_changed, w)
  | child :: rest =>
      let* r := Stage.is_runnable child w in
      let* cst := get_stage w child in
      let* jb := get_job w j in
      if r && negb (OrderedSet.contains (PInt (Z.of_nat (s_idx cst))) (j_frontier_stages jb))
      then frontier_loop j rest true
             (put_job j (job_with_frontier jb
                           (OrderedSet.add (PStage child) (j_frontier_stages jb))) w)
      else frontier_loop j rest is_changed w
  end.

Definition update_frontier_stages (j stage : nat) (w : World) : result (bool * World) :=
  let* st := get_stage w stage in
  frontier_loop j (s_child_stages st) false w.

End Job.

(** ** merge_jobs (env.py 343-398) *)

Definition zeros (rows cols : nat) : list (list Z) := repeat (repeat 0%Z cols) rows.

(* m[i, j] = v; numpy raises IndexError outside the matrix *)
Definition mat_set (m : list (list Z)) (i j : nat) (v : Z) : result (list (list Z)) :=
  match m !! i with
  | Some row => if j <? length row then Ok (<[i := <[j := v]> row]> m) else Raise IndexError
  | None => Raise IndexError
  end.

(* dst[base: base + n, base: base + n] = src, for an n x n matrix src
   (the shape Job.__init__ asserts); numpy raises ValueError when the
   shapes do not match *)
Definition set_block (base n : nat) (src dst : list (list Z)) : result (list (list Z)) :=
  if (length src =? n) && forallb (fun row => length row =? n) src
     && (base + n <=? length dst) && forallb (fun row => base + n <=? length row) dst
  then Ok (imap (fun i row =>
                   if (base <=? i) && (i <? base + n)
                   then imap (fun j v =>
                                if (base <=? j) && (j <? base + n)
                                then mat_get src (i - base) (j - base) else v) row
                   else row) dst)
  else Raise ValueError.

(* np.sum(m[:, i]) *)
Definition col_sum (m : list (list Z)) (i : nat) : Z :=
  fold_left (fun acc row => (acc + default 0 (row !! i))%Z) m 0%Z.

Module Merge.

Fixpoint total_stages (jobs : list nat) (w : World) : result nat :=
  match jobs with
  | [] => Ok 0
  | j :: rest =>
      let* jb := get_job w j in
      let* n := total_stages rest w in
      Ok (j_num_stages jb + n)
  end.

(* for stage in job.stages: stage.idx += base; stages.append(stage) *)
Fixpoint shift_stages (job_stages : list nat) (base : nat) (stages : list nat) (w : World)
    : result (list nat * World) :=
  match job_stages with
  | [] => Ok (stages, w)
  | s :: rest =>
      let* st := get_stage w s in
      shift_stages rest base (stages ++ [s])
        (put_stage s (stage_with_idx st (s_idx st + base)) w)
  end.

(* for i in range(num_stages):
       if np.sum(job.adj_mat[:, i]) == 0:
           assert len(job.stages[i].parent_stages) == 0
           adj_mat[base - 1, base + i] = 1 *)
Fixpoint link_columns (jb : Job) (base : nat) (columns : list nat)
    (adj_mat : list (list Z)) (w : World) : result (list (list Z)) :=
  match columns with
  | [] => Ok adj_mat
  | i :: rest =>
      if (col_sum (j_adj_mat jb) i =? 0)%Z then
        let* s := match j_stages jb !! i with
                  | Some s => Ok s
                  | None => Raise IndexError
                  end in
        let* st := get_stage w s in
        let* _ := assert (length (s_parent_stages st) =? 0) in
        let* adj1 := mat_set adj_mat (base - 1) (base + i) 1%Z in
        link_columns jb base rest adj1 w
      else link_columns jb base rest adj_mat w
  end.

(* [stage for stage in job.stages if len(field(stage)) == 0] *)
Fixpoint stages_without (field : Stage -> list nat) (job_stages : list nat) (w : World)
    : result (list nat) :=
  match job_stages with
  | [] => Ok []
  | s :: rest =>
      let* st := get_stage w s in
      let* more := stages_without field rest w in
      Ok (if length (field st) =? 0 then s :: more else more)
  end.

(* for sin_s in sink_stages:
       sin_s.child_stages.append(src_s)
       src_s.parent_stages.append(sin_s) *)
Fixpoint link_source (src_s : nat) (sink_stages : list nat) (w : World) : result World :=
  match sink_stages with
  | [] => Ok w
  | sin_s :: rest =>
      let* sink := get_stage w sin_s in
      let w1 := put_stage sin_s
                  (stage_with_children sink (s_child_stages sink ++ [src_s])) w in
      let* src := get_stage w1 src_s in
      let w2 := put_stage src_s
                  (stage_with_parents src (s_parent_stages src ++ [sin_s])) w1 in
      link_source src_s rest w2
  end.

Fixpoint link_sources (source_stages sink_stages : list nat) (w : World) : result World :=
  match source_stages with
  | [] => Ok w
  | src_s :: rest =>
      let* w1 := link_source src_s sink_stages w in
      link_sources rest sink_stages w1
  end.

(* the body of [for job in jobs] *)
Fixpoint merge_loop (jobs : list nat) (base : nat) (sink_stages stages : list nat)
    (adj_mat : list (list Z)) (w : World)
    : result (list nat * list (list Z) * World) :=
  match jobs with
  | [] => Ok (stages, adj_mat, w)
  | j :: rest =>
      let* jb := get_job w j in
      let num_stages := j_num_stages jb in
      (* reset global idx, and update adj mat based on this *)
      let* (stages1, w1) := shift_stages (j_stages jb) base stages w in
      let* adj1 := set_block base num_stages (j_adj_mat jb) adj_mat in
      (* create a link from the sink stage of previous job *)
      let* adj2 := if negb (base =? 0)
                   then link_columns jb base (seq 0 num_stages) adj1 w1
                   else Ok adj1 in
      (* source stages of current job *)
      let* source_stages := stages_without s_parent_stages (j_stages jb) w1 in
      (* update relationship *)
      let* w2 := link_sources source_stages sink_stages w1 in
      (* update this job's sink stage for the next job *)
      let* sinks := stages_without s_child_stages (j_stages jb) w2 in
      let* _ := assert (length sinks =? 1) in
      merge_loop rest (base + num_stages) sinks stages1 adj2 w2
  end.

Definition merge_jobs (args : Args) (jobs : list nat) (w : World) : result (nat * World) :=
  let* num_total_stages := total_stages jobs w in
  let adj_mat := zeros num_total_stages num_total_stages in
  let* (stages, adj1, w1) := merge_loop jobs 0 [] [] adj_mat w in
  let* _ := assert (length stages =? Job.shape0 adj1) in
  Job.init args stages adj1 w1.

End Merge.

(** ** class FreeExecutors (env.py 430-496)

    [job2bundled_executors]: a dict from a job, or None for the free pool,
    to the OrderedSet of the executors in that group. *)

Module FreeExecutors.

Definition init (executors : list nat) : list (option nat * list nat) :=
  [(None, fold_left (fun pool e => OrderedSet.add e pool) executors [])].

Definition contain_executor (job : option nat) (executor : nat)
    (fe : list (option nat * list nat)) : result bool :=
  let* group := subscript (Dict.get job fe) in
  Ok (OrderedSet.contains executor group).

Definition pop (job : option nat) (fe : list (option nat * list nat))
    : result (nat * list (option nat * list nat)) :=
  let* group := subscript (Dict.get job fe) in
  match group with
  | [] => Raise StopIteration
  | executor :: _ =>
      let* group1 := OrderedSet.remove executor group in
      Ok (executor, Dict.set job group1 fe)
  end.

(* if job is None: executor.detach_job() else: executor.detach_stage()
   self.job2bundled_executors[job].add(executor) *)
Definition add (job : option nat) (executor : nat)
    (fe : list (option nat * list nat)) (w : World)
    : result (list (option nat * list nat) * World) :=
  let* w1 := match job with
             | None => Executor.detach_job executor w
             | Some _ => Executor.detach_stage executor w
             end in
  let* group := subscript (Dict.get job fe) in
  Ok (Dict.set job (OrderedSet.add executor group) fe, w1).

Definition remove (executor : nat) (fe : list (option nat * list nat)) (w : World)
    : result (list (option nat * list nat)) :=
  let* ex := get_executor w executor in
  let* group := subscript (Dict.get (e_job ex) fe) in
  let* group1 := OrderedSet.remove executor group in
  Ok (Dict.set (e_job ex) group1 fe).

Definition add_job (job : option nat) (fe : list (option nat * list nat))
    : list (option nat * list nat) :=
  Dict.set job [] fe.

(* for executor in self.job2bundled_executors[job]:
       executor.detach_job()
       self.job2bundled_executors[None].add(executor) *)
Fixpoint evict (executors : list nat) (fe : list (option nat * list nat)) (w : World)
    : result (list (option nat * list nat) * World) :=
  match executors with
  | [] => Ok (fe, w)
  | executor :: rest =>
      let* w1 := Executor.detach_job executor w in
      let* free := subscript (Dict.get None fe) in
      evict rest (Dict.set None (OrderedSet.add executor free) fe) w1
  end.

Definition remove_job (job : option nat) (fe : list (option nat * list nat)) (w : World)
    : result (list (option nat * list nat) * World) :=
  let* group := subscript (Dict.get job fe) in
  let* (fe1, w1) := evict group fe w in
  Ok (Dict.del job fe1, w1).

Definition reset (executors : list nat) : list (option nat * list nat) := init executors.

End FreeExecutors.

(** ** class ExecutorCommit (env.py 553-613)

    Sources and destinations are stages, jobs or None; [commit src] is an
    OrderedDict, [backward stage] a set. *)

Record CommitLedger : Type := {
  commit : list (pyobj * list (pyobj * Z));
  stage_commit : list (pyobj * Z);
  backward : list (pyobj * list pyobj)
}.

Module ExecutorCommit.

Definition init : CommitLedger :=
  {| commit := []; stage_commit := []; backward := [] |}.

Definition reset : CommitLedger :=
  {| commit := [(PNone, [])]; stage_commit := [(PNone, 0%Z)]; backward := [(PNone, [])] |}.

Definition add (src stage : pyobj) (amount : Z) (l : CommitLedger) : result CommitLedger :=
  let* c := subscript (Dict.get src (commit l)) in
  (* if non-exist then create *)
  let c1 := if negb (Dict.mem stage c) then Dict.set stage 0%Z c else c in
  (* add *)
  let* n := subscript (Dict.get stage c1) in
  let c2 := Dict.set stage (n + amount)%Z c1 in
  let* total := subscript (Dict.get stage (stage_commit l)) in
  let* sources := subscript (Dict.get stage (backward l)) in
  Ok {| commit := Dict.set src c2 (commit l);
        stage_commit := Dict.set stage (total + amount)%Z (stage_commit l);
        backward := Dict.set stage (OrderedSet.add src sources) (backward l) |}.

Definition pop (src : pyobj) (l : CommitLedger) : result (pyobj * CommitLedger) :=
  match Dict.get src (commit l) with
  | None => Raise AssertionError                (* assert src in self.commit *)
  | Some c =>
      match c with
      | [] => Raise AssertionError              (* assert len(self.commit[src]) > 0 *)
      | (stage, n) :: _ =>
          (* deduct *)
          let c1 := Dict.set stage (n - 1)%Z c in
          let* total := subscript (Dict.get stage (stage_commit l)) in
          let* _ := assert (0 <=? n - 1)%Z in
          let* _ := assert (0 <=? total - 1)%Z in
          let l1 := {| commit := Dict.set src c1 (commit l);
                       stage_commit := Dict.set stage (total - 1)%Z (stage_commit l);
                       backward := backward l |} in
          (* remove if amount is zero *)
          if (n - 1 =? 0)%Z then
            let* sources := subscript (Dict.get stage (backward l1)) in
            if OrderedSet.contains src sources then
              Ok (stage,
                  {| commit := Dict.set src (Dict.del stage c1) (commit l1);
                     stage_commit := stage_commit l1;
                     backward := Dict.set stage (OrderedSet.del src sources) (backward l1) |})
            else Raise KeyError                 (* set.remove of an absent element *)
          else Ok (stage, l1)
      end
  end.

Fixpoint register_stages (stages : list nat) (l : CommitLedger) : CommitLedger :=
  match stages with
  | [] => l
  | s :: rest =>
      register_stages rest
        {| commit := Dict.set (PStage s) [] (commit l);
           stage_commit := Dict.set (PStage s) 0%Z (stage_commit l);
           backward := Dict.set (PStage s) [] (backward l) |}
  end.

Definition add_job (job : nat) (w : World) (l : CommitLedger) : result CommitLedger :=
  let* jb := get_job w job in
  Ok (register_stages (j_stages jb)
        {| commit := Dict.set (PJob job) [] (commit l);
           stage_commit := stage_commit l; backward := backward l |}).

End ExecutorCommit.

(** ** The properties, as definitions *)

(** A task's start_time, finish_time and executor: all unset or all set. *)
Definition is_set (x : Task) : bool :=
  match t_start_time x, t_finish_time x, t_executor x with
  | Some _, Some _, Some _ => true
  | _, _, _ => false
  end.

Definition fields_together (x : Task) : Prop :=
  Task.is_unset x = true \/ is_set x = true.

(** The three cases of the duration protocol, in the words of the
    specification: which case applies, and what is drawn in each. *)
Inductive wave : Set := FreshWave | RestWave | FirstWave.

Definition classify (bound_task_absent different_job same_stage : bool)
    (rest_bucket : list Q) : wave :=
  if bound_task_absent || different_job then FreshWave
  else if same_stage && negb (length rest_bucket =? 0) then RestWave
  else FirstWave.

Definition draw_for (args : Args) (c : wave) (fresh_bucket first_bucket rest_bucket : list Q)
    (g : RandomState) : result (Q * RandomState) :=
  match c with
  | FreshWave =>
      match fresh_bucket with
      | _ :: _ => bucket_draw fresh_bucket g
      | [] => let* (d, g') := bucket_draw first_bucket g in
              Ok ((d + warmup_delay args)%Q, g')
      end
  | RestWave => bucket_draw rest_bucket g
  | FirstWave =>
      match first_bucket with
      | _ :: _ => bucket_draw first_bucket g
      | [] => bucket_draw fresh_bucket g
      end
  end.

(* the bucket a case draws from: its own, or the fall-back when that one
   is empty *)
Definition drawn_bucket (c : wave) (fresh_bucket first_bucket rest_bucket : list Q)
    : list Q :=
  match c with
  | FreshWave => match fresh_bucket with [] => first_bucket | _ :: _ => fresh_bucket end
  | RestWave => rest_bucket
  | FirstWave => match first_bucket with [] => fresh_bucket | _ :: _ => first_bucket end
  end.

(* the warm-up delay is added in the fresh case when fresh_durations has
   nothing for the key *)
Definition delayed (c : wave) (fresh_bucket : list Q) : bool :=
  match c, fresh_bucket with
  | FreshWave, [] => true
  | _, _ => false
  end.

(* the bucket of a table for a key; a table without the key has nothing
   to draw from *)
Definition bucket (key : Z) (table : list (Z * list Q)) : list Q :=
  default [] (Dict.get key table).

(** The case for executor [ex] and the task [x] about to run, read off the
    store: the bound task is absent; or it belongs to a different job than
    [x]; or its stage is the stage of [x]. *)
Definition wave_of (w : World) (ex : Executor) (x : Task) (rest_bucket : list Q)
    : result wave :=
  match e_task ex with
  | None => Ok (classify true false false rest_bucket)
  | Some bound_task =>
      let* bound := get_task w bound_task in
      let* bound_stage := task_stage bound in
      let* bst := get_stage w bound_stage in
      let* this_stage := task_stage x in
      let* tst := get_stage w this_stage in
      Ok (classify false
            (negb (bool_decide (s_job bst = s_job tst)))
            (bool_decide (t_stage bound = t_stage x))
            rest_bucket)
  end.

(** FreeExecutors: the groups an executor is a member of. *)
Definition groups_of (executor : nat) (fe : list (option nat * list nat)) : list (option nat) :=
  map fst (filter (fun kg => OrderedSet.contains executor (snd kg)) fe).

Definition in_exactly_one (executor : nat) (fe : list (option nat * list nat)) : Prop :=
  length (groups_of executor fe) = 1.















(** The draws of [np_random.randint(1, hi - lo + 1)] that resolve a count
    to a given key. *)
Definition draws_resolving_to (key lo hi num_executors : Z) : list Z :=
  filter (fun r => bool_decide (pick_side lo hi num_executors r = key)) (range 1 (hi - lo + 1)).

(** ** A small cluster to run the operations on

    One job of two stages (stage 0 with two tasks feeds stage 1 with one
    task) and one executor bound to the job; recorded executor counts
    5 and 10, capacity 12. *)

Module Example.

Definition args : Args :=
  {| executor_data_point := [5; 10]%Z; exec_cap := 12%Z; warmup_delay := 1%Q |}.

Definition constant_words (z : Z) : RandomState :=
  {| rs_words := fun _ => z; rs_pos := 0 |}.

Definition durations : TaskDuration :=
  {| first_wave := [(5%Z, [3%Q; 4%Q]); (10%Z, [2%Q])];
     rest_wave := [(5%Z, [1%Q; 2%Q]); (10%Z, [1%Q])];
     fresh_durations := [(5%Z, [10%Q; 20%Q]); (10%Z, [8%Q])] |}.

Definition interval_map : list (Z * (Z * Z)) :=
  Eval vm_compute in
    match get_executor_interval_map args with Ok m => m | Raise _ => [] end.

Definition task_of (idx stage : nat) : Task :=
  {| t_idx := idx; t_duration := 5%Q; t_start_time := None; t_finish_time := None;
     t_executor := None; t_stage := Some stage |}.

Definition stage_of (idx : nat) (tasks parents children : list nat) (done : bool) : Stage :=
  {| s_idx := idx; s_tasks := tasks; s_task_duration := durations;
     s_num_tasks := length tasks; s_num_finished_tasks := 0; s_next_task_idx := 0;
     s_no_more_task := done; s_all_tasks_done := done; s_executors := [];
     s_parent_stages := parents; s_child_stages := children; s_job := Some 0 |}.

Definition job_of (stages : list nat) (adj : list (list Z)) (executors : list nat)
    (frontier : list pyobj) : Job :=
  {| j_stages := stages; j_adj_mat := adj; j_num_stages := length stages;
     j_num_finished_stages := 0; j_executors := executors;
     j_frontier_stages := frontier; j_executor2interval := interval_map |}.

Definition idle_executor (idx : nat) (job : option nat) : Executor :=
  {| e_idx := idx; e_task := None; e_stage := None; e_job := job |}.

(* the job has arrived: stage 0 is its frontier *)
Definition cluster (global_random : RandomState) : World :=
  {| w_tasks := [task_of 0 0; task_of 1 0; task_of 0 1];
     w_stages := [stage_of 0 [0; 1] [] [1] false; stage_of 1 [2] [0] [] false];
     w_jobs := [job_of [0; 1] [[0; 1]; [0; 0]]%Z [0] [PStage 0]];
     w_executors := [idle_executor 0 (Some 0)];
     w_time := 0%Q;
     w_np_random := constant_words 0;
     w_global_random := global_random |}.

(* stage 0 has finished; its child has not been looked at yet *)
Definition parent_done : World :=
  {| w_tasks := [task_of 0 0; task_of 1 0; task_of 0 1];
     w_stages := [stage_of 0 [0; 1] [] [1] true; stage_of 1 [2] [0] [] false];
     w_jobs := [job_of [0; 1] [[0; 1]; [0; 0]]%Z [0] []];
     w_executors := [idle_executor 0 (Some 0)];
     w_time := 0%Q;
     w_np_random := constant_words 0;
     w_global_random := constant_words 0 |}.

(* six executors on the job: the count 6 lies between the points 5 and 10 *)
Definition six_executors (np_random : RandomState) : World :=
  {| w_tasks := [task_of 0 0; task_of 1 0; task_of 0 1];
     w_stages := [stage_of 0 [0; 1] [] [1] false; stage_of 1 [2] [0] [] false];
     w_jobs := [job_of [0; 1] [[0; 1]; [0; 0]]%Z [0; 1; 2; 3; 4; 5] [PStage 0]];
     w_executors := map (fun i => idle_executor i (Some 0)) [0; 1; 2; 3; 4; 5];
     w_time := 0%Q;
     w_np_random := np_random;
     w_global_random := constant_words 0 |}.

(* two jobs to merge.  In job 0 the edge runs from stage 1 to stage 0, so
   its sink is stage 0 and its last stage is a source; job 1 is one stage. *)
Definition lone_stage (idx : nat) (task : nat) (parents children : list nat)
    (job : nat) : Stage :=
  {| s_idx := idx; s_tasks := [task]; s_task_duration := durations;
     s_num_tasks := 1; s_num_finished_tasks := 0; s_next_task_idx := 0;
     s_no_more_task := false; s_all_tasks_done := false; s_executors := [];
     s_parent_stages := parents; s_child_stages := children; s_job := Some job |}.

Definition sink_first : World :=
  {| w_tasks := [task_of 0 0; task_of 0 1; task_of 0 2];
     w_stages := [lone_stage 0 0 [1] [] 0; lone_stage 1 1 [] [0] 0; lone_stage 0 2 [] [] 1];
     w_jobs := [job_of [0; 1] [[0; 0]; [1; 0]]%Z [] [PStage 1];
                job_of [2] [[0]]%Z [] [PStage 2]];
     w_executors := [];
     w_time := 0%Q;
     w_np_random := constant_words 0;
     w_global_random := constant_words 0 |}.

(* the same two jobs with job 0's edge from stage 0 to stage 1: the sink
   is the last stage *)
Definition sink_last : World :=
  {| w_tasks := [task_of 0 0; task_of 0 1; task_of 0 2];
     w_stages := [lone_stage 0 0 [] [1] 0; lone_stage 1 1 [0] [] 0; lone_stage 0 2 [] [] 1];
     w_jobs := [job_of [0; 1] [[0; 1]; [0; 0]]%Z [] [PStage 0];
                job_of [2] [[0]]%Z [] [PStage 2]];
     w_executors := [];
     w_time := 0%Q;
     w_np_random := constant_words 0;
     w_global_random := constant_words 0 |}.

(* the executor pool of one executor, and job 0 registered *)
Definition pool : list (option nat * list nat) :=
  FreeExecutors.add_job (Some 0) (FreeExecutors.init [0]).

End Example.


(** ** More scenes on the example cluster *)

Module Scenes.

(* executor 0 is running task 0 of stage 0 *)
Definition busy : World :=
  Eval vm_compute in
    match SparkEnvStage.schedule Example.args 0 0 (Example.cluster (Example.constant_words 0)) with
    | Ok (_, w) => w
    | Raise _ => Example.cluster (Example.constant_words 0)
    end.

Definition busy_executor : Executor :=
  {| e_idx := 0; e_task := Some 0; e_stage := Some 0; e_job := Some 0 |}.

(* a stage with few tasks: durations were recorded for 2 and 5 executors
   only *)
Definition short_durations : TaskDuration :=
  {| first_wave := [(2%Z, [6%Q]); (5%Z, [3%Q; 4%Q])];
     rest_wave := [(2%Z, [2%Q]); (5%Z, [1%Q; 2%Q])];
     fresh_durations := [(2%Z, [12%Q]); (5%Z, [10%Q; 20%Q])] |}.

Definition short_stage : Stage :=
  {| s_idx := 0; s_tasks := [0; 1]; s_task_duration := short_durations;
     s_num_tasks := 2; s_num_finished_tasks := 0; s_next_task_idx := 0;
     s_no_more_task := false; s_all_tasks_done := false; s_executors := [];
     s_parent_stages := []; s_child_stages := [1]; s_job := Some 0 |}.

(* six executors on the job of that stage: the count 6 can resolve to the
   point 10, for which the stage has no record *)
Definition unrecorded_point (np_random : RandomState) : World :=
  {| w_tasks := [Example.task_of 0 0; Example.task_of 1 0; Example.task_of 0 1];
     w_stages := [short_stage; Example.stage_of 1 [2] [0] [] false];
     w_jobs := [Example.job_of [0; 1] [[0; 1]; [0; 0]]%Z [0; 1; 2; 3; 4; 5] [PStage 0]];
     w_executors := map (fun i => Example.idle_executor i (Some 0)) [0; 1; 2; 3; 4; 5];
     w_time := 0%Q;
     w_np_random := np_random;
     w_global_random := Example.constant_words 0 |}.

End Scenes.

(** The entry the centre loop of get_executor_interval_map writes for a
    count, as a lookup over the recorded points. *)
Fixpoint center_entry (points : list Z) (e : Z) : option (Z * Z) :=
  match points with
  | lo :: ((hi :: _) as rest) =>
      if (lo <? e)%Z then
        if (e <? hi)%Z then Some (lo, hi)
        else if (e =? hi)%Z then Some (hi, hi)
        else center_entry rest e
      else None
  | _ => None
  end.

(* pop(src) called n times in a row; the destinations, in order *)
Fixpoint pop_n (n : nat) (src : pyobj) (l : CommitLedger) : result (list pyobj * CommitLedger) :=
  match n with
  | 0 => Ok ([], l)
  | S n' =>
      let* (stage, l1) := ExecutorCommit.pop src l in
      let* (stages, l2) := pop_n n' src l1 in
      Ok (stage :: stages, l2)
  end.

(* every reference an executor holds points into the store *)
Definition references_in_store (w : World) : Prop :=
  forall e ex, w_executors w !! e = Some ex ->
    (forall s, e_stage ex = Some s -> is_Some (w_stages w !! s)) /\
    (forall j, e_job ex = Some j -> is_Some (w_jobs w !! j)).

(* an executor with task, stage and job None *)
Definition unbound (x : Executor) : Executor :=
  {| e_idx := e_idx x; e_task := None; e_stage := None; e_job := None |}.

(** ** ExecutorCommit.remove_job (env.py 598-608) *)

(* for src in self.backward[stage]: del self.commit[src][stage] *)
Fixpoint forget_sources (sources : list pyobj) (stage : pyobj)
    (cm : list (pyobj * list (pyobj * Z))) : result (list (pyobj * list (pyobj * Z))) :=
  match sources with
  | [] => Ok cm
  | src :: rest =>
      let* c := subscript (Dict.get src cm) in
      let* _ := subscript (Dict.get stage c) in
      forget_sources rest stage (Dict.set src (Dict.del stage c) cm)
  end.

Fixpoint unregister_stages (stages : list nat) (l : CommitLedger) : result CommitLedger :=
  match stages with
  | [] => Ok l
  | s :: rest =>
      let* c := subscript (Dict.get (PStage s) (commit l)) in
      let* _ := assert (length c =? 0) in
      let cm1 := Dict.del (PStage s) (commit l) in
      let* sources := subscript (Dict.get (PStage s) (backward l)) in
      let* cm2 := forget_sources sources (PStage s) cm1 in
      let* _ := subscript (Dict.get (PStage s) (stage_commit l)) in
      unregister_stages rest
        {| commit := cm2;
           stage_commit := Dict.del (PStage s) (stage_commit l);
           backward := Dict.del (PStage s) (backward l) |}
  end.

Definition commit_remove_job (job : nat) (w : World) (l : CommitLedger) : result CommitLedger :=
  let* jb := get_job w job in
  let* c := subscript (Dict.get (PJob job) (commit l)) in
  let* _ := assert (length c =? 0) in
  unregister_stages (j_stages jb)
    {| commit := Dict.del (PJob job) (commit l);
       stage_commit := stage_commit l; backward := backward l |}.

(** ** class MovingExecutors (env.py 499-550)

    [moving_executors] maps an executor to the stage it is moving to;
    [stage_track] maps a stage to the built-in set of the executors moving
    to it, kept here as a duplicate-free list. *)

Record Moving : Type := {
  moving_executors : list (nat * option nat);
  stage_track : list (option nat * list nat)
}.

Module MovingExecutors.

Definition init : Moving := {| moving_executors := []; stage_track := [] |}.

Definition contains (executor : nat) (m : Moving) : bool :=
  Dict.mem executor (moving_executors m).

Definition getitem (executor : nat) (m : Moving) : result (option nat) :=
  subscript (Dict.get executor (moving_executors m)).

Definition len (m : Moving) : nat := length (moving_executors m).

Definition add (executor : nat) (stage : option nat) (m : Moving) (w : World)
    : result (Moving * World) :=
  let* w1 := Executor.detach_job executor w in
  let moving := Dict.set executor stage (moving_executors m) in
  let* track := subscript (Dict.get stage (stage_track m)) in
  Ok ({| moving_executors := moving;
         stage_track := Dict.set stage (OrderedSet.add executor track) (stage_track m) |},
      w1).

Definition pop (executor : nat) (m : Moving) : result (option nat * Moving) :=
  match Dict.get executor (moving_executors m) with
  | Some stage =>
      let* track := subscript (Dict.get stage (stage_track m)) in
      (* set.remove raises KeyError for an absent element *)
      if OrderedSet.contains executor track then
        Ok (stage,
            {| moving_executors := Dict.del executor (moving_executors m);
               stage_track :=
                 Dict.set stage (OrderedSet.del executor track) (stage_track m) |})
      else Raise KeyError
  | None => Ok (None, m)
  end.

Definition count (stage : option nat) (m : Moving) : result nat :=
  let* track := subscript (Dict.get stage (stage_track m)) in
  Ok (length track).

Fixpoint track_stages (stages : list nat) (tracks : list (option nat * list nat))
    : list (option nat * list nat) :=
  match stages with
  | [] => tracks
  | s :: rest => track_stages rest (Dict.set (Some s) [] tracks)
  end.

Definition add_job (job : nat) (w : World) (m : Moving) : result Moving :=
  let* jb := get_job w job in
  Ok {| moving_executors := moving_executors m;
        stage_track := track_stages (j_stages jb) (stage_track m) |}.

(* for executor in self.stage_track[stage]: del self.moving_executors[executor] *)
Fixpoint forget_executors (executors : list nat) (moving : list (nat * option nat))
    : result (list (nat * option nat)) :=
  match executors with
  | [] => Ok moving
  | e :: rest =>
      let* _ := subscript (Dict.get e moving) in
      forget_executors rest (Dict.del e moving)
  end.

Fixpoint untrack_stages (stages : list nat) (m : Moving) : result Moving :=
  match stages with
  | [] => Ok m
  | s :: rest =>
      let* track := subscript (Dict.get (Some s) (stage_track m)) in
      let* moving := forget_executors track (moving_executors m) in
      untrack_stages rest
        {| moving_executors := moving;
           stage_track := Dict.del (Some s) (stage_track m) |}
  end.

Definition remove_job (job : nat) (w : World) (m : Moving) : result Moving :=
  let* jb := get_job w job in
  untrack_stages (j_stages jb) m.

Definition reset : Moving := init.

End MovingExecutors.

(* the executors whose destination is [stage] *)
Definition heading_to (stage : option nat) (m : Moving) : list nat :=
  map fst (filter (fun p => p.2 = stage) (moving_executors m)).

(* the two tables say the same: an executor is moving to a stage exactly
   when the stage's set holds it *)
Definition tracks_agree (m : Moving) : Prop :=
  NoDup (Dict.keys (moving_executors m)) /\
  NoDup (Dict.keys (stage_track m)) /\
  (forall s track, Dict.get s (stage_track m) = Some track -> NoDup track) /\
  (forall e s, Dict.get e (moving_executors m) = Some s <->
               exists track, Dict.get s (stage_track m) = Some track /\ e ∈ track).

(* executor 0 is moving to stage 1 *)
Definition one_moving : Moving :=
  {| moving_executors := [(0, Some 1)]; stage_track := [(Some 1, [0])] |}.

(* both stages of job 0 are tracked; executor 0 is moving to stage 1 *)
Definition two_tracked : Moving :=
  {| moving_executors := [(0, Some 1)]; stage_track := [(Some 0, []); (Some 1, [0])] |}.

(** ** utils.ReversibleMap (utils.py 115-130) *)

Record ReversibleMap : Type := {
  rm_map : list (pyobj * pyobj);
  rm_inverse_map : list (pyobj * pyobj)
}.

Module ReversibleMap.

Definition init : ReversibleMap := {| rm_map := []; rm_inverse_map := [] |}.

(* self.map[key] = value
   self.inverse_map[value] = key
   assert len(self.map) == len(self.inverse_map) *)
Definition setitem (key value : pyobj) (m : ReversibleMap) : result ReversibleMap :=
  let map1 := Dict.set key value (rm_map m) in
  let inverse1 := Dict.set value key (rm_inverse_map m) in
  let* _ := assert (length map1 =? length inverse1) in
  Ok {| rm_map := map1; rm_inverse_map := inverse1 |}.

Definition getitem (key : pyobj) (m : ReversibleMap) : result pyobj :=
  subscript (Dict.get key (rm_map m)).

Definition len (m : ReversibleMap) : nat := length (rm_map m).

End ReversibleMap.

(* {a: 1, b: 2} with its inverse *)
Definition two_pairs : ReversibleMap :=
  {| rm_map := [(PStage 0, PInt 1); (PStage 1, PInt 2)];
     rm_inverse_map := [(PInt 1, PStage 0); (PInt 2, PStage 1)] |}.

(** ** utils.RepeatableSet (utils.py 87-112): item -> number of occurrences *)

Module RepeatableSet.

Definition init : list (pyobj * Z) := [].

Definition contains (item : pyobj) (s : list (pyobj * Z)) : bool := Dict.mem item s.

Definition add (item : pyobj) (s : list (pyobj * Z)) : list (pyobj * Z) :=
  match Dict.get item s with
  | Some n => Dict.set item (n + 1)%Z s
  | None => Dict.set item 1%Z s
  end.

(* exit(1) when the item is absent
   self.set[item] -= 1
   if self.set[item] == 0: del self.set[item] *)
Definition remove (item : pyobj) (s : list (pyobj * Z)) : result (list (pyobj * Z)) :=
  match Dict.get item s with
  | None => Raise SystemExit
  | Some n =>
      let s1 := Dict.set item (n - 1)%Z s in
      if (n - 1 =? 0)%Z then Ok (Dict.del item s1) else Ok s1
  end.

End RepeatableSet.

(* a sequence of calls on one RepeatableSet *)
Inductive bag_op : Set :=
| BagAdd (item : pyobj)
| BagRemove (item : pyobj).

#[global] Instance bag_op_eq_dec : EqDecision bag_op.
Proof. solve_decision. Defined.

Definition bag_step (op : bag_op) (s : list (pyobj * Z)) : result (list (pyobj * Z)) :=
  match op with
  | BagAdd item => Ok (RepeatableSet.add item s)
  | BagRemove item => RepeatableSet.remove item s
  end.

Fixpoint bag_run (ops : list bag_op) (s : list (pyobj * Z)) : result (list (pyobj * Z)) :=
  match ops with
  | [] => Ok s
  | op :: rest => let* s1 := bag_step op s in bag_run rest s1
  end.

(* how often [op] occurs in [ops] *)
Definition times (op : bag_op) (ops : list bag_op) : Z :=
  Z.of_nat (length (filter (fun o => o = op) ops)).

(* the stored number of occurrences, 0 for an absent item *)
Definition occurrences (item : pyobj) (s : list (pyobj * Z)) : Z :=
  match Dict.get item s with Some n => n | None => 0%Z end.

(** ** Stage.reset (env.py 133-141, stage.py 100-108) and Job.reset (env.py 289-300) *)

(* what Task.reset leaves of a task *)
Definition unscheduled (x : Task) : Task :=
  {| t_idx := t_idx x; t_duration := t_duration x; t_start_time := None;
     t_finish_time := None; t_executor := None; t_stage := t_stage x |}.

(* what Stage.reset leaves of a stage: executors cleared, counters zero,
   flags False *)
Definition cleared (st : Stage) : Stage :=
  {| s_idx := s_idx st; s_tasks := s_tasks st; s_task_duration := s_task_duration st;
     s_num_tasks := s_num_tasks st; s_num_finished_tasks := 0; s_next_task_idx := 0;
     s_no_more_task := false; s_all_tasks_done := false; s_executors := [];
     s_parent_stages := s_parent_stages st; s_child_stages := s_child_stages st;
     s_job := s_job st |}.

(* for task in self.tasks: task.reset() *)
Fixpoint reset_tasks (tasks : list nat) (w : World) : result World :=
  match tasks with
  | [] => Ok w
  | t :: rest => let* w1 := Task.reset t w in reset_tasks rest w1
  end.

(* Stage.reset *)
Definition stage_reset (s : nat) (w : World) : result World :=
  let* st := get_stage w s in
  let* w1 := reset_tasks (s_tasks st) w in
  let* st1 := get_stage w1 s in
  Ok (put_stage s (cleared st1) w1).

(* for stage in self.stages: stage.reset() *)
Fixpoint reset_stages (stages : list nat) (w : World) : result World :=
  match stages with
  | [] => Ok w
  | s :: rest => let* w1 := stage_reset s w in reset_stages rest w1
  end.

(* Job.reset *)
Definition job_reset (j : nat) (w : World) : result World :=
  let* jb := get_job w j in
  let* w1 := reset_stages (j_stages jb) w in
  let* frontier := Job.runnable_stages (j_stages jb) w1 [] in
  let* jb1 := get_job w1 j in
  Ok (put_job j
        {| j_stages := j_stages jb1; j_adj_mat := j_adj_mat jb1;
           j_num_stages := j_num_stages jb1; j_num_finished_stages := 0;
           j_executors := []; j_frontier_stages := frontier;
           j_executor2interval := j_executor2interval jb1 |} w1).

(* a stage of the store that has no parent stage *)
Definition parentless (w : World) (s : nat) : bool :=
  match w_stages w !! s with
  | Some st => match s_parent_stages st with [] => true | _ :: _ => false end
  | None => false
  end.

(* the answer of is_runnable, False where the call raises *)
Definition runnable_now (w : World) (s : nat) : bool :=
  match Stage.is_runnable s w with
  | Ok b => b
  | Raise _ => false
  end.

(** ** Stage.get_duration (env.py 115-120, stage.py 81-87) and Job.get_duration
       (env.py 286-287) *)

(* sum(xs): 0 + x1 + x2 + ... *)
Definition py_sum (xs : list Q) : Q := fold_left Qplus xs 0%Q.

(* [f(x) for x in xs] *)
Fixpoint collect {A : Type} (f : nat -> World -> result A) (xs : list nat) (w : World)
    : result (list A) :=
  match xs with
  | [] => Ok []
  | x :: rest =>
      let* y := f x w in
      let* ys := collect f rest w in
      Ok (y :: ys)
  end.

Definition stage_get_duration (s : nat) (w : World) : result Q :=
  let* st := get_stage w s in
  let* durations := collect Task.get_duration (s_tasks st) w in
  Ok (py_sum durations).

Definition job_get_duration (j : nat) (w : World) : result Q :=
  let* jb := get_job w j in
  let* durations := collect stage_get_duration (j_stages jb) w in
  Ok (py_sum durations).

(* the duration attribute of a task, and their sum over a stage *)
Definition planned (w : World) (t : nat) : Q :=
  match w_tasks w !! t with Some x => t_duration x | None => 0%Q end.

Definition stage_planned (w : World) (s : nat) : Q :=
  match w_stages w !! s with
  | Some st => py_sum (map (planned w) (s_tasks st))
  | None => 0%Q
  end.

(* the task has been given a start time *)
Definition started (w : World) (t : nat) : bool :=
  match w_tasks w !! t with
  | Some x => match t_start_time x with Some _ => true | None => false end
  | None => false
  end.

(** ** JobDuration.update_duration (env.py 331-340)

    [jd_stages_duration] keeps, for every stage, the [duration] of its
    StageDuration, the only attribute update_duration reads;
    [jd_stages_finished] is the dict {stage: stage}. *)

Record JobDuration : Type := {
  jd_job : nat;
  jd_stages_duration : list (nat * Q);
  jd_job_duration : Q;
  jd_stages_finished : list (nat * nat)
}.

(* for stage in self.job.stages:
       if stage not in self.stages_finished and stage.all_tasks_done:
           wait2remove_duration += self.stages_duration[stage].duration
           self.stages_finished[stage] = stage *)
Fixpoint finished_loop (stages : list nat) (w : World) (durations : list (nat * Q))
    (finished : list (nat * nat)) (wait2remove_duration : Q)
    : result (Q * list (nat * nat)) :=
  match stages with
  | [] => Ok (wait2remove_duration, finished)
  | stage :: rest =>
      if Dict.mem stage finished
      then finished_loop rest w durations finished wait2remove_duration
      else
        let* st := get_stage w stage in
        if s_all_tasks_done st then
          let* d := subscript (Dict.get stage durations) in
          finished_loop rest w durations (Dict.set stage stage finished)
            (wait2remove_duration + d)%Q
        else finished_loop rest w durations finished wait2remove_duration
  end.

Definition update_duration (jd : JobDuration) (w : World) : result JobDuration :=
  let* jb := get_job w (jd_job jd) in
  let* (wait2remove_duration, finished) :=
    finished_loop (j_stages jb) w (jd_stages_duration jd) (jd_stages_finished jd) 0%Q in
  Ok {| jd_job := jd_job jd; jd_stages_duration := jd_stages_duration jd;
        jd_job_duration := (jd_job_duration jd - wait2remove_duration)%Q;
        jd_stages_finished := finished |}.

(* all_tasks_done of a stage of the store *)
Definition done (w : World) (s : nat) : bool :=
  match w_stages w !! s with Some st => s_all_tasks_done st | None => false end.

(* the recorded duration of a stage *)
Definition recorded (jd : JobDuration) (s : nat) : Q :=
  match Dict.get s (jd_stages_duration jd) with Some d => d | None => 0%Q end.

(* the stages a call of update_duration accounts for *)
Definition newly_finished (jd : JobDuration) (w : World) (stages : list nat) : list nat :=
  filter (fun s => Dict.mem s (jd_stages_finished jd) = false /\ done w s = true) stages.

(* one job of two stages with durations 7 and 5; nothing accounted for *)
Definition fresh_account : JobDuration :=
  {| jd_job := 0; jd_stages_duration := [(0, 7%Q); (1, 5%Q)];
     jd_job_duration := 12%Q; jd_stages_finished := [] |}.

(** ** class Timeline (env.py 684-725)

    [priority_queue] holds the tuples (time_slot, arrive_order, item).
    heapq keeps that list as a binary heap; Timeline never shows its
    layout, only [priority_queue[0]] and [heappop], both of which the heap
    property fixes: the least tuple.  The list is kept here in push order
    and the least tuple is searched for.  Tuples compare by time slot, then
    by arrive order; the counter never repeats, so the items themselves are
    never compared. *)

Record Timeline : Type := {
  priority_queue : list (Q * nat * pyobj);
  counter : nat
}.

Definition arrive_order (entry : Q * nat * pyobj) : nat := snd (fst entry).
Definition time_slot (entry : Q * nat * pyobj) : Q := fst (fst entry).

(* a < b on tuples *)
Definition entry_lt (a b : Q * nat * pyobj) : bool :=
  Qlt_bool (time_slot a) (time_slot b)
  || (Qeq_bool (time_slot a) (time_slot b) && (arrive_order a <? arrive_order b)).

Fixpoint smallest (x : Q * nat * pyobj) (rest : list (Q * nat * pyobj)) : Q * nat * pyobj :=
  match rest with
  | [] => x
  | y :: rest' => smallest (if entry_lt y x then y else x) rest'
  end.

Module Timeline.

Definition init : Timeline := {| priority_queue := []; counter := 0 |}.

Definition len (tl : Timeline) : nat := length (priority_queue tl).

Definition peek (tl : Timeline) : option Q * option pyobj :=
  match priority_queue tl with
  | [] => (None, None)
  | x :: rest => let '(time_slot, _, job) := smallest x rest in (Some time_slot, Some job)
  end.

Definition push (time_slot : Q) (job : pyobj) (tl : Timeline) : Timeline :=
  {| priority_queue := priority_queue tl ++ [(time_slot, counter tl, job)];
     counter := S (counter tl) |}.

Definition pop (tl : Timeline) : (option Q * option pyobj) * Timeline :=
  match priority_queue tl with
  | [] => ((None, None), tl)
  | x :: rest =>
      let least := smallest x rest in
      let '(time_slot, _, job) := least in
      ((Some time_slot, Some job),
       {| priority_queue :=
            filter (fun e => arrive_order e <> arrive_order least) (priority_queue tl);
          counter := counter tl |})
  end.

Definition reset : Timeline := init.

End Timeline.

(* the tuple order, as a relation *)
Definition entry_before (a b : Q * nat * pyobj) : Prop :=
  (time_slot a < time_slot b)%Q \/
  ((time_slot a == time_slot b)%Q /\ arrive_order a < arrive_order b).

(* every arrive order in the queue was handed out once, by this counter *)
Definition well_counted (tl : Timeline) : Prop :=
  NoDup (map arrive_order (priority_queue tl)) /\
  forall e, e ∈ priority_queue tl -> arrive_order e < counter tl.

(** ** generate_one_tpch_job: removing the warm-up durations from a first wave
       (env.py 780-789)

    For one executor count [e]: the recorded durations are hashable
    values; [fresh] is task_duration['fresh_durations'][e] and [first] is
    task_duration['first_wave'][e]. *)

(* warmup_durations = utils.RepeatableSet()
   for d in task_duration['fresh_durations'][e]: warmup_durations.add(d) *)
Definition warmup_bag (fresh : list pyobj) : list (pyobj * Z) :=
  fold_left (fun s d => RepeatableSet.add d s) fresh RepeatableSet.init.

(* for d in task_duration['first_wave'][e]:
       if d not in warmup_durations: clean_first_wave[e].append(d)
       else: warmup_durations.remove(d) *)
Fixpoint clean_loop (first : list pyobj) (warmup_durations : list (pyobj * Z))
    (clean : list pyobj) : result (list pyobj) :=
  match first with
  | [] => Ok clean
  | d :: rest =>
      if negb (RepeatableSet.contains d warmup_durations)
      then clean_loop rest warmup_durations (clean ++ [d])
      else
        let* warmup1 := RepeatableSet.remove d warmup_durations in
        clean_loop rest warmup1 clean
  end.

Definition clean_first_wave (fresh first : list pyobj) : result (list pyobj) :=
  clean_loop first (warmup_bag fresh) [].

(* how often a value occurs in a list *)
Definition occ (v : pyobj) (l : list pyobj) : Z :=
  Z.of_nat (length (filter (fun d => d = v) l)).

(** ** generate_one_tpch_job: parent and child stages from the adjacency matrix
       (env.py 813-818) *)

(* adj_mat[p, c]; numpy raises IndexError outside the matrix *)
Definition mat_at (adj_mat : list (list Z)) (p c : nat) : result Z :=
  match adj_mat !! p with
  | Some row => match row !! c with Some v => Ok v | None => Raise IndexError end
  | None => Raise IndexError
  end.

(* stages[p].child_stages.append(stages[c])
   stages[c].parent_stages.append(stages[p]) *)
Definition link (parent child : nat) (w : World) : result World :=
  let* pst := get_stage w parent in
  let w1 := put_stage parent
              (stage_with_children pst (s_child_stages pst ++ [child])) w in
  let* cst := get_stage w1 child in
  Ok (put_stage child (stage_with_parents cst (s_parent_stages cst ++ [parent])) w1).

(* for c in range(num_stages): if adj_mat[p, c] == 1: ... *)
Fixpoint link_row (stages : list nat) (adj_mat : list (list Z)) (p : nat) (cs : list nat)
    (w : World) : result World :=
  match cs with
  | [] => Ok w
  | c :: rest =>
      let* v := mat_at adj_mat p c in
      if (v =? 1)%Z then
        let* parent := match stages !! p with Some s => Ok s | None => Raise IndexError end in
        let* child := match stages !! c with Some s => Ok s | None => Raise IndexError end in
        let* w1 := link parent child w in
        link_row stages adj_mat p rest w1
      else link_row stages adj_mat p rest w
  end.

(* for p in range(num_stages): ... *)
Fixpoint link_rows (stages : list nat) (adj_mat : list (list Z)) (ps : list nat)
    (num_stages : nat) (w : World) : result World :=
  match ps with
  | [] => Ok w
  | p :: rest =>
      let* w1 := link_row stages adj_mat p (seq 0 num_stages) w in
      link_rows stages adj_mat rest num_stages w1
  end.

Definition link_stages (stages : list nat) (adj_mat : list (list Z)) (w : World)
    : result World :=
  let num_stages := Job.shape0 adj_mat in
  link_rows stages adj_mat (seq 0 num_stages) num_stages w.

(* the same loop over an explicit list of index pairs *)
Fixpoint link_pairs (stages : list nat) (adj_mat : list (list Z)) (pairs : list (nat * nat))
    (w : World) : result World :=
  match pairs with
  | [] => Ok w
  | (p, c) :: rest =>
      let* v := mat_at adj_mat p c in
      if (v =? 1)%Z then
        let* parent := match stages !! p with Some s => Ok s | None => Raise IndexError end in
        let* child := match stages !! c with Some s => Ok s | None => Raise IndexError end in
        let* w1 := link parent child w in
        link_pairs stages adj_mat rest w1
      else link_pairs stages adj_mat rest w
  end.

(* a stage with children and parents appended *)
Definition grown (st : Stage) (children parents : list nat) : Stage :=
  stage_with_parents (stage_with_children st (s_child_stages st ++ children))
    (s_parent_stages st ++ parents).

(** ** utils.OrderedSet.index (utils.py 45-57) *)

(* idx = 0
   for k in self.set.keys():
       if item == k: break
       idx += 1 *)
Fixpoint position {A : Type} `{EqDecision A} (item : A) (s : list A) (idx : nat) : nat :=
  match s with
  | [] => idx
  | k :: rest => if decide (item = k) then idx else position item rest (S idx)
  end.

Definition ordered_set_index {A : Type} `{EqDecision A} (item : A) (s : list A)
    : result nat :=
  if negb (OrderedSet.contains item s) then Raise SystemExit
  else Ok (position item s 0).

(** ** generate_one_tpch_job: filling the empty first waves (env.py 791-796) *)

(* sorted(...) on distinct ints, by insertion *)
Fixpoint py_insert (x : Z) (l : list Z) : list Z :=
  match l with
  | [] => [x]
  | y :: rest => if (x <=? y)%Z then x :: l else y :: py_insert x rest
  end.

Definition py_sorted (l : list Z) : list Z := fold_right py_insert [] l.

(* last_first_wave = []
   for e in sorted(clean_first_wave.keys()):
       if len(clean_first_wave[e]) == 0:
           clean_first_wave[e] = last_first_wave
       last_first_wave = clean_first_wave[e] *)
Fixpoint fill_loop (keys : list Z) (clean_first_wave : list (Z * list pyobj))
    (last_first_wave : list pyobj) : result (list (Z * list pyobj)) :=
  match keys with
  | [] => Ok clean_first_wave
  | e :: rest =>
      let* wave := subscript (Dict.get e clean_first_wave) in
      let clean1 := if length wave =? 0
                    then Dict.set e last_first_wave clean_first_wave
                    else clean_first_wave in
      let* last1 := subscript (Dict.get e clean1) in
      fill_loop rest clean1 last1
  end.

Definition fill_first_wave (clean_first_wave : list (Z * list pyobj))
    : result (list (Z * list pyobj)) :=
  fill_loop (py_sorted (Dict.keys clean_first_wave)) clean_first_wave [].

(** * Proofs *)

(** ** Inverting the error monad *)

Lemma bind_ok {A B : Type} (r : result A) (k : A -> result B) (b : B) :
  bind r k = Ok b -> exists a, r = Ok a /\ k a = Ok b.
Proof. destruct r as [a|e]; simpl; intros H; [eauto | discriminate]. Qed.

Lemma from_ref_ok {A : Type} (o : option A) (a : A) : from_ref o = Ok a -> o = Some a.
Proof. destruct o; simpl; congruence. Qed.

Lemma subscript_ok {A : Type} (o : option A) (a : A) : subscript o = Ok a -> o = Some a.
Proof. destruct o; simpl; congruence. Qed.

Lemma assert_ok (b : bool) (u : unit) : assert b = Ok u -> b = true.
Proof. destruct b; simpl; congruence. Qed.

Ltac inv_bind H :=
  let a := fresh "a" in
  let E := fresh "E" in
  apply bind_ok in H; destruct H as (a & E & H).

Ltac inv_ok :=
  repeat match goal with
    | H : Ok _ = Ok _ |- _ => injection H as H; try subst
    | H : from_ref _ = Ok _ |- _ => apply from_ref_ok in H
    | H : subscript _ = Ok _ |- _ => apply subscript_ok in H
    | H : assert _ = Ok _ |- _ => apply assert_ok in H
    | H : Raise _ = Ok _ |- _ => discriminate H
    | H : get_task _ _ = Ok _ |- _ => unfold get_task in H
    | H : get_stage _ _ = Ok _ |- _ => unfold get_stage in H
    | H : get_job _ _ = Ok _ |- _ => unfold get_job in H
    | H : get_executor _ _ = Ok _ |- _ => unfold get_executor in H
    end.

(** ** Task *)

Lemma is_unset_not_set (x : Task) : Task.is_unset x = true -> is_set x = false.
Proof. destruct x as [? ? [?|] [?|] [?|] ?]; cbn; intros H; solve [reflexivity | discriminate H]. Qed.

Lemma is_set_not_unset (x : Task) : is_set x = true -> Task.is_unset x = false.
Proof. destruct x as [? ? [?|] [?|] [?|] ?]; cbn; intros H; solve [reflexivity | discriminate H]. Qed.

(* what a successful Task.schedule leaves in the task store *)
Lemma task_schedule_tasks (w w' : World) (t e : nat) (start duration : Q) :
  Task.schedule t start duration e w = Ok w' ->
  exists x, w_tasks w !! t = Some x /\ Task.is_unset x = true /\
    w_tasks w' =
      <[t := {| t_idx := t_idx x; t_duration := duration; t_start_time := Some start;
                t_finish_time := Some (start + duration)%Q; t_executor := Some e;
                t_stage := t_stage x |}]> (w_tasks w).
Proof.
  unfold Task.schedule. intros H.
  inv_bind H. inv_bind H. inv_bind H. inv_bind H. inv_bind H. inv_ok.
  exists a. repeat split; auto.
Qed.

Lemma task_schedule_set_raises (w : World) (t : nat) (x : Task) :
  w_tasks w !! t = Some x -> is_set x = true ->
  forall start duration e, Task.schedule t start duration e w = Raise AssertionError.
Proof.
  intros Hx Hs start duration e. unfold Task.schedule, get_task.
  rewrite Hx. simpl. rewrite (is_set_not_unset _ Hs). reflexivity.
Qed.

Lemma task_schedule_succeeds (w : World) (t s e : nat) (x : Task) (st : Stage) (ex : Executor)
    (start duration : Q) :
  w_tasks w !! t = Some x -> Task.is_unset x = true -> t_stage x = Some s ->
  w_stages w !! s = Some st -> w_executors w !! e = Some ex ->
  exists w', Task.schedule t start duration e w = Ok w'.
Proof.
  intros Hx Hu Hs Hst Hex. unfold Task.schedule, get_task, get_executor, get_stage.
  rewrite Hx. simpl. rewrite Hu. simpl. rewrite Hex. simpl. rewrite Hs. simpl.
  rewrite Hst. simpl. eauto.
Qed.

Lemma task_schedule_keeps_together (w w' : World) (t e : nat) (start duration : Q) :
  Task.schedule t start duration e w = Ok w' ->
  (forall t2 x2, w_tasks w !! t2 = Some x2 -> fields_together x2) ->
  forall t2 x2, w_tasks w' !! t2 = Some x2 -> fields_together x2.
Proof.
  intros H Hall t2 x2 Hx2.
  destruct (task_schedule_tasks _ _ _ _ _ _ H) as (x & Hx & Hu & Hw).
  rewrite Hw in Hx2. destruct (decide (t = t2)) as [->|Hne].
  - rewrite list_lookup_insert_eq in Hx2 by (eapply lookup_lt_Some; eauto).
    injection Hx2 as <-. right. reflexivity.
  - rewrite list_lookup_insert_ne in Hx2 by assumption. eauto.
Qed.

Lemma task_reset_keeps_together (w w' : World) (t : nat) :
  Task.reset t w = Ok w' ->
  (forall t2 x2, w_tasks w !! t2 = Some x2 -> fields_together x2) ->
  forall t2 x2, w_tasks w' !! t2 = Some x2 -> fields_together x2.
Proof.
  unfold Task.reset. intros H Hall t2 x2 Hx2. inv_bind H. inv_ok. simpl in Hx2.
  destruct (decide (t = t2)) as [->|Hne].
  - rewrite list_lookup_insert_eq in Hx2 by (eapply lookup_lt_Some; eauto).
    injection Hx2 as <-. left. reflexivity.
  - rewrite list_lookup_insert_ne in Hx2 by assumption. eauto.
Qed.

Lemma task_init_unset (idx : nat) (duration : Q) : fields_together (Task.init idx duration).
Proof. left. reflexivity. Qed.

(** C8.  A task on which nothing is set, of a stage of the store, is
    scheduled successfully: the call sets start_time, finish_time and
    executor together, with finish_time = start_time + duration; if every
    task of the store had the three fields all unset or all set before the
    call, so has every task after it; and every further call of schedule on
    that task fails with AssertionError. *)
Theorem task_schedule_sets_fields_once
    (w : World) (t s e : nat) (x : Task) (st : Stage) (ex : Executor) (start duration : Q) :
  w_tasks w !! t = Some x -> Task.is_unset x = true -> t_stage x = Some s ->
  w_stages w !! s = Some st -> w_executors w !! e = Some ex ->
  exists w' x',
    Task.schedule t start duration e w = Ok w' /\
    w_tasks w' !! t = Some x' /\
    t_start_time x' = Some start /\
    t_finish_time x' = Some (start + duration)%Q /\
    t_executor x' = Some e /\
    ((forall t2 x2, w_tasks w !! t2 = Some x2 -> fields_together x2) ->
     forall t2 x2, w_tasks w' !! t2 = Some x2 -> fields_together x2) /\
    (forall start2 duration2 e2,
        Task.schedule t start2 duration2 e2 w' = Raise AssertionError).
Proof.
  intros Hx Hu Hs Hst Hex.
  destruct (task_schedule_succeeds w t s e x st ex start duration Hx Hu Hs Hst Hex)
    as (w' & Hw').
  destruct (task_schedule_tasks _ _ _ _ _ _ Hw') as (x0 & Hx0 & _ & Htasks).
  assert (Hlook : w_tasks w' !! t =
            Some {| t_idx := t_idx x0; t_duration := duration; t_start_time := Some start;
                    t_finish_time := Some (start + duration)%Q; t_executor := Some e;
                    t_stage := t_stage x0 |}).
  { rewrite Htasks. apply list_lookup_insert_eq. eapply lookup_lt_Some; eauto. }
  eexists w', _. split; [exact Hw'|]. split; [exact Hlook|].
  repeat split.
  - intros Hall. eapply task_schedule_keeps_together; eauto.
  - eapply task_schedule_set_raises; [exact Hlook | reflexivity].
Qed.

Lemma task_schedule_sets_fields_once_witness :
  exists w' x',
    Task.schedule 0 2%Q 3%Q 0 (Example.cluster (Example.constant_words 0)) = Ok w' /\
    w_tasks w' !! 0 = Some x' /\
    t_start_time x' = Some 2%Q /\
    t_finish_time x' = Some (2 + 3)%Q /\
    t_executor x' = Some 0 /\
    ((forall t2 x2, w_tasks (Example.cluster (Example.constant_words 0)) !! t2 = Some x2 ->
                    fields_together x2) ->
     forall t2 x2, w_tasks w' !! t2 = Some x2 -> fields_together x2) /\
    (forall start2 duration2 e2,
        Task.schedule 0 start2 duration2 e2 w' = Raise AssertionError).
Proof.
  apply (task_schedule_sets_fields_once (Example.cluster (Example.constant_words 0))
           0 0 0 (Example.task_of 0 0) (Example.stage_of 0 [0; 1] [] [1] false)
           (Example.idle_executor 0 (Some 0)) 2%Q 3%Q); reflexivity.
Defined.

(** C10, first half.  A task whose start_time is unset returns its stored
    duration. *)
Lemma get_duration_unset (w : World) (t : nat) (x : Task) :
  w_tasks w !! t = Some x -> t_start_time x = None ->
  Task.get_duration t w = Ok (t_duration x).
Proof.
  intros Hx Hs. unfold Task.get_duration, get_task. rewrite Hx. simpl.
  rewrite Hs. reflexivity.
Qed.

(** C10.  get_duration is not total: on every task that Task.schedule has
    scheduled it raises TypeError, because the TimeHorizon object itself,
    not its cur_time, is compared with the start time; it does not return
    max(0, finish_time - cur_time). *)
Theorem get_duration_scheduled_raises
    (w w' : World) (t e : nat) (start duration : Q) :
  Task.schedule t start duration e w = Ok w' ->
  Task.get_duration t w' = Raise TypeError.
Proof.
  intros H. destruct (task_schedule_tasks _ _ _ _ _ _ H) as (x & Hx & _ & Htasks).
  unfold Task.get_duration, get_task. rewrite Htasks.
  rewrite list_lookup_insert_eq by (eapply lookup_lt_Some; eauto).
  reflexivity.
Qed.

Lemma get_duration_scheduled_raises_witness :
  exists w',
    Task.schedule 0 2%Q 3%Q 0 (Example.cluster (Example.constant_words 0)) = Ok w' /\
    Task.get_duration 0 w' = Raise TypeError.
Proof.
  eexists. split.
  - vm_compute. reflexivity.
  - apply (get_duration_scheduled_raises (Example.cluster (Example.constant_words 0))
             _ 0 0 2%Q 3%Q).
    vm_compute. reflexivity.
Defined.

(** C5.  In env.py the call that schedules the last task of a frontier
    stage raises AttributeError instead of returning the task: the first
    call on stage 0 (two tasks, in the frontier) returns task 0, and the
    second, with next_task_idx = num_tasks - 1, raises.  The same call
    through spark_env/stage.py returns task 1, sets no_more_task and takes
    the stage out of the frontier. *)
Theorem schedule_last_task_raises_AttributeError :
  exists w1 st1 jb1,
    Stage.schedule Example.args 0 0 (Example.cluster (Example.constant_words 0)) = Ok (0, w1) /\
    w_stages w1 !! 0 = Some st1 /\ w_jobs w1 !! 0 = Some jb1 /\
    s_next_task_idx st1 = s_num_tasks st1 - 1 /\
    OrderedSet.contains (PStage 0) (j_frontier_stages jb1) = true /\
    Stage.schedule Example.args 0 0 w1 = Raise AttributeError /\
    exists w2 st2 jb2,
      SparkEnvStage.schedule Example.args 0 0 w1 = Ok (1, w2) /\
      w_stages w2 !! 0 = Some st2 /\ w_jobs w2 !! 0 = Some jb2 /\
      s_no_more_task st2 = true /\
      OrderedSet.contains (PStage 0) (j_frontier_stages jb2) = false.
Proof.
  eexists _, _, _. split; [vm_compute; reflexivity|].
  split; [reflexivity|]. split; [reflexivity|].
  split; [reflexivity|]. split; [reflexivity|].
  split; [vm_compute; reflexivity|].
  eexists _, _, _. split; [vm_compute; reflexivity|].
  repeat split.
Qed.

(** C1.  Two runs with the same per-episode generator and the same decision
    (stage 0 receives executor 0) that differ only in the state of numpy's
    global generator sample different durations and finish times for the
    same task: the duration draw of Stage.schedule reads np.random, not
    self.np_random.  Both copies of the method behave so. *)
Theorem schedule_duration_reads_global_random :
  let run_a := Example.cluster (Example.constant_words 0) in
  let run_b := Example.cluster (Example.constant_words 1) in
  w_np_random run_a = w_np_random run_b /\
  put_global_random (w_global_random run_a) run_b = run_a /\
  exists wa wb xa xb,
    Stage.schedule Example.args 0 0 run_a = Ok (0, wa) /\
    Stage.schedule Example.args 0 0 run_b = Ok (0, wb) /\
    SparkEnvStage.schedule Example.args 0 0 run_a = Ok (0, wa) /\
    SparkEnvStage.schedule Example.args 0 0 run_b = Ok (0, wb) /\
    w_tasks wa !! 0 = Some xa /\ w_tasks wb !! 0 = Some xb /\
    t_duration xa = 10%Q /\ t_duration xb = 20%Q /\
    t_finish_time xa = Some 10%Q /\ t_finish_time xb = Some 20%Q /\
    w_np_random wa = w_np_random wb.
Proof.
  split; [reflexivity|]. split; [reflexivity|].
  eexists _, _, _, _.
  split; [vm_compute; reflexivity|]. split; [vm_compute; reflexivity|].
  split; [vm_compute; reflexivity|]. split; [vm_compute; reflexivity|].
  repeat split.
Qed.

(** C4.  update_frontier_stages reports a change when there is none: after
    stage 0 has finished, the first call adds its runnable child and returns
    true; a second call finds the child already in the frontier, leaves the
    store as it is, and returns true again.  The membership test asks for
    the int child.idx in a set of Stage objects. *)
Theorem update_frontier_stages_reports_unchanged_as_changed :
  exists w1 jb1,
    Job.update_frontier_stages 0 0 Example.parent_done = Ok (true, w1) /\
    w_jobs w1 !! 0 = Some jb1 /\
    j_frontier_stages jb1 = [PStage 1] /\
    Stage.is_runnable 1 w1 = Ok true /\
    Job.update_frontier_stages 0 0 w1 = Ok (true, w1).
Proof.
  eexists _, _. split; [vm_compute; reflexivity|].
  split; [reflexivity|]. split; [reflexivity|].
  split; vm_compute; reflexivity.
Qed.

(** ** The interval table and the executor key *)

Lemma pick_side_left (lo hi n r : Z) :
  (r <= n - lo)%Z -> pick_side lo hi n r = lo.
Proof. intros H. unfold pick_side. destruct (Z.leb_spec r (n - lo)); [reflexivity | lia]. Qed.

Lemma pick_side_right (lo hi n r : Z) :
  (n - lo < r)%Z -> pick_side lo hi n r = hi.
Proof. intros H. unfold pick_side. destruct (Z.leb_spec r (n - lo)); [lia | reflexivity]. Qed.

(* the interval table of the documented configuration: points 5 and 10,
   capacity 12 *)
Lemma interval_map_boundaries :
  get_executor_interval_map Example.args = Ok Example.interval_map /\
  Forall (fun e => Dict.get e Example.interval_map = Some (5, 5)%Z) (range 0 6) /\
  Forall (fun e => Dict.get e Example.interval_map = Some (5, 10)%Z) (range 6 10) /\
  Forall (fun e => Dict.get e Example.interval_map = Some (10, 10)%Z) (range 10 13) /\
  Dict.get 13%Z Example.interval_map = None.
Proof.
  split; [reflexivity|].
  split; [|split; [|split]]; try reflexivity;
    vm_compute; repeat constructor.
Qed.

(** C7.  Between two recorded points the draw favours the farther one, not
    the nearer: with the points 5 and 10, the count 6 is resolved by one
    draw from 1..5, of which only the draw 1 gives 5 and the draws 2, 3, 4, 5
    give 10; for the count 9 the draws 1..4 give 5 and only 5 gives 10.
    Both copies of sample_executor_key return 10 for six executors on the
    draw 2. *)
Theorem executor_key_favours_the_farther_point :
  Dict.get 6%Z Example.interval_map = Some (5, 10)%Z /\
  draws_resolving_to 5 5 10 6 = [1]%Z /\
  draws_resolving_to 10 5 10 6 = [2; 3; 4; 5]%Z /\
  draws_resolving_to 5 5 10 9 = [1; 2; 3; 4]%Z /\
  draws_resolving_to 10 5 10 9 = [5]%Z /\
  (exists w', Stage.sample_executor_key 0 6
                (Example.six_executors (Example.constant_words 1)) = Ok (10%Z, w')) /\
  (exists w', SparkEnvStage.sample_executor_key 0 6
                (Example.six_executors (Example.constant_words 1)) = Ok (10%Z, w')).
Proof.
  repeat split; try reflexivity; eexists; vm_compute; reflexivity.
Qed.

(** ** merge_jobs *)

(** C9.  The merged matrix links the last stage of the previous job, not its
    sink.  Job 0 has the edge stage 1 -> stage 0, so its only sink is
    stage 0; job 1 is the single stage 2.  merge_jobs succeeds and the
    merged matrix holds the edge 1 -> 2 and no edge 0 -> 2, while the
    stage lists hold the edge 0 -> 2: stage 0 (the sink) gets the child 2,
    stage 2 gets the parent 0, and stage 1 keeps stage 0 as its only child. *)
Theorem merge_jobs_links_last_stage_in_matrix :
  exists j w' jb s0 s1 s2,
    Merge.merge_jobs Example.args [0; 1] Example.sink_first = Ok (j, w') /\
    w_jobs w' !! j = Some jb /\
    j_adj_mat jb = [[0; 0; 0]; [1; 0; 1]; [0; 0; 0]]%Z /\
    j_stages jb = [0; 1; 2] /\
    w_stages w' !! 0 = Some s0 /\ w_stages w' !! 1 = Some s1 /\ w_stages w' !! 2 = Some s2 /\
    s_child_stages s0 = [2] /\ s_parent_stages s2 = [0] /\ s_child_stages s1 = [0] /\
    mat_get (j_adj_mat jb) 0 2 = 0%Z /\ mat_get (j_adj_mat jb) 1 2 = 1%Z.
Proof.
  eexists _, _, _, _, _, _. split; [vm_compute; reflexivity|].
  repeat split.
Qed.

(* the scenario of the specification: when the sink of the previous job is
   its last stage, matrix and lists agree *)
Lemma merge_jobs_sink_last :
  exists j w' jb s0 s1 s2,
    Merge.merge_jobs Example.args [0; 1] Example.sink_last = Ok (j, w') /\
    w_jobs w' !! j = Some jb /\
    j_adj_mat jb = [[0; 1; 0]; [0; 0; 1]; [0; 0; 0]]%Z /\
    w_stages w' !! 0 = Some s0 /\ w_stages w' !! 1 = Some s1 /\ w_stages w' !! 2 = Some s2 /\
    s_child_stages s1 = [2] /\ s_parent_stages s2 = [1] /\
    s_idx s0 = 0 /\ s_idx s1 = 1 /\ s_idx s2 = 2.
Proof.
  eexists _, _, _, _, _, _. split; [vm_compute; reflexivity|].
  repeat split.
Qed.

(** ** The duration protocol of Stage.schedule *)

Lemma bucket_draw_nil (g : RandomState) : bucket_draw [] g = Raise ValueError.
Proof. reflexivity. Qed.

Lemma length_pos_cons {A : Type} (l : list A) :
  (0 <? length l) = true -> exists a l', l = a :: l'.
Proof. destruct l; simpl; [discriminate | eauto]. Qed.

Lemma length_pos_nil {A : Type} (l : list A) : (0 <? length l) = false -> l = [].
Proof. destruct l; simpl; [reflexivity | discriminate]. Qed.

(* with an entry for the key in each of the three tables, the source's
   if / elif / else is the case analysis of the specification, errors
   included *)
Lemma sample_duration_classified (args : Args) (td : TaskDuration) (key : Z)
    (absent different same : bool) (g : RandomState) (fb fw rw : list Q) :
  Dict.get key (fresh_durations td) = Some fb ->
  Dict.get key (first_wave td) = Some fw ->
  Dict.get key (rest_wave td) = Some rw ->
  sample_duration args td key (absent || different) (negb absent && same) g =
  draw_for args (classify absent different (negb absent && same) rw) fb fw rw g.
Proof.
  intros Hfb Hfw Hrw. unfold sample_duration, classify.
  rewrite Hfb, Hfw, Hrw. simpl.
  destruct (absent || different) eqn:Hfresh; simpl.
  - destruct fb; reflexivity.
  - destruct (negb absent && same); simpl.
    + destruct rw; simpl; [destruct fw; reflexivity | reflexivity].
    + destruct fw; reflexivity.
Qed.

(* a successful run of the source's if / elif / else drew what the case
   analysis of the specification draws *)
Lemma sample_duration_ok (args : Args) (td : TaskDuration) (key : Z)
    (fresh same : bool) (g : RandomState) (r : Q * RandomState) :
  sample_duration args td key fresh same g = Ok r ->
  draw_for args
    (if fresh then FreshWave
     else if same && negb (length (bucket key (rest_wave td)) =? 0) then RestWave
     else FirstWave)
    (bucket key (fresh_durations td)) (bucket key (first_wave td))
    (bucket key (rest_wave td)) g = Ok r.
Proof.
  unfold sample_duration, bucket.
  destruct (Dict.get key (fresh_durations td)) as [[|? fb]|];
    destruct (Dict.get key (first_wave td)) as [[|? fw]|];
    destruct (Dict.get key (rest_wave td)) as [[|? rw]|];
    destruct fresh, same; simpl; intros H;
    solve [discriminate H | exact H].
Qed.

(* what the steps of Stage.schedule leave alone *)
Lemma detach_stage_frame (e : nat) (w w' : World) :
  Executor.detach_stage e w = Ok w' ->
  w_tasks w' = w_tasks w /\ w_time w' = w_time w /\
  w_global_random w' = w_global_random w /\ w_np_random w' = w_np_random w /\
  w_jobs w' = w_jobs w.
Proof.
  unfold Executor.detach_stage. intros H. inv_bind H. inv_bind H. inv_ok.
  destruct (e_stage a) as [s|]; [|inv_ok; auto].
  inv_bind E0. destruct (OrderedSet.contains e (s_executors a1)); [|inv_ok; auto].
  inv_bind E0. inv_ok. auto.
Qed.

Lemma resolve_interval_frame (s : nat) (n key : Z) (w w1 : World) :
  StageCommon.resolve_interval s n w = Ok (key, w1) ->
  w_tasks w1 = w_tasks w /\ w_stages w1 = w_stages w /\ w_jobs w1 = w_jobs w /\
  w_executors w1 = w_executors w /\ w_time w1 = w_time w /\
  w_global_random w1 = w_global_random w.
Proof.
  unfold StageCommon.resolve_interval. intros H.
  inv_bind H. inv_bind H. inv_bind H. inv_bind H. destruct a2 as [lo hi].
  destruct (lo =? hi)%Z; [inv_ok; auto 10|].
  inv_bind H. destruct a2 as [r g']. inv_ok. auto 10.
Qed.

Lemma stage_sample_executor_key_frame (s : nat) (n key : Z) (w w1 : World) :
  Stage.sample_executor_key s n w = Ok (key, w1) ->
  w_tasks w1 = w_tasks w /\ w_stages w1 = w_stages w /\ w_jobs w1 = w_jobs w /\
  w_executors w1 = w_executors w /\ w_time w1 = w_time w /\
  w_global_random w1 = w_global_random w.
Proof.
  unfold Stage.sample_executor_key. intros H. inv_bind H. destruct a as [k w0].
  inv_bind H. apply resolve_interval_frame in E.
  destruct (negb (Dict.mem k (first_wave (s_task_duration a)))); inv_ok; exact E.
Qed.

Lemma spark_sample_executor_key_frame (s : nat) (n key : Z) (w w1 : World) :
  SparkEnvStage.sample_executor_key s n w = Ok (key, w1) ->
  w_tasks w1 = w_tasks w /\ w_stages w1 = w_stages w /\ w_jobs w1 = w_jobs w /\
  w_executors w1 = w_executors w /\ w_time w1 = w_time w /\
  w_global_random w1 = w_global_random w.
Proof.
  unfold SparkEnvStage.sample_executor_key. intros H. inv_bind H. destruct a as [k w0].
  inv_bind H. apply resolve_interval_frame in E.
  destruct (negb (Dict.mem k (first_wave (s_task_duration a)))).
  - inv_bind H. inv_ok. exact E.
  - inv_ok. exact E.
Qed.

Lemma stage_leave_frontier_frame (s : nat) (w w' : World) :
  Stage.leave_frontier s w = Ok w' -> w' = w.
Proof.
  unfold Stage.leave_frontier. intros H. inv_bind H. inv_bind H. inv_bind H.
  destruct (OrderedSet.contains (PStage s) (j_frontier_stages a1)); inv_ok; reflexivity.
Qed.

Lemma spark_leave_frontier_frame (s : nat) (w w' : World) :
  SparkEnvStage.leave_frontier s w = Ok w' ->
  w_tasks w' = w_tasks w /\ w_global_random w' = w_global_random w.
Proof.
  unfold SparkEnvStage.leave_frontier. intros H. inv_bind H. inv_bind H. inv_bind H.
  destruct (OrderedSet.contains (PStage s) (j_frontier_stages a1)).
  - inv_bind H. inv_ok. auto.
  - inv_ok. auto.
Qed.
Lemma wave_of_fresh (w : World) (ex : Executor) (x : Task) (rw : list Q) (fresh same : bool) :
  StageCommon.is_fresh ex x w = Ok fresh ->
  (if fresh then Ok false else StageCommon.on_same_stage ex x w) = Ok same ->
  wave_of w ex x rw =
    Ok (if fresh then FreshWave
        else if same && negb (length rw =? 0) then RestWave else FirstWave).
Proof.
  unfold StageCommon.is_fresh, StageCommon.on_same_stage, wave_of, classify.
  destruct (e_task ex) as [bt|]; intros Hf Hs.
  - inv_bind Hf. inv_bind Hf. inv_bind Hf. inv_bind Hf. inv_bind Hf.
    rewrite E; simpl; rewrite E0; simpl; rewrite E1; simpl; rewrite E2; simpl;
      rewrite E3; simpl. injection Hf as <-.
    destruct (negb (bool_decide (s_job a1 = s_job a3))); simpl; [reflexivity|].
    rewrite E in Hs. simpl in Hs. injection Hs as <-. reflexivity.
  - injection Hf as <-. reflexivity.
Qed.

Lemma task_schedule_frame (w w' : World) (t e : nat) (start duration : Q) :
  Task.schedule t start duration e w = Ok w' ->
  w_global_random w' = w_global_random w /\ w_np_random w' = w_np_random w /\
  w_time w' = w_time w /\ w_jobs w' = w_jobs w /\ w_stages w' = w_stages w.
Proof.
  unfold Task.schedule. intros H.
  inv_bind H. inv_bind H. inv_bind H. inv_bind H. inv_bind H. inv_ok. auto.
Qed.

Lemma schedule_with_draws_by_case
    (sek : nat -> Z -> World -> result (Z * World))
    (lf : nat -> World -> result World)
    (args : Args) (s e t : nat) (w w' : World) :
  (forall s n w key w1, sek s n w = Ok (key, w1) ->
     w_time w1 = w_time w) ->
  (forall s w w', lf s w = Ok w' ->
     w_tasks w' = w_tasks w /\ w_global_random w' = w_global_random w) ->
  schedule_with sek lf args s e w = Ok (t, w') ->
  exists st j jb key w1 ex x c d g' x',
    w_stages w !! s = Some st /\ s_job st = Some j /\ w_jobs w !! j = Some jb /\
    s_tasks st !! s_next_task_idx st = Some t /\
    sek s (Z.of_nat (length (j_executors jb))) w = Ok (key, w1) /\
    w_executors w1 !! e = Some ex /\ w_tasks w1 !! t = Some x /\
    wave_of w1 ex x (bucket key (rest_wave (s_task_duration st))) = Ok c /\
    draw_for args c
      (bucket key (fresh_durations (s_task_duration st)))
      (bucket key (first_wave (s_task_duration st)))
      (bucket key (rest_wave (s_task_duration st)))
      (w_global_random w1) = Ok (d, g') /\
    w_tasks w' !! t = Some x' /\
    t_duration x' = d /\
    t_start_time x' = Some (w_time w) /\
    t_finish_time x' = Some (w_time w + d)%Q /\
    w_global_random w' = g'.
Proof.
  intros Hsek Hlf H. unfold schedule_with in H.
  inv_bind H. inv_bind H. inv_bind H. inv_bind H. inv_bind H. inv_bind H. inv_bind H.
  destruct a5 as [key w1].
  inv_bind H. inv_bind H. inv_bind H. inv_bind H. inv_bind H.
  match goal with
  | D : sample_duration _ _ _ _ _ _ = Ok ?p |- _ => destruct p as [d g']
  end.
  inv_bind H. inv_bind H. inv_bind H. inv_bind H. inv_bind H. inv_bind H.
  injection H as Ht Hw. subst a1.
  pose proof (wave_of_fresh _ _ _ (bucket key (rest_wave (s_task_duration a))) _ _ E8 E9)
    as Hwave.
  pose proof (sample_duration_ok _ _ _ _ _ _ _ E10) as Hdraw.
  destruct (detach_stage_frame _ _ _ E11) as (Ht9 & Htime9 & Hg9 & _).
  destruct (task_schedule_tasks _ _ _ _ _ _ E12) as (x0 & Hx0 & _ & Ht10).
  destruct (task_schedule_frame _ _ _ _ _ _ E12) as (Hg10 & _).
  assert (Hfinal : w_tasks w' = w_tasks a10 /\ w_global_random w' = w_global_random a10).
  { subst w'. destruct (s_num_tasks a13 <=? S (s_next_task_idx a13)).
    - apply Hlf in E16. exact E16.
    - injection E16 as <-. split; reflexivity. }
  destruct Hfinal as (Htf & Hgf).
  simpl in Htime9, Hg9, Ht9.
  rewrite (Hsek _ _ _ _ _ E5) in Htime9.
  unfold stage_job in E2. destruct (s_job a) as [j|] eqn:Hj; [|discriminate E2].
  injection E2 as <-.
  destruct (s_tasks a !! s_next_task_idx a) as [t0|] eqn:Htask; [|discriminate E1].
  injection E1 as ->.
  inv_ok.
  eexists a, j, a3, key, w1, a5, a6, _, d, g', _.
  repeat split; try eassumption.
  - rewrite Htf, Ht10. apply list_lookup_insert_eq. eapply lookup_lt_Some; eauto.
  - reflexivity.
  - simpl. rewrite Htime9. reflexivity.
  - simpl. rewrite Htime9. reflexivity.
  - rewrite Hgf, Hg10. exact Hg9.
Qed.

(* a draw of a case is the element of the case's bucket at the index
   randint(len(bucket)) returns, with the warm-up delay added on the fresh
   fall-back *)
Lemma bucket_draw_index (b : list Q) (g g' : RandomState) (d : Q) :
  bucket_draw b g = Ok (d, g') ->
  exists i, randint 0 (Z.of_nat (length b)) g = Ok (Z.of_nat i, g') /\ b !! i = Some d.
Proof.
  unfold bucket_draw. intros H. inv_bind H. destruct a as [z g1].
  destruct (b !! Z.to_nat z) as [d1|] eqn:Hd; [|discriminate H].
  injection H as <- <-. exists (Z.to_nat z). split; [|exact Hd].
  rewrite E. unfold randint in E.
  destruct (0 <? Z.of_nat (length b))%Z eqn:Hlt; [|discriminate E].
  injection E as <- _. apply Z.ltb_lt in Hlt.
  pose proof (Z.mod_pos_bound (rs_words g (rs_pos g)) (Z.of_nat (length b) - 0)).
  rewrite Z2Nat.id by lia. reflexivity.
Qed.

Lemma draw_for_selected (args : Args) (c : wave) (fb fw rw : list Q)
    (g g' : RandomState) (d : Q) :
  draw_for args c fb fw rw g = Ok (d, g') ->
  exists i d0,
    randint 0 (Z.of_nat (length (drawn_bucket c fb fw rw))) g = Ok (Z.of_nat i, g') /\
    drawn_bucket c fb fw rw !! i = Some d0 /\
    d = (if delayed c fb then (d0 + warmup_delay args)%Q else d0).
Proof.
  unfold draw_for, drawn_bucket, delayed. intros H.
  destruct c.
  - destruct fb as [|q fb].
    + inv_bind H. destruct a as [d0 g1]. injection H as <- <-.
      apply bucket_draw_index in E as (i & Hi & Hl). exists i, d0. auto.
    + apply bucket_draw_index in H as (i & Hi & Hl). exists i, d. auto.
  - apply bucket_draw_index in H as (i & Hi & Hl). exists i, d. auto.
  - destruct fw as [|q fw]; apply bucket_draw_index in H as (i & Hi & Hl);
      exists i, d; auto.
Qed.

Lemma schedule_with_selected_bucket
    (sek : nat -> Z -> World -> result (Z * World))
    (lf : nat -> World -> result World)
    (args : Args) (s e t : nat) (w w' : World) :
  (forall s n w key w1, sek s n w = Ok (key, w1) ->
     w_time w1 = w_time w) ->
  (forall s w w', lf s w = Ok w' ->
     w_tasks w' = w_tasks w /\ w_global_random w' = w_global_random w) ->
  schedule_with sek lf args s e w = Ok (t, w') ->
  exists st j jb key w1 ex x c d g' x' sel i d0,
    w_stages w !! s = Some st /\ s_job st = Some j /\ w_jobs w !! j = Some jb /\
    s_tasks st !! s_next_task_idx st = Some t /\
    sek s (Z.of_nat (length (j_executors jb))) w = Ok (key, w1) /\
    w_executors w1 !! e = Some ex /\ w_tasks w1 !! t = Some x /\
    wave_of w1 ex x (bucket key (rest_wave (s_task_duration st))) = Ok c /\
    draw_for args c
      (bucket key (fresh_durations (s_task_duration st)))
      (bucket key (first_wave (s_task_duration st)))
      (bucket key (rest_wave (s_task_duration st)))
      (w_global_random w1) = Ok (d, g') /\
    sel = drawn_bucket c
            (bucket key (fresh_durations (s_task_duration st)))
            (bucket key (first_wave (s_task_duration st)))
            (bucket key (rest_wave (s_task_duration st))) /\
    randint 0 (Z.of_nat (length sel)) (w_global_random w1) = Ok (Z.of_nat i, g') /\
    sel !! i = Some d0 /\
    d = (if delayed c (bucket key (fresh_durations (s_task_duration st)))
         then (d0 + warmup_delay args)%Q else d0) /\
    w_tasks w' !! t = Some x' /\
    t_duration x' = d /\
    t_start_time x' = Some (w_time w) /\
    t_finish_time x' = Some (w_time w + d)%Q /\
    w_global_random w' = g'.
Proof.
  intros Hsek Hlf H.
  destruct (schedule_with_draws_by_case sek lf args s e t w w' Hsek Hlf H)
    as (st & j & jb & key & w1 & ex & x & c & d & g' & x' &
        H1 & H2 & H3 & H4 & H5 & H6 & H7 & H8 & H9 & H10 & H11 & H12 & H13 & H14).
  destruct (draw_for_selected _ _ _ _ _ _ _ _ H9) as (i & d0 & Hi & Hl & Hd).
  eexists st, j, jb, key, w1, ex, x, c, d, g', x', _, i, d0.
  split; [exact H1|]. split; [exact H2|]. split; [exact H3|]. split; [exact H4|].
  split; [exact H5|]. split; [exact H6|]. split; [exact H7|]. split; [exact H8|].
  split; [exact H9|]. split; [reflexivity|]. split; [exact Hi|]. split; [exact Hl|].
  split; [exact Hd|]. split; [exact H10|]. split; [exact H11|]. split; [exact H12|].
  split; [exact H13 | exact H14].
Qed.

(** C6.  A call of Stage.schedule that returns has handled the executor by
    exactly one of the three cases, tried in the order fresh, rest-wave,
    first-wave, and the duration it gave the task is the draw of that case
    from the buckets of the resolved key: fresh draws from fresh_durations
    or, when that bucket is empty, from first_wave plus the warm-up delay;
    rest-wave draws from rest_wave; first-wave draws from first_wave or,
    when that bucket is empty, from fresh_durations.  A draw is the element
    of that bucket at the index randint(len(bucket)) returns on the global
    generator: [sel] is the bucket drawn from, [i] the index and [d0] the
    element found there. *)
Theorem schedule_draws_by_case (args : Args) (s e t : nat) (w w' : World) :
  Stage.schedule args s e w = Ok (t, w') ->
  exists st j jb key w1 ex x c d g' x' sel i d0,
    w_stages w !! s = Some st /\ s_job st = Some j /\ w_jobs w !! j = Some jb /\
    s_tasks st !! s_next_task_idx st = Some t /\
    Stage.sample_executor_key s (Z.of_nat (length (j_executors jb))) w = Ok (key, w1) /\
    w_executors w1 !! e = Some ex /\ w_tasks w1 !! t = Some x /\
    wave_of w1 ex x (bucket key (rest_wave (s_task_duration st))) = Ok c /\
    draw_for args c
      (bucket key (fresh_durations (s_task_duration st)))
      (bucket key (first_wave (s_task_duration st)))
      (bucket key (rest_wave (s_task_duration st)))
      (w_global_random w1) = Ok (d, g') /\
    sel = drawn_bucket c
            (bucket key (fresh_durations (s_task_duration st)))
            (bucket key (first_wave (s_task_duration st)))
            (bucket key (rest_wave (s_task_duration st))) /\
    randint 0 (Z.of_nat (length sel)) (w_global_random w1) = Ok (Z.of_nat i, g') /\
    sel !! i = Some d0 /\
    d = (if delayed c (bucket key (fresh_durations (s_task_duration st)))
         then (d0 + warmup_delay args)%Q else d0) /\
    w_tasks w' !! t = Some x' /\
    t_duration x' = d /\
    t_start_time x' = Some (w_time w) /\
    t_finish_time x' = Some (w_time w + d)%Q /\
    w_global_random w' = g'.
Proof.
  apply schedule_with_selected_bucket.
  - intros s0 n w0 key w1 H. apply stage_sample_executor_key_frame in H. tauto.
  - intros s0 w0 w1 H. apply stage_leave_frontier_frame in H. subst. auto.
Qed.

Lemma schedule_draws_by_case_witness :
  exists w',
    Stage.schedule Example.args 0 0 (Example.cluster (Example.constant_words 1)) = Ok (0, w') /\
    exists st j jb key w1 ex x c d g' x' sel i d0,
      w_stages (Example.cluster (Example.constant_words 1)) !! 0 = Some st /\
      s_job st = Some j /\
      w_jobs (Example.cluster (Example.constant_words 1)) !! j = Some jb /\
      s_tasks st !! s_next_task_idx st = Some 0 /\
      Stage.sample_executor_key 0 (Z.of_nat (length (j_executors jb)))
        (Example.cluster (Example.constant_words 1)) = Ok (key, w1) /\
      w_executors w1 !! 0 = Some ex /\ w_tasks w1 !! 0 = Some x /\
      wave_of w1 ex x (bucket key (rest_wave (s_task_duration st))) = Ok c /\
      draw_for Example.args c
        (bucket key (fresh_durations (s_task_duration st)))
        (bucket key (first_wave (s_task_duration st)))
        (bucket key (rest_wave (s_task_duration st)))
        (w_global_random w1) = Ok (d, g') /\
      sel = drawn_bucket c
              (bucket key (fresh_durations (s_task_duration st)))
              (bucket key (first_wave (s_task_duration st)))
              (bucket key (rest_wave (s_task_duration st))) /\
      randint 0 (Z.of_nat (length sel)) (w_global_random w1) = Ok (Z.of_nat i, g') /\
      sel !! i = Some d0 /\
      d = (if delayed c (bucket key (fresh_durations (s_task_duration st)))
           then (d0 + warmup_delay Example.args)%Q else d0) /\
      w_tasks w' !! 0 = Some x' /\
      t_duration x' = d /\
      t_start_time x' = Some (w_time (Example.cluster (Example.constant_words 1))) /\
      t_finish_time x' = Some (w_time (Example.cluster (Example.constant_words 1)) + d)%Q /\
      w_global_random w' = g'.
Proof.
  eexists. split.
  - vm_compute. reflexivity.
  - apply (schedule_draws_by_case Example.args 0 0 0
             (Example.cluster (Example.constant_words 1))).
    vm_compute. reflexivity.
Defined.

(* the copy in spark_env/stage.py follows the same protocol *)
Lemma spark_env_schedule_by_case (args : Args) (s e t : nat) (w w' : World) :
  SparkEnvStage.schedule args s e w = Ok (t, w') ->
  exists st j jb key w1 ex x c d g' x' sel i d0,
    w_stages w !! s = Some st /\ s_job st = Some j /\ w_jobs w !! j = Some jb /\
    s_tasks st !! s_next_task_idx st = Some t /\
    SparkEnvStage.sample_executor_key s (Z.of_nat (length (j_executors jb))) w = Ok (key, w1) /\
    w_executors w1 !! e = Some ex /\ w_tasks w1 !! t = Some x /\
    wave_of w1 ex x (bucket key (rest_wave (s_task_duration st))) = Ok c /\
    draw_for args c
      (bucket key (fresh_durations (s_task_duration st)))
      (bucket key (first_wave (s_task_duration st)))
      (bucket key (rest_wave (s_task_duration st)))
      (w_global_random w1) = Ok (d, g') /\
    sel = drawn_bucket c
            (bucket key (fresh_durations (s_task_duration st)))
            (bucket key (first_wave (s_task_duration st)))
            (bucket key (rest_wave (s_task_duration st))) /\
    randint 0 (Z.of_nat (length sel)) (w_global_random w1) = Ok (Z.of_nat i, g') /\
    sel !! i = Some d0 /\
    d = (if delayed c (bucket key (fresh_durations (s_task_duration st)))
         then (d0 + warmup_delay args)%Q else d0) /\
    w_tasks w' !! t = Some x' /\
    t_duration x' = d /\
    t_start_time x' = Some (w_time w) /\
    t_finish_time x' = Some (w_time w + d)%Q /\
    w_global_random w' = g'.
Proof.
  apply schedule_with_selected_bucket.
  - intros s0 n w0 key w1 H. apply spark_sample_executor_key_frame in H. tauto.
  - intros s0 w0 w1 H. apply spark_leave_frontier_frame in H. exact H.
Qed.

(* the three cases on the example cluster: an idle executor is fresh; the
   same executor on the same stage draws from rest_wave; on the next stage
   of the job it draws from first_wave *)
Lemma three_cases_on_the_cluster :
  exists w1 w2 w3 x0 x1 x2,
    SparkEnvStage.schedule Example.args 0 0 (Example.cluster (Example.constant_words 1))
      = Ok (0, w1) /\
    SparkEnvStage.schedule Example.args 0 0 w1 = Ok (1, w2) /\
    SparkEnvStage.schedule Example.args 1 0 w2 = Ok (2, w3) /\
    w_tasks w3 !! 0 = Some x0 /\ w_tasks w3 !! 1 = Some x1 /\ w_tasks w3 !! 2 = Some x2 /\
    t_duration x0 = 20%Q /\ t_duration x1 = 2%Q /\ t_duration x2 = 4%Q.
Proof.
  eexists _, _, _, _, _, _.
  split; [vm_compute; reflexivity|]. split; [vm_compute; reflexivity|].
  split; [vm_compute; reflexivity|]. repeat split.
Qed.

(** ** Dicts *)

Section DictFacts.
Context {K V : Type} `{EqDecision K}.
Implicit Types (k : K) (v : V) (d : list (K * V)).

Lemma get_set_eq k v d : Dict.get k (Dict.set k v d) = Some v.
Proof.
  induction d as [|[k' v'] d IH]; simpl.
  - destruct (decide (k = k)); congruence.
  - destruct (decide (k' = k)) as [->|Hne]; simpl.
    + destruct (decide (k = k)); congruence.
    + destruct (decide (k' = k)); [contradiction | exact IH].
Qed.

Lemma get_set_ne k k' v d : k <> k' -> Dict.get k' (Dict.set k v d) = Dict.get k' d.
Proof.
  intros Hne. induction d as [|[k0 v0] d IH]; simpl.
  - destruct (decide (k = k')); [contradiction | reflexivity].
  - destruct (decide (k0 = k)) as [->|Hk0]; simpl.
    + destruct (decide (k = k')); [contradiction | reflexivity].
    + destruct (decide (k0 = k')); [reflexivity | exact IH].
Qed.

Lemma get_del_ne k k' d : k <> k' -> Dict.get k' (Dict.del k d) = Dict.get k' d.
Proof.
  intros Hne. induction d as [|[k0 v0] d IH]; simpl; [reflexivity|].
  destruct (decide (k0 = k)) as [->|Hk0]; simpl.
  - destruct (decide (k = k')); [contradiction | reflexivity].
  - destruct (decide (k0 = k')); [reflexivity | exact IH].
Qed.

Lemma get_None_keys k d : Dict.get k d = None <-> k ∉ Dict.keys d.
Proof.
  induction d as [|[k0 v0] d IH]; simpl.
  - split; [intros _; apply not_elem_of_nil | reflexivity].
  - destruct (decide (k0 = k)) as [->|Hk0].
    + split; [discriminate | intros Hn; exfalso; apply Hn; left].
    + rewrite IH. rewrite not_elem_of_cons. split; [intros Hn; split; congruence | tauto].
Qed.

Lemma keys_set k v d :
  Dict.keys (Dict.set k v d) =
    if Dict.mem k d then Dict.keys d else Dict.keys d ++ [k].
Proof.
  unfold Dict.mem, Dict.keys. induction d as [|[k0 v0] d IH]; simpl; [reflexivity|].
  destruct (decide (k0 = k)) as [->|Hk0]; simpl; [reflexivity|].
  rewrite IH. destruct (Dict.get k d); reflexivity.
Qed.

Lemma NoDup_keys_set k v d : NoDup (Dict.keys d) -> NoDup (Dict.keys (Dict.set k v d)).
Proof.
  intros Hd. rewrite keys_set. unfold Dict.mem.
  destruct (Dict.get k d) eqn:Hg; [exact Hd|].
  apply NoDup_app. split; [exact Hd|]. split; [|apply NoDup_singleton].
  intros x Hx Hx'. apply list_elem_of_singleton in Hx'. subst.
  apply get_None_keys in Hg. contradiction.
Qed.

End DictFacts.

Section MoreDictFacts.
Context {K V : Type} `{EqDecision K}.
Implicit Types (k : K) (v : V) (d : list (K * V)).

Lemma set_set k v v' d : Dict.set k v (Dict.set k v' d) = Dict.set k v d.
Proof.
  induction d as [|[k0 v0] d IH]; simpl.
  - destruct (decide (k = k)); congruence.
  - destruct (decide (k0 = k)) as [->|Hk0]; simpl.
    + destruct (decide (k = k)); congruence.
    + destruct (decide (k0 = k)); [contradiction | rewrite IH; reflexivity].
Qed.

Lemma get_Some_elem k v d : Dict.get k d = Some v -> (k, v) ∈ d.
Proof.
  induction d as [|[k0 v0] d IH]; simpl; [discriminate|].
  destruct (decide (k0 = k)) as [->|Hk0].
  - intros [= ->]. left.
  - intros Hg. right. auto.
Qed.

End MoreDictFacts.

Section OrderedSetFacts.
Context {A : Type} `{EqDecision A}.
Implicit Types (x : A) (s : list A).

Lemma contains_true x s : OrderedSet.contains x s = true <-> x ∈ s.
Proof. unfold OrderedSet.contains. apply bool_decide_eq_true. Qed.

Lemma contains_false x s : OrderedSet.contains x s = false <-> x ∉ s.
Proof. unfold OrderedSet.contains. apply bool_decide_eq_false. Qed.

Lemma elem_of_add x y s : y ∈ OrderedSet.add x s <-> y = x \/ y ∈ s.
Proof.
  unfold OrderedSet.add. destruct (OrderedSet.contains x s) eqn:Hc.
  - apply contains_true in Hc. split; [auto | intros [->|]; auto].
  - rewrite elem_of_app, list_elem_of_singleton. tauto.
Qed.

Lemma NoDup_add x s : NoDup s -> NoDup (OrderedSet.add x s).
Proof.
  intros Hs. unfold OrderedSet.add. destruct (OrderedSet.contains x s) eqn:Hc; [exact Hs|].
  apply contains_false in Hc. apply NoDup_app. split; [exact Hs|].
  split; [|apply NoDup_singleton].
  intros y Hy Hy'. apply list_elem_of_singleton in Hy'. subst. contradiction.
Qed.

Lemma elem_of_del x y s : y ∈ OrderedSet.del x s -> y ∈ s.
Proof.
  induction s as [|z s IH]; simpl; [auto|].
  destruct (decide (z = x)); intros Hy; [right; exact Hy|].
  apply elem_of_cons in Hy as [->|Hy]; [left | right; auto].
Qed.

Lemma elem_of_del_ne x y s : y <> x -> y ∈ s -> y ∈ OrderedSet.del x s.
Proof.
  intros Hne. induction s as [|z s IH]; simpl; [auto|].
  intros Hy. apply elem_of_cons in Hy as [->|Hy].
  - destruct (decide (z = x)); [contradiction | left].
  - destruct (decide (z = x)); [exact Hy | right; auto].
Qed.

Lemma NoDup_del x s : NoDup s -> NoDup (OrderedSet.del x s).
Proof.
  induction s as [|z s IH]; simpl; [auto|].
  intros Hs. apply NoDup_cons in Hs as [Hz Hs].
  destruct (decide (z = x)); [exact Hs|].
  apply NoDup_cons. split; [|auto]. intros Hin. apply Hz. eapply elem_of_del; eauto.
Qed.

Lemma not_elem_of_del x s : NoDup s -> x ∉ OrderedSet.del x s.
Proof.
  induction s as [|z s IH]; simpl; [intros _; apply not_elem_of_nil|].
  intros Hs. apply NoDup_cons in Hs as [Hz Hs].
  destruct (decide (z = x)) as [->|Hne]; [exact Hz|].
  rewrite not_elem_of_cons. split; [congruence | auto].
Qed.
End OrderedSetFacts.

(** ** ExecutorCommit *)





















(** ** FreeExecutors *)

Section DictUnique.
Context {K V : Type} `{EqDecision K}.
Implicit Types (k : K) (v : V) (d : list (K * V)).

Lemma NoDup_keys_del k d : NoDup (Dict.keys d) -> NoDup (Dict.keys (Dict.del k d)).
Proof.
  unfold Dict.keys. induction d as [|[k0 v0] d IH]; simpl; [auto|].
  intros Hd. apply NoDup_cons in Hd as [Hk Hd].
  destruct (decide (k0 = k)); [exact Hd|]. simpl.
  apply NoDup_cons. split; [|auto].
  intros Hin. apply Hk. clear -Hin.
  induction d as [|[k1 v1] d IH]; simpl in *; [exact Hin|].
  destruct (decide (k1 = k)); [right; exact Hin|].
  simpl in Hin. apply elem_of_cons in Hin as [->|Hin]; [left | right; auto].
Qed.

Lemma get_del_eq k d : NoDup (Dict.keys d) -> Dict.get k (Dict.del k d) = None.
Proof.
  unfold Dict.keys. induction d as [|[k0 v0] d IH]; simpl; [auto|].
  intros Hd. apply NoDup_cons in Hd as [Hk Hd].
  destruct (decide (k0 = k)) as [->|Hne].
  - apply get_None_keys. exact Hk.
  - simpl. destruct (decide (k0 = k)); [contradiction | auto].
Qed.

Lemma elem_get k v d : NoDup (Dict.keys d) -> (k, v) ∈ d -> Dict.get k d = Some v.
Proof.
  unfold Dict.keys. induction d as [|[k0 v0] d IH]; simpl.
  - intros _ Hin. apply elem_of_nil in Hin. contradiction.
  - intros Hd Hin. apply NoDup_cons in Hd as [Hk Hd].
    apply elem_of_cons in Hin as [[= -> ->]|Hin].
    + destruct (decide (k0 = k0)); [reflexivity | contradiction].
    + destruct (decide (k0 = k)) as [->|Hne]; [|auto].
      exfalso. apply Hk. apply (list_elem_of_fmap_2 fst _ _ Hin).
Qed.
End DictUnique.

Lemma elem_of_groups_of (k : option nat) (e : nat) (fe : list (option nat * list nat)) :
  k ∈ groups_of e fe <-> exists g, (k, g) ∈ fe /\ e ∈ g.
Proof.
  unfold groups_of. rewrite list_elem_of_fmap. split.
  - intros ([k0 g] & -> & Hin). apply list_elem_of_filter in Hin as [Hc Hin].
    exists g. split; [exact Hin|]. apply contains_true. apply Is_true_true. exact Hc.
  - intros (g & Hin & He). exists (k, g). split; [reflexivity|].
    apply list_elem_of_filter. split; [|exact Hin].
    apply Is_true_true. apply contains_true. exact He.
Qed.

Lemma NoDup_groups_of (e : nat) (fe : list (option nat * list nat)) :
  NoDup (Dict.keys fe) -> NoDup (groups_of e fe).
Proof.
  unfold groups_of, Dict.keys. intros Hd.
  eapply sublist_NoDup; [exact Hd|]. apply fmap_sublist, sublist_filter.
Qed.

Lemma only_member {A : Type} (k : A) (l : list A) :
  NoDup l -> k ∈ l -> (forall x, x ∈ l -> x = k) -> l = [k].
Proof.
  intros Hd Hk Hall. destruct l as [|x l]; [apply elem_of_nil in Hk; contradiction|].
  assert (x = k) as -> by (apply Hall; left).
  destruct l as [|y l]; [reflexivity|].
  assert (y = k) as -> by (apply Hall; right; left).
  apply NoDup_cons in Hd as [Hn _]. exfalso. apply Hn. left.
Qed.

Lemma in_group (k : option nat) (e : nat) (fe : list (option nat * list nat)) :
  NoDup (Dict.keys fe) ->
  k ∈ groups_of e fe <-> exists g, Dict.get k fe = Some g /\ e ∈ g.
Proof.
  intros Hd. rewrite elem_of_groups_of. split; intros (g & Hg & He); exists g; split; auto.
  - apply elem_get; assumption.
  - apply get_Some_elem. exact Hg.
Qed.

Lemma exactly_one_group (e : nat) (fe : list (option nat * list nat)) :
  NoDup (Dict.keys fe) ->
  in_exactly_one e fe <-> exists k, groups_of e fe = [k].
Proof.
  intros _. unfold in_exactly_one. split.
  - destruct (groups_of e fe) as [|k [|k' l]]; simpl; intros Hl; try discriminate. eauto.
  - intros (k & ->). reflexivity.
Qed.

Lemma groups_of_set_other (job : option nat) (g g' : list nat) (e' : nat)
    (fe : list (option nat * list nat)) :
  Dict.get job fe = Some g ->
  OrderedSet.contains e' g' = OrderedSet.contains e' g ->
  groups_of e' (Dict.set job g' fe) = groups_of e' fe.
Proof.
  unfold groups_of. intros Hg Hsame. induction fe as [|[k0 g0] fe IH]; simpl in *; [discriminate|].
  destruct (decide (k0 = job)) as [->|Hne].
  - injection Hg as ->. rewrite !filter_cons. simpl. rewrite Hsame.
    destruct (decide (OrderedSet.contains e' g)); reflexivity.
  - rewrite !filter_cons. simpl.
    destruct (decide (OrderedSet.contains e' g0)); simpl; rewrite (IH Hg); reflexivity.
Qed.

(* what add does to the groups *)
Lemma add_groups (job : option nat) (e : nat) (fe fe' : list (option nat * list nat))
    (w w' : World) :
  FreeExecutors.add job e fe w = Ok (fe', w') ->
  exists group, Dict.get job fe = Some group /\
                fe' = Dict.set job (OrderedSet.add e group) fe.
Proof.
  unfold FreeExecutors.add. intros H. inv_bind H. inv_bind H. inv_ok. eauto.
Qed.

Lemma add_keeps_exclusive (job : option nat) (e : nat)
    (fe fe' : list (option nat * list nat)) (w w' : World) :
  NoDup (Dict.keys fe) ->
  (forall k, k ∈ groups_of e fe -> k = job) ->
  FreeExecutors.add job e fe w = Ok (fe', w') ->
  groups_of e fe' = [job] /\
  (forall e', e' <> e -> groups_of e' fe' = groups_of e' fe) /\
  NoDup (Dict.keys fe').
Proof.
  intros Hd Honly H. destruct (add_groups _ _ _ _ _ _ H) as (group & Hg & ->).
  assert (Hd' : NoDup (Dict.keys (Dict.set job (OrderedSet.add e group) fe)))
    by (apply NoDup_keys_set; exact Hd).
  split; [|split; [|exact Hd']].
  - apply only_member.
    + apply NoDup_groups_of. exact Hd'.
    + apply in_group; [exact Hd'|]. exists (OrderedSet.add e group).
      split; [apply get_set_eq | apply elem_of_add; auto].
    + intros k Hk. apply in_group in Hk as (g & Hgk & He); [|exact Hd'].
      destruct (decide (job = k)) as [->|Hne]; [reflexivity|].
      rewrite get_set_ne in Hgk by exact Hne.
      apply Honly. apply in_group; [exact Hd|]. eauto.
  - intros e' Hne. apply (groups_of_set_other _ group); [exact Hg|].
    unfold OrderedSet.contains. apply bool_decide_ext.
    rewrite elem_of_add. split; [intros [->|]; [contradiction | assumption] | auto].
Qed.

Lemma elem_of_add_all (e : nat) (es free : list nat) :
  e ∈ fold_left (fun pool x => OrderedSet.add x pool) es free <-> e ∈ free \/ e ∈ es.
Proof.
  revert free. induction es as [|x es IH]; intros free; simpl.
  - rewrite elem_of_nil. tauto.
  - rewrite IH, elem_of_add, elem_of_cons. tauto.
Qed.

(* what the loop of remove_job does to the groups *)
Lemma evict_spec (es : list nat) (fe fe1 : list (option nat * list nat)) (w w1 : World) :
  FreeExecutors.evict es fe w = Ok (fe1, w1) ->
  (es = [] /\ fe1 = fe) \/
  exists free,
    Dict.get None fe = Some free /\
    fe1 = Dict.set None (fold_left (fun pool x => OrderedSet.add x pool) es free) fe.
Proof.
  revert fe w. induction es as [|x es IH]; intros fe w H; simpl in H.
  - inv_ok. left. auto.
  - right. inv_bind H. inv_bind H. inv_ok. exists a0. split; [exact E0|].
    destruct (IH _ _ H) as [[-> ->]|(free2 & Hfree2 & ->)]; simpl; [reflexivity|].
    rewrite get_set_eq in Hfree2. injection Hfree2 as <-. apply set_set.
Qed.

Lemma remove_job_keeps_exclusive (j : nat) (fe fe' : list (option nat * list nat))
    (w w' : World) :
  NoDup (Dict.keys fe) ->
  FreeExecutors.remove_job (Some j) fe w = Ok (fe', w') ->
  forall e, in_exactly_one e fe -> in_exactly_one e fe'.
Proof.
  intros Hd H e Hone. unfold FreeExecutors.remove_job in H.
  inv_bind H. inv_bind H. destruct a0 as [fe1 w1]. inv_ok.
  rename a into group, E into Hgroup.
  apply exactly_one_group in Hone as [k0 Hk0]; [|exact Hd].
  assert (Hmem : forall k, k ∈ groups_of e fe <-> k = k0).
  { intros k. rewrite Hk0. apply list_elem_of_singleton. }
  apply exactly_one_group.
  { apply NoDup_keys_del.
    destruct (evict_spec _ _ _ _ _ E0) as [[_ ->]|(free & _ & ->)];
      [exact Hd | apply NoDup_keys_set; exact Hd]. }
  destruct (evict_spec _ _ _ _ _ E0) as [[-> ->]|(free & Hfree & ->)].
  - (* the group of the job is empty *)
    assert (Hk0j : k0 <> Some j).
    { intros ->. pose proof (proj2 (Hmem (Some j)) eq_refl) as Hin.
      apply in_group in Hin as (g & Hg & He); [|exact Hd].
      rewrite Hgroup in Hg. injection Hg as <-. apply elem_of_nil in He. exact He. }
    exists k0. apply only_member.
    + apply NoDup_groups_of, NoDup_keys_del, Hd.
    + apply in_group; [apply NoDup_keys_del, Hd|].
      destruct (proj1 (in_group k0 e fe Hd) (proj2 (Hmem k0) eq_refl)) as (g & Hg & He).
      exists g. split; [|exact He]. rewrite get_del_ne by congruence. exact Hg.
    + intros k Hk. apply in_group in Hk as (g & Hg & He); [|apply NoDup_keys_del, Hd].
      destruct (decide (Some j = k)) as [<-|Hne].
      * rewrite get_del_eq in Hg by exact Hd. discriminate.
      * rewrite get_del_ne in Hg by exact Hne. apply Hmem. apply in_group; eauto.
  - (* every executor of the group has joined the free pool *)
    set (F := fold_left (fun pool x => OrderedSet.add x pool) group free).
    assert (Hd1 : NoDup (Dict.keys (Dict.set None F fe)))
      by (apply NoDup_keys_set; exact Hd).
    assert (HF : forall x, x ∈ F <-> x ∈ free \/ x ∈ group)
      by (intros x; apply elem_of_add_all).
    exists (if decide (k0 = Some j) then None else k0).
    apply only_member.
    + apply NoDup_groups_of, NoDup_keys_del, Hd1.
    + apply in_group; [apply NoDup_keys_del, Hd1|].
      destruct (proj1 (in_group k0 e fe Hd) (proj2 (Hmem k0) eq_refl)) as (g & Hg & He).
      destruct (decide (k0 = Some j)) as [->|Hk0j].
      * exists F. rewrite get_del_ne by discriminate. rewrite get_set_eq.
        split; [reflexivity|]. apply HF. right. congruence.
      * rewrite get_del_ne by congruence.
        destruct (decide (None = k0)) as [<-|Hk0n].
        -- exists F. rewrite get_set_eq. split; [reflexivity|].
           apply HF. left. congruence.
        -- exists g. rewrite get_set_ne by exact Hk0n. auto.
    + intros k Hk. apply in_group in Hk as (g & Hg & He); [|apply NoDup_keys_del, Hd1].
      destruct (decide (Some j = k)) as [<-|Hne].
      { rewrite get_del_eq in Hg by exact Hd1. discriminate. }
      rewrite get_del_ne in Hg by exact Hne.
      destruct (decide (None = k)) as [<-|Hkn].
      * rewrite get_set_eq in Hg. injection Hg as <-.
        apply HF in He as [He|He].
        -- assert (None = k0) as <- by (apply Hmem, in_group; eauto).
           destruct (decide (None = Some j)); [discriminate | reflexivity].
        -- assert (Some j = k0) as <- by (apply Hmem, in_group; eauto).
           destruct (decide (Some j = Some j)); [reflexivity | contradiction].
      * rewrite get_set_ne in Hg by exact Hkn.
        assert (k = k0) as -> by (apply Hmem, in_group; eauto).
        destruct (decide (k0 = Some j)); [congruence | reflexivity].
Qed.

(* what remove_job does to the groups: the group of the job is gone, and
   its executors have joined the free group *)
Lemma remove_job_groups (j : nat) (fe fe' : list (option nat * list nat)) (w w' : World) :
  NoDup (Dict.keys fe) ->
  FreeExecutors.remove_job (Some j) fe w = Ok (fe', w') ->
  exists group,
    Dict.get (Some j) fe = Some group /\
    Dict.get (Some j) fe' = None /\
    NoDup (Dict.keys fe') /\
    forall e k, k ∈ groups_of e fe' <->
                k <> Some j /\ (k ∈ groups_of e fe \/ (k = None /\ e ∈ group)).
Proof.
  intros Hd H. unfold FreeExecutors.remove_job in H.
  inv_bind H. inv_bind H. destruct a0 as [fe1 w1]. inv_ok.
  rename a into group, E into Hgroup.
  exists group. split; [exact Hgroup|].
  destruct (evict_spec _ _ _ _ _ E0) as [[-> ->]|(free & Hfree & ->)].
  - (* the group of the job is empty *)
    assert (Hd' : NoDup (Dict.keys (Dict.del (Some j) fe))) by (apply NoDup_keys_del, Hd).
    split; [apply get_del_eq, Hd|]. split; [exact Hd'|].
    intros e k. rewrite (in_group k e _ Hd'), (in_group k e fe Hd).
    destruct (decide (Some j = k)) as [<-|Hne].
    + rewrite get_del_eq by exact Hd.
      split; [intros (g & Hg & _); discriminate | intros [Hk _]; congruence].
    + rewrite get_del_ne by exact Hne. split.
      * intros Hex. split; [congruence | left; exact Hex].
      * intros [_ [Hex|[_ He]]]; [exact Hex | apply elem_of_nil in He; contradiction].
  - (* every executor of the group has joined the free group *)
    set (F := fold_left (fun pool x => OrderedSet.add x pool) group free).
    assert (Hd1 : NoDup (Dict.keys (Dict.set None F fe)))
      by (apply NoDup_keys_set; exact Hd).
    assert (Hd' : NoDup (Dict.keys (Dict.del (Some j) (Dict.set None F fe))))
      by (apply NoDup_keys_del, Hd1).
    split; [apply get_del_eq, Hd1|]. split; [exact Hd'|].
    intros e k. rewrite (in_group k e _ Hd'), (in_group k e fe Hd).
    destruct (decide (Some j = k)) as [<-|Hne].
    + rewrite get_del_eq by exact Hd1.
      split; [intros (g & Hg & _); discriminate | intros [Hk _]; congruence].
    + rewrite get_del_ne by exact Hne.
      destruct (decide (None = k)) as [<-|Hkn].
      * rewrite get_set_eq. split.
        -- intros (g & Hg & He). injection Hg as <-. split; [discriminate|].
           apply elem_of_add_all in He as [He|He]; [left; exists free; auto | right; auto].
        -- intros [_ [(g & Hg & He)|[_ He]]]; exists F; (split; [reflexivity|]);
             apply elem_of_add_all; [left; congruence | right; exact He].
      * rewrite get_set_ne by exact Hkn. split.
        -- intros Hex. split; [congruence | left; exact Hex].
        -- intros [_ [Hex|[Hk _]]]; [exact Hex | congruence].
Qed.

(** C3, as amended.  add(job, executor) puts the executor into the group of
    [job] and takes it out of no group.  If before the call the executor is
    in no group other than that of [job] (the caller has popped or removed it
    from its old group), it is in exactly the group of [job] afterwards and
    the groups of every other executor are as before.  remove_job(job), for
    a job other than None, moves the executors of the job to the free group:
    the job has no group afterwards, each of its executors is a member of
    the free group, every other membership is as it was, an executor of the
    job that was in exactly one group is in the free group alone, and every
    executor that was in exactly one group (the free group counted) is
    still in exactly one group. *)
Theorem free_executors_exclusivity (fe : list (option nat * list nat)) (w : World) :
  NoDup (Dict.keys fe) ->
  (forall job e fe' w',
      (forall k, k ∈ groups_of e fe -> k = job) ->
      FreeExecutors.add job e fe w = Ok (fe', w') ->
      groups_of e fe' = [job] /\
      (forall e', e' <> e -> groups_of e' fe' = groups_of e' fe) /\
      NoDup (Dict.keys fe')) /\
  (forall j fe' w',
      FreeExecutors.remove_job (Some j) fe w = Ok (fe', w') ->
      exists group,
        Dict.get (Some j) fe = Some group /\
        Dict.get (Some j) fe' = None /\
        (forall e, e ∈ group -> None ∈ groups_of e fe') /\
        (forall e k, k ∈ groups_of e fe' <->
                     k <> Some j /\ (k ∈ groups_of e fe \/ (k = None /\ e ∈ group))) /\
        (forall e, e ∈ group -> in_exactly_one e fe -> groups_of e fe' = [None]) /\
        (forall e, in_exactly_one e fe -> in_exactly_one e fe') /\
        NoDup (Dict.keys fe')).
Proof.
  intros Hd. split.
  - intros job e fe' w' Honly H. eapply add_keeps_exclusive; eauto.
  - intros j fe' w' H.
    destruct (remove_job_groups _ _ _ _ _ Hd H) as (group & Hg & Hgone & Hd' & Hmem).
    exists group. split; [exact Hg|]. split; [exact Hgone|].
    split. { intros e He. apply Hmem. split; [discriminate | right; auto]. }
    split; [exact Hmem|].
    split.
    { intros e He Hone. apply exactly_one_group in Hone as [k0 Hk0]; [|exact Hd].
      assert (Hin : Some j ∈ groups_of e fe) by (apply in_group; eauto).
      rewrite Hk0 in Hin. apply list_elem_of_singleton in Hin. subst k0.
      apply only_member.
      - apply NoDup_groups_of, Hd'.
      - apply Hmem. split; [discriminate | right; auto].
      - intros k Hk. apply Hmem in Hk as [Hne [Hk|[-> _]]]; [|reflexivity].
        rewrite Hk0 in Hk. apply list_elem_of_singleton in Hk. congruence. }
    split; [|exact Hd'].
    intros e. eapply remove_job_keeps_exclusive; eauto.
Qed.

Lemma free_executors_exclusivity_witness :
  (exists fe' w',
     FreeExecutors.add (Some 0) 0 [(None, []); (Some 0, [])]
       (Example.cluster (Example.constant_words 0)) = Ok (fe', w') /\
     groups_of 0 fe' = [Some 0]) /\
  (exists fe' w',
     FreeExecutors.remove_job (Some 0) [(None, []); (Some 0, [0])]
       (Example.cluster (Example.constant_words 0)) = Ok (fe', w') /\
     Dict.get (Some 0) fe' = None /\
     groups_of 0 fe' = [None] /\
     in_exactly_one 0 fe').
Proof.
  split.
  - assert (Hrun : exists fe' w',
               FreeExecutors.add (Some 0) 0 [(None, []); (Some 0, [])]
                 (Example.cluster (Example.constant_words 0)) = Ok (fe', w'))
      by (eexists _, _; vm_compute; reflexivity).
    destruct Hrun as (fe' & w' & Hrun). exists fe', w'. split; [exact Hrun|].
    destruct (free_executors_exclusivity [(None, []); (Some 0, [])]
                (Example.cluster (Example.constant_words 0))) as [Hadd _].
    { apply (bool_decide_unpack _). vm_compute. exact I. }
    apply (Hadd (Some 0) 0 fe' w'); [|exact Hrun].
    intros k Hk. apply elem_of_nil in Hk. contradiction.
  - assert (Hrun : exists fe' w',
               FreeExecutors.remove_job (Some 0) [(None, []); (Some 0, [0])]
                 (Example.cluster (Example.constant_words 0)) = Ok (fe', w'))
      by (eexists _, _; vm_compute; reflexivity).
    destruct Hrun as (fe' & w' & Hrun). exists fe', w'. split; [exact Hrun|].
    destruct (free_executors_exclusivity [(None, []); (Some 0, [0])]
                (Example.cluster (Example.constant_words 0))) as [_ Hrem].
    { apply (bool_decide_unpack _). vm_compute. exact I. }
    destruct (Hrem 0 fe' w' Hrun) as (group & Hg & Hgone & _ & _ & Hmoved & Hone & _).
    injection Hg as <-.
    split; [exact Hgone|]. split.
    + apply Hmoved; [left | reflexivity].
    + apply Hone. reflexivity.
Defined.

(* the hand-over the driver performs: pop from the free pool, then add to
   the job, and back again with remove_job *)
Lemma pool_hand_over :
  exists fe1 fe2 w2 fe3 w3,
    FreeExecutors.pop None Example.pool = Ok (0, fe1) /\
    groups_of 0 fe1 = [] /\
    FreeExecutors.add (Some 0) 0 fe1 (Example.cluster (Example.constant_words 0))
      = Ok (fe2, w2) /\
    groups_of 0 fe2 = [Some 0] /\
    FreeExecutors.remove_job (Some 0) fe2 w2 = Ok (fe3, w3) /\
    groups_of 0 fe3 = [None].
Proof.
  eexists _, _, _, _, _.
  split; [vm_compute; reflexivity|]. split; [reflexivity|].
  split; [vm_compute; reflexivity|]. split; [reflexivity|].
  split; [vm_compute; reflexivity|]. reflexivity.
Qed.

(** C3, as stated, fails: add with a job on an executor that is still in
    the free group leaves it in two groups. *)
Lemma add_leaves_executor_in_two_groups :
  ~ (forall (j e : nat) (fe fe' : list (option nat * list nat)) (w w' : World),
       NoDup (Dict.keys fe) ->
       in_exactly_one e fe ->
       FreeExecutors.add (Some j) e fe w = Ok (fe', w') ->
       in_exactly_one e fe').
Proof.
  intros H.
  assert (Hbad : in_exactly_one 0 [(None, [0]); (Some 0, [0])]).
  { eapply (H 0 0 Example.pool _ (Example.cluster (Example.constant_words 0))).
    - apply (bool_decide_unpack _). vm_compute. exact I.
    - reflexivity.
    - vm_compute. reflexivity. }
  discriminate Hbad.
Qed.

(** ** Counting the draws of sample_executor_key *)

Lemma map_seq_shift {A : Type} (f : nat -> A) (x y : nat) :
  map f (seq x y) = map (fun i => f (x + i)) (seq 0 y).
Proof.
  revert f x. induction y as [|y IH]; intros f x; simpl; [reflexivity|].
  rewrite Nat.add_0_r. f_equal. rewrite (IH f (S x)), (IH (fun i => f (x + i)) 1).
  apply map_ext. intros i. f_equal. lia.
Qed.

Lemma range_split (a b c : Z) :
  (a <= b <= c)%Z -> range a c = range a b ++ range b c.
Proof.
  intros Habc. unfold range.
  replace (Z.to_nat (c - a)) with (Z.to_nat (b - a) + Z.to_nat (c - b)) by lia.
  rewrite seq_app, map_app. f_equal. simpl.
  rewrite map_seq_shift. apply map_ext. intros i. lia.
Qed.

Lemma range_bounds (a b r : Z) : r ∈ range a b -> (a <= r < b)%Z.
Proof.
  unfold range. intros Hin. apply list_elem_of_fmap in Hin as (i & -> & Hi).
  apply elem_of_seq in Hi. lia.
Qed.

Lemma length_range (a b : Z) : length (range a b) = Z.to_nat (b - a).
Proof. unfold range. rewrite length_map, length_seq. reflexivity. Qed.

Lemma filter_all {A : Type} (P : A -> Prop) `{forall x, Decision (P x)} (l : list A) :
  (forall x, x ∈ l -> P x) -> filter P l = l.
Proof.
  induction l as [|x l IH]; intros Hall; [reflexivity|].
  rewrite filter_cons_True by (apply Hall; left).
  f_equal. apply IH. intros y Hy. apply Hall. right. exact Hy.
Qed.

Lemma filter_none {A : Type} (P : A -> Prop) `{forall x, Decision (P x)} (l : list A) :
  (forall x, x ∈ l -> ~ P x) -> filter P l = [].
Proof.
  induction l as [|x l IH]; intros Hall; [reflexivity|].
  rewrite filter_cons_False by (apply Hall; left).
  apply IH. intros y Hy. apply Hall. right. exact Hy.
Qed.

(* strictly between two points lo < hi, the count n resolves to lo on the
   draws 1 .. n - lo and to hi on the draws n - lo + 1 .. hi - lo: to lo on
   n - lo of the hi - lo draws, the more the farther n is from lo *)
Lemma draws_between_points (lo hi n : Z) :
  (lo < n < hi)%Z ->
  draws_resolving_to lo lo hi n = range 1 (n - lo + 1) /\
  draws_resolving_to hi lo hi n = range (n - lo + 1) (hi - lo + 1) /\
  length (draws_resolving_to lo lo hi n) = Z.to_nat (n - lo) /\
  length (draws_resolving_to hi lo hi n) = Z.to_nat (hi - n).
Proof.
  intros Hn. unfold draws_resolving_to.
  rewrite (range_split 1 (n - lo + 1) (hi - lo + 1)) by lia.
  rewrite !filter_app.
  rewrite (filter_all _ (range 1 (n - lo + 1))), (filter_none _ (range (n - lo + 1) (hi - lo + 1))).
  - rewrite (filter_none _ (range 1 (n - lo + 1))), (filter_all _ (range (n - lo + 1) (hi - lo + 1))).
    + rewrite app_nil_r, app_nil_l, !length_range.
      repeat split; f_equal; lia.
    + intros r Hr. apply range_bounds in Hr. apply Is_true_true, bool_decide_eq_true.
      apply pick_side_right. lia.
    + intros r Hr. apply range_bounds in Hr. intros Hp.
      apply Is_true_true, bool_decide_eq_true in Hp.
      rewrite pick_side_left in Hp by lia. lia.
  - intros r Hr. apply range_bounds in Hr. intros Hp.
    apply Is_true_true, bool_decide_eq_true in Hp.
    rewrite pick_side_right in Hp by lia. lia.
  - intros r Hr. apply range_bounds in Hr. apply Is_true_true, bool_decide_eq_true.
    apply pick_side_left. lia.
Qed.

(** ** update_frontier_stages *)

Lemma is_runnable_put_job (s j : nat) (x : Job) (w : World) :
  Stage.is_runnable s (put_job j x w) = Stage.is_runnable s w.
Proof. reflexivity. Qed.

(* what the loop of update_frontier_stages computes when the frontier holds
   Stage objects only: every runnable child is in the frontier afterwards,
   nothing else is added, and the flag is raised as soon as one child is
   runnable, whether or not it was in the frontier already *)
Lemma frontier_loop_spec (j : nat) (children : list nat) (changed b : bool) (w w' : World)
    (jb : Job) :
  w_jobs w !! j = Some jb ->
  (forall z, PInt z ∉ j_frontier_stages jb) ->
  Job.frontier_loop j children changed w = Ok (b, w') ->
  w_stages w' = w_stages w /\
  (b = true <-> changed = true \/
                exists c, c ∈ children /\ Stage.is_runnable c w = Ok true) /\
  exists jb',
    w_jobs w' !! j = Some jb' /\
    forall x, x ∈ j_frontier_stages jb' <->
              x ∈ j_frontier_stages jb \/
              exists c, x = PStage c /\ c ∈ children /\ Stage.is_runnable c w = Ok true.
Proof.
  revert changed w jb. induction children as [|child rest IH]; intros changed w jb Hjb Hint H;
    simpl in H.
  - inv_ok. split; [reflexivity|]. split.
    + split; [auto | intros [?|(c & Hc & _)]; [assumption | apply elem_of_nil in Hc; contradiction]].
    + exists jb. split; [exact Hjb|]. intros x. split; [auto|].
      intros [?|(c & _ & Hc & _)]; [assumption | apply elem_of_nil in Hc; contradiction].
  - inv_bind H. inv_bind H. inv_bind H. unfold get_job in E1. rewrite Hjb in E1.
    simpl in E1. injection E1 as <-.
    assert (Hno : OrderedSet.contains (PInt (Z.of_nat (s_idx a0))) (j_frontier_stages jb) = false)
      by (apply contains_false, Hint).
    rewrite Hno, andb_true_r in H.
    destruct a as [|].
    + (* the child is runnable *)
      assert (Hjb1 : w_jobs (put_job j (job_with_frontier jb
                        (OrderedSet.add (PStage child) (j_frontier_stages jb))) w) !! j
                     = Some (job_with_frontier jb
                        (OrderedSet.add (PStage child) (j_frontier_stages jb)))).
      { simpl. apply list_lookup_insert_eq. eapply lookup_lt_Some; eauto. }
      assert (Hint1 : forall z, PInt z ∉ j_frontier_stages (job_with_frontier jb
                        (OrderedSet.add (PStage child) (j_frontier_stages jb)))).
      { simpl. intros z Hz. apply elem_of_add in Hz as [Hz|Hz];
          [discriminate | exact (Hint z Hz)]. }
      destruct (IH _ _ _ Hjb1 Hint1 H) as (Hst & Hb & jb' & Hjb' & Hfr).
      split; [exact Hst|]. split.
      * split; [intros _; right; exists child; split; [left | exact E] |].
        intros _. apply Hb. left. reflexivity.
      * exists jb'. split; [exact Hjb'|]. intros x. rewrite Hfr. simpl.
        rewrite elem_of_add. split.
        -- intros [[->|Hx]|(c & -> & Hc & Hr)]; [right | left; exact Hx | right].
           ++ exists child. split; [reflexivity|]. split; [left | exact E].
           ++ exists c. split; [reflexivity|]. split; [right; exact Hc | exact Hr].
        -- intros [Hx|(c & -> & Hc & Hr)]; [left; right; exact Hx|].
           apply elem_of_cons in Hc as [->|Hc]; [left; left; reflexivity|].
           right. exists c. auto.
    + (* the child is not runnable *)
      destruct (IH _ _ _ Hjb Hint H) as (Hst & Hb & jb' & Hjb' & Hfr).
      split; [exact Hst|]. split.
      * rewrite Hb. split; intros [Hc|(c & Hc & Hr)]; auto.
        -- right. exists c. split; [right; exact Hc | exact Hr].
        -- apply elem_of_cons in Hc as [->|Hc]; [congruence|]. right. exists c. auto.
      * exists jb'. split; [exact Hjb'|]. intros x. rewrite Hfr. split.
        -- intros [Hx|(c & -> & Hc & Hr)]; [left; exact Hx|].
           right. exists c. split; [reflexivity|]. split; [right; exact Hc | exact Hr].
        -- intros [Hx|(c & -> & Hc & Hr)]; [left; exact Hx|].
           apply elem_of_cons in Hc as [->|Hc]; [congruence|]. right. exists c. auto.
Qed.

(** ** Leaving the frontier *)

(* env.py: the statement that should remove an exhausted frontier stage
   raises for every such stage *)
Lemma env_leave_frontier_raises (s j : nat) (w : World) (st : Stage) (jb : Job) :
  w_stages w !! s = Some st -> s_job st = Some j -> w_jobs w !! j = Some jb ->
  PStage s ∈ j_frontier_stages jb ->
  Stage.leave_frontier s w = Raise AttributeError.
Proof.
  intros Hst Hj Hjb Hin. unfold Stage.leave_frontier, get_stage, get_job, stage_job.
  rewrite Hst. simpl. rewrite Hj. simpl. rewrite Hjb. simpl.
  rewrite (proj2 (contains_true _ _) Hin). reflexivity.
Qed.

(* spark_env/stage.py: the stage leaves the frontier and nothing else changes *)
Lemma spark_leave_frontier_removes (s j : nat) (w : World) (st : Stage) (jb : Job) :
  w_stages w !! s = Some st -> s_job st = Some j -> w_jobs w !! j = Some jb ->
  PStage s ∈ j_frontier_stages jb -> NoDup (j_frontier_stages jb) ->
  exists w' jb',
    SparkEnvStage.leave_frontier s w = Ok w' /\
    w_jobs w' !! j = Some jb' /\
    (PStage s ∉ j_frontier_stages jb') /\
    (forall x, x <> PStage s -> (x ∈ j_frontier_stages jb' <-> x ∈ j_frontier_stages jb)).
Proof.
  intros Hst Hj Hjb Hin Hnd.
  unfold SparkEnvStage.leave_frontier, get_stage, get_job, stage_job.
  rewrite Hst. simpl. rewrite Hj. simpl. rewrite Hjb. simpl.
  rewrite (proj2 (contains_true _ _) Hin). unfold OrderedSet.remove.
  rewrite (proj2 (contains_true _ _) Hin).
  destruct (Nat.eqb_spec (length (j_frontier_stages jb)) 0) as [Hlen|_].
  { apply nil_length_inv in Hlen. rewrite Hlen in Hin. apply elem_of_nil in Hin. contradiction. }
  simpl. eexists _, _. split; [reflexivity|]. split.
  - simpl. apply list_lookup_insert_eq. eapply lookup_lt_Some; eauto.
  - simpl. split.
    + apply not_elem_of_del. exact Hnd.
    + intros x Hx. split; [apply elem_of_del | apply elem_of_del_ne; exact Hx].
Qed.

(** * Further properties of the environment *)

(** ** Executor: detaching *)

Lemma del_absent {A : Type} `{EqDecision A} (x : A) (s : list A) :
  x ∉ s -> OrderedSet.del x s = s.
Proof.
  induction s as [|y s IH]; simpl; [reflexivity|].
  intros Hn. apply not_elem_of_cons in Hn as [Hne Hn].
  destruct (decide (y = x)); [congruence | rewrite IH by exact Hn; reflexivity].
Qed.

Lemma remove_present {A : Type} `{EqDecision A} (x : A) (s : list A) :
  x ∈ s -> OrderedSet.remove x s = Ok (OrderedSet.del x s).
Proof.
  intros Hin. unfold OrderedSet.remove. rewrite (proj2 (contains_true _ _) Hin).
  destruct s; [apply elem_of_nil in Hin; contradiction | reflexivity].
Qed.

Lemma stage_with_own_executors (st : Stage) : stage_with_executors st (s_executors st) = st.
Proof. destruct st; reflexivity. Qed.

Lemma job_with_own_executors (jb : Job) : job_with_executors jb (j_executors jb) = jb.
Proof. destruct jb; reflexivity. Qed.

(* the store after detach_stage, field by field *)
Lemma detach_stage_store (e : nat) (w : World) (ex : Executor) :
  w_executors w !! e = Some ex ->
  (forall s, e_stage ex = Some s -> is_Some (w_stages w !! s)) ->
  exists w',
    Executor.detach_stage e w = Ok w' /\
    w_executors w' =
      <[e := {| e_idx := e_idx ex; e_task := None; e_stage := None; e_job := e_job ex |}]>
        (w_executors w) /\
    w_jobs w' = w_jobs w /\ w_tasks w' = w_tasks w /\
    w_stages w' =
      match e_stage ex with
      | Some s =>
          match w_stages w !! s with
          | Some st =>
              <[s := stage_with_executors st (OrderedSet.del e (s_executors st))]> (w_stages w)
          | None => w_stages w
          end
      | None => w_stages w
      end.
Proof.
  intros Hex Hst. unfold Executor.detach_stage, get_executor. rewrite Hex. simpl.
  destruct (e_stage ex) as [s|] eqn:Hs.
  - destruct (Hst s eq_refl) as [st Hsst]. unfold get_stage. rewrite Hsst. simpl.
    destruct (OrderedSet.contains e (s_executors st)) eqn:Hc.
    + apply contains_true in Hc. rewrite (remove_present _ _ Hc). simpl.
      eexists. split; [reflexivity|]. repeat split.
    + apply contains_false in Hc. simpl.
      eexists. split; [reflexivity|]. repeat split. simpl.
      rewrite (del_absent _ _ Hc), stage_with_own_executors.
      symmetry. apply list_insert_id. exact Hsst.
  - simpl. eexists. split; [reflexivity|]. repeat split.
Qed.

(* the store after detach_job, field by field *)
Lemma detach_job_store (e : nat) (w : World) (ex : Executor) :
  w_executors w !! e = Some ex ->
  (forall s, e_stage ex = Some s -> is_Some (w_stages w !! s)) ->
  (forall j, e_job ex = Some j -> is_Some (w_jobs w !! j)) ->
  exists w',
    Executor.detach_job e w = Ok w' /\
    w_executors w' =
      <[e := {| e_idx := e_idx ex; e_task := None; e_stage := None; e_job := None |}]>
        (w_executors w) /\
    w_tasks w' = w_tasks w /\
    w_stages w' =
      match e_stage ex with
      | Some s =>
          match w_stages w !! s with
          | Some st =>
              <[s := stage_with_executors st (OrderedSet.del e (s_executors st))]> (w_stages w)
          | None => w_stages w
          end
      | None => w_stages w
      end /\
    w_jobs w' =
      match e_job ex with
      | Some j =>
          match w_jobs w !! j with
          | Some jb =>
              <[j := job_with_executors jb (OrderedSet.del e (j_executors jb))]> (w_jobs w)
          | None => w_jobs w
          end
      | None => w_jobs w
      end.
Proof.
  intros Hex Hst Hjb. unfold Executor.detach_job, get_executor. rewrite Hex. simpl.
  assert (Hw1 : exists w1,
             match e_job ex with
             | Some j =>
                 let* jb := get_job w j in
                 if OrderedSet.contains e (j_executors jb)
                 then let* es := OrderedSet.remove e (j_executors jb) in
                      Ok (put_job j (job_with_executors jb es) w)
                 else Ok w
             | None => Ok w
             end = Ok w1 /\
             w_executors w1 = w_executors w /\ w_tasks w1 = w_tasks w /\
             w_stages w1 = w_stages w /\
             w_jobs w1 =
               match e_job ex with
               | Some j =>
                   match w_jobs w !! j with
                   | Some jb =>
                       <[j := job_with_executors jb (OrderedSet.del e (j_executors jb))]>
                         (w_jobs w)
                   | None => w_jobs w
                   end
               | None => w_jobs w
               end).
  { destruct (e_job ex) as [j|] eqn:Hj; [|eexists; repeat split].
    destruct (Hjb j eq_refl) as [jb Hjjb]. unfold get_job. rewrite Hjjb. simpl.
    destruct (OrderedSet.contains e (j_executors jb)) eqn:Hc.
    - apply contains_true in Hc. rewrite (remove_present _ _ Hc). simpl.
      eexists. repeat split.
    - apply contains_false in Hc. eexists. split; [reflexivity|]. repeat split.
      rewrite (del_absent _ _ Hc), job_with_own_executors.
      symmetry. apply list_insert_id. exact Hjjb. }
  destruct Hw1 as (w1 & -> & He1 & Ht1 & Hs1 & Hj1). simpl.
  destruct (detach_stage_store e
              (put_executor e {| e_idx := e_idx ex; e_task := e_task ex;
                                 e_stage := e_stage ex; e_job := None |} w1)
              {| e_idx := e_idx ex; e_task := e_task ex;
                 e_stage := e_stage ex; e_job := None |})
    as (w' & Hd & He & Hjw & Htw & Hsw).
  - simpl. rewrite He1. apply list_lookup_insert_eq. eapply lookup_lt_Some; eauto.
  - simpl. rewrite Hs1. exact Hst.
  - exists w'. split; [exact Hd|]. simpl in *.
    rewrite He, He1, list_insert_insert_eq. split; [reflexivity|].
    rewrite Htw, Ht1. split; [reflexivity|].
    rewrite Hsw, Hs1. split; [reflexivity|].
    rewrite Hjw. exact Hj1.
Qed.

(** X1.  Executor.detach_stage on an executor of the store whose stage, if
    any, is in the store with a duplicate-free executor set: the call
    returns; the executor has no task and no stage afterwards and keeps its
    job; it is no longer in the executor set of its former stage; no other
    executor enters or leaves a stage's executor set; jobs and tasks are
    untouched, so the task it was running still names it as its executor. *)
Theorem detach_stage_unbinds (e : nat) (w : World) (ex : Executor) :
  w_executors w !! e = Some ex ->
  (forall s, e_stage ex = Some s ->
     exists st, w_stages w !! s = Some st /\ NoDup (s_executors st)) ->
  exists w' ex',
    Executor.detach_stage e w = Ok w' /\
    w_executors w' !! e = Some ex' /\
    e_task ex' = None /\ e_stage ex' = None /\ e_job ex' = e_job ex /\
    (forall s st', e_stage ex = Some s -> w_stages w' !! s = Some st' ->
       e ∉ s_executors st') /\
    (forall s st', w_stages w' !! s = Some st' ->
       exists st, w_stages w !! s = Some st /\
                  forall x, x <> e -> (x ∈ s_executors st' <-> x ∈ s_executors st)) /\
    w_jobs w' = w_jobs w /\ w_tasks w' = w_tasks w.
Proof.
  intros Hex Hst.
  destruct (detach_stage_store e w ex Hex) as (w' & Hd & He & Hj & Ht & Hs).
  { intros s Hs. destruct (Hst s Hs) as (st & Hsst & _). eauto. }
  eexists w', _. split; [exact Hd|]. split.
  { rewrite He. apply list_lookup_insert_eq. eapply lookup_lt_Some; eauto. }
  simpl. repeat split; try assumption.
  - intros s st' Hes Hst'. destruct (Hst s Hes) as (st & Hsst & Hnd).
    rewrite Hs, Hes, Hsst in Hst'.
    rewrite list_lookup_insert_eq in Hst' by (eapply lookup_lt_Some; eauto).
    injection Hst' as <-. simpl. apply not_elem_of_del. exact Hnd.
  - intros s st' Hst'. rewrite Hs in Hst'.
    destruct (e_stage ex) as [s0|] eqn:Hes; [|exists st'; split; [exact Hst' | tauto]].
    destruct (Hst s0 eq_refl) as (st & Hsst & Hnd). rewrite Hsst in Hst'.
    destruct (decide (s0 = s)) as [->|Hne].
    + rewrite list_lookup_insert_eq in Hst' by (eapply lookup_lt_Some; eauto).
      injection Hst' as <-. exists st. split; [exact Hsst|]. simpl.
      intros x Hx. split; [apply elem_of_del | apply elem_of_del_ne; exact Hx].
    + rewrite list_lookup_insert_ne in Hst' by exact Hne.
      exists st'. split; [exact Hst' | tauto].
Qed.

Lemma detach_stage_unbinds_witness :
  exists w' ex',
    Executor.detach_stage 0 Scenes.busy = Ok w' /\
    w_executors w' !! 0 = Some ex' /\
    e_task ex' = None /\ e_stage ex' = None /\ e_job ex' = Some 0 /\
    w_tasks w' = w_tasks Scenes.busy.
Proof.
  destruct (detach_stage_unbinds 0 Scenes.busy Scenes.busy_executor)
    as (w' & ex' & H1 & H2 & H3 & H4 & H5 & _ & _ & _ & H9).
  - reflexivity.
  - intros s [= <-]. eexists. split; [reflexivity | apply NoDup_singleton].
  - exists w', ex'. split; [exact H1|]. split; [exact H2|]. split; [exact H3|].
    split; [exact H4|]. split; [exact H5 | exact H9].
Defined.

(** X2.  Executor.detach_job on an executor of the store whose job and
    stage, if any, are in the store with duplicate-free executor sets: the
    call returns; afterwards the executor has no task, no stage and no job,
    and it is in the executor set neither of its former job nor of its
    former stage; the tasks are untouched. *)
Theorem detach_job_unbinds (e : nat) (w : World) (ex : Executor) :
  w_executors w !! e = Some ex ->
  (forall s, e_stage ex = Some s ->
     exists st, w_stages w !! s = Some st /\ NoDup (s_executors st)) ->
  (forall j, e_job ex = Some j ->
     exists jb, w_jobs w !! j = Some jb /\ NoDup (j_executors jb)) ->
  exists w',
    Executor.detach_job e w = Ok w' /\
    w_executors w' !! e =
      Some {| e_idx := e_idx ex; e_task := None; e_stage := None; e_job := None |} /\
    (forall j jb', e_job ex = Some j -> w_jobs w' !! j = Some jb' ->
       e ∉ j_executors jb') /\
    (forall s st', e_stage ex = Some s -> w_stages w' !! s = Some st' ->
       e ∉ s_executors st') /\
    w_tasks w' = w_tasks w.
Proof.
  intros Hex Hst Hjb.
  destruct (detach_job_store e w ex Hex) as (w' & Hd & He & Ht & Hs & Hj).
  { intros s Hs. destruct (Hst s Hs) as (st & Hsst & _). eauto. }
  { intros j Hj. destruct (Hjb j Hj) as (jb & Hjjb & _). eauto. }
  exists w'. split; [exact Hd|]. split.
  { rewrite He. apply list_lookup_insert_eq. eapply lookup_lt_Some; eauto. }
  repeat split; try assumption.
  - intros j jb' Hej Hjb'. destruct (Hjb j Hej) as (jb & Hjjb & Hnd).
    rewrite Hj, Hej, Hjjb in Hjb'.
    rewrite list_lookup_insert_eq in Hjb' by (eapply lookup_lt_Some; eauto).
    injection Hjb' as <-. simpl. apply not_elem_of_del. exact Hnd.
  - intros s st' Hes Hst'. destruct (Hst s Hes) as (st & Hsst & Hnd).
    rewrite Hs, Hes, Hsst in Hst'.
    rewrite list_lookup_insert_eq in Hst' by (eapply lookup_lt_Some; eauto).
    injection Hst' as <-. simpl. apply not_elem_of_del. exact Hnd.
Qed.

Lemma detach_job_unbinds_witness :
  exists w',
    Executor.detach_job 0 Scenes.busy = Ok w' /\
    w_executors w' !! 0 =
      Some {| e_idx := 0; e_task := None; e_stage := None; e_job := None |} /\
    w_tasks w' = w_tasks Scenes.busy.
Proof.
  destruct (detach_job_unbinds 0 Scenes.busy Scenes.busy_executor)
    as (w' & H1 & H2 & _ & _ & H5).
  - reflexivity.
  - intros s [= <-]. eexists. split; [reflexivity | apply NoDup_singleton].
  - intros j [= <-]. eexists. split; [reflexivity | apply NoDup_singleton].
  - exists w'. split; [exact H1|]. split; [exact H2 | exact H5].
Defined.

(** ** Stage.schedule: what it leaves in the store *)

Lemma detach_stage_inv (e : nat) (w w' : World) :
  Executor.detach_stage e w = Ok w' ->
  exists ex, w_executors w !! e = Some ex /\
             forall s, e_stage ex = Some s -> is_Some (w_stages w !! s).
Proof.
  unfold Executor.detach_stage. intros H. inv_bind H. inv_bind H. inv_ok.
  exists a. split; [exact E|]. intros s Hs. rewrite Hs in E0. inv_bind E0. inv_ok. eauto.
Qed.

(* detach_stage changes nothing of a stage but its executor set *)
Lemma detach_stage_stage (e s : nat) (w w' : World) (st : Stage) :
  Executor.detach_stage e w = Ok w' -> w_stages w !! s = Some st ->
  exists es, w_stages w' !! s = Some (stage_with_executors st es).
Proof.
  intros H Hst. destruct (detach_stage_inv _ _ _ H) as (ex & Hex & Hs).
  destruct (detach_stage_store e w ex Hex Hs) as (w2 & H2 & _ & _ & _ & Hstages).
  rewrite H in H2. injection H2 as <-. rewrite Hstages.
  destruct (e_stage ex) as [s0|] eqn:Hes.
  - destruct (Hs s0 eq_refl) as [st0 Hst0]. rewrite Hst0.
    destruct (decide (s0 = s)) as [->|Hne].
    + rewrite list_lookup_insert_eq by (eapply lookup_lt_Some; eauto).
      rewrite Hst in Hst0. injection Hst0 as <-. eauto.
    + rewrite list_lookup_insert_ne by exact Hne.
      exists (s_executors st). rewrite stage_with_own_executors. exact Hst.
  - exists (s_executors st). rewrite stage_with_own_executors. exact Hst.
Qed.

(* what a successful Task.schedule leaves in the executor and stage stores *)
Lemma task_schedule_executor (w w' : World) (t e : nat) (start duration : Q) :
  Task.schedule t start duration e w = Ok w' ->
  exists x ex s st,
    w_tasks w !! t = Some x /\ w_executors w !! e = Some ex /\
    t_stage x = Some s /\ w_stages w !! s = Some st /\
    w_stages w' = w_stages w /\
    w_executors w' =
      <[e := {| e_idx := e_idx ex; e_task := Some t; e_stage := Some s;
                e_job := s_job st |}]> (w_executors w).
Proof.
  unfold Task.schedule. intros H.
  inv_bind H. inv_bind H. inv_bind H. inv_bind H. inv_bind H. inv_ok.
  destruct (t_stage a) as [s|] eqn:Hs; [|discriminate E2]. injection E2 as <-.
  simpl in *. exists a, a1, s, a3. repeat split; try assumption.
  apply list_insert_insert_eq.
Qed.

Lemma schedule_with_binds
    (sek : nat -> Z -> World -> result (Z * World))
    (lf : nat -> World -> result World)
    (args : Args) (s e t : nat) (w w' : World) (x : Task) :
  (forall s n w key w1, sek s n w = Ok (key, w1) ->
     w_tasks w1 = w_tasks w /\ w_stages w1 = w_stages w /\ w_executors w1 = w_executors w) ->
  (forall s w w', lf s w = Ok w' ->
     w_tasks w' = w_tasks w /\ w_stages w' = w_stages w /\ w_executors w' = w_executors w) ->
  w_tasks w !! t = Some x -> t_stage x = Some s ->
  schedule_with sek lf args s e w = Ok (t, w') ->
  exists st st' ex' x',
    w_stages w !! s = Some st /\
    s_tasks st !! s_next_task_idx st = Some t /\
    w_stages w' !! s = Some st' /\ w_executors w' !! e = Some ex' /\
    w_tasks w' !! t = Some x' /\
    t_executor x' = Some e /\
    e_task ex' = Some t /\ e_stage ex' = Some s /\ e_job ex' = s_job st /\
    e ∈ s_executors st' /\
    s_next_task_idx st' = S (s_next_task_idx st) /\
    s_no_more_task st' = (s_num_tasks st <=? S (s_next_task_idx st)) /\
    s_job st' = s_job st /\ s_tasks st' = s_tasks st.
Proof.
  intros Hsek Hlf Hx Hxs H. unfold schedule_with in H.
  inv_bind H. inv_bind H. inv_bind H. inv_bind H. inv_bind H. inv_bind H. inv_bind H.
  match goal with D : sek _ _ _ = Ok ?p |- _ => destruct p as [key w1] end.
  inv_bind H. inv_bind H. inv_bind H. inv_bind H. inv_bind H.
  match goal with
  | D : sample_duration _ _ _ _ _ _ = Ok ?p |- _ => destruct p as [d g']
  end.
  inv_bind H. inv_bind H. inv_bind H. inv_bind H. inv_bind H. inv_bind H.
  injection H as Ht Hw. subst a1.
  destruct (s_tasks a !! s_next_task_idx a) as [t0|] eqn:Htask; [|discriminate E1].
  injection E1 as ->.
  destruct (Hsek _ _ _ _ _ E5) as (Ht1 & Hs1 & He1).
  unfold get_stage in E. apply from_ref_ok in E.
  (* after detach_stage *)
  assert (Hst9 : exists es, w_stages a9 !! s = Some (stage_with_executors a es)).
  { eapply detach_stage_stage; [exact E11|]. simpl. rewrite Hs1. exact E. }
  destruct Hst9 as (es & Hst9).
  destruct (detach_stage_frame _ _ _ E11) as (Ht9 & _).
  simpl in Ht9.
  (* after Task.schedule *)
  destruct (task_schedule_tasks _ _ _ _ _ _ E12) as (x0 & Hx0 & _ & Ht10).
  destruct (task_schedule_executor _ _ _ _ _ _ E12)
    as (x1 & ex9 & sT & stT & Hx1 & Hex9 & HsT & HstT & Hs10 & He10).
  assert (x1 = x) as -> by (rewrite Ht9, Ht1, Hx in Hx1; congruence).
  rewrite Hxs in HsT. injection HsT as <-.
  rewrite Hst9 in HstT. injection HstT as <-.
  unfold get_stage in E13. apply from_ref_ok in E13.
  rewrite Hs10, Hst9 in E13. injection E13 as <-.
  unfold get_executor in E14. apply from_ref_ok in E14. simpl in E14.
  rewrite He10 in E14.
  rewrite list_lookup_insert_eq in E14 by (eapply lookup_lt_Some; eauto).
  injection E14 as <-.
  unfold get_stage in E15. apply from_ref_ok in E15. simpl in E15.
  rewrite list_lookup_insert_eq in E15
    by (rewrite Hs10; eapply lookup_lt_Some; eauto).
  injection E15 as <-.
  assert (Hfinal : w_tasks w' = w_tasks a10 /\
                   w_stages w' =
                     <[s := stage_with_progress
                              (stage_with_executors (stage_with_executors a es)
                                 (OrderedSet.add e es))
                              (S (s_next_task_idx a))
                              (s_num_tasks a <=? S (s_next_task_idx a))]>
                       (<[s := stage_with_executors (stage_with_executors a es)
                                 (OrderedSet.add e es)]> (w_stages a10)) /\
                   w_executors w' =
                     <[e := {| e_idx := e_idx ex9; e_task := Some t; e_stage := Some s;
                               e_job := s_job a |}]> (w_executors a10)).
  { subst w'. simpl in E16.
    destruct (s_num_tasks a <=? S (s_next_task_idx a)).
    - apply Hlf in E16. simpl in E16. exact E16.
    - injection E16 as <-. simpl. auto. }
  destruct Hfinal as (Htf & Hsf & Hef).
  eexists a, _, _, _. split; [exact E|]. split; [exact Htask|].
  split.
  { rewrite Hsf. apply list_lookup_insert_eq. rewrite length_insert, Hs10.
    eapply lookup_lt_Some; eauto. }
  split.
  { rewrite Hef. apply list_lookup_insert_eq. rewrite He10, length_insert.
    eapply lookup_lt_Some; eauto. }
  split.
  { rewrite Htf, Ht10. apply list_lookup_insert_eq. eapply lookup_lt_Some; eauto. }
  simpl. repeat split.
  apply elem_of_add. left. reflexivity.
Qed.

Lemma spark_leave_frontier_stores (s : nat) (w w' : World) :
  SparkEnvStage.leave_frontier s w = Ok w' ->
  w_tasks w' = w_tasks w /\ w_stages w' = w_stages w /\ w_executors w' = w_executors w.
Proof.
  unfold SparkEnvStage.leave_frontier. intros H. inv_bind H. inv_bind H. inv_bind H.
  destruct (OrderedSet.contains (PStage s) (j_frontier_stages a1)).
  - inv_bind H. inv_ok. auto.
  - inv_ok. auto.
Qed.

(** X3.  Binding consistency of Stage.schedule (either copy).  When the
    call on stage [s] with executor [e] returns task [t], a task of [s]:
    [t] is the task at the stage's next_task_idx; the task names [e] as its
    executor; the executor is bound to task [t], to stage [s] and to the job
    of [s]; [e] is in the stage's executor set; next_task_idx has advanced
    by one and no_more_task tells whether it has reached num_tasks. *)
Theorem schedule_binds_executor (args : Args) (s e t : nat) (w w' : World) (x : Task) :
  w_tasks w !! t = Some x -> t_stage x = Some s ->
  Stage.schedule args s e w = Ok (t, w') \/
  SparkEnvStage.schedule args s e w = Ok (t, w') ->
  exists st st' ex' x',
    w_stages w !! s = Some st /\
    s_tasks st !! s_next_task_idx st = Some t /\
    w_stages w' !! s = Some st' /\ w_executors w' !! e = Some ex' /\
    w_tasks w' !! t = Some x' /\
    t_executor x' = Some e /\
    e_task ex' = Some t /\ e_stage ex' = Some s /\ e_job ex' = s_job st /\
    e ∈ s_executors st' /\
    s_next_task_idx st' = S (s_next_task_idx st) /\
    s_no_more_task st' = (s_num_tasks st <=? S (s_next_task_idx st)) /\
    s_job st' = s_job st /\ s_tasks st' = s_tasks st.
Proof.
  intros Hx Hxs [H|H].
  - eapply (schedule_with_binds Stage.sample_executor_key Stage.leave_frontier);
      try eassumption.
    + intros s0 n w0 key w1 Hk. apply stage_sample_executor_key_frame in Hk. tauto.
    + intros s0 w0 w1 Hl. apply stage_leave_frontier_frame in Hl. subst. auto.
  - eapply (schedule_with_binds SparkEnvStage.sample_executor_key
              SparkEnvStage.leave_frontier); try eassumption.
    + intros s0 n w0 key w1 Hk. apply spark_sample_executor_key_frame in Hk. tauto.
    + intros s0 w0 w1 Hl. apply spark_leave_frontier_stores in Hl. exact Hl.
Qed.

Lemma schedule_binds_executor_witness :
  exists w' ex' st',
    SparkEnvStage.schedule Example.args 0 0 Scenes.busy = Ok (1, w') /\
    w_executors w' !! 0 = Some ex' /\ w_stages w' !! 0 = Some st' /\
    e_task ex' = Some 1 /\ e_stage ex' = Some 0 /\ e_job ex' = Some 0 /\
    s_next_task_idx st' = 2 /\ s_no_more_task st' = true.
Proof.
  assert (Hrun : exists w', SparkEnvStage.schedule Example.args 0 0 Scenes.busy = Ok (1, w'))
    by (eexists; vm_compute; reflexivity).
  destruct Hrun as (w' & Hrun).
  destruct (schedule_binds_executor Example.args 0 0 1 Scenes.busy w' (Example.task_of 1 0))
    as (st & st' & ex' & x' & Hst & _ & Hst' & Hex' & _ & _ & H1 & H2 & H3 & _ & H5 & H6 & _).
  - reflexivity.
  - reflexivity.
  - right. exact Hrun.
  - injection Hst as <-.
    exists w', ex', st'. split; [exact Hrun|]. split; [exact Hex'|]. split; [exact Hst'|].
    split; [exact H1|]. split; [exact H2|]. split; [exact H3|]. split; [exact H5 | exact H6].
Defined.

(** ** Stage.is_runnable *)

Lemma parents_done_loop (w : World) (ps : list nat) :
  (forall p, p ∈ ps -> is_Some (w_stages w !! p)) ->
  exists b,
    (fix parents (ps : list nat) : result bool :=
       match ps with
       | [] => Ok true
       | p :: ps' =>
           let* pst := get_stage w p in
           if negb (s_all_tasks_done pst) then Ok false else parents ps'
       end) ps = Ok b /\
    (b = true <->
     forall p pst, p ∈ ps -> w_stages w !! p = Some pst -> s_all_tasks_done pst = true).
Proof.
  induction ps as [|p ps IH]; intros Hps.
  - exists true. split; [reflexivity|]. split; [|reflexivity].
    intros _ p pst Hp. apply elem_of_nil in Hp. contradiction.
  - destruct (Hps p) as [pst Hpst]; [left|].
    destruct IH as (b & Hb & Hiff); [intros q Hq; apply Hps; right; exact Hq|].
    unfold get_stage at 1. rewrite Hpst. simpl.
    destruct (s_all_tasks_done pst) eqn:Hdone; simpl.
    + exists b. split; [exact Hb|]. rewrite Hiff. split.
      * intros Hall q qst Hq Hqst. apply elem_of_cons in Hq as [->|Hq]; [|eauto].
        congruence.
      * intros Hall q qst Hq. apply Hall. right. exact Hq.
    + exists false. split; [reflexivity|]. split; [discriminate|].
      intros Hall. rewrite (Hall p pst) in Hdone; [discriminate | left | exact Hpst].
Qed.

(** X4.  Stage.is_runnable (both copies) on a stage of the store whose
    parents are in the store returns a boolean, and it is true exactly when
    no_more_task is false, all_tasks_done is false and every parent stage
    has all_tasks_done. *)
Theorem is_runnable_iff (s : nat) (w : World) (st : Stage) :
  w_stages w !! s = Some st ->
  (forall p, p ∈ s_parent_stages st -> is_Some (w_stages w !! p)) ->
  exists b,
    Stage.is_runnable s w = Ok b /\ SparkEnvStage.is_runnable s w = Ok b /\
    (b = true <->
     s_no_more_task st = false /\ s_all_tasks_done st = false /\
     forall p pst, p ∈ s_parent_stages st -> w_stages w !! p = Some pst ->
                   s_all_tasks_done pst = true).
Proof.
  intros Hst Hps.
  unfold Stage.is_runnable, SparkEnvStage.is_runnable, StageCommon.is_runnable, get_stage.
  rewrite Hst. simpl.
  destruct (s_no_more_task st) eqn:Hn; simpl.
  { exists false. repeat split; try discriminate. intros (? & _); discriminate. }
  destruct (s_all_tasks_done st) eqn:Hd; simpl.
  { exists false. repeat split; try discriminate. intros (_ & ? & _); discriminate. }
  destruct (parents_done_loop w (s_parent_stages st) Hps) as (b & Hb & Hiff).
  exists b. split; [exact Hb|]. split; [exact Hb|]. rewrite Hiff. tauto.
Qed.

Lemma is_runnable_iff_witness :
  exists b,
    Stage.is_runnable 1 Example.parent_done = Ok b /\
    SparkEnvStage.is_runnable 1 Example.parent_done = Ok b /\
    (b = true <->
     false = false /\ false = false /\
     forall p pst, p ∈ [0] -> w_stages Example.parent_done !! p = Some pst ->
                   s_all_tasks_done pst = true).
Proof.
  apply (is_runnable_iff 1 Example.parent_done (Example.stage_of 1 [2] [0] [] false)).
  - reflexivity.
  - intros p Hp. apply list_elem_of_singleton in Hp. subst. eexists. reflexivity.
Defined.

(** ** sample_executor_key: the fallback to the largest recorded key *)

Lemma largest_key_loop_max (keys : list Z) : largest_key_loop keys = fold_left Z.max keys 0%Z.
Proof.
  unfold largest_key_loop. generalize 0%Z. induction keys as [|k keys IH]; intros a; simpl.
  - reflexivity.
  - rewrite IH. f_equal. destruct (Z.ltb_spec a k); lia.
Qed.

Lemma fold_max_out (ks : list Z) (a b : Z) :
  fold_left Z.max ks (Z.max a b) = Z.max a (fold_left Z.max ks b).
Proof.
  revert b. induction ks as [|k ks IH]; intros b; simpl; [reflexivity|].
  rewrite <- IH. f_equal. lia.
Qed.

Lemma fold_max_bounds (ks : list Z) (a : Z) :
  (a <= fold_left Z.max ks a)%Z /\
  (forall k, k ∈ ks -> (k <= fold_left Z.max ks a)%Z) /\
  fold_left Z.max ks a ∈ a :: ks.
Proof.
  revert a. induction ks as [|k ks IH]; intros a; simpl.
  - split; [lia|]. split; [intros k Hk; apply elem_of_nil in Hk; contradiction | left].
  - destruct (IH (Z.max a k)) as (Hge & Hall & Hin). split; [lia|]. split.
    + intros k' Hk'. apply elem_of_cons in Hk' as [->|Hk']; [lia | auto].
    + apply elem_of_cons in Hin as [Heq|Hin]; [|right; right; exact Hin].
      rewrite Heq. destruct (Z.max_spec a k) as [[_ ->]|[_ ->]]; [right; left | left].
Qed.

(* with a key that is not negative in the table, the loop of env.py and
   max() of spark_env/stage.py find the same key, a key of the table *)
Lemma largest_key_agrees (keys : list Z) :
  (exists k, k ∈ keys /\ (0 <= k)%Z) ->
  py_max keys = Ok (largest_key_loop keys) /\ largest_key_loop keys ∈ keys.
Proof.
  intros (k0 & Hk0 & Hpos). rewrite largest_key_loop_max.
  destruct keys as [|k ks]; [apply elem_of_nil in Hk0; contradiction|].
  simpl. rewrite fold_max_out.
  destruct (fold_max_bounds ks k) as (Hge & Hall & Hin).
  assert (Hnn : (0 <= fold_left Z.max ks k)%Z).
  { apply elem_of_cons in Hk0 as [->|Hk0]; [lia|]. specialize (Hall _ Hk0). lia. }
  rewrite Z.max_r by exact Hnn. split; [reflexivity | exact Hin].
Qed.

Lemma mem_keys {V : Type} (k : Z) (d : list (Z * V)) :
  Dict.mem k d = true <-> k ∈ Dict.keys d.
Proof.
  unfold Dict.mem. destruct (Dict.get k d) eqn:Hg.
  - split; [intros _ | reflexivity].
    destruct (decide (k ∈ Dict.keys d)) as [Hin|Hn]; [exact Hin|].
    apply get_None_keys in Hn. congruence.
  - split; [discriminate|]. intros Hin. apply get_None_keys in Hg. contradiction.
Qed.

(** X5.  On a stage whose first_wave table has a key that is not negative,
    a call of sample_executor_key that returns in env.py returns the same
    key and store in spark_env/stage.py, and the key is one of the keys of
    the first_wave table: the later lookups first_wave[executor_key] of
    Stage.schedule cannot miss. *)
Theorem sample_executor_key_in_table (s : nat) (n key : Z) (w w1 : World) (st : Stage) :
  w_stages w !! s = Some st ->
  (exists k, k ∈ Dict.keys (first_wave (s_task_duration st)) /\ (0 <= k)%Z) ->
  Stage.sample_executor_key s n w = Ok (key, w1) ->
  SparkEnvStage.sample_executor_key s n w = Ok (key, w1) /\
  key ∈ Dict.keys (first_wave (s_task_duration st)).
Proof.
  intros Hst Hpos H. unfold Stage.sample_executor_key in H.
  unfold SparkEnvStage.sample_executor_key.
  inv_bind H. destruct a as [k0 w0]. rewrite E. simpl.
  inv_bind H. rewrite E0. simpl.
  destruct (resolve_interval_frame _ _ _ _ _ E) as (_ & Hs0 & _).
  unfold get_stage in E0. apply from_ref_ok in E0. rewrite Hs0, Hst in E0.
  injection E0 as <-.
  destruct (largest_key_agrees _ Hpos) as (Hmax & Hin).
  destruct (Dict.mem k0 (first_wave (s_task_duration st))) eqn:Hm; simpl in *.
  - injection H as <- <-. split; [reflexivity|]. apply mem_keys. exact Hm.
  - injection H as <- <-. rewrite Hmax. simpl. split; [reflexivity | exact Hin].
Qed.

Lemma sample_executor_key_in_table_witness :
  exists w1,
    (* the count 6 resolves to the point 10, which the stage has no record of *)
    StageCommon.resolve_interval 0 6 (Scenes.unrecorded_point (Example.constant_words 1))
      = Ok (10%Z, w1) /\
    Dict.mem 10%Z (first_wave Scenes.short_durations) = false /\
    (* so the largest recorded key is taken, by the loop and by max() *)
    Stage.sample_executor_key 0 6 (Scenes.unrecorded_point (Example.constant_words 1))
      = Ok (5%Z, w1) /\
    SparkEnvStage.sample_executor_key 0 6 (Scenes.unrecorded_point (Example.constant_words 1))
      = Ok (5%Z, w1) /\
    5%Z ∈ Dict.keys (first_wave Scenes.short_durations).
Proof.
  eexists. split; [vm_compute; reflexivity|]. split; [reflexivity|].
  match goal with
  | |- ?A /\ _ => assert (Hrun : A) by (vm_compute; reflexivity)
  end.
  split; [exact Hrun|].
  apply (sample_executor_key_in_table 0 6 5
           (Scenes.unrecorded_point (Example.constant_words 1)) _ Scenes.short_stage).
  - reflexivity.
  - exists 5%Z. split; [right; left | lia].
  - exact Hrun.
Defined.

(** X6.  The first half of sample_executor_key, when it returns: the count
    has an entry (lo, hi) in the job's interval table and the key is lo or
    hi; the global generator, the clock and the objects are left alone; the
    per-episode generator has advanced by one word when lo and hi differ
    and not at all when they are equal. *)
Theorem resolve_interval_endpoints (s : nat) (n key : Z) (w w1 : World) :
  StageCommon.resolve_interval s n w = Ok (key, w1) ->
  exists st j jb lo hi,
    w_stages w !! s = Some st /\ s_job st = Some j /\ w_jobs w !! j = Some jb /\
    Dict.get n (j_executor2interval jb) = Some (lo, hi) /\
    (key = lo \/ key = hi) /\
    w_global_random w1 = w_global_random w /\
    w_time w1 = w_time w /\
    w_tasks w1 = w_tasks w /\ w_stages w1 = w_stages w /\ w_jobs w1 = w_jobs w /\
    w_executors w1 = w_executors w /\
    rs_words (w_np_random w1) = rs_words (w_np_random w) /\
    rs_pos (w_np_random w1) =
      rs_pos (w_np_random w) + (if (lo =? hi)%Z then 0 else 1).
Proof.
  intros H.
  pose proof (resolve_interval_frame _ _ _ _ _ H) as (Ht & Hs & Hj & He & Hclock & Hg).
  unfold StageCommon.resolve_interval in H.
  inv_bind H. inv_bind H. inv_bind H. inv_bind H. destruct a2 as [lo hi]. inv_ok.
  unfold stage_job in E0. destruct (s_job a) as [j|] eqn:Hsj; [|discriminate E0].
  injection E0 as <-.
  exists a, j, a1, lo, hi. repeat split; try assumption.
  - destruct (lo =? hi)%Z; [inv_ok; left; reflexivity|].
    inv_bind H. destruct a0 as [r g']. inv_ok. unfold pick_side.
    destruct (r <=? n - lo)%Z; auto.
  - destruct (lo =? hi)%Z; [inv_ok; reflexivity|].
    inv_bind H. destruct a0 as [r g']. inv_ok. simpl.
    unfold randint in E0. destruct (1 <? hi - lo + 1)%Z; [|discriminate E0].
    injection E0 as _ <-. reflexivity.
  - destruct (lo =? hi)%Z; [inv_ok; lia|].
    inv_bind H. destruct a0 as [r g']. inv_ok. simpl.
    unfold randint in E0. destruct (1 <? hi - lo + 1)%Z; [|discriminate E0].
    injection E0 as _ <-. simpl. lia.
Qed.

Lemma resolve_interval_endpoints_witness :
  exists w1,
    StageCommon.resolve_interval 0 6 (Example.six_executors (Example.constant_words 1))
      = Ok (10%Z, w1) /\
    w_global_random w1 = Example.constant_words 0 /\
    w_time w1 = 0%Q /\
    rs_pos (w_np_random w1) = 1.
Proof.
  assert (Hrun : exists w1,
             StageCommon.resolve_interval 0 6
               (Example.six_executors (Example.constant_words 1)) = Ok (10%Z, w1))
    by (eexists; vm_compute; reflexivity).
  destruct Hrun as (w1 & Hrun). exists w1. split; [exact Hrun|].
  destruct (resolve_interval_endpoints 0 6 10
              (Example.six_executors (Example.constant_words 1)) w1 Hrun)
    as (st & j & jb & lo & hi & Hst & Hj & Hjb & Hget & _ & Hg & Hclock & _ & _ & _ & _ & _ &
        Hpos).
  injection Hst as <-. injection Hj as <-. injection Hjb as <-.
  injection Hget as <- <-. split; [exact Hg|]. split; [exact Hclock | exact Hpos].
Defined.

(** X7.  Strictly between two recorded points lo < n < hi, of the hi - lo
    possible draws of randint(1, hi - lo + 1) exactly n - lo resolve the
    count n to lo and exactly hi - n resolve it to hi; so a count nearer to
    lo than to hi resolves to lo on fewer draws than to hi. *)
Theorem draws_count_between_points (lo hi n : Z) :
  (lo < n < hi)%Z ->
  length (draws_resolving_to lo lo hi n) = Z.to_nat (n - lo) /\
  length (draws_resolving_to hi lo hi n) = Z.to_nat (hi - n) /\
  length (draws_resolving_to lo lo hi n) + length (draws_resolving_to hi lo hi n)
    = Z.to_nat (hi - lo) /\
  ((n - lo < hi - n)%Z ->
   length (draws_resolving_to lo lo hi n) < length (draws_resolving_to hi lo hi n)).
Proof.
  intros Hn. destruct (draws_between_points lo hi n Hn) as (_ & _ & Hlo & Hhi).
  rewrite Hlo, Hhi. split; [reflexivity|]. split; [reflexivity|].
  split; [lia|]. intros Hnear. lia.
Qed.

Lemma draws_count_between_points_witness :
  length (draws_resolving_to 10 10 20 13) = 3 /\
  length (draws_resolving_to 20 10 20 13) = 7.
Proof.
  destruct (draws_count_between_points 10 20 13) as (H1 & H2 & _); [lia|].
  split; [exact H1 | exact H2].
Defined.

(** ** get_executor_interval_map *)

Lemma elem_of_range (a b e : Z) : e ∈ range a b <-> (a <= e < b)%Z.
Proof.
  split; [apply range_bounds|]. intros He. unfold range.
  apply list_elem_of_fmap. exists (Z.to_nat (e - a)). split; [lia|].
  apply elem_of_seq. lia.
Qed.

Lemma get_set_all (e : Z) (es : list Z) (v : Z * Z) (m : list (Z * (Z * Z))) :
  Dict.get e (set_all es v m) = if decide (e ∈ es) then Some v else Dict.get e m.
Proof.
  unfold set_all. revert m. induction es as [|x es IH]; intros m; simpl.
  - destruct (decide (e ∈ [])) as [Hin|_]; [apply elem_of_nil in Hin; contradiction|].
    reflexivity.
  - rewrite IH. destruct (decide (e ∈ es)) as [Hin|Hn].
    + destruct (decide (e ∈ x :: es)) as [_|Hn']; [reflexivity|].
      exfalso. apply Hn'. right. exact Hin.
    + destruct (decide (x = e)) as [->|Hne].
      * rewrite get_set_eq. destruct (decide (e ∈ e :: es)) as [_|Hn']; [reflexivity|].
        exfalso. apply Hn'. left.
      * rewrite get_set_ne by exact Hne.
        destruct (decide (e ∈ x :: es)) as [Hin|_]; [|reflexivity].
        apply elem_of_cons in Hin as [->|Hin]; contradiction.
Qed.

Lemma center_entry_below (points : list Z) (e lo : Z) :
  head points = Some lo -> (e <= lo)%Z -> center_entry points e = None.
Proof.
  destruct points as [|p [|q rest]]; simpl; intros Hh He; try reflexivity.
  injection Hh as ->. destruct (Z.ltb_spec lo e); [lia | reflexivity].
Qed.

(* the lookups after the centre loop, for strictly increasing points *)
Lemma get_interval_center (points : list Z) (e : Z) (m : list (Z * (Z * Z))) :
  Sorted Z.lt points ->
  Dict.get e (interval_center points m) =
    match center_entry points e with
    | Some v => Some v
    | None => Dict.get e m
    end.
Proof.
  revert m. induction points as [|lo rest IH]; intros m Hs; [reflexivity|].
  destruct rest as [|hi rest]; [reflexivity|].
  apply Sorted_inv in Hs as [Hs Hhd]. apply HdRel_inv in Hhd.
  change (interval_center (lo :: hi :: rest) m)
    with (interval_center (hi :: rest)
            (Dict.set hi (hi, hi) (set_all (range (lo + 1) hi) (lo, hi) m))).
  rewrite (IH _ Hs).
  change (center_entry (lo :: hi :: rest) e)
    with (if (lo <? e)%Z then
            if (e <? hi)%Z then Some (lo, hi)
            else if (e =? hi)%Z then Some (hi, hi)
            else center_entry (hi :: rest) e
          else None).
  destruct (Z.ltb_spec lo e) as [Hlo|Hlo].
  - destruct (Z.ltb_spec e hi) as [Hhi|Hhi].
    + rewrite (center_entry_below (hi :: rest) e hi) by (simpl; auto || lia).
      rewrite get_set_ne by lia. rewrite get_set_all.
      destruct (decide (e ∈ range (lo + 1) hi)) as [_|Hn]; [reflexivity|].
      exfalso. apply Hn. apply elem_of_range. lia.
    + destruct (Z.eqb_spec e hi) as [->|Hne].
      * rewrite (center_entry_below (hi :: rest) hi hi) by (simpl; auto || lia).
        apply get_set_eq.
      * destruct (center_entry (hi :: rest) e); [reflexivity|].
        rewrite get_set_ne by lia. rewrite get_set_all.
        destruct (decide (e ∈ range (lo + 1) hi)) as [Hin|_]; [|reflexivity].
        apply elem_of_range in Hin. lia.
  - rewrite (center_entry_below (hi :: rest) e hi) by (simpl; auto || lia).
    rewrite get_set_ne by lia. rewrite get_set_all.
    destruct (decide (e ∈ range (lo + 1) hi)) as [Hin|_]; [|reflexivity].
    apply elem_of_range in Hin. lia.
Qed.

Lemma last_elem (l : list Z) (d : Z) : l <> [] -> List.last l d ∈ l.
Proof.
  induction l as [|x l IH]; [congruence|]. intros _.
  destruct l as [|y l]; [left|]. right. apply IH. discriminate.
Qed.

Lemma sorted_below_last (l : list Z) (d x : Z) :
  StronglySorted Z.lt l -> x ∈ l -> (x <= List.last l d)%Z.
Proof.
  induction l as [|y l IH]; intros Hs Hx; [apply elem_of_nil in Hx; contradiction|].
  apply StronglySorted_inv in Hs as [Hs Hall].
  destruct l as [|z l].
  - apply list_elem_of_singleton in Hx. subst. simpl. lia.
  - change (List.last (y :: z :: l) d) with (List.last (z :: l) d).
    apply elem_of_cons in Hx as [->|Hx]; [|apply IH; assumption].
    assert (Hz : (y < List.last (z :: l) d)%Z).
    { rewrite Forall_forall in Hall. apply Hall. apply last_elem. discriminate. }
    lia.
Qed.

Lemma center_entry_above (points : list Z) (e : Z) :
  (forall x, x ∈ points -> (x < e)%Z) -> center_entry points e = None.
Proof.
  induction points as [|lo rest IH]; intros Hall; [reflexivity|].
  destruct rest as [|hi rest]; [reflexivity|].
  change (center_entry (lo :: hi :: rest) e)
    with (if (lo <? e)%Z then
            if (e <? hi)%Z then Some (lo, hi)
            else if (e =? hi)%Z then Some (hi, hi)
            else center_entry (hi :: rest) e
          else None).
  assert (lo < e)%Z by (apply Hall; left).
  assert (hi < e)%Z by (apply Hall; right; left).
  destruct (Z.ltb_spec lo e); [|lia]. destruct (Z.ltb_spec e hi); [lia|].
  destruct (Z.eqb_spec e hi); [lia|]. apply IH. intros x Hx. apply Hall. right. exact Hx.
Qed.

Lemma sorted_neighbours (pre post : list Z) (lo hi : Z) :
  StronglySorted Z.lt (pre ++ lo :: hi :: post) -> (lo < hi)%Z.
Proof.
  induction pre as [|a pre IH]; intros Hs; apply StronglySorted_inv in Hs as [Hs Hall].
  - rewrite Forall_forall in Hall. apply Hall. left.
  - apply IH. exact Hs.
Qed.

Lemma center_entry_split (pre post : list Z) (lo hi e : Z) :
  StronglySorted Z.lt (pre ++ lo :: hi :: post) ->
  ((lo < e < hi)%Z -> center_entry (pre ++ lo :: hi :: post) e = Some (lo, hi)) /\
  center_entry (pre ++ lo :: hi :: post) hi = Some (hi, hi).
Proof.
  induction pre as [|a pre IH]; intros Hs.
  - simpl app. apply StronglySorted_inv in Hs as [_ Hall].
    rewrite Forall_forall in Hall.
    assert (lo < hi)%Z by (apply Hall; left).
    split.
    + intros He. simpl. destruct (Z.ltb_spec lo e); [|lia].
      destruct (Z.ltb_spec e hi); [reflexivity | lia].
    + simpl. destruct (Z.ltb_spec lo hi); [|lia].
      destruct (Z.ltb_spec hi hi); [lia|]. rewrite Z.eqb_refl. reflexivity.
  - apply StronglySorted_inv in Hs as [Hs Hall]. rewrite Forall_forall in Hall.
    destruct (IH Hs) as (IH1 & IH2).
    assert (Ha_lo : (a < lo)%Z).
    { apply Hall. apply elem_of_app. right. left. }
    assert (Hlo_hi : (lo < hi)%Z).
    { eapply sorted_neighbours. exact Hs. }
    assert (Hb : forall b l, pre ++ lo :: hi :: post = b :: l -> (b <= lo)%Z).
    { intros b l Heq. destruct pre as [|p pre]; simpl in Heq.
      - injection Heq as <- _. lia.
      - injection Heq as <- _.
        apply StronglySorted_inv in Hs as [_ Hp]. rewrite Forall_forall in Hp.
        assert (p < lo)%Z by (apply Hp; apply elem_of_app; right; left). lia. }
    destruct (pre ++ lo :: hi :: post) as [|b l] eqn:Hrest.
    { destruct pre; discriminate. }
    specialize (Hb b l eq_refl).
    change (center_entry ((a :: pre) ++ lo :: hi :: post))
      with (center_entry (a :: (pre ++ lo :: hi :: post))).
    rewrite Hrest.
    split.
    + intros He.
      change (center_entry (a :: b :: l) e)
        with (if (a <? e)%Z then
                if (e <? b)%Z then Some (a, b)
                else if (e =? b)%Z then Some (b, b)
                else center_entry (b :: l) e
              else None).
      destruct (Z.ltb_spec a e); [|lia]. destruct (Z.ltb_spec e b); [lia|].
      destruct (Z.eqb_spec e b); [lia|]. apply IH1. exact He.
    + change (center_entry (a :: b :: l) hi)
        with (if (a <? hi)%Z then
                if (hi <? b)%Z then Some (a, b)
                else if (hi =? b)%Z then Some (b, b)
                else center_entry (b :: l) hi
              else None).
      destruct (Z.ltb_spec a hi); [|lia]. destruct (Z.ltb_spec hi b); [lia|].
      destruct (Z.eqb_spec hi b); [lia|]. exact IH2.
Qed.

(** X8.  The interval table for recorded points that increase strictly and
    start at a point >= 0.  get_executor_interval_map returns a table in
    which: every count from 0 to the first point maps to (first, first);
    every count strictly between two neighbouring points lo and hi maps to
    (lo, hi); every point maps to itself; every count above the last point
    up to exec_cap maps to (last, last); negative counts and counts above
    both the last point and exec_cap have no entry. *)
Theorem interval_map_entries (args : Args) (first : Z) (rest : list Z) :
  executor_data_point args = first :: rest ->
  Sorted Z.lt (first :: rest) ->
  (0 <= first)%Z ->
  exists m,
    get_executor_interval_map args = Ok m /\
    (forall e, (0 <= e <= first)%Z -> Dict.get e m = Some (first, first)) /\
    (forall pre lo hi post e,
        first :: rest = pre ++ lo :: hi :: post ->
        ((lo < e < hi)%Z -> Dict.get e m = Some (lo, hi)) /\
        Dict.get hi m = Some (hi, hi)) /\
    (forall e, (List.last (first :: rest) first < e <= exec_cap args)%Z ->
       Dict.get e m = Some (List.last (first :: rest) first, List.last (first :: rest) first)) /\
    (forall e, (e < 0)%Z \/ (List.last (first :: rest) first < e /\ exec_cap args < e)%Z ->
       Dict.get e m = None).
Proof.
  intros Hpoints Hsorted Hfirst.
  set (points := first :: rest) in *.
  set (last := List.last points first).
  assert (Hss : StronglySorted Z.lt points).
  { apply Sorted_StronglySorted; [|exact Hsorted]. intros x y z. apply Z.lt_trans. }
  assert (Hle : forall x, x ∈ points -> (x <= last)%Z).
  { intros x Hx. apply sorted_below_last; assumption. }
  assert (Hfl : (first <= last)%Z) by (apply Hle; left).
  assert (Hge : forall x, x ∈ points -> (first <= x)%Z).
  { intros x Hx. apply elem_of_cons in Hx as [->|Hx]; [lia|].
    apply StronglySorted_inv in Hss as [_ Hall]. rewrite Forall_forall in Hall.
    specialize (Hall _ Hx). lia. }
  set (m1 := set_all (range 0 (first + 1)) (first, first) []).
  set (m2 := interval_center points m1).
  assert (Hm2 : forall e,
             Dict.get e m2 =
               match center_entry points e with
               | Some v => Some v
               | None => if decide (0 <= e <= first)%Z then Some (first, first) else None
               end).
  { intros e. unfold m2. rewrite (get_interval_center points e m1 Hsorted).
    destruct (center_entry points e); [reflexivity|].
    unfold m1. rewrite get_set_all.
    destruct (decide (e ∈ range 0 (first + 1))) as [Hin|Hn];
      destruct (decide (0 <= e <= first)%Z) as [He|He]; try reflexivity.
    - apply elem_of_range in Hin. lia.
    - exfalso. apply Hn. apply elem_of_range. lia. }
  set (m := if (last <? exec_cap args)%Z
            then set_all (range (last + 1) (exec_cap args + 1)) (last, last) m2
            else m2).
  assert (Hm : forall e,
             Dict.get e m =
               if decide (last < e <= exec_cap args)%Z then Some (last, last)
               else Dict.get e m2).
  { intros e. unfold m. destruct (Z.ltb_spec last (exec_cap args)) as [Hc|Hc].
    - rewrite get_set_all.
      destruct (decide (e ∈ range (last + 1) (exec_cap args + 1))) as [Hin|Hn];
        destruct (decide (last < e <= exec_cap args)%Z) as [He|He]; try reflexivity.
      + apply elem_of_range in Hin. lia.
      + exfalso. apply Hn. apply elem_of_range. lia.
    - destruct (decide (last < e <= exec_cap args)%Z) as [He|He]; [lia | reflexivity]. }
  exists m. split.
  { unfold get_executor_interval_map. rewrite Hpoints. unfold m, m2, m1, last, points.
    destruct (List.last (first :: rest) first <? exec_cap args)%Z; reflexivity. }
  split; [|split; [|split]].
  - intros e He. rewrite Hm, Hm2.
    destruct (decide (last < e <= exec_cap args)%Z); [lia|].
    rewrite (center_entry_below points e first) by (reflexivity || lia).
    destruct (decide (0 <= e <= first)%Z); [reflexivity | lia].
  - intros pre lo hi post e Hsplit.
    assert (Hss' : StronglySorted Z.lt (pre ++ lo :: hi :: post))
      by (rewrite <- Hsplit; exact Hss).
    destruct (center_entry_split pre post lo hi e Hss') as (Hbetween & Hpoint).
    assert (Hhi : (hi <= last)%Z).
    { apply Hle. fold points in Hsplit. rewrite Hsplit. apply elem_of_app. right. right. left. }
    fold points in Hsplit. rewrite <- Hsplit in Hbetween, Hpoint.
    split.
    + intros He. rewrite Hm, Hm2, (Hbetween He).
      destruct (decide (last < e <= exec_cap args)%Z); [lia | reflexivity].
    + rewrite Hm, Hm2, Hpoint.
      destruct (decide (last < hi <= exec_cap args)%Z); [lia | reflexivity].
  - intros e He. rewrite Hm.
    destruct (decide (last < e <= exec_cap args)%Z); [reflexivity | contradiction].
  - intros e He. rewrite Hm, Hm2.
    destruct (decide (last < e <= exec_cap args)%Z); [lia|].
    assert (Hnone : center_entry points e = None).
    { destruct He as [Hneg|[Hlast _]].
      - apply (center_entry_below points e first); [reflexivity | lia].
      - apply center_entry_above. intros x Hx. specialize (Hle x Hx). lia. }
    rewrite Hnone. destruct (decide (0 <= e <= first)%Z); [lia | reflexivity].
Qed.

Lemma interval_map_entries_witness :
  exists m,
    get_executor_interval_map Example.args = Ok m /\
    Dict.get 3%Z m = Some (5, 5)%Z /\
    Dict.get 7%Z m = Some (5, 10)%Z /\
    Dict.get 10%Z m = Some (10, 10)%Z /\
    Dict.get 12%Z m = Some (10, 10)%Z /\
    Dict.get 13%Z m = None.
Proof.
  destruct (interval_map_entries Example.args 5 [10%Z]) as (m & Hm & H1 & H2 & H3 & H4).
  - reflexivity.
  - repeat constructor.
  - lia.
  - exists m. split; [exact Hm|].
    split; [apply H1; lia|].
    split; [apply (H2 [] 5%Z 10%Z [] 7%Z eq_refl); lia|].
    split; [apply (H2 [] 5%Z 10%Z [] 7%Z eq_refl)|].
    split; [apply H3; simpl; lia | apply H4; right; simpl; lia].
Defined.

(** ** ExecutorCommit: committing and fulfilling *)

Lemma set_same {K V : Type} `{EqDecision K} (k : K) (v : V) (d : list (K * V)) :
  Dict.get k d = Some v -> Dict.set k v d = d.
Proof.
  induction d as [|[k0 v0] d IH]; simpl; [discriminate|].
  destruct (decide (k0 = k)) as [->|Hne].
  - intros [= ->]. reflexivity.
  - intros Hg. rewrite (IH Hg). reflexivity.
Qed.

Lemma del_appended {A : Type} `{EqDecision A} (x : A) (s : list A) :
  x ∉ s -> OrderedSet.del x (OrderedSet.add x s) = s.
Proof.
  intros Hn. unfold OrderedSet.add. rewrite (proj2 (contains_false _ _) Hn).
  induction s as [|y s IH]; simpl.
  - destruct (decide (x = x)); [reflexivity | contradiction].
  - apply not_elem_of_cons in Hn as [Hne Hn].
    destruct (decide (y = x)); [congruence | rewrite (IH Hn); reflexivity].
Qed.

(* the ledger [l] with v executors committed from src, which had no
   commitment, to stage *)
Lemma pop_committed (l : CommitLedger) (src stage : pyobj) (total v : Z)
    (sources : list pyobj) :
  Dict.get src (commit l) = Some [] ->
  Dict.get stage (stage_commit l) = Some total ->
  Dict.get stage (backward l) = Some sources ->
  src ∉ sources ->
  (0 <= total)%Z -> (1 <= v)%Z ->
  ExecutorCommit.pop src
    {| commit := Dict.set src [(stage, v)] (commit l);
       stage_commit := Dict.set stage (total + v)%Z (stage_commit l);
       backward := Dict.set stage (OrderedSet.add src sources) (backward l) |}
  = Ok (stage,
        if (v =? 1)%Z then l
        else {| commit := Dict.set src [(stage, (v - 1)%Z)] (commit l);
                stage_commit := Dict.set stage (total + (v - 1))%Z (stage_commit l);
                backward := Dict.set stage (OrderedSet.add src sources) (backward l) |}).
Proof.
  intros Hc Ht Hb Hsrc Htotal Hv. unfold ExecutorCommit.pop. simpl.
  rewrite get_set_eq. simpl.
  destruct (decide (stage = stage)) as [_|Hn]; [|contradiction].
  rewrite get_set_eq. simpl.
  destruct (Z.leb_spec 0 (v - 1)) as [_|?]; [|lia]. simpl.
  destruct (Z.leb_spec 0 (total + v - 1)) as [_|?]; [|lia]. simpl.
  rewrite !set_set.
  destruct (Z.eqb_spec (v - 1) 0) as [Hz|Hnz].
  - rewrite get_set_eq. simpl.
    rewrite (proj2 (contains_true _ _)) by (apply elem_of_add; auto).
    destruct (Z.eqb_spec v 1) as [_|?]; [|lia].
    destruct (decide (stage = stage)) as [_|Hn]; [|contradiction].
    rewrite !set_set, (del_appended _ _ Hsrc).
    rewrite (set_same _ _ _ Hc), (set_same _ _ _ Hb).
    replace (total + v - 1)%Z with total by lia. rewrite (set_same _ _ _ Ht).
    destruct l; reflexivity.
  - destruct (Z.eqb_spec v 1) as [?|_]; [lia|].
    replace (total + v - 1)%Z with (total + (v - 1))%Z by lia. reflexivity.
Qed.

(** X9.  Commit and fulfil.  On a ledger where [src] has no outstanding
    commitment, [stage] is a registered destination with a total >= 0 and
    [src] is not among its sources: add(src, stage, k) for k >= 1 returns,
    the next k calls of pop(src) all return [stage], and after them the
    ledger is exactly the one before the add. *)
Theorem add_then_pops_restore (l : CommitLedger) (src stage : pyobj) (total : Z)
    (sources : list pyobj) (k : nat) :
  Dict.get src (commit l) = Some [] ->
  Dict.get stage (stage_commit l) = Some total ->
  Dict.get stage (backward l) = Some sources ->
  src ∉ sources ->
  (0 <= total)%Z ->
  exists l1,
    ExecutorCommit.add src stage (Z.of_nat (S k)) l = Ok l1 /\
    pop_n (S k) src l1 = Ok (repeat stage (S k), l).
Proof.
  intros Hc Ht Hb Hsrc Htotal.
  exists {| commit := Dict.set src [(stage, Z.of_nat (S k))] (commit l);
            stage_commit := Dict.set stage (total + Z.of_nat (S k))%Z (stage_commit l);
            backward := Dict.set stage (OrderedSet.add src sources) (backward l) |}.
  split.
  - unfold ExecutorCommit.add. rewrite Hc. simpl.
    destruct (decide (stage = stage)) as [_|Hn]; [|contradiction]. simpl.
    rewrite Ht, Hb. simpl.
    destruct (decide (stage = stage)) as [_|Hn]; [|contradiction]. reflexivity.
  - induction k as [|k IH].
    + change (pop_n 1 src ?l0)
        with (let* (stage0, l1) := ExecutorCommit.pop src l0 in
              let* (stages, l2) := pop_n 0 src l1 in
              Ok (stage0 :: stages, l2)).
      change (Z.of_nat 1) with 1%Z.
      rewrite (pop_committed l src stage total 1 sources) by (assumption || lia).
      reflexivity.
    + change (pop_n (S (S k)) src ?l0)
        with (let* (stage0, l1) := ExecutorCommit.pop src l0 in
              let* (stages, l2) := pop_n (S k) src l1 in
              Ok (stage0 :: stages, l2)).
      rewrite (pop_committed l src stage total (Z.of_nat (S (S k))) sources)
        by (assumption || lia).
      destruct (Z.eqb_spec (Z.of_nat (S (S k))) 1) as [?|_]; [lia|].
      replace (Z.of_nat (S (S k)) - 1)%Z with (Z.of_nat (S k)) by lia.
      cbn [bind]. rewrite IH. reflexivity.
Qed.

Lemma add_then_pops_restore_witness :
  exists l1,
    ExecutorCommit.add PNone PNone 3 ExecutorCommit.reset = Ok l1 /\
    pop_n 3 PNone l1 = Ok ([PNone; PNone; PNone], ExecutorCommit.reset).
Proof.
  apply (add_then_pops_restore ExecutorCommit.reset PNone PNone 0 [] 2).
  - reflexivity.
  - reflexivity.
  - reflexivity.
  - apply not_elem_of_nil.
  - lia.
Defined.

(** ** FreeExecutors.remove_job: the executors go back to the free pool *)

Lemma detach_job_keeps_references (e : nat) (w : World) :
  references_in_store w ->
  e < length (w_executors w) ->
  exists w' ex,
    Executor.detach_job e w = Ok w' /\
    w_executors w !! e = Some ex /\
    w_executors w' = <[e := unbound ex]> (w_executors w) /\
    w_tasks w' = w_tasks w /\
    references_in_store w'.
Proof.
  intros Hrefs He.
  destruct (lookup_lt_is_Some_2 _ _ He) as [ex Hex].
  destruct (Hrefs e ex Hex) as [Hst Hjb].
  destruct (detach_job_store e w ex Hex Hst Hjb) as (w' & Hd & Hes & Ht & Hs & Hj).
  exists w', ex. split; [exact Hd|]. split; [exact Hex|]. split; [exact Hes|].
  split; [exact Ht|].
  assert (Hls : length (w_stages w') = length (w_stages w)).
  { rewrite Hs. destruct (e_stage ex) as [s|]; [|reflexivity].
    destruct (w_stages w !! s); [apply length_insert | reflexivity]. }
  assert (Hlj : length (w_jobs w') = length (w_jobs w)).
  { rewrite Hj. destruct (e_job ex) as [j|]; [|reflexivity].
    destruct (w_jobs w !! j); [apply length_insert | reflexivity]. }
  intros e' ex' Hex'. rewrite Hes in Hex'.
  destruct (decide (e = e')) as [<-|Hne].
  - rewrite list_lookup_insert_eq in Hex' by exact He. injection Hex' as <-.
    split; intros ? [=].
  - rewrite list_lookup_insert_ne in Hex' by exact Hne.
    destruct (Hrefs e' ex' Hex') as [Hst' Hjb']. split.
    + intros s Hs'. apply lookup_lt_is_Some. rewrite Hls.
      apply lookup_lt_is_Some. auto.
    + intros j Hj'. apply lookup_lt_is_Some. rewrite Hlj.
      apply lookup_lt_is_Some. auto.
Qed.

Lemma unbound_unbound (x : Executor) : unbound (unbound x) = unbound x.
Proof. reflexivity. Qed.

Lemma evict_store (es : list nat) (fe : list (option nat * list nat)) (w : World)
    (free : list nat) :
  references_in_store w ->
  (forall e, e ∈ es -> e < length (w_executors w)) ->
  Dict.get None fe = Some free ->
  exists w1,
    FreeExecutors.evict es fe w
      = Ok (Dict.set None (fold_left (fun pool x => OrderedSet.add x pool) es free) fe, w1) /\
    w_tasks w1 = w_tasks w /\
    references_in_store w1 /\
    length (w_executors w1) = length (w_executors w) /\
    forall e ex, w_executors w !! e = Some ex ->
      w_executors w1 !! e = Some (if decide (e ∈ es) then unbound ex else ex).
Proof.
  revert fe w free. induction es as [|x es IH]; intros fe w free Hrefs Hin Hfree.
  - exists w. simpl. rewrite (set_same _ _ _ Hfree).
    split; [reflexivity|]. split; [reflexivity|]. split; [exact Hrefs|].
    split; [reflexivity|]. intros e ex Hex.
    destruct (decide (e ∈ [])) as [Hn|_]; [apply elem_of_nil in Hn; contradiction | exact Hex].
  - destruct (detach_job_keeps_references x w Hrefs) as (w' & xx & Hd & Hxx & Hes & Ht & Hrefs').
    { apply Hin. left. }
    assert (Hlen : length (w_executors w') = length (w_executors w))
      by (rewrite Hes; apply length_insert).
    destruct (IH (Dict.set None (OrderedSet.add x free) fe) w' (OrderedSet.add x free) Hrefs')
      as (w1 & Hev & Ht1 & Hrefs1 & Hlen1 & Hex1).
    { intros e He. rewrite Hlen. apply Hin. right. exact He. }
    { apply get_set_eq. }
    exists w1. simpl. rewrite Hd. simpl. rewrite Hfree. simpl. rewrite Hev, set_set.
    split; [reflexivity|]. split; [congruence|]. split; [exact Hrefs1|].
    split; [congruence|]. intros e ex Hex.
    destruct (decide (x = e)) as [<-|Hne].
    + rewrite (Hex1 x (unbound xx)).
      * assert (ex = xx) as -> by congruence.
        destruct (decide (x ∈ x :: es)) as [_|Hn]; [|exfalso; apply Hn; left].
        destruct (decide (x ∈ es)); reflexivity.
      * rewrite Hes. apply list_lookup_insert_eq. eapply lookup_lt_Some; eauto.
    + rewrite (Hex1 e ex).
      * destruct (decide (e ∈ es)) as [Hy|Hn];
          destruct (decide (e ∈ x :: es)) as [Hy'|Hn']; try reflexivity.
        -- exfalso. apply Hn'. right. exact Hy.
        -- apply elem_of_cons in Hy' as [->|Hy']; [congruence | contradiction].
      * rewrite Hes, list_lookup_insert_ne by exact Hne. exact Hex.
Qed.

Lemma filter_not_in_snoc (x : nat) (free es : list nat) :
  x ∉ es ->
  filter (fun e => e ∉ free ++ [x]) es = filter (fun e => e ∉ free) es.
Proof.
  induction es as [|y es IH]; intros Hx; [reflexivity|].
  apply not_elem_of_cons in Hx as [Hne Hx].
  destruct (decide (y ∈ free)) as [Hy|Hy].
  - rewrite !filter_cons_False; [auto | tauto |].
    intros Hn. apply Hn. apply elem_of_app. left. exact Hy.
  - rewrite !filter_cons_True; [rewrite IH by exact Hx; reflexivity | exact Hy |].
    intros Hn. apply elem_of_app in Hn as [Hn|Hn]; [contradiction|].
    apply list_elem_of_singleton in Hn. congruence.
Qed.

Lemma add_all_appends (es free : list nat) :
  NoDup es ->
  fold_left (fun pool x => OrderedSet.add x pool) es free
  = free ++ filter (fun e => e ∉ free) es.
Proof.
  revert free. induction es as [|x es IH]; intros free Hnd; simpl.
  - rewrite app_nil_r. reflexivity.
  - apply NoDup_cons in Hnd as [Hx Hnd]. rewrite IH by exact Hnd. unfold OrderedSet.add.
    destruct (OrderedSet.contains x free) eqn:Hc.
    + apply contains_true in Hc. rewrite filter_cons_False by tauto. reflexivity.
    + apply contains_false in Hc. rewrite filter_cons_True by exact Hc.
      rewrite filter_not_in_snoc by exact Hx. rewrite <- app_assoc. reflexivity.
Qed.

(** X10.  FreeExecutors.remove_job(job) for a job other than None, on groups
    with distinct keys that have a free pool, the group of the job being
    duplicate-free, in a store where every executor of the job's group
    exists and every reference held by an
    executor points into the store: the call returns; the job has no group
    afterwards (a later lookup is a KeyError); the free pool is the old
    pool with the executors of the job appended in their order, those
    already in it left where they were; the groups of the other jobs are as
    before; in the store every executor of the group has no task, no stage
    and no job, the other executors and all tasks are as before. *)
Theorem remove_job_frees_executors (j : nat) (fe : list (option nat * list nat))
    (w : World) (group free : list nat) :
  NoDup (Dict.keys fe) ->
  Dict.get (Some j) fe = Some group ->
  NoDup group ->
  Dict.get None fe = Some free ->
  references_in_store w ->
  (forall e, e ∈ group -> e < length (w_executors w)) ->
  exists fe' w',
    FreeExecutors.remove_job (Some j) fe w = Ok (fe', w') /\
    Dict.get (Some j) fe' = None /\
    Dict.get None fe' = Some (free ++ filter (fun e => e ∉ free) group) /\
    (forall k, k <> Some j -> k <> None -> Dict.get k fe' = Dict.get k fe) /\
    (forall e ex, w_executors w !! e = Some ex ->
       w_executors w' !! e = Some (if decide (e ∈ group) then unbound ex else ex)) /\
    w_tasks w' = w_tasks w.
Proof.
  intros Hd Hgroup Hnd Hfree Hrefs Hin.
  destruct (evict_store group fe w free Hrefs Hin Hfree) as (w1 & Hev & Ht & _ & _ & Hex).
  eexists _, w1. unfold FreeExecutors.remove_job. rewrite Hgroup. simpl. rewrite Hev. simpl.
  split; [reflexivity|].
  split; [apply get_del_eq, NoDup_keys_set, Hd|].
  split.
  { rewrite get_del_ne by discriminate. rewrite get_set_eq. f_equal.
    apply add_all_appends. exact Hnd. }
  split.
  { intros k Hk1 Hk2. rewrite get_del_ne by congruence. apply get_set_ne. congruence. }
  split; [exact Hex | exact Ht].
Qed.

Lemma remove_job_frees_executors_witness :
  exists fe' w',
    FreeExecutors.remove_job (Some 0) [(None, [1]); (Some 0, [0])] Scenes.busy = Ok (fe', w') /\
    Dict.get (Some 0) fe' = None /\
    Dict.get None fe' = Some [1; 0] /\
    w_executors w' !! 0 = Some (unbound Scenes.busy_executor).
Proof.
  destruct (remove_job_frees_executors 0 [(None, [1]); (Some 0, [0])] Scenes.busy [0] [1])
    as (fe' & w' & H1 & H2 & H3 & _ & H5 & _).
  - apply (bool_decide_unpack _). vm_compute. exact I.
  - reflexivity.
  - apply NoDup_singleton.
  - reflexivity.
  - intros e ex He. pose proof (lookup_lt_Some _ _ _ He) as Hlt.
    change (length (w_executors Scenes.busy)) with 1 in Hlt.
    destruct e as [|e]; [|lia]. injection He as <-.
    split; intros ? [= <-]; eexists; reflexivity.
  - intros e He. apply list_elem_of_singleton in He as ->. vm_compute. lia.
  - exists fe', w'. split; [exact H1|]. split; [exact H2|]. split; [exact H3|].
    apply (H5 0 Scenes.busy_executor). reflexivity.
Defined.

(** ** ExecutorCommit: add_job and remove_job *)

Lemma set_fresh {K V : Type} `{EqDecision K} (k : K) (v : V) (d : list (K * V)) :
  k ∉ Dict.keys d -> Dict.set k v d = d ++ [(k, v)].
Proof.
  induction d as [|[k0 v0] d IH]; simpl; [reflexivity|].
  intros Hn. apply not_elem_of_cons in Hn as [Hne Hn].
  destruct (decide (k0 = k)); [congruence | rewrite IH by exact Hn; reflexivity].
Qed.

Lemma get_middle {K V : Type} `{EqDecision K} (k : K) (v : V) (d d' : list (K * V)) :
  k ∉ Dict.keys d -> Dict.get k (d ++ (k, v) :: d') = Some v.
Proof.
  induction d as [|[k0 v0] d IH]; simpl.
  - intros _. destruct (decide (k = k)); [reflexivity | contradiction].
  - intros Hn. apply not_elem_of_cons in Hn as [Hne Hn].
    destruct (decide (k0 = k)); [congruence | apply IH, Hn].
Qed.

Lemma del_middle {K V : Type} `{EqDecision K} (k : K) (v : V) (d d' : list (K * V)) :
  k ∉ Dict.keys d -> Dict.del k (d ++ (k, v) :: d') = d ++ d'.
Proof.
  induction d as [|[k0 v0] d IH]; simpl.
  - intros _. destruct (decide (k = k)); [reflexivity | contradiction].
  - intros Hn. apply not_elem_of_cons in Hn as [Hne Hn].
    destruct (decide (k0 = k)); [congruence | rewrite IH by exact Hn; reflexivity].
Qed.

Lemma keys_app {K V : Type} (d d' : list (K * V)) :
  Dict.keys (d ++ d') = Dict.keys d ++ Dict.keys d'.
Proof. apply map_app. Qed.

(* registering fresh stages appends their entries *)
Lemma register_fresh (stages : list nat) (l : CommitLedger) :
  NoDup stages ->
  (forall s, s ∈ stages ->
     (PStage s ∉ Dict.keys (commit l)) /\ (PStage s ∉ Dict.keys (stage_commit l)) /\
     (PStage s ∉ Dict.keys (backward l))) ->
  ExecutorCommit.register_stages stages l
  = {| commit := commit l ++ map (fun s => (PStage s, [])) stages;
       stage_commit := stage_commit l ++ map (fun s => (PStage s, 0%Z)) stages;
       backward := backward l ++ map (fun s => (PStage s, [])) stages |}.
Proof.
  revert l. induction stages as [|s stages IH]; intros l Hnd Hfresh; simpl.
  - rewrite !app_nil_r. destruct l; reflexivity.
  - apply NoDup_cons in Hnd as [Hs Hnd].
    destruct (Hfresh s) as (H1 & H2 & H3); [left|].
    rewrite IH; [|exact Hnd|].
    + simpl. rewrite !set_fresh by assumption. rewrite <- !app_assoc. reflexivity.
    + intros s' Hs'. destruct (Hfresh s') as (H1' & H2' & H3'); [right; exact Hs'|].
      simpl. rewrite !set_fresh by assumption. rewrite !keys_app. simpl.
      assert (PStage s' <> PStage s) by (intros [= ->]; contradiction).
      repeat split; intros Hin; apply elem_of_app in Hin as [Hin|Hin];
        try contradiction; apply list_elem_of_singleton in Hin; contradiction.
Qed.

(* unregistering them, nothing having been committed, removes the entries *)
Lemma unregister_fresh (stages : list nat) (l : CommitLedger) :
  NoDup stages ->
  (forall s, s ∈ stages ->
     (PStage s ∉ Dict.keys (commit l)) /\ (PStage s ∉ Dict.keys (stage_commit l)) /\
     (PStage s ∉ Dict.keys (backward l))) ->
  unregister_stages stages
    {| commit := commit l ++ map (fun s => (PStage s, [])) stages;
       stage_commit := stage_commit l ++ map (fun s => (PStage s, 0%Z)) stages;
       backward := backward l ++ map (fun s => (PStage s, [])) stages |}
  = Ok l.
Proof.
  induction stages as [|s stages IH]; intros Hnd Hfresh; simpl.
  - rewrite !app_nil_r. destruct l; reflexivity.
  - apply NoDup_cons in Hnd as [Hs Hnd].
    destruct (Hfresh s) as (H1 & H2 & H3); [left|].
    rewrite !get_middle by assumption. simpl.
    rewrite !del_middle by assumption. apply IH; [exact Hnd|].
    intros s' Hs'. apply Hfresh. right. exact Hs'.
Qed.

(** X11.  ExecutorCommit: remove_job undoes add_job.  For a job of the store
    whose stages are distinct, on a ledger that knows neither the job nor
    any of its stages: add_job(job) returns, and remove_job(job) right after
    it (nothing having been committed in between) passes its assertions
    and returns the ledger exactly as it was before add_job. *)
Theorem remove_job_undoes_add_job (job : nat) (w : World) (jb : Job) (l : CommitLedger) :
  w_jobs w !! job = Some jb ->
  NoDup (j_stages jb) ->
  PJob job ∉ Dict.keys (commit l) ->
  (forall s, s ∈ j_stages jb ->
     (PStage s ∉ Dict.keys (commit l)) /\ (PStage s ∉ Dict.keys (stage_commit l)) /\
     (PStage s ∉ Dict.keys (backward l))) ->
  exists l1,
    ExecutorCommit.add_job job w l = Ok l1 /\
    commit_remove_job job w l1 = Ok l.
Proof.
  intros Hjb Hnd Hjob Hfresh.
  unfold ExecutorCommit.add_job, commit_remove_job, get_job. rewrite Hjb. simpl.
  eexists. split; [reflexivity|].
  rewrite register_fresh; [|exact Hnd|].
  - simpl. rewrite (set_fresh _ _ _ Hjob), <- app_assoc. simpl.
    rewrite (get_middle _ _ _ _ Hjob). simpl.
    rewrite (del_middle _ _ _ _ Hjob).
    apply (unregister_fresh (j_stages jb) l Hnd Hfresh).
  - intros s Hs. destruct (Hfresh s Hs) as (H1 & H2 & H3). simpl.
    rewrite (set_fresh _ _ _ Hjob), keys_app. simpl.
    repeat split; try assumption.
    intros Hin. apply elem_of_app in Hin as [Hin|Hin]; [contradiction|].
    apply list_elem_of_singleton in Hin. discriminate.
Qed.

Lemma remove_job_undoes_add_job_witness :
  exists l1,
    ExecutorCommit.add_job 0 Scenes.busy ExecutorCommit.reset = Ok l1 /\
    commit_remove_job 0 Scenes.busy l1 = Ok ExecutorCommit.reset.
Proof.
  eapply (remove_job_undoes_add_job 0 Scenes.busy).
  - reflexivity.
  - apply (bool_decide_unpack _). vm_compute. exact I.
  - apply (bool_decide_unpack _). vm_compute. exact I.
  - intros s Hs. repeat split; intros Hin; apply list_elem_of_singleton in Hin; discriminate.
Defined.

(** ** MovingExecutors *)

Lemma del_set_fresh {K V : Type} `{EqDecision K} (k : K) (v : V) (d : list (K * V)) :
  Dict.get k d = None -> Dict.del k (Dict.set k v d) = d.
Proof.
  induction d as [|[k0 v0] d IH]; simpl.
  - intros _. destruct (decide (k = k)); [reflexivity | contradiction].
  - destruct (decide (k0 = k)) as [->|Hne]; [discriminate|].
    intros Hg. simpl. destruct (decide (k0 = k)); [contradiction|].
    rewrite (IH Hg). reflexivity.
Qed.

Lemma length_add_fresh {A : Type} `{EqDecision A} (x : A) (s : list A) :
  x ∉ s -> length (OrderedSet.add x s) = S (length s).
Proof.
  intros Hn. unfold OrderedSet.add. rewrite (proj2 (contains_false _ _) Hn).
  rewrite length_app. simpl. lia.
Qed.

(** X12.  MovingExecutors: add, then pop.  For an executor of the store that
    is not moving, and a tracked stage whose set does not hold it:
    add(executor, stage) returns and leaves the executor with no task, no
    stage and no job; count(stage) is one more than before; the executor is
    then moving to that stage; and pop(executor) returns the stage and
    leaves both tables exactly as they were before the add. *)
Theorem moving_add_then_pop (e : nat) (s : option nat) (m : Moving) (w : World)
    (ex : Executor) (track : list nat) :
  w_executors w !! e = Some ex ->
  (forall s0, e_stage ex = Some s0 -> is_Some (w_stages w !! s0)) ->
  (forall j, e_job ex = Some j -> is_Some (w_jobs w !! j)) ->
  Dict.get e (moving_executors m) = None ->
  Dict.get s (stage_track m) = Some track ->
  e ∉ track ->
  exists m1 w1,
    MovingExecutors.add e s m w = Ok (m1, w1) /\
    w_executors w1 !! e = Some (unbound ex) /\
    MovingExecutors.count s m1 = Ok (S (length track)) /\
    MovingExecutors.getitem e m1 = Ok s /\
    MovingExecutors.pop e m1 = Ok (s, m).
Proof.
  intros Hex Hst Hjb Hmv Htr Hne.
  destruct (detach_job_store e w ex Hex Hst Hjb) as (w1 & Hd & Hes & _).
  eexists _, w1. unfold MovingExecutors.add. rewrite Hd. simpl. rewrite Htr. simpl.
  split; [reflexivity|].
  split. { rewrite Hes. apply list_lookup_insert_eq. eapply lookup_lt_Some; eauto. }
  split. { unfold MovingExecutors.count. simpl. rewrite get_set_eq. simpl.
           rewrite (length_add_fresh _ _ Hne). reflexivity. }
  split. { unfold MovingExecutors.getitem. simpl. rewrite get_set_eq. reflexivity. }
  unfold MovingExecutors.pop. simpl. rewrite !get_set_eq. simpl.
  rewrite (proj2 (contains_true _ _)) by (apply elem_of_add; auto).
  rewrite (del_set_fresh _ _ _ Hmv), set_set, (del_appended _ _ Hne), (set_same _ _ _ Htr).
  destruct m; reflexivity.
Qed.

Lemma moving_add_then_pop_witness :
  exists m1 w1,
    MovingExecutors.add 0 (Some 1) {| moving_executors := []; stage_track := [(Some 1, [])] |}
      Scenes.busy = Ok (m1, w1) /\
    w_executors w1 !! 0 = Some (unbound Scenes.busy_executor) /\
    MovingExecutors.count (Some 1) m1 = Ok 1 /\
    MovingExecutors.getitem 0 m1 = Ok (Some 1) /\
    MovingExecutors.pop 0 m1
      = Ok (Some 1, {| moving_executors := []; stage_track := [(Some 1, [])] |}).
Proof.
  apply (moving_add_then_pop 0 (Some 1)
           {| moving_executors := []; stage_track := [(Some 1, [])] |}
           Scenes.busy Scenes.busy_executor []).
  - reflexivity.
  - intros s0 [= <-]. eexists. reflexivity.
  - intros j [= <-]. eexists. reflexivity.
  - reflexivity.
  - reflexivity.
  - apply not_elem_of_nil.
Defined.

Lemma heading_to_spec (e : nat) (s : option nat) (m : Moving) :
  NoDup (Dict.keys (moving_executors m)) ->
  e ∈ heading_to s m <-> Dict.get e (moving_executors m) = Some s.
Proof.
  intros Hnd. unfold heading_to. rewrite list_elem_of_fmap. split.
  - intros ([e0 s0] & -> & Hin). apply list_elem_of_filter in Hin as [Hs Hin].
    simpl in *. subst s0. apply elem_get; assumption.
  - intros Hg. exists (e, s). split; [reflexivity|].
    apply list_elem_of_filter. split; [reflexivity | apply get_Some_elem, Hg].
Qed.

Lemma NoDup_heading_to (s : option nat) (m : Moving) :
  NoDup (Dict.keys (moving_executors m)) -> NoDup (heading_to s m).
Proof.
  intros Hnd. unfold heading_to. eapply sublist_NoDup; [exact Hnd|].
  apply fmap_sublist, sublist_filter.
Qed.

Lemma count_is_heading_to (s : option nat) (m : Moving) (track : list nat) :
  tracks_agree m ->
  Dict.get s (stage_track m) = Some track ->
  length track = length (heading_to s m).
Proof.
  intros (Hmv & Htr & Hnd & Hag) Hs. apply Permutation_length, NoDup_Permutation.
  - apply (Hnd s), Hs.
  - apply NoDup_heading_to, Hmv.
  - intros e. rewrite heading_to_spec by exact Hmv. rewrite Hag. split.
    + intros He. exists track. auto.
    + intros (t & Ht & He). congruence.
Qed.

Lemma add_keeps_agreement (e : nat) (s : option nat) (m m' : Moving) (w w' : World) :
  tracks_agree m ->
  Dict.get e (moving_executors m) = None ->
  MovingExecutors.add e s m w = Ok (m', w') ->
  tracks_agree m'.
Proof.
  intros (Hmv & Htr & Hnd & Hag) Hfree H. unfold MovingExecutors.add in H.
  inv_bind H. inv_bind H. inv_ok. rename a0 into track.
  split; [apply NoDup_keys_set, Hmv|]. split; [apply NoDup_keys_set, Htr|]. simpl. split.
  - intros s' t. destruct (decide (s = s')) as [<-|Hne].
    + rewrite get_set_eq. intros [= <-]. apply NoDup_add. apply (Hnd s), E0.
    + rewrite get_set_ne by exact Hne. apply Hnd.
  - intros e' s'. destruct (decide (e = e')) as [<-|Hne].
    + rewrite get_set_eq. split.
      * intros [= <-]. exists (OrderedSet.add e track). rewrite get_set_eq.
        split; [reflexivity|]. apply elem_of_add. auto.
      * intros (t & Ht & He). destruct (decide (s = s')) as [<-|Hs]; [reflexivity|].
        rewrite get_set_ne in Ht by exact Hs.
        assert (Dict.get e (moving_executors m) = Some s') by (apply Hag; eauto).
        congruence.
    + rewrite get_set_ne by exact Hne. rewrite Hag.
      destruct (decide (s = s')) as [<-|Hs].
      * rewrite get_set_eq. split.
        -- intros (t & Ht & He). exists (OrderedSet.add e track).
           split; [reflexivity|]. apply elem_of_add. right. congruence.
        -- intros (t & [= <-] & He). exists track. split; [exact E0|].
           apply elem_of_add in He as [->|He]; [contradiction | exact He].
      * rewrite get_set_ne by exact Hs. reflexivity.
Qed.

Lemma pop_keeps_agreement (e : nat) (m : Moving) :
  tracks_agree m ->
  exists s m',
    MovingExecutors.pop e m = Ok (s, m') /\
    tracks_agree m' /\
    Dict.get e (moving_executors m') = None /\
    (Dict.get e (moving_executors m) = None -> s = None /\ m' = m) /\
    (forall s0, Dict.get e (moving_executors m) = Some s0 -> s = s0).
Proof.
  intros Hagree. pose proof Hagree as (Hmv & Htr & Hnd & Hag). unfold MovingExecutors.pop.
  destruct (Dict.get e (moving_executors m)) as [s|] eqn:He.
  - destruct (proj1 (Hag e s) He) as (track & Ht & Hin). rewrite Ht. simpl.
    rewrite (proj2 (contains_true _ _) Hin).
    eexists _, _. split; [reflexivity|]. split; [|split; [|split]].
    + split; [apply NoDup_keys_del, Hmv|]. split; [apply NoDup_keys_set, Htr|]. simpl. split.
      * intros s' t. destruct (decide (s = s')) as [<-|Hne].
        -- rewrite get_set_eq. intros [= <-]. apply NoDup_del. apply (Hnd s), Ht.
        -- rewrite get_set_ne by exact Hne. apply Hnd.
      * intros e' s'. destruct (decide (e = e')) as [<-|Hne].
        -- rewrite get_del_eq by exact Hmv. split; [discriminate|].
           intros (t & Ht' & He'). exfalso. destruct (decide (s = s')) as [<-|Hs].
           ++ rewrite get_set_eq in Ht'. injection Ht' as <-.
              revert He'. apply not_elem_of_del. apply (Hnd s), Ht.
           ++ rewrite get_set_ne in Ht' by exact Hs.
              assert (Dict.get e (moving_executors m) = Some s') by (apply Hag; eauto).
              congruence.
        -- rewrite get_del_ne by exact Hne. rewrite Hag.
           destruct (decide (s = s')) as [<-|Hs].
           ++ rewrite get_set_eq. split.
              ** intros (t & Ht' & He'). exists (OrderedSet.del e track).
                 split; [reflexivity|]. apply elem_of_del_ne; [congruence|]. congruence.
              ** intros (t & [= <-] & He'). exists track. split; [exact Ht|].
                 eapply elem_of_del, He'.
           ++ rewrite get_set_ne by exact Hs. reflexivity.
    + simpl. apply get_del_eq, Hmv.
    + discriminate.
    + intros s0 [= <-]. reflexivity.
  - exists None, m. split; [reflexivity|]. split; [exact Hagree|]. split; [exact He|].
    split; [auto | discriminate].
Qed.

(** X13.  MovingExecutors keeps its two tables in agreement.  Call the
    tables in agreement when keys are distinct, the sets are duplicate-free
    and an executor maps to a stage exactly when that stage's set holds it
    (true after reset).  Then: add of an executor that is not moving keeps
    the agreement; pop never raises, keeps the agreement and leaves the
    executor not moving, returning its destination, or None and an
    unchanged object when it was not moving; and count(stage), when it
    returns, is the number of executors whose destination is the stage. *)
Theorem moving_tables_agree (m : Moving) :
  tracks_agree m ->
  (forall e s w m' w',
      Dict.get e (moving_executors m) = None ->
      MovingExecutors.add e s m w = Ok (m', w') -> tracks_agree m') /\
  (forall e, exists s m',
      MovingExecutors.pop e m = Ok (s, m') /\
      tracks_agree m' /\
      Dict.get e (moving_executors m') = None /\
      (Dict.get e (moving_executors m) = None -> s = None /\ m' = m) /\
      (forall s0, Dict.get e (moving_executors m) = Some s0 -> s = s0)) /\
  (forall s n, MovingExecutors.count s m = Ok n -> n = length (heading_to s m)).
Proof.
  intros Hagree. split; [|split].
  - intros e s w m' w' Hfree H. eapply add_keeps_agreement; eauto.
  - intros e. apply pop_keeps_agreement, Hagree.
  - intros s n H. unfold MovingExecutors.count in H. inv_bind H. inv_ok.
    apply count_is_heading_to; assumption.
Qed.

Lemma moving_tables_agree_witness :
  tracks_agree one_moving /\
  (exists m', MovingExecutors.pop 0 one_moving = Ok (Some 1, m') /\ tracks_agree m') /\
  MovingExecutors.count (Some 1) one_moving = Ok (length (heading_to (Some 1) one_moving)).
Proof.
  assert (H0 : tracks_agree one_moving).
  { split; [apply NoDup_singleton|]. split; [apply NoDup_singleton|]. split.
    - intros s t. simpl. destruct (decide (Some 1 = s)); [|discriminate].
      intros [= <-]. apply NoDup_singleton.
    - intros e s. simpl. destruct (decide (0 = e)) as [<-|He].
      + destruct (decide (Some 1 = s)) as [<-|Hs].
        * split; [|reflexivity]. intros _. exists [0]. split; [reflexivity | left].
        * split; [congruence | intros (t & [=] & _)].
      + split; [discriminate|]. intros (t & Ht & Hin).
        destruct (decide (Some 1 = s)); [|discriminate]. injection Ht as <-.
        apply list_elem_of_singleton in Hin. congruence. }
  split; [exact H0|].
  destruct (moving_tables_agree one_moving H0) as (_ & Hpop & Hcount).
  split.
  - destruct (Hpop 0) as (s & m' & H1 & H2 & _ & _ & H5).
    exists m'. rewrite <- (H5 (Some 1) eq_refl). auto.
  - rewrite <- (Hcount (Some 1) 1 eq_refl). reflexivity.
Defined.

Lemma forget_executors_spec (es : list nat) (moving : list (nat * option nat)) :
  NoDup (Dict.keys moving) ->
  NoDup es ->
  (forall e, e ∈ es -> is_Some (Dict.get e moving)) ->
  exists moving',
    MovingExecutors.forget_executors es moving = Ok moving' /\
    NoDup (Dict.keys moving') /\
    forall e, Dict.get e moving' = if decide (e ∈ es) then None else Dict.get e moving.
Proof.
  revert moving. induction es as [|x es IH]; intros moving Hmv Hnd Hin.
  - exists moving. split; [reflexivity|]. split; [exact Hmv|]. intros e.
    destruct (decide (e ∈ [])) as [Hn|_]; [apply elem_of_nil in Hn; contradiction | reflexivity].
  - apply NoDup_cons in Hnd as [Hx Hnd].
    destruct (Hin x) as [sx Hsx]; [left|].
    destruct (IH (Dict.del x moving)) as (moving' & Hf & Hnd' & Hget).
    + apply NoDup_keys_del, Hmv.
    + exact Hnd.
    + intros e He. rewrite get_del_ne by (intros ->; contradiction). apply Hin. right. exact He.
    + exists moving'. simpl. rewrite Hsx. simpl. split; [exact Hf|]. split; [exact Hnd'|].
      intros e. rewrite Hget. destruct (decide (x = e)) as [<-|Hne].
      * destruct (decide (x ∈ es)); [contradiction|].
        destruct (decide (x ∈ x :: es)) as [_|Hn]; [|exfalso; apply Hn; left].
        apply get_del_eq, Hmv.
      * rewrite get_del_ne by exact Hne.
        destruct (decide (e ∈ es)) as [Hy|Hn];
          destruct (decide (e ∈ x :: es)) as [Hy'|Hn']; try reflexivity.
        -- exfalso. apply Hn'. right. exact Hy.
        -- apply elem_of_cons in Hy' as [->|Hy']; [congruence | contradiction].
Qed.

(* one turn of the loop of remove_job *)
Lemma untrack_one (s : nat) (m : Moving) (track : list nat) :
  tracks_agree m ->
  Dict.get (Some s) (stage_track m) = Some track ->
  exists moving',
    MovingExecutors.forget_executors track (moving_executors m) = Ok moving' /\
    tracks_agree {| moving_executors := moving';
                    stage_track := Dict.del (Some s) (stage_track m) |} /\
    (forall e s', s' <> Some s ->
       (Dict.get e moving' = Some s' <-> Dict.get e (moving_executors m) = Some s')) /\
    (forall e, Dict.get e moving' <> Some (Some s)).
Proof.
  intros (Hmv & Htr & Hnd & Hag) Ht.
  destruct (forget_executors_spec track (moving_executors m)) as (moving' & Hf & Hnd' & Hget).
  - exact Hmv.
  - apply (Hnd (Some s)), Ht.
  - intros e He. exists (Some s). apply Hag. eauto.
  - assert (Hother : forall e s', s' <> Some s ->
              (Dict.get e moving' = Some s' <-> Dict.get e (moving_executors m) = Some s')).
    { intros e s' Hs'. rewrite Hget. destruct (decide (e ∈ track)) as [He|He]; [|reflexivity].
      split; [discriminate|]. intros Hg.
      assert (Dict.get e (moving_executors m) = Some (Some s)) by (apply Hag; eauto).
      congruence. }
    assert (Hgone : forall e, Dict.get e moving' <> Some (Some s)).
    { intros e. rewrite Hget. destruct (decide (e ∈ track)) as [He|He]; [discriminate|].
      intros Hg. apply Hag in Hg as (t & Ht' & Hin). congruence. }
    exists moving'. split; [exact Hf|]. split; [|split; [exact Hother | exact Hgone]].
    split; [exact Hnd'|]. split; [apply NoDup_keys_del, Htr|]. simpl. split.
    + intros s' t. destruct (decide (Some s = s')) as [<-|Hne].
      * rewrite get_del_eq by exact Htr. discriminate.
      * rewrite get_del_ne by exact Hne. apply Hnd.
    + intros e s'. destruct (decide (Some s = s')) as [<-|Hne].
      * rewrite get_del_eq by exact Htr. split.
        -- intros Hg. exfalso. exact (Hgone e Hg).
        -- intros (t & [=] & _).
      * rewrite get_del_ne by exact Hne. rewrite Hother by congruence. apply Hag.
Qed.

Lemma untrack_stages_spec (stages : list nat) (m : Moving) :
  tracks_agree m ->
  NoDup stages ->
  (forall s, s ∈ stages -> is_Some (Dict.get (Some s) (stage_track m))) ->
  exists m',
    MovingExecutors.untrack_stages stages m = Ok m' /\
    tracks_agree m' /\
    (forall s, s ∈ stages ->
       Dict.get (Some s) (stage_track m') = None /\
       forall e, Dict.get e (moving_executors m') <> Some (Some s)) /\
    (forall s', s' ∉ Some <$> stages ->
       Dict.get s' (stage_track m') = Dict.get s' (stage_track m) /\
       forall e, Dict.get e (moving_executors m') = Some s' <->
                 Dict.get e (moving_executors m) = Some s').
Proof.
  revert m. induction stages as [|s stages IH]; intros m Hagree Hnd Hin.
  - exists m. split; [reflexivity|]. split; [exact Hagree|]. split.
    + intros s Hs. apply elem_of_nil in Hs. contradiction.
    + intros s' _. split; reflexivity.
  - apply NoDup_cons in Hnd as [Hs Hnd].
    destruct (Hin s) as [track Ht]; [left|].
    destruct (untrack_one s m track Hagree Ht) as (moving' & Hf & Hagree1 & Hother & Hgone).
    destruct (IH _ Hagree1 Hnd) as (m' & Hu & Hagree' & Hdone & Hrest).
    { intros s0 Hs0. simpl. rewrite get_del_ne by (intros [= ->]; contradiction).
      apply Hin. right. exact Hs0. }
    assert (Hs' : Some s ∉ Some <$> stages).
    { intros Hn. apply list_elem_of_fmap in Hn as (s0 & [= <-] & Hn). contradiction. }
    exists m'. simpl. rewrite Ht. simpl. rewrite Hf. simpl.
    split; [exact Hu|]. split; [exact Hagree'|]. split.
    + intros s0 Hs0. apply elem_of_cons in Hs0 as [->|Hs0]; [|apply Hdone, Hs0].
      destruct (Hrest (Some s) Hs') as [Hget Hmov]. simpl in *. split.
      * rewrite Hget. apply get_del_eq. apply Hagree.
      * intros e He. apply Hmov in He. exact (Hgone e He).
    + intros s' Hn. simpl in Hn. apply not_elem_of_cons in Hn as [Hne Hn].
      destruct (Hrest s' Hn) as [Hget Hmov]. simpl in *. split.
      * rewrite Hget. apply get_del_ne. congruence.
      * intros e. rewrite Hmov. apply Hother. exact Hne.
Qed.

(** X14.  MovingExecutors.remove_job on tables in agreement, for a job of
    the store whose stages are distinct and all tracked: the call returns
    (no KeyError); afterwards the tables still agree, none of the job's
    stages is tracked and no executor is moving to one of them; the sets of
    all other stages and the executors moving to them are as before. *)
Theorem moving_remove_job_clears (job : nat) (w : World) (jb : Job) (m : Moving) :
  tracks_agree m ->
  w_jobs w !! job = Some jb ->
  NoDup (j_stages jb) ->
  (forall s, s ∈ j_stages jb -> is_Some (Dict.get (Some s) (stage_track m))) ->
  exists m',
    MovingExecutors.remove_job job w m = Ok m' /\
    tracks_agree m' /\
    (forall s, s ∈ j_stages jb ->
       Dict.get (Some s) (stage_track m') = None /\
       forall e, Dict.get e (moving_executors m') <> Some (Some s)) /\
    (forall s', s' ∉ Some <$> j_stages jb ->
       Dict.get s' (stage_track m') = Dict.get s' (stage_track m) /\
       forall e, Dict.get e (moving_executors m') = Some s' <->
                 Dict.get e (moving_executors m) = Some s').
Proof.
  intros Hagree Hjb Hnd Hin. unfold MovingExecutors.remove_job, get_job. rewrite Hjb. simpl.
  apply untrack_stages_spec; assumption.
Qed.

Lemma moving_remove_job_clears_witness :
  exists m',
    MovingExecutors.remove_job 0 Scenes.busy two_tracked = Ok m' /\
    tracks_agree m' /\
    Dict.get (Some 1) (stage_track m') = None /\
    Dict.get 0 (moving_executors m') <> Some (Some 1).
Proof.
  assert (H0 : tracks_agree two_tracked).
  { split; [apply NoDup_singleton|].
    split; [apply (bool_decide_unpack _); vm_compute; exact I|]. split.
    - intros s t. simpl. destruct (decide (Some 0 = s)); [intros [= <-]; apply NoDup_nil_2|].
      destruct (decide (Some 1 = s)); [|discriminate].
      intros [= <-]. apply NoDup_singleton.
    - intros e s. simpl. destruct (decide (0 = e)) as [<-|He].
      + destruct (decide (Some 0 = s)) as [<-|Hs0].
        * split; [discriminate|]. intros (t & [= <-] & Hin). apply elem_of_nil in Hin. contradiction.
        * destruct (decide (Some 1 = s)) as [<-|Hs].
          -- split; [|reflexivity]. intros _. exists [0]. split; [reflexivity | left].
          -- split; [congruence | intros (t & [=] & _)].
      + split; [discriminate|]. intros (t & Ht & Hin).
        destruct (decide (Some 0 = s)).
        * injection Ht as <-. apply elem_of_nil in Hin. contradiction.
        * destruct (decide (Some 1 = s)); [|discriminate]. injection Ht as <-.
          apply list_elem_of_singleton in Hin. congruence. }
  destruct (moving_remove_job_clears 0 Scenes.busy
              (Example.job_of [0; 1] [[0; 1]; [0; 0]]%Z [0] [PStage 0]) two_tracked H0)
    as (m' & H1 & H2 & H3 & _).
  - reflexivity.
  - apply (bool_decide_unpack _). vm_compute. exact I.
  - intros s Hs. apply (bool_decide_unpack _).
    apply elem_of_cons in Hs as [->|Hs]; [vm_compute; exact I|].
    apply list_elem_of_singleton in Hs as ->. vm_compute. exact I.
  - exists m'. split; [exact H1|]. split; [exact H2|].
    destruct (H3 1) as [H4 H5]; [right; left|]. split; [exact H4 | apply H5].
Defined.

(** ** utils.ReversibleMap *)

Lemma length_set {K V : Type} `{EqDecision K} (k : K) (v : V) (d : list (K * V)) :
  length (Dict.set k v d) = if Dict.mem k d then length d else S (length d).
Proof.
  unfold Dict.mem. induction d as [|[k0 v0] d IH]; simpl; [reflexivity|].
  destruct (decide (k0 = k)); [reflexivity|]. simpl. rewrite IH.
  destruct (Dict.get k d); reflexivity.
Qed.

(** X15.  ReversibleMap.__setitem__ on a map whose two dicts have the same
    number of entries (as after every assignment that returned): the
    assignment raises AssertionError exactly when one of key and value is
    already present (key in map, value in inverse_map) and the other is
    not; otherwise it returns, with key mapped to value, value mapped back
    to key and the two dicts again of the same size.  When both are already
    present the assignment is accepted whatever they were paired with: a
    second key that had this value keeps it, so two keys share one value. *)
Theorem setitem_accepts_both_or_neither (key value : pyobj) (m : ReversibleMap) :
  length (rm_map m) = length (rm_inverse_map m) ->
  (ReversibleMap.setitem key value m = Raise AssertionError <->
   Dict.mem key (rm_map m) <> Dict.mem value (rm_inverse_map m)) /\
  (Dict.mem key (rm_map m) = Dict.mem value (rm_inverse_map m) ->
   exists m',
     ReversibleMap.setitem key value m = Ok m' /\
     ReversibleMap.getitem key m' = Ok value /\
     Dict.get value (rm_inverse_map m') = Some key /\
     length (rm_map m') = length (rm_inverse_map m') /\
     forall other, other <> key -> Dict.get other (rm_map m) = Some value ->
       ReversibleMap.getitem other m' = Ok value).
Proof.
  intros Hlen.
  assert (Hok : Dict.mem key (rm_map m) = Dict.mem value (rm_inverse_map m) ->
                (length (Dict.set key value (rm_map m))
                 =? length (Dict.set value key (rm_inverse_map m))) = true).
  { intros Hmem. rewrite !length_set, Hmem, Hlen.
    destruct (Dict.mem value (rm_inverse_map m)); apply Nat.eqb_refl. }
  assert (Hbad : Dict.mem key (rm_map m) <> Dict.mem value (rm_inverse_map m) ->
                 (length (Dict.set key value (rm_map m))
                  =? length (Dict.set value key (rm_inverse_map m))) = false).
  { intros Hmem. rewrite !length_set, Hlen. apply Nat.eqb_neq.
    destruct (Dict.mem key (rm_map m)), (Dict.mem value (rm_inverse_map m));
      try congruence; lia. }
  unfold ReversibleMap.setitem. split; [split|].
  - intros H Hmem. rewrite (Hok Hmem) in H. discriminate H.
  - intros Hmem. rewrite (Hbad Hmem). reflexivity.
  - intros Hmem. rewrite (Hok Hmem). simpl. eexists. split; [reflexivity|].
    unfold ReversibleMap.getitem. simpl. rewrite !get_set_eq.
    split; [reflexivity|]. split; [reflexivity|].
    split; [apply Nat.eqb_eq, Hok, Hmem|].
    intros other Hne Hg. rewrite get_set_ne by congruence. rewrite Hg. reflexivity.
Qed.

Lemma setitem_accepts_both_or_neither_witness :
  ReversibleMap.setitem (PStage 2) (PInt 1) two_pairs = Raise AssertionError /\
  exists m',
    ReversibleMap.setitem (PStage 0) (PInt 2) two_pairs = Ok m' /\
    ReversibleMap.getitem (PStage 0) m' = Ok (PInt 2) /\
    ReversibleMap.getitem (PStage 1) m' = Ok (PInt 2).
Proof.
  split.
  - apply (setitem_accepts_both_or_neither (PStage 2) (PInt 1) two_pairs); [reflexivity|].
    vm_compute. discriminate.
  - destruct (setitem_accepts_both_or_neither (PStage 0) (PInt 2) two_pairs eq_refl)
      as [_ H].
    destruct (H eq_refl) as (m' & H1 & H2 & _ & _ & H5).
    exists m'. split; [exact H1|]. split; [exact H2|].
    apply H5; [discriminate | reflexivity].
Defined.

(** ** utils.RepeatableSet *)

(* distinct keys, and no stored count below 1 *)
Lemma bag_add_keeps (y : pyobj) (s : list (pyobj * Z)) :
  NoDup (Dict.keys s) ->
  (forall x n, Dict.get x s = Some n -> (1 <= n)%Z) ->
  NoDup (Dict.keys (RepeatableSet.add y s)) /\
  (forall x n, Dict.get x (RepeatableSet.add y s) = Some n -> (1 <= n)%Z) /\
  (forall x, occurrences x (RepeatableSet.add y s)
             = (occurrences x s + if decide (x = y) then 1 else 0)%Z).
Proof.
  intros Hnd Hpos. unfold RepeatableSet.add, occurrences.
  destruct (Dict.get y s) as [n|] eqn:Hy.
  - split; [apply NoDup_keys_set, Hnd|]. split.
    + intros x m. destruct (decide (y = x)) as [<-|Hne].
      * rewrite get_set_eq. intros [= <-]. pose proof (Hpos y n Hy). lia.
      * rewrite get_set_ne by exact Hne. apply Hpos.
    + intros x. destruct (decide (x = y)) as [->|Hne].
      * rewrite get_set_eq, Hy. reflexivity.
      * rewrite get_set_ne by congruence. lia.
  - split; [apply NoDup_keys_set, Hnd|]. split.
    + intros x m. destruct (decide (y = x)) as [<-|Hne].
      * rewrite get_set_eq. intros [= <-]. lia.
      * rewrite get_set_ne by exact Hne. apply Hpos.
    + intros x. destruct (decide (x = y)) as [->|Hne].
      * rewrite get_set_eq, Hy. reflexivity.
      * rewrite get_set_ne by congruence. lia.
Qed.

Lemma bag_remove_keeps (y : pyobj) (s s' : list (pyobj * Z)) :
  NoDup (Dict.keys s) ->
  (forall x n, Dict.get x s = Some n -> (1 <= n)%Z) ->
  RepeatableSet.remove y s = Ok s' ->
  NoDup (Dict.keys s') /\
  (forall x n, Dict.get x s' = Some n -> (1 <= n)%Z) /\
  (forall x, occurrences x s' = (occurrences x s - if decide (x = y) then 1 else 0)%Z).
Proof.
  intros Hnd Hpos H. unfold RepeatableSet.remove in H. unfold occurrences.
  destruct (Dict.get y s) as [n|] eqn:Hy; [|discriminate].
  pose proof (Hpos y n Hy) as Hn.
  destruct (Z.eqb_spec (n - 1) 0) as [Hz|Hnz]; injection H as <-.
  - assert (Hnd1 : NoDup (Dict.keys (Dict.set y (n - 1)%Z s))) by (apply NoDup_keys_set, Hnd).
    split; [apply NoDup_keys_del, Hnd1|]. split.
    + intros x m. destruct (decide (y = x)) as [<-|Hne].
      * rewrite get_del_eq by exact Hnd1. discriminate.
      * rewrite get_del_ne, get_set_ne by exact Hne. apply Hpos.
    + intros x. destruct (decide (x = y)) as [->|Hne].
      * rewrite get_del_eq by exact Hnd1. rewrite Hy. lia.
      * rewrite get_del_ne, get_set_ne by congruence. lia.
  - split; [apply NoDup_keys_set, Hnd|]. split.
    + intros x m. destruct (decide (y = x)) as [<-|Hne].
      * rewrite get_set_eq. intros [= <-]. lia.
      * rewrite get_set_ne by exact Hne. apply Hpos.
    + intros x. destruct (decide (x = y)) as [->|Hne].
      * rewrite get_set_eq, Hy. reflexivity.
      * rewrite get_set_ne by congruence. lia.
Qed.

Lemma times_cons (op o : bag_op) (ops : list bag_op) :
  times op (o :: ops) = ((if decide (o = op) then 1 else 0) + times op ops)%Z.
Proof.
  unfold times. destruct (decide (o = op)) as [->|Hne].
  - rewrite filter_cons_True by reflexivity. simpl length. lia.
  - rewrite filter_cons_False by exact Hne. lia.
Qed.

Lemma bag_run_counts (ops : list bag_op) (s s' : list (pyobj * Z)) :
  NoDup (Dict.keys s) ->
  (forall x n, Dict.get x s = Some n -> (1 <= n)%Z) ->
  bag_run ops s = Ok s' ->
  NoDup (Dict.keys s') /\
  (forall x n, Dict.get x s' = Some n -> (1 <= n)%Z) /\
  (forall x, occurrences x s'
             = (occurrences x s + times (BagAdd x) ops - times (BagRemove x) ops)%Z).
Proof.
  revert s. induction ops as [|op ops IH]; intros s Hnd Hpos H; simpl in H.
  - inv_ok. split; [exact Hnd|]. split; [exact Hpos|]. intros x. unfold times. simpl. lia.
  - inv_bind H. rename a into s1. rename E into Hstep.
    assert (Hs1 : NoDup (Dict.keys s1) /\
                  (forall x n, Dict.get x s1 = Some n -> (1 <= n)%Z) /\
                  (forall x, occurrences x s1
                             = (occurrences x s
                                + (if decide (op = BagAdd x) then 1 else 0)
                                - (if decide (op = BagRemove x) then 1 else 0))%Z)).
    { destruct op as [y|y]; simpl in Hstep.
      - inv_ok. destruct (bag_add_keeps y s Hnd Hpos) as (H1 & H2 & H3).
        split; [exact H1|]. split; [exact H2|]. intros x. rewrite H3.
        destruct (decide (BagAdd y = BagRemove x)); [discriminate|].
        destruct (decide (x = y)) as [->|Hne].
        + destruct (decide (BagAdd y = BagAdd y)); [lia | contradiction].
        + destruct (decide (BagAdd y = BagAdd x)); [congruence | lia].
      - destruct (bag_remove_keeps y s s1 Hnd Hpos Hstep) as (H1 & H2 & H3).
        split; [exact H1|]. split; [exact H2|]. intros x. rewrite H3.
        destruct (decide (BagRemove y = BagAdd x)); [discriminate|].
        destruct (decide (x = y)) as [->|Hne].
        + destruct (decide (BagRemove y = BagRemove y)); [lia | contradiction].
        + destruct (decide (BagRemove y = BagRemove x)); [congruence | lia]. }
    destruct Hs1 as (Hnd1 & Hpos1 & Hocc1).
    destruct (IH s1 Hnd1 Hpos1 H) as (Hnd' & Hpos' & Hocc').
    split; [exact Hnd'|]. split; [exact Hpos'|]. intros x.
    rewrite Hocc', Hocc1, !(times_cons _ op ops). lia.
Qed.

(** X16.  RepeatableSet counts occurrences.  After any sequence of add and
    remove calls on an empty RepeatableSet in which no remove exited (the
    item was present each time): an item is in the set exactly when it was
    added more often than removed; its stored count is then the number of
    adds minus the number of removes; and no stored count is below 1. *)
Theorem repeatable_set_counts (ops : list bag_op) (s : list (pyobj * Z)) :
  bag_run ops RepeatableSet.init = Ok s ->
  forall item,
    (times (BagRemove item) ops <= times (BagAdd item) ops)%Z /\
    (RepeatableSet.contains item s = true <->
     (times (BagRemove item) ops < times (BagAdd item) ops)%Z) /\
    (forall n, Dict.get item s = Some n ->
       n = (times (BagAdd item) ops - times (BagRemove item) ops)%Z /\ (1 <= n)%Z).
Proof.
  intros H item.
  destruct (bag_run_counts ops RepeatableSet.init s) as (_ & Hpos & Hocc).
  - apply NoDup_nil_2.
  - intros x n [=].
  - exact H.
  - specialize (Hocc item). unfold occurrences in Hocc. simpl in Hocc.
    unfold RepeatableSet.contains, Dict.mem.
    destruct (Dict.get item s) as [n|] eqn:Hg.
    + pose proof (Hpos item n Hg). split; [lia|]. split.
      * split; [lia | reflexivity].
      * intros m [= <-]. lia.
    + split; [lia|]. split.
      * split; [discriminate | lia].
      * intros m [=].
Qed.

Lemma repeatable_set_counts_witness :
  (times (BagRemove (PInt 7)) [BagAdd (PInt 7); BagAdd (PInt 7); BagRemove (PInt 7)]
   <= times (BagAdd (PInt 7)) [BagAdd (PInt 7); BagAdd (PInt 7); BagRemove (PInt 7)])%Z /\
  (RepeatableSet.contains (PInt 7) [(PInt 7, 1%Z)] = true <->
   (times (BagRemove (PInt 7)) [BagAdd (PInt 7); BagAdd (PInt 7); BagRemove (PInt 7)]
    < times (BagAdd (PInt 7)) [BagAdd (PInt 7); BagAdd (PInt 7); BagRemove (PInt 7)])%Z) /\
  (forall n, Dict.get (PInt 7) [(PInt 7, 1%Z)] = Some n ->
     n = (times (BagAdd (PInt 7)) [BagAdd (PInt 7); BagAdd (PInt 7); BagRemove (PInt 7)]
          - times (BagRemove (PInt 7)) [BagAdd (PInt 7); BagAdd (PInt 7); BagRemove (PInt 7)])%Z
     /\ (1 <= n)%Z).
Proof.
  apply (repeatable_set_counts [BagAdd (PInt 7); BagAdd (PInt 7); BagRemove (PInt 7)]
           [(PInt 7, 1%Z)]).
  reflexivity.
Defined.

(** ** Stage.reset and Job.reset *)

Lemma reset_tasks_store (ts : list nat) (w : World) :
  (forall t, t ∈ ts -> t < length (w_tasks w)) ->
  exists w1,
    reset_tasks ts w = Ok w1 /\
    w_stages w1 = w_stages w /\ w_jobs w1 = w_jobs w /\
    w_executors w1 = w_executors w /\
    length (w_tasks w1) = length (w_tasks w) /\
    forall t x, w_tasks w !! t = Some x ->
      w_tasks w1 !! t = Some (if decide (t ∈ ts) then unscheduled x else x).
Proof.
  revert w. induction ts as [|t0 ts IH]; intros w Hin.
  - exists w. repeat split. intros t x Hx.
    destruct (decide (t ∈ [])) as [Hn|_]; [apply elem_of_nil in Hn; contradiction | exact Hx].
  - destruct (lookup_lt_is_Some_2 (w_tasks w) t0) as [x0 Hx0]; [apply Hin; left|].
    destruct (IH (put_task t0 (unscheduled x0) w)) as (w1 & Hr & Hs & Hj & He & Hl & Ht).
    { intros t Ht. simpl. rewrite length_insert. apply Hin. right. exact Ht. }
    exists w1. simpl. unfold Task.reset, get_task. rewrite Hx0. simpl.
    split; [exact Hr|]. split; [exact Hs|]. split; [exact Hj|]. split; [exact He|].
    split; [rewrite Hl; simpl; apply length_insert|].
    intros t x Hx. simpl in Ht. destruct (decide (t0 = t)) as [<-|Hne].
    + assert (x = x0) as -> by congruence.
      rewrite (Ht t0 (unscheduled x0))
        by (apply list_lookup_insert_eq; eapply lookup_lt_Some; eauto).
      destruct (decide (t0 ∈ t0 :: ts)) as [_|Hn]; [|exfalso; apply Hn; left].
      destruct (decide (t0 ∈ ts)); reflexivity.
    + rewrite (Ht t x) by (rewrite list_lookup_insert_ne by exact Hne; exact Hx).
      destruct (decide (t ∈ ts)) as [Hy|Hn];
        destruct (decide (t ∈ t0 :: ts)) as [Hy'|Hn']; try reflexivity.
      * exfalso. apply Hn'. right. exact Hy.
      * apply elem_of_cons in Hy' as [->|Hy']; [congruence | contradiction].
Qed.

Lemma unset_unscheduled (x : Task) : Task.is_unset (unscheduled x) = true.
Proof. reflexivity. Qed.

(* Stage.reset on every stage of a list *)
Lemma reset_stages_store (stages : list nat) (w : World) :
  (forall s, s ∈ stages ->
     exists st, w_stages w !! s = Some st /\
                forall t, t ∈ s_tasks st -> t < length (w_tasks w)) ->
  exists w1,
    reset_stages stages w = Ok w1 /\
    w_jobs w1 = w_jobs w /\ w_executors w1 = w_executors w /\
    length (w_tasks w1) = length (w_tasks w) /\
    (forall s st, w_stages w !! s = Some st ->
       w_stages w1 !! s = Some (if decide (s ∈ stages) then cleared st else st)) /\
    (forall t x, w_tasks w !! t = Some x ->
       exists x', w_tasks w1 !! t = Some x' /\
                  (Task.is_unset x = true -> Task.is_unset x' = true) /\
                  ((exists s st, s ∈ stages /\ w_stages w !! s = Some st /\ t ∈ s_tasks st) ->
                   Task.is_unset x' = true)).
Proof.
  revert w. induction stages as [|s0 stages IH]; intros w Hin.
  - exists w. repeat split.
    + intros s st Hst.
      destruct (decide (s ∈ [])) as [Hn|_]; [apply elem_of_nil in Hn; contradiction | exact Hst].
    + intros t x Hx. exists x. split; [exact Hx|]. split; [auto|].
      intros (s & st & Hs & _). apply elem_of_nil in Hs. contradiction.
  - destruct (Hin s0) as (st0 & Hst0 & Hts0); [left|].
    destruct (reset_tasks_store (s_tasks st0) w Hts0) as (wt & Hrt & Hs & Hj & He & Hl & Ht).
    set (w0 := put_stage s0 (cleared st0) wt).
    assert (Hstep : stage_reset s0 w = Ok w0).
    { unfold stage_reset, get_stage. rewrite Hst0. simpl. rewrite Hrt. simpl.
      rewrite Hs, Hst0. reflexivity. }
    assert (Hlook : forall s st, w_stages w !! s = Some st ->
              w_stages w0 !! s = Some (if decide (s = s0) then cleared st else st)).
    { intros s st Hst. simpl. rewrite Hs. destruct (decide (s = s0)) as [->|Hne].
      - assert (st = st0) as -> by congruence.
        apply list_lookup_insert_eq. eapply lookup_lt_Some; eauto.
      - rewrite list_lookup_insert_ne by congruence. exact Hst. }
    destruct (IH w0) as (w1 & Hr & Hj1 & He1 & Hl1 & Hs1 & Ht1).
    { intros s Hs'. destruct (Hin s) as (st & Hst & Hts); [right; exact Hs'|].
      eexists. split; [apply Hlook, Hst|].
      intros t Hin'. simpl. rewrite Hl. apply Hts.
      destruct (decide (s = s0)); exact Hin'. }
    exists w1. simpl. rewrite Hstep. simpl.
    split; [exact Hr|]. split; [rewrite Hj1; exact Hj|]. split; [rewrite He1; exact He|].
    split; [rewrite Hl1; exact Hl|]. split.
    + intros s st Hst. rewrite (Hs1 s _ (Hlook s st Hst)).
      destruct (decide (s = s0)) as [->|Hne].
      * destruct (decide (s0 ∈ s0 :: stages)) as [_|Hn]; [|exfalso; apply Hn; left].
        destruct (decide (s0 ∈ stages)); reflexivity.
      * destruct (decide (s ∈ stages)) as [Hy|Hn];
          destruct (decide (s ∈ s0 :: stages)) as [Hy'|Hn']; try reflexivity.
        -- exfalso. apply Hn'. right. exact Hy.
        -- apply elem_of_cons in Hy' as [->|Hy']; [congruence | contradiction].
    + intros t x Hx.
      destruct (Ht1 t (if decide (t ∈ s_tasks st0) then unscheduled x else x))
        as (x' & Hx' & Hkeep & Hres); [simpl; apply Ht, Hx|].
      exists x'. split; [exact Hx'|]. split.
      * intros Hu. apply Hkeep. destruct (decide (t ∈ s_tasks st0)); [reflexivity | exact Hu].
      * intros (s & st & Hs' & Hst & Hin').
        apply elem_of_cons in Hs' as [->|Hs'].
        -- apply Hkeep. assert (st = st0) as -> by congruence.
           destruct (decide (t ∈ s_tasks st0)); [reflexivity | contradiction].
        -- apply Hres. exists s. eexists. split; [exact Hs'|].
           split; [apply Hlook, Hst|]. destruct (decide (s = s0)); exact Hin'.
Qed.

Lemma runnable_stages_spec (stages : list nat) (w : World) (acc : list pyobj)
    (b : nat -> bool) :
  (forall s, s ∈ stages -> Stage.is_runnable s w = Ok (b s)) ->
  exists frontier,
    Job.runnable_stages stages w acc = Ok frontier /\
    forall x, x ∈ frontier <->
              x ∈ acc \/ exists s, x = PStage s /\ s ∈ stages /\ b s = true.
Proof.
  revert acc. induction stages as [|s0 stages IH]; intros acc Hb.
  - exists acc. split; [reflexivity|]. intros x. split; [auto|].
    intros [Hx|(s & _ & Hs & _)]; [exact Hx | apply elem_of_nil in Hs; contradiction].
  - destruct (IH (if b s0 then OrderedSet.add (PStage s0) acc else acc))
      as (frontier & Hr & Hiff); [intros s Hs; apply Hb; right; exact Hs|].
    exists frontier. simpl. rewrite (Hb s0) by left. simpl. split; [exact Hr|].
    intros x. rewrite Hiff. split.
    + intros [Hx|(s & -> & Hs & Hbs)].
      * destruct (b s0) eqn:Hb0; [|auto].
        apply elem_of_add in Hx as [->|Hx]; [|auto].
        right. exists s0. split; [reflexivity|]. split; [left | exact Hb0].
      * right. exists s. split; [reflexivity|]. split; [right; exact Hs | exact Hbs].
    + intros [Hx|(s & -> & Hs & Hbs)].
      * left. destruct (b s0); [apply elem_of_add; auto | exact Hx].
      * apply elem_of_cons in Hs as [->|Hs].
        -- left. rewrite Hbs. apply elem_of_add. auto.
        -- right. exists s. auto.
Qed.

(** X17.  Job.reset on a job of the store whose stages and their tasks are
    in the store and whose stages have their parents among the job's
    stages: the call returns; every stage of the job is cleared (no
    executors, counters 0, no_more_task and all_tasks_done False, its tasks
    and links kept); every task of these stages is unscheduled again; the
    job has no executors, no finished stage, and its frontier holds exactly
    the stages of the job that have no parent stage. *)
Theorem job_reset_restarts (j : nat) (w : World) (jb : Job) :
  w_jobs w !! j = Some jb ->
  (forall s, s ∈ j_stages jb ->
     exists st, w_stages w !! s = Some st /\
                (forall t, t ∈ s_tasks st -> t < length (w_tasks w)) /\
                (forall p, p ∈ s_parent_stages st -> p ∈ j_stages jb)) ->
  exists w' jb',
    job_reset j w = Ok w' /\
    w_jobs w' !! j = Some jb' /\
    j_stages jb' = j_stages jb /\
    j_executors jb' = [] /\ j_num_finished_stages jb' = 0 /\
    (forall x, x ∈ j_frontier_stages jb' <->
               exists s, x = PStage s /\ s ∈ j_stages jb /\ parentless w s = true) /\
    (forall s st, s ∈ j_stages jb -> w_stages w !! s = Some st ->
       w_stages w' !! s = Some (cleared st)) /\
    (forall s st t, s ∈ j_stages jb -> w_stages w !! s = Some st -> t ∈ s_tasks st ->
       exists x, w_tasks w' !! t = Some x /\ Task.is_unset x = true).
Proof.
  intros Hjb Hin.
  destruct (reset_stages_store (j_stages jb) w) as (w1 & Hr & Hj & He & Hl & Hs & Ht).
  { intros s Hs. destruct (Hin s Hs) as (st & Hst & Hts & _). eauto. }
  assert (Hrun : forall s, s ∈ j_stages jb -> Stage.is_runnable s w1 = Ok (parentless w s)).
  { intros s Hs'. destruct (Hin s Hs') as (st & Hst & _ & Hps).
    unfold Stage.is_runnable, StageCommon.is_runnable, get_stage at 1, parentless.
    rewrite (Hs s st Hst), Hst. destruct (decide (s ∈ j_stages jb)); [|contradiction].
    simpl. destruct (s_parent_stages st) as [|p ps]; [reflexivity|].
    destruct (Hin p) as (pst & Hpst & _); [apply Hps; left|].
    unfold get_stage. rewrite (Hs p pst Hpst).
    destruct (decide (p ∈ j_stages jb)) as [_|Hn]; [reflexivity|].
    exfalso. apply Hn, Hps. left. }
  destruct (runnable_stages_spec (j_stages jb) w1 [] (parentless w) Hrun)
    as (frontier & Hfr & Hiff).
  eexists _, _. unfold job_reset, get_job. rewrite Hjb. simpl. rewrite Hr. simpl.
  rewrite Hfr. simpl. rewrite Hj, Hjb. simpl.
  split; [reflexivity|]. split.
  { simpl. rewrite Hj. apply list_lookup_insert_eq. eapply lookup_lt_Some; eauto. }
  simpl. split; [reflexivity|]. split; [reflexivity|]. split; [reflexivity|]. split.
  { intros x. rewrite Hiff. split; [|auto].
    intros [Hx|Hx]; [apply elem_of_nil in Hx; contradiction | exact Hx]. }
  split.
  - intros s st Hs' Hst. rewrite (Hs s st Hst).
    destruct (decide (s ∈ j_stages jb)); [reflexivity | contradiction].
  - intros s st t Hs' Hst Hin'.
    destruct (lookup_lt_is_Some_2 (w_tasks w) t) as [x Hx].
    { destruct (Hin s Hs') as (st' & Hst' & Hts & _).
      apply Hts. congruence. }
    destruct (Ht t x Hx) as (x' & Hx' & _ & Hres).
    exists x'. split; [exact Hx'|]. apply Hres. eauto.
Qed.

Lemma job_reset_restarts_witness :
  exists w' jb',
    job_reset 0 Scenes.busy = Ok w' /\
    w_jobs w' !! 0 = Some jb' /\
    j_executors jb' = [] /\
    (forall x, x ∈ j_frontier_stages jb' <->
               exists s, x = PStage s /\ s ∈ [0; 1] /\ parentless Scenes.busy s = true) /\
    (exists x, w_tasks w' !! 0 = Some x /\ Task.is_unset x = true).
Proof.
  destruct (job_reset_restarts 0 Scenes.busy
              (Example.job_of [0; 1] [[0; 1]; [0; 0]]%Z [0] [PStage 0]))
    as (w' & jb' & H1 & H2 & _ & H4 & _ & H6 & _ & H8).
  - reflexivity.
  - intros s Hs. apply elem_of_cons in Hs as [->|Hs];
      [|apply list_elem_of_singleton in Hs as ->].
    + eexists. split; [reflexivity|]. split.
      * intros t Ht. apply elem_of_cons in Ht as [->|Ht];
          [|apply list_elem_of_singleton in Ht as ->]; vm_compute; lia.
      * intros p Hp. apply elem_of_nil in Hp. contradiction.
    + eexists. split; [reflexivity|]. split.
      * intros t Ht. apply list_elem_of_singleton in Ht as ->. vm_compute. lia.
      * intros p Hp. apply list_elem_of_singleton in Hp as ->. left.
  - exists w', jb'. split; [exact H1|]. split; [exact H2|]. split; [exact H4|].
    split; [exact H6|]. eapply (H8 0 _ 0); [left | reflexivity | left].
Defined.

(** ** Job.__init__ *)

Lemma is_runnable_returns (s : nat) (w : World) (st : Stage) :
  w_stages w !! s = Some st ->
  (forall p, p ∈ s_parent_stages st -> is_Some (w_stages w !! p)) ->
  Stage.is_runnable s w = Ok (runnable_now w s).
Proof.
  intros Hst Hps. unfold runnable_now.
  assert (H : exists b, Stage.is_runnable s w = Ok b); [|destruct H as [b ->]; reflexivity].
  unfold Stage.is_runnable, StageCommon.is_runnable, get_stage. rewrite Hst. simpl.
  destruct (s_no_more_task st || s_all_tasks_done st); [eauto|].
  destruct (parents_done_loop w (s_parent_stages st) Hps) as (b & Hb & _). eauto.
Qed.

Lemma assign_job_store (stages : list nat) (j : nat) (w : World) :
  (forall s, s ∈ stages -> s < length (w_stages w)) ->
  exists w1,
    Job.assign_job stages j w = Ok w1 /\
    w_jobs w1 = w_jobs w /\ w_tasks w1 = w_tasks w /\ w_executors w1 = w_executors w /\
    forall s st, w_stages w !! s = Some st ->
      w_stages w1 !! s = Some (if decide (s ∈ stages) then stage_with_job st (Some j) else st).
Proof.
  revert w. induction stages as [|s0 stages IH]; intros w Hin.
  - exists w. repeat split. intros s st Hst.
    destruct (decide (s ∈ [])) as [Hn|_]; [apply elem_of_nil in Hn; contradiction | exact Hst].
  - destruct (lookup_lt_is_Some_2 (w_stages w) s0) as [st0 Hst0]; [apply Hin; left|].
    destruct (IH (put_stage s0 (stage_with_job st0 (Some j)) w)) as (w1 & Hr & Hj & Ht & He & Hs).
    { intros s Hs. simpl. rewrite length_insert. apply Hin. right. exact Hs. }
    exists w1. simpl. unfold get_stage. rewrite Hst0. simpl.
    split; [exact Hr|]. split; [exact Hj|]. split; [exact Ht|]. split; [exact He|].
    intros s st Hst. simpl in Hs. destruct (decide (s0 = s)) as [<-|Hne].
    + assert (st = st0) as -> by congruence.
      rewrite (Hs s0 (stage_with_job st0 (Some j)))
        by (apply list_lookup_insert_eq; eapply lookup_lt_Some; eauto).
      destruct (decide (s0 ∈ s0 :: stages)) as [_|Hn]; [|exfalso; apply Hn; left].
      destruct (decide (s0 ∈ stages)); reflexivity.
    + rewrite (Hs s st) by (rewrite list_lookup_insert_ne by exact Hne; exact Hst).
      destruct (decide (s ∈ stages)) as [Hy|Hn];
        destruct (decide (s ∈ s0 :: stages)) as [Hy'|Hn']; try reflexivity.
      * exfalso. apply Hn'. right. exact Hy.
      * apply elem_of_cons in Hy' as [->|Hy']; [congruence | contradiction].
Qed.

(** X18.  Job.__init__ with stages of the store (their parents in the store
    too), a square adjacency matrix with one row per stage that passes the
    DAG check, and at least one recorded executor count: the constructor
    returns; the new job is stored after the existing ones, which are
    untouched; it holds the stages and the matrix it was given, no
    executors, and the table get_executor_interval_map returns; its
    frontier holds exactly the stages given that were runnable at the
    call; every stage given has the new job as its job and is otherwise
    unchanged, and no other stage is touched. *)
Theorem job_init_builds (args : Args) (stages : list nat) (adj_mat : list (list Z))
    (w : World) :
  length stages = Job.shape0 adj_mat ->
  Job.shape0 adj_mat = Job.shape1 adj_mat ->
  is_dag (length stages) adj_mat = true ->
  executor_data_point args <> [] ->
  (forall s, s ∈ stages ->
     exists st, w_stages w !! s = Some st /\
                forall p, p ∈ s_parent_stages st -> is_Some (w_stages w !! p)) ->
  exists w' jb,
    Job.init args stages adj_mat w = Ok (length (w_jobs w), w') /\
    w_jobs w' = w_jobs w ++ [jb] /\
    j_stages jb = stages /\ j_adj_mat jb = adj_mat /\ j_num_stages jb = length stages /\
    j_executors jb = [] /\
    get_executor_interval_map args = Ok (j_executor2interval jb) /\
    (forall x, x ∈ j_frontier_stages jb <->
               exists s, x = PStage s /\ s ∈ stages /\ runnable_now w s = true) /\
    (forall s st, w_stages w !! s = Some st ->
       w_stages w' !! s
       = Some (if decide (s ∈ stages) then stage_with_job st (Some (length (w_jobs w))) else st)).
Proof.
  intros Hlen Hsq Hdag Hpoints Hin.
  destruct (runnable_stages_spec stages w [] (runnable_now w)) as (frontier & Hfr & Hiff).
  { intros s Hs. destruct (Hin s Hs) as (st & Hst & Hps). eapply is_runnable_returns; eauto. }
  assert (Hmap : exists m, get_executor_interval_map args = Ok m).
  { unfold get_executor_interval_map.
    destruct (executor_data_point args) as [|first rest]; [contradiction|].
    destruct (List.last (first :: rest) first <? exec_cap args)%Z; eauto. }
  destruct Hmap as [m Hm].
  set (jb := {| j_stages := stages; j_adj_mat := adj_mat;
                j_num_stages := length stages; j_num_finished_stages := 0;
                j_executors := []; j_frontier_stages := frontier;
                j_executor2interval := m |}).
  set (w1 := {| w_tasks := w_tasks w; w_stages := w_stages w;
                w_jobs := w_jobs w ++ [jb]; w_executors := w_executors w;
                w_time := w_time w; w_np_random := w_np_random w;
                w_global_random := w_global_random w |}).
  destruct (assign_job_store stages (length (w_jobs w)) w1) as (w2 & Ha & Hj & _ & _ & Hs).
  { intros s Hs. destruct (Hin s Hs) as (st & Hst & _). eapply lookup_lt_Some. exact Hst. }
  exists w2, jb. unfold Job.init.
  rewrite Hlen, <- Hsq, !Nat.eqb_refl. simpl.
  rewrite <- Hlen, Hdag. simpl. rewrite Hfr. simpl. rewrite Hm. simpl.
  fold jb. fold w1. rewrite Ha. simpl.
  split; [reflexivity|]. split; [exact Hj|].
  split; [reflexivity|]. split; [reflexivity|]. split; [reflexivity|]. split; [reflexivity|].
  split; [reflexivity|]. split.
  - intros x. rewrite Hiff. split; [|auto].
    intros [Hx|Hx]; [apply elem_of_nil in Hx; contradiction | exact Hx].
  - exact Hs.
Qed.

Lemma job_init_builds_witness :
  exists w' jb,
    Job.init Example.args [0; 1] [[0; 1]; [0; 0]]%Z (Example.cluster (Example.constant_words 0))
      = Ok (1, w') /\
    w_jobs w' = w_jobs (Example.cluster (Example.constant_words 0)) ++ [jb] /\
    j_stages jb = [0; 1] /\
    (forall x, x ∈ j_frontier_stages jb <->
               exists s, x = PStage s /\ s ∈ [0; 1] /\
                         runnable_now (Example.cluster (Example.constant_words 0)) s = true).
Proof.
  destruct (job_init_builds Example.args [0; 1] [[0; 1]; [0; 0]]%Z
              (Example.cluster (Example.constant_words 0)))
    as (w' & jb & H1 & H2 & H3 & _ & _ & _ & _ & H8 & _).
  - reflexivity.
  - reflexivity.
  - vm_compute. reflexivity.
  - discriminate.
  - intros s Hs. apply elem_of_cons in Hs as [->|Hs];
      [|apply list_elem_of_singleton in Hs as ->].
    + eexists. split; [reflexivity|]. intros p Hp. apply elem_of_nil in Hp. contradiction.
    + eexists. split; [reflexivity|]. intros p Hp.
      apply list_elem_of_singleton in Hp as ->. eexists. reflexivity.
  - exists w', jb. split; [exact H1|]. split; [exact H2|]. split; [exact H3 | exact H8].
Defined.

(** ** Job.update_frontier_stages: what it leaves in the frontier *)

Lemma job_with_own_frontier (jb : Job) : job_with_frontier jb (j_frontier_stages jb) = jb.
Proof. destruct jb; reflexivity. Qed.

(* the loop returns, and only appends to the frontier of its job *)
Lemma frontier_loop_returns (j : nat) (children : list nat) (changed : bool) (w : World)
    (jb : Job) :
  w_jobs w !! j = Some jb ->
  (forall z, PInt z ∉ j_frontier_stages jb) ->
  (forall c, c ∈ children ->
     exists st, w_stages w !! c = Some st /\
                forall p, p ∈ s_parent_stages st -> is_Some (w_stages w !! p)) ->
  exists b w' added,
    Job.frontier_loop j children changed w = Ok (b, w') /\
    w_jobs w' = <[j := job_with_frontier jb (j_frontier_stages jb ++ added)]> (w_jobs w) /\
    w_tasks w' = w_tasks w /\ w_executors w' = w_executors w /\
    (NoDup (j_frontier_stages jb) -> NoDup (j_frontier_stages jb ++ added)) /\
    (forall x, x ∈ added ->
       exists c, x = PStage c /\ c ∈ children /\ runnable_now w c = true).
Proof.
  revert changed w jb. induction children as [|child rest IH]; intros changed w jb Hjb Hint Hin.
  - exists changed, w, []. split; [reflexivity|]. rewrite app_nil_r, job_with_own_frontier.
    split; [symmetry; apply list_insert_id, Hjb|]. split; [reflexivity|].
    split; [reflexivity|]. split; [auto|].
    intros x Hx. apply elem_of_nil in Hx. contradiction.
  - destruct (Hin child) as (cst & Hcst & Hps); [left|].
    simpl. rewrite (is_runnable_returns child w cst Hcst Hps). simpl.
    unfold get_stage at 1. rewrite Hcst. simpl. unfold get_job at 1. rewrite Hjb. simpl.
    rewrite (proj2 (contains_false _ _) (Hint _)), andb_true_r.
    destruct (runnable_now w child) eqn:Hrc.
    + set (fr1 := OrderedSet.add (PStage child) (j_frontier_stages jb)).
      destruct (IH true (put_job j (job_with_frontier jb fr1) w) (job_with_frontier jb fr1))
        as (b & w' & added & Hr & Hj & Ht & He & Hnd & Hadded).
      * simpl. apply list_lookup_insert_eq. eapply lookup_lt_Some; eauto.
      * intros z Hz. simpl in Hz. apply elem_of_add in Hz as [Hz|Hz];
          [discriminate | exact (Hint z Hz)].
      * intros c Hc. simpl. apply Hin. right. exact Hc.
      * simpl in Hj, Hnd. rewrite list_insert_insert_eq in Hj.
        assert (Hfr : exists one, fr1 = j_frontier_stages jb ++ one /\
                                  forall x, x ∈ one -> x = PStage child).
        { unfold fr1, OrderedSet.add.
          destruct (OrderedSet.contains (PStage child) (j_frontier_stages jb)).
          - exists []. rewrite app_nil_r. split; [reflexivity|].
            intros x Hx. apply elem_of_nil in Hx. contradiction.
          - eexists. split; [reflexivity|].
            intros x Hx. apply list_elem_of_singleton in Hx. exact Hx. }
        destruct Hfr as (one & Hone & Honly).
        exists b, w', (one ++ added). split; [exact Hr|].
        rewrite app_assoc, <- Hone. split; [exact Hj|].
        split; [exact Ht|]. split; [exact He|]. split.
        -- intros Hnd0. apply Hnd. apply NoDup_add, Hnd0.
        -- intros x Hx. apply elem_of_app in Hx as [Hx|Hx].
           ++ exists child. split; [apply Honly, Hx|]. split; [left | exact Hrc].
           ++ destruct (Hadded x Hx) as (c & -> & Hc & Hrun).
              exists c. split; [reflexivity|]. split; [right; exact Hc | exact Hrun].
    + destruct (IH changed w jb Hjb Hint) as (b & w' & added & Hr & Hj & Ht & He & Hnd & Hadded).
      * intros c Hc. apply Hin. right. exact Hc.
      * exists b, w', added. split; [exact Hr|]. split; [exact Hj|]. split; [exact Ht|].
        split; [exact He|]. split; [exact Hnd|].
        intros x Hx. destruct (Hadded x Hx) as (c & -> & Hc & Hrun).
        exists c. split; [reflexivity|]. split; [right; exact Hc | exact Hrun].
Qed.

(** X19.  Job.update_frontier_stages(stage) on a job whose frontier holds
    Stage objects, for a stage whose children (and their parents) are in
    the store: the call returns; the frontier afterwards is the old
    frontier with stages appended, holds every runnable child of the stage
    and nothing else new, and has no duplicates if it had none; the flag
    returned is True exactly when some child of the stage is runnable;
    stages, tasks, executors and the other jobs are untouched. *)
Theorem update_frontier_stages_adds_runnable_children (j stage : nat) (w : World)
    (jb : Job) (st : Stage) :
  w_jobs w !! j = Some jb ->
  w_stages w !! stage = Some st ->
  (forall z, PInt z ∉ j_frontier_stages jb) ->
  (forall c, c ∈ s_child_stages st ->
     exists cst, w_stages w !! c = Some cst /\
                 forall p, p ∈ s_parent_stages cst -> is_Some (w_stages w !! p)) ->
  exists b w' jb' added,
    Job.update_frontier_stages j stage w = Ok (b, w') /\
    w_jobs w' = <[j := jb']> (w_jobs w) /\
    jb' = job_with_frontier jb (j_frontier_stages jb ++ added) /\
    (forall x, x ∈ added ->
       exists c, x = PStage c /\ c ∈ s_child_stages st /\ runnable_now w c = true) /\
    (forall c, c ∈ s_child_stages st -> runnable_now w c = true ->
       PStage c ∈ j_frontier_stages jb') /\
    (NoDup (j_frontier_stages jb) -> NoDup (j_frontier_stages jb')) /\
    (b = true <-> exists c, c ∈ s_child_stages st /\ runnable_now w c = true) /\
    w_stages w' = w_stages w /\ w_tasks w' = w_tasks w /\ w_executors w' = w_executors w.
Proof.
  intros Hjb Hst Hint Hin.
  destruct (frontier_loop_returns j (s_child_stages st) false w jb Hjb Hint Hin)
    as (b & w' & added & Hr & Hj & Ht & He & Hnd & Hadded).
  destruct (frontier_loop_spec j (s_child_stages st) false b w w' jb Hjb Hint Hr)
    as (Hs & Hflag & jb' & Hjb' & Hmem).
  assert (Hjb1 : jb' = job_with_frontier jb (j_frontier_stages jb ++ added)).
  { rewrite Hj in Hjb'.
    rewrite list_lookup_insert_eq in Hjb' by (eapply lookup_lt_Some; eauto). congruence. }
  assert (Hrun : forall c, c ∈ s_child_stages st ->
            (Stage.is_runnable c w = Ok true <-> runnable_now w c = true)).
  { intros c Hc. destruct (Hin c Hc) as (cst & Hcst & Hps).
    rewrite (is_runnable_returns c w cst Hcst Hps). split; congruence. }
  exists b, w', jb', added.
  unfold Job.update_frontier_stages, get_stage. rewrite Hst. simpl.
  split; [exact Hr|]. split; [rewrite Hjb1; exact Hj|]. split; [exact Hjb1|].
  split; [exact Hadded|].
  split.
  { intros c Hc Hrc. apply Hmem. right. exists c.
    split; [reflexivity|]. split; [exact Hc | apply Hrun; assumption]. }
  split; [rewrite Hjb1; exact Hnd|]. split.
  { rewrite Hflag. split.
    - intros [?|(c & Hc & Hrc)]; [discriminate|]. exists c. split; [exact Hc | apply Hrun; assumption].
    - intros (c & Hc & Hrc). right. exists c. split; [exact Hc | apply Hrun; assumption]. }
  split; [exact Hs|]. split; [exact Ht | exact He].
Qed.

Lemma update_frontier_stages_adds_runnable_children_witness :
  exists b w' jb' (added : list pyobj),
    Job.update_frontier_stages 0 0 Example.parent_done = Ok (b, w') /\
    w_jobs w' = <[0 := jb']> (w_jobs Example.parent_done) /\
    PStage 1 ∈ j_frontier_stages jb' /\
    NoDup (j_frontier_stages jb') /\
    (forall x, x ∈ added -> x = PStage 1).
Proof.
  destruct (update_frontier_stages_adds_runnable_children 0 0 Example.parent_done
              (Example.job_of [0; 1] [[0; 1]; [0; 0]]%Z [0] [])
              (Example.stage_of 0 [0; 1] [] [1] true))
    as (b & w' & jb' & added & H1 & H2 & _ & H4 & H5 & H6 & _).
  - reflexivity.
  - reflexivity.
  - intros z Hz. vm_compute in Hz. apply elem_of_nil in Hz. exact Hz.
  - intros c Hc. apply list_elem_of_singleton in Hc as ->.
    eexists. split; [reflexivity|]. intros p Hp.
    apply list_elem_of_singleton in Hp as ->. eexists. reflexivity.
  - exists b, w', jb', added. split; [exact H1|]. split; [exact H2|].
    split; [apply H5; [left | reflexivity]|].
    split; [apply H6; apply NoDup_nil_2|].
    intros x Hx. destruct (H4 x Hx) as (c & -> & Hc & _).
    apply list_elem_of_singleton in Hc as ->. reflexivity.
Defined.

(** ** Stage.get_duration and Job.get_duration *)

(* a comprehension whose calls either return or all raise the same error *)
Lemma collect_spec {A : Type} (f : nat -> World -> result A) (xs : list nat) (w : World)
    (g : nat -> A) (bad : nat -> bool) (e : error) :
  (forall x, x ∈ xs -> f x w = if bad x then Raise e else Ok (g x)) ->
  collect f xs w = if existsb bad xs then Raise e else Ok (map g xs).
Proof.
  induction xs as [|x xs IH]; intros Hf; [reflexivity|].
  simpl. rewrite (Hf x) by left. destruct (bad x); [reflexivity|]. simpl.
  rewrite IH by (intros y Hy; apply Hf; right; exact Hy).
  destruct (existsb bad xs); reflexivity.
Qed.

Lemma task_get_duration_cases (w : World) (t : nat) :
  is_Some (w_tasks w !! t) ->
  Task.get_duration t w = if started w t then Raise TypeError else Ok (planned w t).
Proof.
  intros [x Hx]. unfold Task.get_duration, get_task, started, planned. rewrite Hx. simpl.
  destruct (t_start_time x); reflexivity.
Qed.

Lemma stage_get_duration_cases (w : World) (s : nat) (st : Stage) :
  w_stages w !! s = Some st ->
  (forall t, t ∈ s_tasks st -> is_Some (w_tasks w !! t)) ->
  stage_get_duration s w
  = if existsb (started w) (s_tasks st) then Raise TypeError else Ok (stage_planned w s).
Proof.
  intros Hst Hts. unfold stage_get_duration, get_stage, stage_planned. rewrite Hst. simpl.
  rewrite (collect_spec Task.get_duration (s_tasks st) w (planned w) (started w) TypeError).
  - destruct (existsb (started w) (s_tasks st)); reflexivity.
  - intros t Ht. apply task_get_duration_cases, Hts, Ht.
Qed.

(** X20.  Stage.get_duration and Job.get_duration, for a job of the store
    whose stages and their tasks are in the store.  While no task of the
    job has a start time, Stage.get_duration returns the sum of the
    duration attributes of the stage's tasks and Job.get_duration the sum
    of these sums over its stages.  As soon as one task of one stage has
    a start time, Stage.get_duration of that stage and Job.get_duration
    raise TypeError (Task.get_duration compares the TimeHorizon object
    with a float). *)
Theorem get_duration_only_before_scheduling (j : nat) (w : World) (jb : Job) :
  w_jobs w !! j = Some jb ->
  (forall s, s ∈ j_stages jb ->
     exists st, w_stages w !! s = Some st /\
                forall t, t ∈ s_tasks st -> is_Some (w_tasks w !! t)) ->
  ((forall s st t, s ∈ j_stages jb -> w_stages w !! s = Some st -> t ∈ s_tasks st ->
      started w t = false) ->
   job_get_duration j w = Ok (py_sum (map (stage_planned w) (j_stages jb))) /\
   forall s, s ∈ j_stages jb -> stage_get_duration s w = Ok (stage_planned w s)) /\
  (forall s st t, s ∈ j_stages jb -> w_stages w !! s = Some st -> t ∈ s_tasks st ->
     started w t = true ->
     stage_get_duration s w = Raise TypeError /\
     job_get_duration j w = Raise TypeError).
Proof.
  intros Hjb Hin.
  assert (Hstage : forall s, s ∈ j_stages jb ->
            stage_get_duration s w
            = if (fun s => match w_stages w !! s with
                           | Some st => existsb (started w) (s_tasks st)
                           | None => false
                           end) s
              then Raise TypeError else Ok (stage_planned w s)).
  { intros s Hs. destruct (Hin s Hs) as (st & Hst & Hts).
    rewrite (stage_get_duration_cases w s st Hst Hts), Hst. reflexivity. }
  pose proof (collect_spec stage_get_duration (j_stages jb) w (stage_planned w) _ TypeError
                Hstage) as Hjob.
  unfold job_get_duration, get_job. rewrite Hjb. simpl. rewrite Hjob. clear Hjob.
  split.
  - intros Hnone.
    assert (Hno : forall s, s ∈ j_stages jb ->
              match w_stages w !! s with
              | Some st => existsb (started w) (s_tasks st)
              | None => false
              end = false).
    { intros s Hs. destruct (w_stages w !! s) as [st|] eqn:Hst; [|reflexivity].
      apply not_true_is_false. intros Hex. apply existsb_exists in Hex as (t & Ht & Hstart).
      apply list_elem_of_In in Ht. rewrite (Hnone s st t Hs Hst Ht) in Hstart. discriminate. }
    split.
    + destruct (existsb _ (j_stages jb)) eqn:Hex; [|reflexivity].
      apply existsb_exists in Hex as (s & Hs & Hbad). apply list_elem_of_In in Hs.
      rewrite (Hno s Hs) in Hbad. discriminate.
    + intros s Hs. rewrite (Hstage s Hs), (Hno s Hs). reflexivity.
  - intros s st t Hs Hst Ht Hstart.
    assert (Hbad : existsb (started w) (s_tasks st) = true).
    { apply existsb_exists. exists t. split; [apply list_elem_of_In, Ht | exact Hstart]. }
    split.
    + rewrite (Hstage s Hs), Hst, Hbad. reflexivity.
    + destruct (existsb _ (j_stages jb)) eqn:Hex; [reflexivity|].
      exfalso. apply not_true_iff_false in Hex. apply Hex.
      apply existsb_exists. exists s. split; [apply list_elem_of_In, Hs|].
      rewrite Hst. exact Hbad.
Qed.

Lemma get_duration_only_before_scheduling_witness :
  (exists d, job_get_duration 0 (Example.cluster (Example.constant_words 0)) = Ok d) /\
  stage_get_duration 0 Scenes.busy = Raise TypeError /\
  job_get_duration 0 Scenes.busy = Raise TypeError.
Proof.
  split.
  - eexists.
    eapply (get_duration_only_before_scheduling 0 (Example.cluster (Example.constant_words 0))).
    + reflexivity.
    + intros s Hs. apply elem_of_cons in Hs as [->|Hs];
        [|apply list_elem_of_singleton in Hs as ->].
      * eexists. split; [reflexivity|]. intros t Ht.
        apply elem_of_cons in Ht as [->|Ht];
          [|apply list_elem_of_singleton in Ht as ->]; eexists; reflexivity.
      * eexists. split; [reflexivity|]. intros t Ht.
        apply list_elem_of_singleton in Ht as ->. eexists. reflexivity.
    + intros s st t Hs Hst Ht.
      apply elem_of_cons in Hs as [->|Hs];
        [|apply list_elem_of_singleton in Hs as ->]; injection Hst as <-.
      * apply elem_of_cons in Ht as [->|Ht];
          [|apply list_elem_of_singleton in Ht as ->]; reflexivity.
      * apply list_elem_of_singleton in Ht as ->. reflexivity.
  - eapply (get_duration_only_before_scheduling 0 Scenes.busy).
    + reflexivity.
    + intros s Hs. apply elem_of_cons in Hs as [->|Hs];
        [|apply list_elem_of_singleton in Hs as ->].
      * eexists. split; [reflexivity|]. intros t Ht.
        apply elem_of_cons in Ht as [->|Ht];
          [|apply list_elem_of_singleton in Ht as ->]; eexists; reflexivity.
      * eexists. split; [reflexivity|]. intros t Ht.
        apply list_elem_of_singleton in Ht as ->. eexists. reflexivity.
    + left.
    + reflexivity.
    + left.
    + reflexivity.
Defined.

(** ** JobDuration.update_duration *)

Lemma filter_agree {A : Type} (P1 P2 : A -> Prop)
    `{forall x, Decision (P1 x)} `{forall x, Decision (P2 x)} (l : list A) :
  (forall x, x ∈ l -> (P1 x <-> P2 x)) -> filter P1 l = filter P2 l.
Proof.
  induction l as [|x l IH]; intros Hiff; [reflexivity|].
  assert (Hl : filter P1 l = filter P2 l)
    by (apply IH; intros y Hy; apply Hiff; right; exact Hy).
  destruct (decide (P1 x)) as [Hp|Hp].
  - rewrite !filter_cons_True; [rewrite Hl; reflexivity | apply (Hiff x); [left | exact Hp] | exact Hp].
  - rewrite !filter_cons_False; [exact Hl | | exact Hp].
    intros Hp2. apply Hp, (Hiff x); [left | exact Hp2].
Qed.

Lemma mem_set {K V : Type} `{EqDecision K} (k k' : K) (v : V) (d : list (K * V)) :
  Dict.mem k' (Dict.set k v d) = if decide (k = k') then true else Dict.mem k' d.
Proof.
  unfold Dict.mem. destruct (decide (k = k')) as [<-|Hne].
  - rewrite get_set_eq. reflexivity.
  - rewrite get_set_ne by exact Hne. reflexivity.
Qed.

Lemma mem_set_all (s : nat) (new : list nat) (finished : list (nat * nat)) :
  Dict.mem s (fold_left (fun f x => Dict.set x x f) new finished) = true <->
  Dict.mem s finished = true \/ s ∈ new.
Proof.
  revert finished. induction new as [|x new IH]; intros finished; simpl.
  - rewrite elem_of_nil. tauto.
  - rewrite IH, mem_set, elem_of_cons. destruct (decide (x = s)) as [->|Hne].
    + tauto.
    + split; [tauto|]. intros [?|[?|?]]; [tauto | congruence | tauto].
Qed.

Lemma finished_loop_spec (stages : list nat) (w : World) (durations : list (nat * Q))
    (finished : list (nat * nat)) (wait : Q) :
  NoDup stages ->
  (forall s, s ∈ stages ->
     is_Some (w_stages w !! s) /\ is_Some (Dict.get s durations)) ->
  finished_loop stages w durations finished wait
  = Ok (fold_left Qplus
          (map (fun s => match Dict.get s durations with Some d => d | None => 0%Q end)
               (filter (fun s => Dict.mem s finished = false /\ done w s = true) stages))
          wait,
        fold_left (fun f x => Dict.set x x f)
          (filter (fun s => Dict.mem s finished = false /\ done w s = true) stages)
          finished).
Proof.
  revert finished wait. induction stages as [|s stages IH]; intros finished wait Hnd Hin;
    [reflexivity|].
  apply NoDup_cons in Hnd as [Hs Hnd].
  destruct (Hin s) as [[st Hst] [d Hd]]; [left|].
  assert (Hin' : forall s0, s0 ∈ stages ->
            is_Some (w_stages w !! s0) /\ is_Some (Dict.get s0 durations))
    by (intros s0 Hs0; apply Hin; right; exact Hs0).
  simpl. destruct (Dict.mem s finished) eqn:Hmem.
  - rewrite filter_cons_False by (intros [? _]; congruence). apply IH; assumption.
  - unfold get_stage. rewrite Hst. simpl.
    destruct (s_all_tasks_done st) eqn:Hdone.
    + rewrite Hd. simpl.
      rewrite filter_cons_True by (split; [exact Hmem | unfold done; rewrite Hst; exact Hdone]).
      simpl. rewrite Hd. rewrite IH by assumption.
      rewrite (filter_agree
                 (fun s0 => Dict.mem s0 (Dict.set s s finished) = false /\ done w s0 = true)
                 (fun s0 => Dict.mem s0 finished = false /\ done w s0 = true)); [reflexivity|].
      intros x Hx. rewrite mem_set.
      destruct (decide (s = x)) as [->|_]; [contradiction | reflexivity].
    + rewrite filter_cons_False
        by (intros [_ Hd']; unfold done in Hd'; rewrite Hst in Hd'; congruence).
      apply IH; assumption.
Qed.

(** X21.  JobDuration.update_duration, for a job of the store with distinct
    stages, all in the store and all with a recorded duration: the call
    returns; job_duration goes down by the sum of the recorded durations of
    the stages that have all_tasks_done and were not yet in
    stages_finished, and exactly these stages join stages_finished; a
    second call in the same state removes nothing more (job_duration keeps
    its value, stages_finished is unchanged). *)
Theorem update_duration_removes_once (jd : JobDuration) (w : World) (jb : Job) :
  w_jobs w !! jd_job jd = Some jb ->
  NoDup (j_stages jb) ->
  (forall s, s ∈ j_stages jb ->
     is_Some (w_stages w !! s) /\ is_Some (Dict.get s (jd_stages_duration jd))) ->
  exists jd',
    update_duration jd w = Ok jd' /\
    jd_job_duration jd'
    = (jd_job_duration jd
       - py_sum (map (recorded jd) (newly_finished jd w (j_stages jb))))%Q /\
    (forall s, Dict.mem s (jd_stages_finished jd') = true <->
               Dict.mem s (jd_stages_finished jd) = true \/
               (s ∈ j_stages jb /\ done w s = true)) /\
    exists jd'',
      update_duration jd' w = Ok jd'' /\
      (jd_job_duration jd'' == jd_job_duration jd')%Q /\
      jd_stages_finished jd'' = jd_stages_finished jd'.
Proof.
  intros Hjb Hnd Hin.
  pose proof (finished_loop_spec (j_stages jb) w (jd_stages_duration jd)
                (jd_stages_finished jd) 0%Q Hnd Hin) as Hloop.
  assert (Hmem : forall s,
            Dict.mem s (fold_left (fun f x => Dict.set x x f)
                          (newly_finished jd w (j_stages jb)) (jd_stages_finished jd)) = true <->
            Dict.mem s (jd_stages_finished jd) = true \/ (s ∈ j_stages jb /\ done w s = true)).
  { intros s. rewrite mem_set_all. unfold newly_finished. rewrite list_elem_of_filter.
    destruct (Dict.mem s (jd_stages_finished jd)); [tauto|]. tauto. }
  set (fin' := fold_left (fun f x => Dict.set x x f)
                 (newly_finished jd w (j_stages jb)) (jd_stages_finished jd)) in *.
  exists {| jd_job := jd_job jd; jd_stages_duration := jd_stages_duration jd;
            jd_job_duration :=
              (jd_job_duration jd
               - py_sum (map (recorded jd) (newly_finished jd w (j_stages jb))))%Q;
            jd_stages_finished := fin' |}.
  split.
  { unfold update_duration, get_job. rewrite Hjb. cbn [bind from_ref]. rewrite Hloop. reflexivity. }
  split; [reflexivity|]. split; [exact Hmem|].
  pose proof (finished_loop_spec (j_stages jb) w (jd_stages_duration jd) fin'
                0%Q Hnd Hin) as Hloop2.
  rewrite filter_none in Hloop2.
  - eexists. unfold update_duration, get_job.
    cbn [jd_job jd_stages_duration jd_stages_finished jd_job_duration].
    rewrite Hjb. cbn [bind from_ref]. rewrite Hloop2. cbn [bind].
    split; [reflexivity|].
    cbn [jd_job jd_stages_duration jd_stages_finished jd_job_duration map fold_left].
    split; [|reflexivity]. unfold Qminus. change (- 0)%Q with 0%Q. apply Qplus_0_r.
  - intros s Hs [Hno Hdone].
    assert (Hyes : Dict.mem s fin' = true) by (apply Hmem; right; auto).
    congruence.
Qed.

Lemma update_duration_removes_once_witness :
  exists jd',
    update_duration fresh_account Example.parent_done = Ok jd' /\
    jd_job_duration jd' = (12 - py_sum [7])%Q /\
    (forall s, Dict.mem s (jd_stages_finished jd') = true <->
               Dict.mem s (jd_stages_finished fresh_account) = true \/
               (s ∈ [0; 1] /\ done Example.parent_done s = true)).
Proof.
  destruct (update_duration_removes_once fresh_account Example.parent_done
              (Example.job_of [0; 1] [[0; 1]; [0; 0]]%Z [0] []))
    as (jd' & H1 & H2 & H3 & _).
  - reflexivity.
  - apply (bool_decide_unpack _). vm_compute. exact I.
  - intros s Hs. apply elem_of_cons in Hs as [->|Hs];
      [|apply list_elem_of_singleton in Hs as ->]; split; eexists; reflexivity.
  - exists jd'. split; [exact H1|]. split; [exact H2 | exact H3].
Defined.

(** ** Timeline *)

Lemma Qlt_bool_iff (x y : Q) : Qlt_bool x y = true <-> (x < y)%Q.
Proof.
  unfold Qlt_bool. rewrite negb_true_iff. split.
  - intros H. apply Qnot_le_lt. intros Hle. apply Qle_bool_iff in Hle. congruence.
  - intros H. apply not_true_is_false. intros Hle. apply Qle_bool_iff in Hle.
    exact (Qlt_not_le _ _ H Hle).
Qed.

Lemma entry_lt_iff (a b : Q * nat * pyobj) : entry_lt a b = true <-> entry_before a b.
Proof.
  unfold entry_lt, entry_before.
  rewrite orb_true_iff, andb_true_iff, Qlt_bool_iff, Qeq_bool_iff, Nat.ltb_lt. reflexivity.
Qed.

Lemma entry_before_trans (a b c : Q * nat * pyobj) :
  entry_before a b -> entry_before b c -> entry_before a c.
Proof.
  unfold entry_before. intros [Hab|[Hab Hn]] [Hbc|[Hbc Hm]].
  - left. eapply Qlt_trans; eauto.
  - left. rewrite <- Hbc. exact Hab.
  - left. rewrite Hab. exact Hbc.
  - right. split; [rewrite Hab; exact Hbc | lia].
Qed.

Lemma entry_before_total (a b : Q * nat * pyobj) :
  arrive_order a <> arrive_order b -> entry_before a b \/ entry_before b a.
Proof.
  intros Hne. unfold entry_before.
  destruct (Q_dec (time_slot a) (time_slot b)) as [[Hlt|Hgt]|Heq].
  - left. left. exact Hlt.
  - right. left. exact Hgt.
  - destruct (Nat.lt_total (arrive_order a) (arrive_order b)) as [H|[H|H]].
    + left. right. auto.
    + contradiction.
    + right. right. split; [symmetry; exact Heq | exact H].
Qed.

Lemma smallest_spec (x : Q * nat * pyobj) (rest : list (Q * nat * pyobj)) :
  NoDup (map arrive_order (x :: rest)) ->
  smallest x rest ∈ x :: rest /\
  forall y, y ∈ x :: rest -> y = smallest x rest \/ entry_before (smallest x rest) y.
Proof.
  revert x. induction rest as [|y rest IH]; intros x Hnd.
  - simpl. split; [left|]. intros z Hz. apply list_elem_of_singleton in Hz. auto.
  - simpl in Hnd. apply NoDup_cons in Hnd as [Hx Hnd].
    pose proof Hnd as Hnd'. apply NoDup_cons in Hnd' as [Hy Hrest].
    assert (Hxy : arrive_order y <> arrive_order x).
    { intros Heq. apply Hx. rewrite <- Heq. left. }
    simpl. destruct (entry_lt y x) eqn:Hlt.
    + apply entry_lt_iff in Hlt.
      destruct (IH y) as [Hin Hmin]; [exact Hnd|]. split.
      * right. exact Hin.
      * intros z Hz. apply elem_of_cons in Hz as [->|Hz]; [|apply Hmin, Hz].
        right. destruct (Hmin y) as [<-|Hb]; [left | exact Hlt|].
        eapply entry_before_trans; eauto.
    + assert (Hxb : entry_before x y).
      { destruct (entry_before_total x y) as [H|H]; [congruence | exact H|].
        apply entry_lt_iff in H. congruence. }
      destruct (IH x) as [Hin Hmin].
      { simpl. apply NoDup_cons. split; [|exact Hrest].
        intros Hn. apply Hx. right. exact Hn. }
      split.
      * apply elem_of_cons in Hin as [Hin|Hin]; [rewrite Hin; left | right; right; exact Hin].
      * intros z Hz. apply elem_of_cons in Hz as [->|Hz]; [apply Hmin; left|].
        apply elem_of_cons in Hz as [->|Hz]; [|apply Hmin; right; exact Hz].
        right. destruct (Hmin x) as [<-|Hb]; [left | exact Hxb|].
        eapply entry_before_trans; eauto.
Qed.

Lemma push_keeps_count (time : Q) (job : pyobj) (tl : Timeline) :
  well_counted tl -> well_counted (Timeline.push time job tl).
Proof.
  intros [Hnd Hlt]. split; simpl.
  - rewrite map_app. simpl. apply NoDup_app. split; [exact Hnd|]. split.
    + intros c Hc Hc'. apply list_elem_of_singleton in Hc'. subst c.
      apply list_elem_of_fmap in Hc as (e & He & Hin). apply Hlt in Hin.
      unfold arrive_order in He at 1. simpl in He. lia.
    + apply NoDup_singleton.
  - intros e He. apply elem_of_app in He as [He|He].
    + apply Hlt in He. lia.
    + apply list_elem_of_singleton in He as ->. unfold arrive_order. simpl. lia.
Qed.

Lemma NoDup_map_inj {A B : Type} (f : A -> B) (l : list A) (a b : A) :
  NoDup (map f l) -> a ∈ l -> b ∈ l -> f a = f b -> a = b.
Proof.
  induction l as [|x l IH]; intros Hnd Ha Hb Hab; [apply elem_of_nil in Ha; contradiction|].
  simpl in Hnd. apply NoDup_cons in Hnd as [Hx Hnd].
  apply elem_of_cons in Ha as [->|Ha]; apply elem_of_cons in Hb as [->|Hb].
  - reflexivity.
  - exfalso. apply Hx. rewrite Hab. apply list_elem_of_fmap. eauto.
  - exfalso. apply Hx. rewrite <- Hab. apply list_elem_of_fmap. eauto.
  - apply IH; assumption.
Qed.

Lemma length_without {A B : Type} `{EqDecision B} (f : A -> B) (l : list A) (m : A) :
  NoDup (map f l) -> m ∈ l ->
  length (filter (fun e => f e <> f m) l) + 1 = length l.
Proof.
  induction l as [|x l IH]; intros Hnd Hm; [apply elem_of_nil in Hm; contradiction|].
  simpl in Hnd. apply NoDup_cons in Hnd as [Hx Hnd].
  destruct (decide (f x = f m)) as [Heq|Hne].
  - rewrite filter_cons_False by (intros Hn; contradiction).
    rewrite filter_all; [simpl; lia|].
    intros y Hy Hfy. apply Hx. rewrite Heq, <- Hfy. apply list_elem_of_fmap. eauto.
  - rewrite filter_cons_True by exact Hne. simpl.
    apply elem_of_cons in Hm as [->|Hm]; [contradiction|].
    rewrite <- (IH Hnd Hm). lia.
Qed.

(** X22.  Timeline hands out entries in time order, first pushed first.
    On a timeline whose arrive orders are distinct and below its counter
    (true after reset, kept by push and pop): push gives the new entry an
    arrive order above every one in the queue; pop on an empty timeline
    returns (None, None) and changes nothing; pop on a non-empty one
    returns the time slot and item of an entry of the queue such that
    every other entry has a later time slot, or an equal one and a later
    arrive order; exactly that entry leaves the queue; and peek returns
    the same pair as pop. *)
Theorem timeline_pops_in_order (tl : Timeline) :
  well_counted tl ->
  (forall time job,
      well_counted (Timeline.push time job tl) /\
      forall e, e ∈ priority_queue tl ->
                arrive_order e < arrive_order (time, counter tl, job)) /\
  (priority_queue tl = [] -> Timeline.pop tl = ((None, None), tl)) /\
  (priority_queue tl <> [] ->
   exists least tl',
     Timeline.pop tl = ((Some (time_slot least), Some (snd least)), tl') /\
     least ∈ priority_queue tl /\
     (forall e, e ∈ priority_queue tl -> e <> least -> entry_before least e) /\
     (forall e, e ∈ priority_queue tl' <-> e ∈ priority_queue tl /\ e <> least) /\
     well_counted tl' /\
     counter tl' = counter tl /\
     Timeline.len tl' + 1 = Timeline.len tl) /\
  Timeline.peek tl = fst (Timeline.pop tl).
Proof.
  intros Hwc. pose proof Hwc as [Hnd Hlt]. split; [|split; [|split]].
  - intros time job. split; [apply push_keeps_count, Hwc|].
    intros e He. apply Hlt in He. unfold arrive_order at 2. simpl. exact He.
  - intros Hq. unfold Timeline.pop. rewrite Hq. reflexivity.
  - intros Hq. unfold Timeline.pop, Timeline.len.
    destruct (priority_queue tl) as [|x rest] eqn:Hqueue; [contradiction|].
    destruct (smallest_spec x rest Hnd) as [Hin Hmin].
    set (least := smallest x rest) in *.
    assert (Hmem : forall e,
              e ∈ filter (fun e => arrive_order e <> arrive_order least) (x :: rest)
              <-> e ∈ x :: rest /\ e <> least).
    { intros e. rewrite list_elem_of_filter. split.
      - intros [Hne He]. split; [exact He | congruence].
      - intros [He Hne]. split; [|exact He]. intros Heq. apply Hne.
        exact (NoDup_map_inj arrive_order (x :: rest) e least Hnd He Hin Heq). }
    exists least,
      {| priority_queue :=
           filter (fun e => arrive_order e <> arrive_order least) (x :: rest);
         counter := counter tl |}.
    split.
    { clearbody least. destruct least as [[t c] j]. reflexivity. }
    split; [exact Hin|]. split.
    { intros e He Hne. destruct (Hmin e He) as [->|Hb]; [contradiction | exact Hb]. }
    cbn [priority_queue counter]. split; [exact Hmem|]. split.
    { split; cbn [priority_queue counter].
      - eapply sublist_NoDup; [exact Hnd|]. apply fmap_sublist, sublist_filter.
      - intros e He. apply Hmem in He as [He _]. apply Hlt, He. }
    split; [reflexivity|].
    apply length_without; assumption.
  - unfold Timeline.peek, Timeline.pop.
    destruct (priority_queue tl) as [|x rest]; [reflexivity|].
    destruct (smallest x rest) as [[t c] j]. reflexivity.
Qed.

Lemma timeline_pops_in_order_witness :
  exists tl',
    Timeline.pop (Timeline.push 3 (PJob 1) (Timeline.push 3 (PJob 0)
                    (Timeline.push 5 (PJob 2) Timeline.reset)))
    = ((Some 3%Q, Some (PJob 0)), tl') /\
    Timeline.len tl' + 1 = 3.
Proof.
  assert (H0 : well_counted Timeline.reset).
  { split; [apply NoDup_nil_2|]. intros e He. apply elem_of_nil in He. contradiction. }
  destruct (timeline_pops_in_order Timeline.reset H0) as [H1 _].
  destruct (H1 5%Q (PJob 2)) as [Hw1 _].
  destruct (timeline_pops_in_order _ Hw1) as [H2 _].
  destruct (H2 3%Q (PJob 0)) as [Hw2 _].
  destruct (timeline_pops_in_order _ Hw2) as [H3 _].
  destruct (H3 3%Q (PJob 1)) as [Hw3 _].
  destruct (timeline_pops_in_order _ Hw3) as (_ & _ & Hpop & _).
  destruct Hpop as (least & tl' & Hp & _ & _ & _ & _ & _ & Hlen); [discriminate|].
  exists tl'. split; [|exact Hlen].
  rewrite Hp. vm_compute in Hp. injection Hp as Ht Hj _. rewrite Ht, Hj. reflexivity.
Defined.

(** ** FreeExecutors: add, then remove *)

(** X23.  FreeExecutors.add followed by remove.  For an executor of the
    store (its stage and job, if any, in the store too) and a job, or None,
    whose group exists and does not hold the executor: add(job, executor)
    returns and contain_executor(job, executor) is True afterwards.  If
    job is None, or the executor's job attribute is that job, then
    remove(executor) right after takes it out again and leaves the groups
    exactly as they were before the add.  If job is a job other than the
    executor's job attribute, remove(executor) looks in the group of that
    attribute instead: whenever it returns, the executor is still in the
    group it was added to. *)
Theorem free_executors_add_then_remove (job : option nat) (e : nat)
    (fe : list (option nat * list nat)) (w : World) (ex : Executor) (group : list nat) :
  w_executors w !! e = Some ex ->
  (forall s, e_stage ex = Some s -> is_Some (w_stages w !! s)) ->
  (forall j, e_job ex = Some j -> is_Some (w_jobs w !! j)) ->
  Dict.get job fe = Some group ->
  e ∉ group ->
  exists fe1 w1,
    FreeExecutors.add job e fe w = Ok (fe1, w1) /\
    FreeExecutors.contain_executor job e fe1 = Ok true /\
    (job = None \/ e_job ex = job -> FreeExecutors.remove e fe1 w1 = Ok fe) /\
    (job <> None -> e_job ex <> job ->
     forall fe2, FreeExecutors.remove e fe1 w1 = Ok fe2 ->
                 FreeExecutors.contain_executor job e fe2 = Ok true).
Proof.
  intros Hex Hst Hjb Hgroup Hne.
  assert (Hw1 : exists w1,
            match job with
            | None => Executor.detach_job e w
            | Some _ => Executor.detach_stage e w
            end = Ok w1 /\
            exists ex1, w_executors w1 !! e = Some ex1 /\
                        e_job ex1 = match job with None => None | Some _ => e_job ex end).
  { destruct job as [j|].
    - destruct (detach_stage_store e w ex Hex Hst) as (w1 & Hd & Hes & _).
      exists w1. split; [exact Hd|]. eexists. split.
      + rewrite Hes. apply list_lookup_insert_eq. eapply lookup_lt_Some; eauto.
      + reflexivity.
    - destruct (detach_job_store e w ex Hex Hst Hjb) as (w1 & Hd & Hes & _).
      exists w1. split; [exact Hd|]. eexists. split.
      + rewrite Hes. apply list_lookup_insert_eq. eapply lookup_lt_Some; eauto.
      + reflexivity. }
  destruct Hw1 as (w1 & Hd & ex1 & Hex1 & Hjob1).
  exists (Dict.set job (OrderedSet.add e group) fe), w1.
  assert (Hin : e ∈ OrderedSet.add e group) by (apply elem_of_add; auto).
  split.
  { unfold FreeExecutors.add. rewrite Hd. simpl. rewrite Hgroup. reflexivity. }
  split.
  { unfold FreeExecutors.contain_executor. rewrite get_set_eq. simpl.
    rewrite (proj2 (contains_true _ _) Hin). reflexivity. }
  split.
  - intros Hsame.
    assert (Hj : e_job ex1 = job).
    { rewrite Hjob1. destruct job as [j|]; [|reflexivity].
      destruct Hsame as [?|?]; [discriminate | assumption]. }
    unfold FreeExecutors.remove, get_executor. rewrite Hex1. simpl. rewrite Hj.
    rewrite get_set_eq. simpl. rewrite (remove_present _ _ Hin). simpl.
    rewrite set_set, (del_appended _ _ Hne), (set_same _ _ _ Hgroup). reflexivity.
  - intros Hsome Hother fe2 H.
    assert (Hj : e_job ex1 <> job).
    { rewrite Hjob1. destruct job as [j|]; [exact Hother | contradiction]. }
    unfold FreeExecutors.remove, get_executor in H. rewrite Hex1 in H. simpl in H.
    destruct (Dict.get (e_job ex1) (Dict.set job (OrderedSet.add e group) fe)) as [g|];
      [|discriminate]. simpl in H.
    destruct (OrderedSet.remove e g) as [g1|]; [|discriminate]. simpl in H.
    injection H as <-. unfold FreeExecutors.contain_executor.
    rewrite get_set_ne by exact Hj. rewrite get_set_eq. simpl.
    rewrite (proj2 (contains_true _ _) Hin). reflexivity.
Qed.

Lemma free_executors_add_then_remove_witness :
  exists fe1 w1,
    FreeExecutors.add (Some 0) 0 [(None, [1]); (Some 0, [])] Scenes.busy = Ok (fe1, w1) /\
    FreeExecutors.contain_executor (Some 0) 0 fe1 = Ok true /\
    FreeExecutors.remove 0 fe1 w1 = Ok [(None, [1]); (Some 0, [])].
Proof.
  destruct (free_executors_add_then_remove (Some 0) 0 [(None, [1]); (Some 0, [])]
              Scenes.busy Scenes.busy_executor [])
    as (fe1 & w1 & H1 & H2 & H3 & _).
  - reflexivity.
  - intros s [= <-]. eexists. reflexivity.
  - intros j [= <-]. eexists. reflexivity.
  - reflexivity.
  - apply not_elem_of_nil.
  - exists fe1, w1. split; [exact H1|]. split; [exact H2|]. apply H3. right. reflexivity.
Defined.

(** ** merge_jobs: the links between two consecutive jobs *)

(* one source stage linked to the sink stage of the previous job *)
Lemma link_source_one (src sink : nat) (w : World) (src_st sink_st : Stage) :
  src <> sink ->
  w_stages w !! src = Some src_st ->
  w_stages w !! sink = Some sink_st ->
  Merge.link_source src [sink] w
  = Ok (put_stage src (stage_with_parents src_st (s_parent_stages src_st ++ [sink]))
          (put_stage sink (stage_with_children sink_st (s_child_stages sink_st ++ [src])) w)).
Proof.
  intros Hne Hsrc Hsink. simpl. unfold get_stage at 1. rewrite Hsink. simpl.
  unfold get_stage. simpl. rewrite list_lookup_insert_ne by congruence. rewrite Hsrc.
  reflexivity.
Qed.

(** X24.  The relationship update of merge_jobs, for the one sink stage of
    the previous job and the source stages of the next, all of them in the
    store, the sources distinct and none of them the sink: the loop
    returns; afterwards the sink has the sources appended to its children,
    in their order; every source has the sink appended to its parents; no
    other attribute of these stages and no other stage, job, task or
    executor is changed. *)
Theorem link_sources_links_both_ways (sources : list nat) (sink : nat) (w : World)
    (sink_st : Stage) :
  NoDup sources ->
  sink ∉ sources ->
  w_stages w !! sink = Some sink_st ->
  (forall src, src ∈ sources -> is_Some (w_stages w !! src)) ->
  exists w',
    Merge.link_sources sources [sink] w = Ok w' /\
    w_stages w' !! sink
    = Some (stage_with_children sink_st (s_child_stages sink_st ++ sources)) /\
    (forall src src_st, src ∈ sources -> w_stages w !! src = Some src_st ->
       w_stages w' !! src
       = Some (stage_with_parents src_st (s_parent_stages src_st ++ [sink]))) /\
    (forall s, s <> sink -> s ∉ sources -> w_stages w' !! s = w_stages w !! s) /\
    w_jobs w' = w_jobs w /\ w_tasks w' = w_tasks w /\ w_executors w' = w_executors w.
Proof.
  revert w sink_st. induction sources as [|src sources IH];
    intros w sink_st Hnd Hsink Hst Hin.
  - exists w. split; [reflexivity|]. rewrite app_nil_r. split.
    { rewrite Hst. f_equal. destruct sink_st; reflexivity. }
    split; [intros src src_st Hsrc; apply elem_of_nil in Hsrc; contradiction|].
    repeat split.
  - apply NoDup_cons in Hnd as [Hsrc Hnd].
    apply not_elem_of_cons in Hsink as [Hne Hsink].
    destruct (Hin src) as [src_st Hsrc_st]; [left|].
    set (sink1 := stage_with_children sink_st (s_child_stages sink_st ++ [src])).
    set (w1 := put_stage src (stage_with_parents src_st (s_parent_stages src_st ++ [sink]))
                 (put_stage sink sink1 w)).
    assert (Hlen : sink < length (w_stages w)) by (eapply lookup_lt_Some; eauto).
    assert (Hlen' : src < length (w_stages w)) by (eapply lookup_lt_Some; eauto).
    assert (Hsink1 : w_stages w1 !! sink = Some sink1).
    { simpl. rewrite list_lookup_insert_ne by congruence.
      apply list_lookup_insert_eq. exact Hlen. }
    destruct (IH w1 sink1 Hnd Hsink Hsink1) as (w' & Hr & Hs & Hsrcs & Hothers & Hj & Ht & He).
    { intros s Hs. simpl. apply lookup_lt_is_Some. rewrite !length_insert.
      apply lookup_lt_is_Some. apply Hin. right. exact Hs. }
    exists w'.
    change (Merge.link_sources (src :: sources) [sink] w)
      with (let* w0 := Merge.link_source src [sink] w in
            Merge.link_sources sources [sink] w0).
    rewrite (link_source_one src sink w src_st sink_st) by (assumption || congruence).
    fold sink1. fold w1. simpl. split; [exact Hr|]. split.
    { rewrite Hs. unfold sink1. simpl. rewrite <- app_assoc. reflexivity. }
    split.
    { intros s s_st Hs' Hs_st. apply elem_of_cons in Hs' as [->|Hs'].
      - rewrite Hothers by (congruence || assumption). simpl.
        rewrite list_lookup_insert_eq by (rewrite length_insert; exact Hlen').
        congruence.
      - apply Hsrcs; [exact Hs'|]. simpl.
        rewrite list_lookup_insert_ne by (intros ->; contradiction).
        rewrite list_lookup_insert_ne by (intros ->; contradiction). exact Hs_st. }
    split.
    { intros s Hs1 Hs2. apply not_elem_of_cons in Hs2 as [Hs2 Hs3].
      rewrite Hothers by assumption. simpl.
      rewrite !list_lookup_insert_ne by congruence. reflexivity. }
    split; [rewrite Hj; reflexivity|]. split; [rewrite Ht | rewrite He]; reflexivity.
Qed.

Lemma link_sources_links_both_ways_witness :
  exists w',
    Merge.link_sources [1] [0] Example.parent_done = Ok w' /\
    w_stages w' !! 0
    = Some (stage_with_children (Example.stage_of 0 [0; 1] [] [1] true) [1; 1]) /\
    w_stages w' !! 1
    = Some (stage_with_parents (Example.stage_of 1 [2] [0] [] false) [0; 0]).
Proof.
  destruct (link_sources_links_both_ways [1] 0 Example.parent_done
              (Example.stage_of 0 [0; 1] [] [1] true))
    as (w' & H1 & H2 & H3 & _).
  - apply NoDup_singleton.
  - intros Hin. apply list_elem_of_singleton in Hin. discriminate.
  - reflexivity.
  - intros src Hsrc. apply list_elem_of_singleton in Hsrc as ->. eexists. reflexivity.
  - exists w'. split; [exact H1|]. split; [exact H2|].
    apply (H3 1); [left | reflexivity].
Defined.

(** ** The duration drawn by Stage.schedule *)

Lemma bucket_draw_member (b : list Q) (g : RandomState) :
  b <> [] ->
  exists d g',
    bucket_draw b g = Ok (d, g') /\ d ∈ b /\
    rs_words g' = rs_words g /\ rs_pos g' = S (rs_pos g).
Proof.
  intros Hb. unfold bucket_draw, randint.
  assert (Hlen : (0 < Z.of_nat (length b))%Z) by (destruct b; [contradiction | simpl; lia]).
  destruct (Z.ltb_spec 0 (Z.of_nat (length b))) as [_|?]; [|lia]. simpl.
  pose proof (Z.mod_pos_bound (rs_words g (rs_pos g)) (Z.of_nat (length b) - 0)) as Hmod.
  assert (Hi : Z.to_nat (0 + rs_words g (rs_pos g) mod (Z.of_nat (length b) - 0))
               < length b) by lia.
  destruct (lookup_lt_is_Some_2 b _ Hi) as [d Hd]. rewrite Hd.
  exists d. eexists. split; [reflexivity|]. split; [|split; reflexivity].
  eapply list_elem_of_lookup_2. exact Hd.
Qed.

(** X25.  The duration Stage.schedule draws, for a key present in the three
    tables.  If the fresh_durations and first_wave buckets of the key are
    both empty, and the rest_wave bucket is not used (the executor is
    fresh, or on another stage, or that bucket is empty too), the draw
    raises ValueError.  In every other case it returns: the duration is a
    member of the bucket the case selects (fresh: fresh_durations, else a
    member of first_wave plus warmup_delay; same stage with a non-empty
    rest_wave: rest_wave; otherwise first_wave, else fresh_durations), no
    index is ever out of range, and the generator advances by one draw. *)
Theorem sample_duration_from_tables (args : Args) (td : TaskDuration) (key : Z)
    (fresh same_stage : bool) (g : RandomState) (fd fw rw : list Q) :
  Dict.get key (fresh_durations td) = Some fd ->
  Dict.get key (first_wave td) = Some fw ->
  Dict.get key (rest_wave td) = Some rw ->
  (fd = [] -> fw = [] -> fresh = true \/ same_stage = false \/ rw = [] ->
   sample_duration args td key fresh same_stage g = Raise ValueError) /\
  (fd <> [] \/ fw <> [] \/ (fresh = false /\ same_stage = true /\ rw <> []) ->
   exists d g',
     sample_duration args td key fresh same_stage g = Ok (d, g') /\
     rs_pos g' = S (rs_pos g) /\ rs_words g' = rs_words g /\
     (if fresh then
        if 0 <? length fd then d ∈ fd
        else exists d0, d0 ∈ fw /\ d = (d0 + warmup_delay args)%Q
      else if same_stage && (0 <? length rw) then d ∈ rw
      else if 0 <? length fw then d ∈ fw
      else d ∈ fd)).
Proof.
  intros Hfd Hfw Hrw. unfold sample_duration. rewrite Hfd, Hfw, Hrw. simpl. split.
  - intros -> -> Hcase. simpl. destruct fresh; [reflexivity|].
    destruct same_stage; simpl; [|reflexivity].
    destruct Hcase as [?|[?| ->]]; try discriminate. reflexivity.
  - intros Hsome. destruct fresh.
    + destruct fd as [|x fd].
      * simpl. destruct (bucket_draw_member fw g) as (d & g' & Hd & Hin & Hw & Hp).
        { destruct Hsome as [?|[?|(? & _)]]; [contradiction | assumption | discriminate]. }
        rewrite Hd. simpl. exists (d + warmup_delay args)%Q, g'.
        split; [reflexivity|]. split; [exact Hp|]. split; [exact Hw|]. eauto.
      * destruct (bucket_draw_member (x :: fd) g) as (d & g' & Hd & Hin & Hw & Hp);
          [discriminate|].
        change (0 <? length (x :: fd)) with true. cbn iota.
        exists d, g'. auto.
    + destruct same_stage; simpl.
      * destruct rw as [|y rw].
        -- simpl. destruct fw as [|x fw].
           ++ simpl. destruct (bucket_draw_member fd g) as (d & g' & Hd & Hin & Hw & Hp).
              { destruct Hsome as [?|[?|(_ & _ & ?)]]; [assumption | contradiction | contradiction]. }
              exists d, g'. auto.
           ++ destruct (bucket_draw_member (x :: fw) g) as (d & g' & Hd & Hin & Hw & Hp);
                [discriminate|].
              change (0 <? length (x :: fw)) with true. cbn iota.
              exists d, g'. auto.
        -- destruct (bucket_draw_member (y :: rw) g) as (d & g' & Hd & Hin & Hw & Hp);
             [discriminate|].
           change (0 <? length (y :: rw)) with true. cbn iota. simpl bind.
           exists d, g'. auto.
      * destruct fw as [|x fw].
        -- simpl. destruct (bucket_draw_member fd g) as (d & g' & Hd & Hin & Hw & Hp).
           { destruct Hsome as [?|[?|(_ & ? & _)]]; [assumption | contradiction | discriminate]. }
           exists d, g'. auto.
        -- destruct (bucket_draw_member (x :: fw) g) as (d & g' & Hd & Hin & Hw & Hp);
             [discriminate|].
           change (0 <? length (x :: fw)) with true. cbn iota.
           exists d, g'. auto.
Qed.

Lemma sample_duration_from_tables_witness :
  sample_duration Example.args
    {| first_wave := [(5%Z, [])]; rest_wave := [(5%Z, [])]; fresh_durations := [(5%Z, [])] |}
    5 true false (Example.constant_words 0) = Raise ValueError /\
  exists d g',
    sample_duration Example.args Example.durations 5 true false (Example.constant_words 0)
      = Ok (d, g') /\
    rs_pos g' = 1.
Proof.
  split.
  - apply (sample_duration_from_tables Example.args
             {| first_wave := [(5%Z, [])]; rest_wave := [(5%Z, [])];
                fresh_durations := [(5%Z, [])] |}
             5 true false (Example.constant_words 0) [] [] []); auto.
  - edestruct (sample_duration_from_tables Example.args Example.durations 5 true false
                 (Example.constant_words 0)) as [_ H].
    + reflexivity.
    + reflexivity.
    + reflexivity.
    + destruct H as (d & g' & H1 & H2 & _); [left; discriminate|].
      exists d, g'. split; [exact H1 | exact H2].
Defined.

(** ** generate_one_tpch_job: the cleaned first wave *)

Lemma occ_cons (v d : pyobj) (l : list pyobj) :
  occ v (d :: l) = ((if decide (d = v) then 1 else 0) + occ v l)%Z.
Proof.
  unfold occ. destruct (decide (d = v)) as [->|Hne].
  - rewrite filter_cons_True by reflexivity. simpl length. lia.
  - rewrite filter_cons_False by exact Hne. lia.
Qed.

Lemma occ_nonneg (v : pyobj) (l : list pyobj) : (0 <= occ v l)%Z.
Proof. unfold occ. lia. Qed.

Lemma warmup_bag_counts (fresh : list pyobj) (s : list (pyobj * Z)) :
  NoDup (Dict.keys s) ->
  (forall x n, Dict.get x s = Some n -> (1 <= n)%Z) ->
  NoDup (Dict.keys (fold_left (fun s d => RepeatableSet.add d s) fresh s)) /\
  (forall x n, Dict.get x (fold_left (fun s d => RepeatableSet.add d s) fresh s) = Some n ->
               (1 <= n)%Z) /\
  (forall v, occurrences v (fold_left (fun s d => RepeatableSet.add d s) fresh s)
             = (occurrences v s + occ v fresh)%Z).
Proof.
  revert s. induction fresh as [|d fresh IH]; intros s Hnd Hpos; simpl.
  - split; [exact Hnd|]. split; [exact Hpos|]. intros v. unfold occ. simpl. lia.
  - destruct (bag_add_keeps d s Hnd Hpos) as (Hnd1 & Hpos1 & Hocc1).
    destruct (IH _ Hnd1 Hpos1) as (Hnd2 & Hpos2 & Hocc2).
    split; [exact Hnd2|]. split; [exact Hpos2|].
    intros v. rewrite Hocc2, Hocc1, occ_cons.
    destruct (decide (v = d)) as [->|Hne].
    + destruct (decide (d = d)); [lia | contradiction].
    + destruct (decide (d = v)); [congruence | lia].
Qed.

Lemma clean_loop_spec (first : list pyobj) (s : list (pyobj * Z)) (clean : list pyobj) :
  NoDup (Dict.keys s) ->
  (forall x n, Dict.get x s = Some n -> (1 <= n)%Z) ->
  exists kept,
    clean_loop first s clean = Ok (clean ++ kept) /\
    sublist kept first /\
    forall v, occ v kept = Z.max 0 (occ v first - occurrences v s).
Proof.
  revert s clean. induction first as [|d rest IH]; intros s clean Hnd Hpos.
  - exists []. rewrite app_nil_r. split; [reflexivity|]. split; [constructor|].
    intros v. unfold occ, occurrences. simpl.
    destruct (Dict.get v s) as [n|] eqn:Hg; [pose proof (Hpos v n Hg)|]; lia.
  - simpl. unfold RepeatableSet.contains, Dict.mem.
    destruct (Dict.get d s) as [n|] eqn:Hd; simpl.
    + (* the duration cancels one warm-up duration *)
      destruct (RepeatableSet.remove d s) as [s1|err] eqn:Hrem.
      2:{ unfold RepeatableSet.remove in Hrem. rewrite Hd in Hrem.
          destruct (n - 1 =? 0)%Z; discriminate. }
      destruct (bag_remove_keeps d s s1 Hnd Hpos Hrem) as (Hnd1 & Hpos1 & Hocc1).
      destruct (IH s1 clean Hnd1 Hpos1) as (kept & Hr & Hsub & Hocc).
      exists kept. simpl. split; [exact Hr|]. split; [constructor; exact Hsub|].
      intros v. rewrite Hocc, Hocc1, occ_cons.
      destruct (decide (v = d)) as [->|Hne].
      * destruct (decide (d = d)); [|contradiction]. f_equal. lia.
      * destruct (decide (d = v)); [congruence|]. f_equal. lia.
    + (* the duration stays *)
      destruct (IH s (clean ++ [d]) Hnd Hpos) as (kept & Hr & Hsub & Hocc).
      exists (d :: kept). rewrite Hr, <- app_assoc. split; [reflexivity|].
      split; [constructor; exact Hsub|].
      intros v. rewrite !occ_cons, Hocc.
      pose proof (occ_nonneg v rest).
      destruct (decide (d = v)) as [->|Hne]; [|lia].
      unfold occurrences. rewrite Hd. lia.
Qed.

(** X26.  The first-wave cleaning of generate_one_tpch_job, for one executor
    count.  The loop always returns (RepeatableSet.remove is only called
    on a present item, so it never exits); the cleaned list is the first
    wave with, for every value, as many occurrences dropped as
    fresh_durations holds of it (all of them if it holds more), the
    order of the remaining durations kept. *)
Theorem clean_first_wave_is_difference (fresh first : list pyobj) :
  exists clean,
    clean_first_wave fresh first = Ok clean /\
    sublist clean first /\
    forall v, occ v clean = Z.max 0 (occ v first - occ v fresh).
Proof.
  destruct (warmup_bag_counts fresh RepeatableSet.init) as (Hnd & Hpos & Hocc).
  { apply NoDup_nil_2. }
  { intros x n [=]. }
  destruct (clean_loop_spec first (warmup_bag fresh) [] Hnd Hpos) as (kept & Hr & Hsub & Hk).
  exists kept. split; [exact Hr|]. split; [exact Hsub|].
  intros v. rewrite Hk. unfold warmup_bag. rewrite Hocc. reflexivity.
Qed.

(** ** generate_one_tpch_job: the links mirror the adjacency matrix *)

Lemma grown_nothing (st : Stage) : grown st [] [] = st.
Proof. unfold grown. rewrite !app_nil_r. destruct st; reflexivity. Qed.

Lemma grown_grown (st : Stage) (a b c d : list nat) :
  grown (grown st a b) c d = grown st (a ++ c) (b ++ d).
Proof. unfold grown. simpl. rewrite !app_assoc. reflexivity. Qed.

Lemma link_row_pairs (stages : list nat) (adj : list (list Z)) (p : nat) (cs : list nat)
    (w : World) :
  link_row stages adj p cs w = link_pairs stages adj (map (pair p) cs) w.
Proof.
  revert w. induction cs as [|c cs IH]; intros w; [reflexivity|].
  simpl. destruct (mat_at adj p c) as [v|]; [|reflexivity]. simpl.
  destruct (v =? 1)%Z; [|apply IH].
  destruct (stages !! p); [|reflexivity]. simpl.
  destruct (stages !! c); [|reflexivity]. simpl.
  destruct (link n n0 w); [|reflexivity]. simpl. apply IH.
Qed.

Lemma link_pairs_app (stages : list nat) (adj : list (list Z)) (a b : list (nat * nat))
    (w : World) :
  link_pairs stages adj (a ++ b) w
  = let* w1 := link_pairs stages adj a w in link_pairs stages adj b w1.
Proof.
  revert w. induction a as [|[p c] a IH]; intros w; [reflexivity|].
  simpl. destruct (mat_at adj p c) as [v|]; [|reflexivity]. simpl.
  destruct (v =? 1)%Z; [|apply IH].
  destruct (stages !! p); [|reflexivity]. simpl.
  destruct (stages !! c); [|reflexivity]. simpl.
  destruct (link n n0 w); [|reflexivity]. simpl. apply IH.
Qed.

Lemma link_rows_pairs (stages : list nat) (adj : list (list Z)) (ps : list nat) (n : nat)
    (w : World) :
  link_rows stages adj ps n w
  = link_pairs stages adj (flat_map (fun p => map (pair p) (seq 0 n)) ps) w.
Proof.
  revert w. induction ps as [|p ps IH]; intros w; [reflexivity|].
  simpl. rewrite link_pairs_app, link_row_pairs.
  destruct (link_pairs stages adj (map (pair p) (seq 0 n)) w); [|reflexivity].
  simpl. apply IH.
Qed.

Lemma link_store (parent child : nat) (w : World) :
  parent < length (w_stages w) -> child < length (w_stages w) ->
  exists w',
    link parent child w = Ok w' /\
    w_jobs w' = w_jobs w /\ w_tasks w' = w_tasks w /\ w_executors w' = w_executors w /\
    length (w_stages w') = length (w_stages w) /\
    forall s st, w_stages w !! s = Some st ->
      w_stages w' !! s
      = Some (grown st (if decide (s = parent) then [child] else [])
                       (if decide (s = child) then [parent] else [])).
Proof.
  intros Hp Hc.
  destruct (lookup_lt_is_Some_2 _ _ Hp) as [pst Hpst].
  set (w1 := put_stage parent (stage_with_children pst (s_child_stages pst ++ [child])) w).
  assert (Hc1 : child < length (w_stages w1)) by (simpl; rewrite length_insert; exact Hc).
  destruct (lookup_lt_is_Some_2 _ _ Hc1) as [cst Hcst].
  simpl in Hcst.
  eexists. unfold link, get_stage. rewrite Hpst. simpl. rewrite Hcst. simpl.
  split; [reflexivity|]. simpl. repeat split.
  - rewrite !length_insert. reflexivity.
  - intros s st Hst. destruct (decide (s = child)) as [->|Hsc].
    + rewrite list_lookup_insert_eq by (rewrite length_insert; exact Hc).
      f_equal. destruct (decide (child = parent)) as [->|Hcp].
      * rewrite list_lookup_insert_eq in Hcst by exact Hp. injection Hcst as <-.
        assert (st = pst) as -> by congruence. reflexivity.
      * rewrite list_lookup_insert_ne in Hcst by congruence.
        assert (st = cst) as -> by congruence.
        unfold grown. rewrite app_nil_r. destruct cst; reflexivity.
    + rewrite list_lookup_insert_ne by congruence.
      destruct (decide (s = parent)) as [->|Hsp].
      * rewrite list_lookup_insert_eq by exact Hp. assert (st = pst) as -> by congruence.
        f_equal. unfold grown. rewrite app_nil_r. destruct pst; reflexivity.
      * rewrite list_lookup_insert_ne by congruence. rewrite Hst, grown_nothing. reflexivity.
Qed.

(* the loop over a list of index pairs *)
Lemma link_pairs_spec (stages : list nat) (adj : list (list Z)) (pairs : list (nat * nat))
    (w : World) :
  (forall p c, (p, c) ∈ pairs ->
     is_Some (adj !! p ≫= (.!! c)) /\
     (exists sp, stages !! p = Some sp /\ sp < length (w_stages w)) /\
     (exists sc, stages !! c = Some sc /\ sc < length (w_stages w))) ->
  exists w',
    link_pairs stages adj pairs w = Ok w' /\
    w_jobs w' = w_jobs w /\ w_tasks w' = w_tasks w /\ w_executors w' = w_executors w /\
    forall s st, w_stages w !! s = Some st ->
      exists children parents,
        w_stages w' !! s = Some (grown st children parents) /\
        (forall x, x ∈ children <->
           exists p c, (p, c) ∈ pairs /\ mat_get adj p c = 1%Z /\
                       stages !! p = Some s /\ stages !! c = Some x) /\
        (forall x, x ∈ parents <->
           exists p c, (p, c) ∈ pairs /\ mat_get adj p c = 1%Z /\
                       stages !! c = Some s /\ stages !! p = Some x).
Proof.
  revert w. induction pairs as [|[p c] pairs IH]; intros w Hin.
  - exists w. split; [reflexivity|]. repeat split.
    intros s st Hst. exists [], []. rewrite grown_nothing. split; [exact Hst|].
    split; intros x; (split; [intros Hx; apply elem_of_nil in Hx; contradiction|]);
      intros (p & c & Hpc & _); apply elem_of_nil in Hpc; contradiction.
  - destruct (Hin p c) as ([v Hv] & (sp & Hsp & Hspl) & (sc & Hsc & Hscl)); [left|].
    assert (Hat : mat_at adj p c = Ok v /\ mat_get adj p c = v).
    { unfold mat_at, mat_get. destruct (adj !! p) as [row|]; [|discriminate].
      simpl in Hv. rewrite Hv. auto. }
    destruct Hat as [Hat Hget]. simpl. rewrite Hat. simpl. rewrite Hsp, Hsc. simpl.
    destruct (Z.eqb_spec v 1) as [Hone|Hnot].
    + destruct (link_store sp sc w Hspl Hscl) as (w1 & Hl & Hj1 & Ht1 & He1 & Hlen1 & Hs1).
      rewrite Hl. simpl.
      destruct (IH w1) as (w' & Hr & Hj & Ht & He & Hs).
      { intros p0 c0 Hpc. rewrite Hlen1. apply Hin. right. exact Hpc. }
      exists w'. split; [exact Hr|]. split; [congruence|]. split; [congruence|].
      split; [congruence|].
      intros s st Hst. destruct (Hs s _ (Hs1 s st Hst)) as (cs & ps & Hlook & Hcs & Hps).
      eexists _, _. rewrite grown_grown in Hlook. split; [exact Hlook|]. split.
      * intros x. rewrite elem_of_app, Hcs. split.
        -- intros [Hx|(p0 & c0 & Hpc & Hrest)].
           ++ destruct (decide (s = sp)) as [->|]; [|apply elem_of_nil in Hx; contradiction].
              apply list_elem_of_singleton in Hx as ->.
              exists p, c. split; [left|]. split; [congruence | auto].
           ++ exists p0, c0. split; [right; exact Hpc | exact Hrest].
        -- intros (p0 & c0 & Hpc & Hm & Hp0 & Hc0).
           apply elem_of_cons in Hpc as [[= -> ->]|Hpc].
           ++ left. assert (s = sp) as -> by congruence. assert (x = sc) as -> by congruence.
              destruct (decide (sp = sp)); [left | contradiction].
           ++ right. exists p0, c0. auto.
      * intros x. rewrite elem_of_app, Hps. split.
        -- intros [Hx|(p0 & c0 & Hpc & Hrest)].
           ++ destruct (decide (s = sc)) as [->|]; [|apply elem_of_nil in Hx; contradiction].
              apply list_elem_of_singleton in Hx as ->.
              exists p, c. split; [left|]. split; [congruence | auto].
           ++ exists p0, c0. split; [right; exact Hpc | exact Hrest].
        -- intros (p0 & c0 & Hpc & Hm & Hc0 & Hp0).
           apply elem_of_cons in Hpc as [[= -> ->]|Hpc].
           ++ left. assert (s = sc) as -> by congruence. assert (x = sp) as -> by congruence.
              destruct (decide (sc = sc)); [left | contradiction].
           ++ right. exists p0, c0. auto.
    + destruct (IH w) as (w' & Hr & Hj & Ht & He & Hs).
      { intros p0 c0 Hpc. apply Hin. right. exact Hpc. }
      exists w'. split; [exact Hr|]. split; [exact Hj|]. split; [exact Ht|].
      split; [exact He|].
      intros s st Hst. destruct (Hs s st Hst) as (cs & ps & Hlook & Hcs & Hps).
      exists cs, ps. split; [exact Hlook|]. split.
      * intros x. rewrite Hcs. split.
        -- intros (p0 & c0 & Hpc & Hrest). exists p0, c0. split; [right; exact Hpc | exact Hrest].
        -- intros (p0 & c0 & Hpc & Hm & Hrest).
           apply elem_of_cons in Hpc as [[= -> ->]|Hpc]; [congruence|].
           exists p0, c0. auto.
      * intros x. rewrite Hps. split.
        -- intros (p0 & c0 & Hpc & Hrest). exists p0, c0. split; [right; exact Hpc | exact Hrest].
        -- intros (p0 & c0 & Hpc & Hm & Hrest).
           apply elem_of_cons in Hpc as [[= -> ->]|Hpc]; [congruence|].
           exists p0, c0. auto.
Qed.

Lemma elem_of_all_pairs (n p c : nat) :
  (p, c) ∈ flat_map (fun p => map (pair p) (seq 0 n)) (seq 0 n) <-> p < n /\ c < n.
Proof.
  rewrite list_elem_of_In, in_flat_map. split.
  - intros (p0 & Hp0 & Hin). apply in_map_iff in Hin as (c0 & [= -> ->] & Hc0).
    apply in_seq in Hp0, Hc0. lia.
  - intros [Hp Hc]. exists p. split; [apply in_seq; lia|].
    apply in_map_iff. exists c. split; [reflexivity | apply in_seq; lia].
Qed.

(* the loop touches the stage objects only, and replaces none *)
Lemma link_frame (parent child : nat) (w w' : World) :
  link parent child w = Ok w' ->
  length (w_stages w') = length (w_stages w) /\ w_time w' = w_time w /\
  w_np_random w' = w_np_random w /\ w_global_random w' = w_global_random w.
Proof.
  unfold link, get_stage. intros H. inv_bind H. inv_bind H. injection H as <-.
  simpl. rewrite !length_insert. auto.
Qed.

Lemma link_pairs_frame (stages : list nat) (adj : list (list Z)) (pairs : list (nat * nat))
    (w w' : World) :
  link_pairs stages adj pairs w = Ok w' ->
  length (w_stages w') = length (w_stages w) /\ w_time w' = w_time w /\
  w_np_random w' = w_np_random w /\ w_global_random w' = w_global_random w.
Proof.
  revert w. induction pairs as [|[p c] pairs IH]; intros w H; simpl in H.
  - injection H as <-. auto.
  - inv_bind H. destruct (a =? 1)%Z; [|apply IH, H].
    inv_bind H. inv_bind H. inv_bind H.
    match goal with
    | L : link _ _ _ = Ok _ |- _ => apply link_frame in L as (Hl & Ht & Hn & Hg)
    end.
    apply IH in H as (Hl' & Ht' & Hn' & Hg'). repeat split; congruence.
Qed.

(** X27.  The parent/child set-up of generate_one_tpch_job, for a square
    matrix with one row per stage and distinct stages of the store.  The
    double loop returns and only appends to child_stages and parent_stages:
    every stage of the store is afterwards the stage it was with some
    children and some parents appended and no other attribute changed, the
    appended children of the stage at position p being the stages at the
    positions c with adj_mat[p, c] = 1 and the appended parents of the
    stage at position c the stages at the positions p with
    adj_mat[p, c] = 1; a stage that is not in the list is as before.  So
    for the stages at positions p and c, stage c is among the children of
    stage p exactly when it was before or adj_mat[p, c] is 1, and stage p
    is among the parents of stage c under the same condition: on stages
    that start without links, child_stages and parent_stages mirror the
    matrix and each other.  Jobs, tasks, executors, the clock and the
    generators are untouched, and no stage is added to the store. *)
Theorem link_stages_mirrors_matrix (stages : list nat) (adj_mat : list (list Z))
    (w : World) :
  length stages = length adj_mat ->
  Forall (fun row => length row = length adj_mat) adj_mat ->
  NoDup stages ->
  (forall s, s ∈ stages -> s < length (w_stages w)) ->
  exists w',
    link_stages stages adj_mat w = Ok w' /\
    w_jobs w' = w_jobs w /\ w_tasks w' = w_tasks w /\ w_executors w' = w_executors w /\
    w_time w' = w_time w /\ w_np_random w' = w_np_random w /\
    w_global_random w' = w_global_random w /\
    length (w_stages w') = length (w_stages w) /\
    (forall s st, w_stages w !! s = Some st ->
       exists children parents,
         w_stages w' !! s = Some (grown st children parents) /\
         (forall x, x ∈ children <->
            exists p c, stages !! p = Some s /\ stages !! c = Some x /\
                        mat_get adj_mat p c = 1%Z) /\
         (forall x, x ∈ parents <->
            exists p c, stages !! c = Some s /\ stages !! p = Some x /\
                        mat_get adj_mat p c = 1%Z)) /\
    (forall s st, s ∉ stages -> w_stages w !! s = Some st -> w_stages w' !! s = Some st) /\
    forall p c sp sc pst cst,
      stages !! p = Some sp -> stages !! c = Some sc ->
      w_stages w !! sp = Some pst -> w_stages w !! sc = Some cst ->
      exists pst' cst',
        w_stages w' !! sp = Some pst' /\ w_stages w' !! sc = Some cst' /\
        (sc ∈ s_child_stages pst' <->
         sc ∈ s_child_stages pst \/ mat_get adj_mat p c = 1%Z) /\
        (sp ∈ s_parent_stages cst' <->
         sp ∈ s_parent_stages cst \/ mat_get adj_mat p c = 1%Z).
Proof.
  intros Hlen Hsq Hnd Hin. set (n := length adj_mat) in *.
  destruct (link_pairs_spec stages adj_mat
              (flat_map (fun p => map (pair p) (seq 0 n)) (seq 0 n)) w)
    as (w' & Hr & Hj & Ht & He & Hs).
  { intros p c Hpc. apply elem_of_all_pairs in Hpc as [Hp Hc]. split; [|split].
    - destruct (lookup_lt_is_Some_2 adj_mat p Hp) as [row Hrow]. rewrite Hrow. simpl.
      apply lookup_lt_is_Some. rewrite Forall_forall in Hsq.
      rewrite (Hsq row) by (eapply list_elem_of_lookup_2; eauto). exact Hc.
    - destruct (lookup_lt_is_Some_2 stages p) as [sp Hsp]; [lia|].
      exists sp. split; [exact Hsp|]. apply Hin. eapply list_elem_of_lookup_2; eauto.
    - destruct (lookup_lt_is_Some_2 stages c) as [sc Hsc]; [lia|].
      exists sc. split; [exact Hsc|]. apply Hin. eapply list_elem_of_lookup_2; eauto. }
  destruct (link_pairs_frame _ _ _ _ _ Hr) as (Hsize & Hclock & Hnp & Hglobal).
  assert (Hpos : forall p c s x, stages !! p = Some s -> stages !! c = Some x ->
            (p, c) ∈ flat_map (fun p => map (pair p) (seq 0 n)) (seq 0 n)).
  { intros p c s x Hp Hc. apply elem_of_all_pairs.
    split; rewrite <- Hlen; eapply lookup_lt_Some; eauto. }
  assert (Hgrown : forall s st, w_stages w !! s = Some st ->
       exists children parents,
         w_stages w' !! s = Some (grown st children parents) /\
         (forall x, x ∈ children <->
            exists p c, stages !! p = Some s /\ stages !! c = Some x /\
                        mat_get adj_mat p c = 1%Z) /\
         (forall x, x ∈ parents <->
            exists p c, stages !! c = Some s /\ stages !! p = Some x /\
                        mat_get adj_mat p c = 1%Z)).
  { intros s st Hst. destruct (Hs s st Hst) as (cs & ps & Hlook & Hcs & Hps).
    exists cs, ps. split; [exact Hlook|]. split.
    - intros x. rewrite Hcs. split.
      + intros (p & c & _ & Hm & Hp & Hc). exists p, c. auto.
      + intros (p & c & Hp & Hc & Hm). exists p, c. split; [eapply Hpos; eauto | auto].
    - intros x. rewrite Hps. split.
      + intros (p & c & _ & Hm & Hc & Hp). exists p, c. auto.
      + intros (p & c & Hc & Hp & Hm). exists p, c. split; [eapply Hpos; eauto | auto]. }
  exists w'. unfold link_stages, Job.shape0. fold n. rewrite link_rows_pairs.
  split; [exact Hr|]. split; [exact Hj|]. split; [exact Ht|]. split; [exact He|].
  split; [exact Hclock|]. split; [exact Hnp|]. split; [exact Hglobal|].
  split; [exact Hsize|]. split; [exact Hgrown|]. split.
  { intros s st Hout Hst. destruct (Hgrown s st Hst) as (cs & ps & Hlook & Hcs & Hps).
    assert (cs = []) as ->.
    { destruct cs as [|x cs]; [reflexivity|]. exfalso.
      destruct (proj1 (Hcs x)) as (p & c & Hp & _); [left|].
      apply Hout. eapply list_elem_of_lookup_2; eauto. }
    assert (ps = []) as ->.
    { destruct ps as [|x ps]; [reflexivity|]. exfalso.
      destruct (proj1 (Hps x)) as (p & c & Hc & _); [left|].
      apply Hout. eapply list_elem_of_lookup_2; eauto. }
    rewrite Hlook, grown_nothing. reflexivity. }
  intros p c sp sc pst cst Hsp Hsc Hpst Hcst.
  destruct (Hgrown sp pst Hpst) as (cs & ps & Hlook & Hcs & _).
  destruct (Hgrown sc cst Hcst) as (cs' & ps' & Hlook' & _ & Hps).
  eexists _, _. split; [exact Hlook|]. split; [exact Hlook'|]. simpl. split.
  - rewrite elem_of_app, Hcs. split.
    + intros [Hold|(p0 & c0 & Hp0 & Hc0 & Hm)]; [auto|]. right.
      assert (p0 = p) as -> by (eapply NoDup_lookup; eauto).
      assert (c0 = c) as -> by (eapply NoDup_lookup; eauto). exact Hm.
    + intros [Hold|Hm]; [auto|]. right. exists p, c. auto.
  - rewrite elem_of_app, Hps. split.
    + intros [Hold|(p0 & c0 & Hc0 & Hp0 & Hm)]; [auto|]. right.
      assert (p0 = p) as -> by (eapply NoDup_lookup; eauto).
      assert (c0 = c) as -> by (eapply NoDup_lookup; eauto). exact Hm.
    + intros [Hold|Hm]; [auto|]. right. exists p, c. auto.
Qed.

Lemma link_stages_mirrors_matrix_witness :
  exists w' children parents,
    link_stages [0; 1] [[0; 1]; [0; 0]]%Z Example.sink_first = Ok w' /\
    w_stages w' !! 0 = Some (grown (Example.lone_stage 0 0 [1] [] 0) children parents) /\
    1 ∈ children /\
    w_stages w' !! 2 = Some (Example.lone_stage 0 2 [] [] 1).
Proof.
  destruct (link_stages_mirrors_matrix [0; 1] [[0; 1]; [0; 0]]%Z Example.sink_first)
    as (w' & H1 & _ & _ & _ & _ & _ & _ & _ & Hgrown & Hout & _).
  - reflexivity.
  - repeat constructor.
  - apply (bool_decide_unpack _). vm_compute. exact I.
  - intros s Hs. apply elem_of_cons in Hs as [->|Hs];
      [|apply list_elem_of_singleton in Hs as ->]; vm_compute; lia.
  - destruct (Hgrown 0 (Example.lone_stage 0 0 [1] [] 0) eq_refl)
      as (children & parents & Hlook & Hcs & _).
    exists w', children, parents. split; [exact H1|]. split; [exact Hlook|]. split.
    + apply Hcs. exists 0, 1. repeat split.
    + apply Hout; [|reflexivity].
      intros Hin. apply elem_of_cons in Hin as [Hin|Hin]; [discriminate|].
      apply list_elem_of_singleton in Hin. discriminate.
Defined.

(** ** merge_jobs on a single job *)

Lemma stage_with_own_idx (st : Stage) : stage_with_idx st (s_idx st + 0) = st.
Proof. rewrite Nat.add_0_r. destruct st; reflexivity. Qed.

Lemma shift_stages_zero (job_stages stages : list nat) (w : World) :
  (forall s, s ∈ job_stages -> is_Some (w_stages w !! s)) ->
  Merge.shift_stages job_stages 0 stages w = Ok (stages ++ job_stages, w).
Proof.
  revert stages. induction job_stages as [|s rest IH]; intros stages Hin; simpl.
  - rewrite app_nil_r. reflexivity.
  - destruct (Hin s) as [st Hst]; [left|]. unfold get_stage. rewrite Hst. simpl.
    rewrite stage_with_own_idx.
    replace (put_stage s st w) with w.
    + rewrite IH by (intros s0 Hs0; apply Hin; right; exact Hs0).
      rewrite <- app_assoc. reflexivity.
    + unfold put_stage. rewrite (list_insert_id _ _ _ Hst). destruct w; reflexivity.
Qed.

Lemma stages_without_returns (field : Stage -> list nat) (job_stages : list nat) (w : World) :
  (forall s, s ∈ job_stages -> is_Some (w_stages w !! s)) ->
  exists found, Merge.stages_without field job_stages w = Ok found.
Proof.
  induction job_stages as [|s rest IH]; intros Hin; simpl; [eauto|].
  destruct (Hin s) as [st Hst]; [left|]. unfold get_stage. rewrite Hst. simpl.
  destruct IH as [more ->]; [intros s0 Hs0; apply Hin; right; exact Hs0|].
  simpl. eauto.
Qed.

Lemma link_sources_no_sink (sources : list nat) (w : World) :
  Merge.link_sources sources [] w = Ok w.
Proof. induction sources as [|s rest IH]; simpl; [reflexivity | exact IH]. Qed.

Lemma lookup_repeat {A : Type} (x : A) (n i : nat) :
  i < n -> repeat x n !! i = Some x.
Proof.
  revert i. induction n as [|n IH]; intros i Hi; [lia|].
  destruct i as [|i]; [reflexivity|]. simpl. apply IH. lia.
Qed.

(* a whole-matrix block assignment into a zero matrix of the same shape *)
Lemma set_block_whole (n : nat) (src : list (list Z)) :
  length src = n ->
  Forall (fun row => length row = n) src ->
  set_block 0 n src (zeros n n) = Ok src.
Proof.
  intros Hlen Hrows. unfold set_block.
  assert (H1 : (length src =? n) = true) by (apply Nat.eqb_eq, Hlen).
  assert (H2 : forallb (fun row => length row =? n) src = true).
  { apply forallb_forall. intros row Hrow. apply Nat.eqb_eq.
    rewrite Forall_forall in Hrows. apply Hrows, list_elem_of_In, Hrow. }
  assert (H3 : (0 + n <=? length (zeros n n)) = true).
  { apply Nat.leb_le. unfold zeros. rewrite repeat_length. lia. }
  assert (H4 : forallb (fun row => 0 + n <=? length row) (zeros n n) = true).
  { apply forallb_forall. intros row Hrow. apply Nat.leb_le.
    unfold zeros in Hrow. apply repeat_spec in Hrow. subst row. rewrite repeat_length. lia. }
  rewrite H1, H2, H3, H4. simpl. f_equal.
  apply list_eq. intros i. rewrite list_lookup_imap. unfold zeros.
  destruct (decide (i < n)) as [Hi|Hi].
  - rewrite (lookup_repeat _ _ _ Hi). simpl.
    destruct (Nat.ltb_spec i n) as [_|?]; [|lia].
    destruct (lookup_lt_is_Some_2 src i) as [row Hrow]; [lia|]. rewrite Hrow. f_equal.
    assert (Hrl : length row = n).
    { rewrite Forall_forall in Hrows. apply Hrows. eapply list_elem_of_lookup_2; eauto. }
    apply list_eq. intros j. rewrite list_lookup_imap.
    destruct (decide (j < n)) as [Hj|Hj].
    + rewrite (lookup_repeat _ _ _ Hj). simpl.
      destruct (Nat.ltb_spec j n) as [_|?]; [|lia].
      unfold mat_get. rewrite !Nat.sub_0_r, Hrow.
      destruct (lookup_lt_is_Some_2 row j) as [v Hv]; [lia|]. rewrite Hv. reflexivity.
    + rewrite lookup_ge_None_2 by (rewrite repeat_length; lia). simpl.
      symmetry. apply lookup_ge_None_2. lia.
  - rewrite lookup_ge_None_2 by (rewrite repeat_length; lia). simpl.
    symmetry. apply lookup_ge_None_2. lia.
Qed.

(** X28.  merge_jobs on a single job.  For a job of the store whose
    num_stages is the number of its stages, whose matrix is square with one
    row per stage, whose stages are in the store and exactly one of which
    has no child: merge_jobs([job]) passes its assertions, changes no
    stage index, adds no link and no matrix entry, and ends as
    Job(job.stages, job.adj_mat) would: a second Job object over the same
    stages and the same matrix. *)
Theorem merge_jobs_single_job (args : Args) (j : nat) (w : World) (jb : Job) (sink : nat) :
  w_jobs w !! j = Some jb ->
  j_num_stages jb = length (j_stages jb) ->
  length (j_adj_mat jb) = length (j_stages jb) ->
  Forall (fun row => length row = length (j_stages jb)) (j_adj_mat jb) ->
  (forall s, s ∈ j_stages jb -> is_Some (w_stages w !! s)) ->
  Merge.stages_without s_child_stages (j_stages jb) w = Ok [sink] ->
  Merge.merge_jobs args [j] w = Job.init args (j_stages jb) (j_adj_mat jb) w.
Proof.
  intros Hjb Hnum Hlen Hrows Hin Hsink.
  destruct (stages_without_returns s_parent_stages (j_stages jb) w Hin) as [sources Hsrc].
  set (n := length (j_stages jb)) in *.
  assert (Htotal : Merge.total_stages [j] w = Ok n).
  { simpl. unfold get_job. rewrite Hjb. simpl. rewrite Hnum, Nat.add_0_r. reflexivity. }
  assert (Hloop : Merge.merge_loop [j] 0 [] [] (zeros n n) w
                  = Ok (j_stages jb, j_adj_mat jb, w)).
  { cbn [Merge.merge_loop]. unfold get_job. rewrite Hjb. cbn [from_ref bind].
    rewrite (shift_stages_zero _ _ _ Hin). cbn [bind app]. rewrite Hnum.
    rewrite (set_block_whole _ _ Hlen Hrows). cbn [bind Nat.eqb negb].
    rewrite Hsrc. cbn [bind]. rewrite link_sources_no_sink. cbn [bind].
    rewrite Hsink. reflexivity. }
  unfold Merge.merge_jobs. rewrite Htotal. cbn [bind]. rewrite Hloop. cbn [bind].
  unfold Job.shape0. fold n. rewrite Hlen, Nat.eqb_refl. reflexivity.
Qed.

Lemma merge_jobs_single_job_witness :
  Merge.merge_jobs Example.args [1] Example.sink_first
  = Job.init Example.args [2] [[0]]%Z Example.sink_first.
Proof.
  apply (merge_jobs_single_job Example.args 1 Example.sink_first
           (Example.job_of [2] [[0]]%Z [] [PStage 2]) 2).
  - reflexivity.
  - reflexivity.
  - reflexivity.
  - repeat constructor.
  - intros s Hs. apply list_elem_of_singleton in Hs as ->. eexists. reflexivity.
  - reflexivity.
Defined.

(** ** utils.OrderedSet: positions *)

Section Positions.
Context {A : Type} `{EqDecision A}.

Lemma position_from (x : A) (s : list A) (k : nat) :
  position x s k = k + position x s 0.
Proof.
  revert k. induction s as [|a s IH]; intros k; simpl; [lia|].
  destruct (decide (x = a)); [lia|]. rewrite (IH (S k)), (IH 1). lia.
Qed.

Lemma position_lookup (x : A) (s : list A) :
  x ∈ s -> s !! position x s 0 = Some x.
Proof.
  induction s as [|a s IH]; intros Hin; [apply elem_of_nil in Hin; contradiction|].
  simpl. destruct (decide (x = a)) as [->|Hne]; [reflexivity|].
  apply elem_of_cons in Hin as [?|Hin]; [contradiction|].
  rewrite position_from. simpl. apply IH, Hin.
Qed.

Lemma position_app (x : A) (s t : list A) :
  x ∈ s -> position x (s ++ t) 0 = position x s 0.
Proof.
  induction s as [|a s IH]; intros Hin; [apply elem_of_nil in Hin; contradiction|].
  simpl. destruct (decide (x = a)) as [->|Hne]; [reflexivity|].
  apply elem_of_cons in Hin as [?|Hin]; [contradiction|].
  rewrite (position_from x (s ++ t) 1), (position_from x s 1), (IH Hin). reflexivity.
Qed.

Lemma position_del (x y : A) (s : list A) :
  x ∈ s -> y ∈ s -> y <> x ->
  position x (OrderedSet.del y s) 0
  = if position y s 0 <? position x s 0 then position x s 0 - 1 else position x s 0.
Proof.
  induction s as [|a s IH]; intros Hx Hy Hne; [apply elem_of_nil in Hx; contradiction|].
  simpl. destruct (decide (a = y)) as [->|Hay].
  - destruct (decide (y = y)); [|contradiction].
    destruct (decide (x = y)); [congruence|].
    rewrite (position_from x s 1). simpl. rewrite Nat.sub_0_r. reflexivity.
  - destruct (decide (y = a)); [congruence|]. simpl.
    destruct (decide (x = a)) as [->|Hxa].
    + rewrite (position_from y s 1). reflexivity.
    + apply elem_of_cons in Hx as [?|Hx]; [contradiction|].
      apply elem_of_cons in Hy as [?|Hy]; [congruence|].
      rewrite (position_from x _ 1), (position_from x s 1), (position_from y s 1).
      rewrite (IH Hx Hy Hne).
      destruct (Nat.ltb_spec (position y s 0) (position x s 0));
        destruct (Nat.ltb_spec (1 + position y s 0) (1 + position x s 0)); lia.
Qed.

End Positions.

(** X29.  Positions in an OrderedSet.  For a member of the set, index
    returns its position: the item is at that place.  Adding an item, new
    or not, moves no member.  Removing another member lowers the index by
    one if that member stood before the item and leaves it otherwise.  pop
    returns the member with index 0.  For an item that is not in the set,
    index exits. *)
Theorem ordered_set_positions (s : list pyobj) (x : pyobj) :
  (x ∉ s -> ordered_set_index x s = Raise SystemExit) /\
  (x ∈ s ->
   exists i,
     ordered_set_index x s = Ok i /\
     s !! i = Some x /\
     (forall y, ordered_set_index x (OrderedSet.add y s) = Ok i) /\
     (forall y k s', y <> x -> ordered_set_index y s = Ok k ->
        OrderedSet.remove y s = Ok s' ->
        ordered_set_index x s' = Ok (if k <? i then i - 1 else i)) /\
     (forall y s', OrderedSet.pop s = Ok (y, s') ->
        ordered_set_index y s = Ok 0 /\
        (y <> x -> ordered_set_index x s' = Ok (i - 1)))).
Proof.
  split.
  - intros Hn. unfold ordered_set_index. rewrite (proj2 (contains_false _ _) Hn). reflexivity.
  - intros Hin. exists (position x s 0). unfold ordered_set_index.
    rewrite (proj2 (contains_true _ _) Hin). simpl.
    split; [reflexivity|]. split; [apply position_lookup, Hin|]. split; [|split].
    + intros y. rewrite (proj2 (contains_true _ _)) by (apply elem_of_add; auto). simpl.
      f_equal. unfold OrderedSet.add.
      destruct (OrderedSet.contains y s); [reflexivity | apply position_app, Hin].
    + intros y k s' Hne Hk Hrem.
      destruct (OrderedSet.contains y s) eqn:Hy; [|discriminate]. simpl in Hk.
      injection Hk as <-. apply contains_true in Hy.
      rewrite (remove_present _ _ Hy) in Hrem. injection Hrem as <-.
      rewrite (proj2 (contains_true _ _)) by (apply elem_of_del_ne; auto). simpl.
      f_equal. apply position_del; assumption.
    + intros y s' Hpop. destruct s as [|a s]; [discriminate|]. simpl in Hpop.
      injection Hpop as <- <-. split.
      * rewrite (proj2 (contains_true _ _)) by left. simpl.
        destruct (decide (a = a)); [reflexivity | contradiction].
      * intros Hne. apply elem_of_cons in Hin as [?|Hin]; [congruence|].
        rewrite (proj2 (contains_true _ _) Hin). simpl.
        destruct (decide (x = a)); [congruence|].
        rewrite (position_from x s 1). f_equal. lia.
Qed.

Lemma ordered_set_positions_witness :
  exists i,
    ordered_set_index (PStage 1) [PStage 0; PStage 1; PStage 2] = Ok i /\
    [PStage 0; PStage 1; PStage 2] !! i = Some (PStage 1) /\
    ordered_set_index (PStage 1) (OrderedSet.add (PStage 3) [PStage 0; PStage 1; PStage 2])
      = Ok i.
Proof.
  destruct (ordered_set_positions [PStage 0; PStage 1; PStage 2] (PStage 1)) as [_ H].
  destruct H as (i & H1 & H2 & H3 & _); [right; left|].
  exists i. split; [exact H1|]. split; [exact H2 | apply H3].
Defined.

(** ** generate_one_tpch_job: the filled first waves *)

Lemma py_insert_spec (x : Z) (l : list Z) :
  StronglySorted Z.lt l -> x ∉ l ->
  StronglySorted Z.lt (py_insert x l) /\
  forall y, y ∈ py_insert x l <-> y = x \/ y ∈ l.
Proof.
  induction l as [|a l IH]; intros Hs Hx; simpl.
  - split; [repeat constructor|]. intros y. rewrite list_elem_of_singleton, elem_of_nil. tauto.
  - apply not_elem_of_cons in Hx as [Hne Hx].
    apply StronglySorted_inv in Hs as [Hs Hall].
    destruct (Z.leb_spec x a) as [Hle|Hgt].
    + split; [|intros y; rewrite !elem_of_cons; tauto].
      constructor; [constructor; assumption|].
      constructor; [lia|]. eapply Forall_impl; [exact Hall|]. simpl. intros; lia.
    + destruct (IH Hs Hx) as [Hs' Hmem]. split.
      * constructor; [exact Hs'|]. apply Forall_forall. intros y Hy.
        apply Hmem in Hy as [->|Hy]; [lia|]. rewrite Forall_forall in Hall. apply Hall, Hy.
      * intros y. rewrite !elem_of_cons, Hmem. tauto.
Qed.

Lemma py_sorted_spec (l : list Z) :
  NoDup l ->
  StronglySorted Z.lt (py_sorted l) /\ forall y, y ∈ py_sorted l <-> y ∈ l.
Proof.
  induction l as [|x l IH]; intros Hnd; simpl.
  - split; [constructor | tauto].
  - apply NoDup_cons in Hnd as [Hx Hnd]. destruct (IH Hnd) as [Hs Hmem].
    destruct (py_insert_spec x (py_sorted l) Hs) as [Hs' Hmem'].
    { rewrite Hmem. exact Hx. }
    split; [exact Hs'|]. intros y. rewrite Hmem', Hmem, elem_of_cons. tauto.
Qed.

Lemma length_zero_nil {B : Type} (l : list B) : (length l =? 0) = true <-> l = [].
Proof. destruct l; simpl; split; congruence. Qed.

(* the loop over keys in increasing order *)
Lemma fill_loop_spec (ks : list Z) (d : list (Z * list pyobj)) (last : list pyobj) :
  StronglySorted Z.lt ks ->
  (forall e, e ∈ ks -> is_Some (Dict.get e d)) ->
  exists d',
    fill_loop ks d last = Ok d' /\
    Dict.keys d' = Dict.keys d /\
    (forall e, e ∉ ks -> Dict.get e d' = Dict.get e d) /\
    forall e l, e ∈ ks -> Dict.get e d = Some l ->
      exists l',
        Dict.get e d' = Some l' /\
        (l <> [] -> l' = l) /\
        (l' = [] <->
         last = [] /\
         forall e0 l0, e0 ∈ ks -> (e0 <= e)%Z -> Dict.get e0 d = Some l0 -> l0 = []).
Proof.
  revert d last. induction ks as [|e ks IH]; intros d last Hs Hin.
  - exists d. split; [reflexivity|]. split; [reflexivity|]. split; [reflexivity|].
    intros e l He. apply elem_of_nil in He. contradiction.
  - apply StronglySorted_inv in Hs as [Hs Hall]. rewrite Forall_forall in Hall.
    assert (Hnot : e ∉ ks) by (intros He; specialize (Hall e He); lia).
    destruct (Hin e) as [wave Hwave]; [left|].
    set (d1 := if length wave =? 0 then Dict.set e last d else d).
    set (last1 := if length wave =? 0 then last else wave).
    assert (Hd1e : Dict.get e d1 = Some last1).
    { unfold d1, last1. destruct (length wave =? 0); [apply get_set_eq | exact Hwave]. }
    assert (Hd1 : forall e0, e0 <> e -> Dict.get e0 d1 = Dict.get e0 d).
    { intros e0 Hne. unfold d1. destruct (length wave =? 0); [|reflexivity].
      apply get_set_ne. congruence. }
    assert (Hkeys : Dict.keys d1 = Dict.keys d).
    { unfold d1. destruct (length wave =? 0); [|reflexivity].
      rewrite keys_set. unfold Dict.mem. rewrite Hwave. reflexivity. }
    assert (Hlast1 : last1 = [] <-> last = [] /\ wave = []).
    { unfold last1. destruct (length wave =? 0) eqn:Hw.
      - apply length_zero_nil in Hw. tauto.
      - split; [|tauto]. intros ->. discriminate. }
    destruct (IH d1 last1 Hs) as (d' & Hr & Hk & Hout & Hspec).
    { intros e0 He0. rewrite Hd1 by (intros ->; contradiction). apply Hin. right. exact He0. }
    exists d'. simpl. rewrite Hwave. simpl. fold d1. rewrite Hd1e. simpl.
    split; [exact Hr|]. split; [congruence|]. split.
    { intros e0 He0. apply not_elem_of_cons in He0 as [Hne He0].
      rewrite (Hout e0 He0). apply Hd1, Hne. }
    intros e1 l He1 Hl. apply elem_of_cons in He1 as [->|He1].
    + (* the key just handled *)
      assert (l = wave) as -> by congruence.
      exists last1. rewrite (Hout e Hnot). split; [exact Hd1e|]. split.
      * intros Hne. unfold last1. destruct (length wave =? 0) eqn:Hw; [|reflexivity].
        apply length_zero_nil in Hw. contradiction.
      * rewrite Hlast1. split.
        -- intros [-> ->]. split; [reflexivity|]. intros e0 l0 He0 Hle Hl0.
           apply elem_of_cons in He0 as [->|He0]; [congruence|].
           specialize (Hall e0 He0). lia.
        -- intros [-> Hempty]. split; [reflexivity|].
           apply (Hempty e wave); [left | lia | exact Hwave].
    + (* a later key *)
      assert (Hlt : (e < e1)%Z) by (apply Hall, He1).
      destruct (Hspec e1 l He1) as (l' & Hl' & Hsame & Hnil).
      { rewrite Hd1 by lia. exact Hl. }
      exists l'. split; [exact Hl'|]. split; [exact Hsame|].
      rewrite Hnil, Hlast1. split.
      * intros [[-> ->] Hrest]. split; [reflexivity|]. intros e0 l0 He0 Hle Hl0.
        apply elem_of_cons in He0 as [->|He0]; [congruence|].
        apply (Hrest e0 l0 He0 Hle). rewrite Hd1 by (intros ->; contradiction). exact Hl0.
      * intros [-> Hempty]. split.
        -- split; [reflexivity|]. apply (Hempty e wave); [left | lia | exact Hwave].
        -- intros e0 l0 He0 Hle Hl0. apply (Hempty e0 l0); [right; exact He0 | exact Hle|].
           rewrite <- Hd1 by (intros ->; contradiction). exact Hl0.
Qed.

(** X30.  The fill of the empty first waves in generate_one_tpch_job, for a
    dict with distinct executor counts as keys: the loop returns and keeps
    the keys; a non-empty list is left as it is; and afterwards the list of
    a key is empty exactly when the lists of that key and of all smaller
    keys were empty before, so once the smallest key has durations no key
    is left without. *)
Theorem fill_first_wave_leaves_no_gap (clean : list (Z * list pyobj)) :
  NoDup (Dict.keys clean) ->
  exists filled,
    fill_first_wave clean = Ok filled /\
    Dict.keys filled = Dict.keys clean /\
    forall e l, Dict.get e clean = Some l ->
      exists l',
        Dict.get e filled = Some l' /\
        (l <> [] -> l' = l) /\
        (l' = [] <->
         forall e0 l0, (e0 <= e)%Z -> Dict.get e0 clean = Some l0 -> l0 = []).
Proof.
  intros Hnd. destruct (py_sorted_spec (Dict.keys clean) Hnd) as [Hs Hmem].
  assert (Hkey : forall e l, Dict.get e clean = Some l -> e ∈ py_sorted (Dict.keys clean)).
  { intros e l Hl. apply Hmem. destruct (decide (e ∈ Dict.keys clean)) as [?|Hn]; [assumption|].
    apply get_None_keys in Hn. congruence. }
  destruct (fill_loop_spec (py_sorted (Dict.keys clean)) clean [] Hs)
    as (filled & Hr & Hk & _ & Hspec).
  { intros e He. apply Hmem in He.
    destruct (Dict.get e clean) eqn:Hg; [eauto|].
    apply get_None_keys in Hg. contradiction. }
  exists filled. split; [exact Hr|]. split; [exact Hk|].
  intros e l Hl. destruct (Hspec e l (Hkey e l Hl) Hl) as (l' & Hl' & Hsame & Hnil).
  exists l'. split; [exact Hl'|]. split; [exact Hsame|]. rewrite Hnil. split.
  - intros [_ Hempty] e0 l0 Hle Hl0. apply (Hempty e0 l0); eauto.
  - intros Hempty. split; [reflexivity|]. intros e0 l0 _ Hle Hl0. eauto.
Qed.

Lemma fill_first_wave_leaves_no_gap_witness :
  exists filled l',
    fill_first_wave [(10%Z, []); (5%Z, [PInt 3]); (2%Z, [])] = Ok filled /\
    Dict.get 10%Z filled = Some l' /\ l' <> [].
Proof.
  destruct (fill_first_wave_leaves_no_gap [(10%Z, []); (5%Z, [PInt 3]); (2%Z, [])])
    as (filled & H1 & _ & H3).
  - apply (bool_decide_unpack _). vm_compute. exact I.
  - destruct (H3 10%Z [] eq_refl) as (l' & Hl' & _ & Hnil).
    exists filled, l'. split; [exact H1|]. split; [exact Hl'|].
    intros Hl. pose proof (proj1 Hnil Hl) as Hall.
    assert (Hbad : [PInt 3] = []) by (apply (Hall 5%Z); [lia | reflexivity]). discriminate.
Defined.
